(* ===== verification/_CoqProject ===== *)
-Q . S2P
Prelude.v
GoStd.v
GoText.v
GoJson.v
GoFloat.v
GoSort.v
Ids.v
Effects.v
ConsistentHash.v
Discovery.v
Registry.v
Codec.v
RpcClient.v
RpcServer.v
Rpc.v
Pool.v
XClient.v
Mq.v
Ws.v
Dao.v
Logic.v
Services.v
System.v
Inbox.v
Session.v
Chat.v
AgentSchema.v
Retrieval.v
Graph.v
AgentMiddleware.v
AgentMemory.v
AgentTask.v
AgentTools.v
AgentChat.v
Config.v
VectorDb.v
Eval.v
Users.v
Api.v
Boot.v
Schema.v
AgentWiring.v
Stubs.v
Integration.v
