(* ===== verification/Prelude.v ===== *)
(** * NexusGo: a verification development

    NexusGo is an instant-messaging back end in Go: a gateway that holds the
    WebSocket connections (src/apps/gateway), a logic service with the messages,
    conversations, friends and groups (src/apps/logic), an AI agent service
    (src/apps/agent), and under src/apps/pkg what they share: an RPC framework
    (GrowRPC), a RabbitMQ client, id generation. A message travels

      connection -> gateway handler -> RabbitMQ -> batch worker of the logic
      service -> MySQL -> RabbitMQ -> gateway of the receiver -> connection

    and RPC calls from the gateway find a logic server by service discovery and a
    consistent-hash ring, over pooled connections.

    ** How the code is modelled

    Pure Go code is a pure function. A Go function that returns an error is a
    function to [outcome] (value, error text or panic). Code that talks to the
    outside is a program over a signature of commands (Effects): an environment
    answers the commands, and a theorem over every environment holds whatever the
    database, Redis, etcd, the broker, the network or the clock answer. Code whose
    correctness is about interleaving (the RPC client, a request with its timeout,
    the connection pool, the send queue, the connection map, the caches under a
    reload of the configuration) is a step relation
    whose steps are the critical sections and blocking operations of the source,
    and the theorems are about every reachable state. int32, int64 and uint64 are
    kept at their width where the code can reach it. Third-party code (etcd, Redis,
    AMQP, gorm, encoding/json and gob, protobuf) is a command or a variable, with
    the documented behaviour a theorem needs as a hypothesis or a class of laws
    that a concrete instance satisfies.

    ** The files

    - Prelude: machine integers, [outcome], slices, decimal text, invariants of
      transition systems. GoStd: the parts of sort, hash/crc32, strings and strconv
      the code uses; GoText (runes, trimming, splitting, ParseInt, Split), GoJson
      (validity), GoFloat (float64 as the specification of binary64, with the order
      laws the ranking needs) and GoSort (sort.Slice: the insertion sort it is up to
      twelve elements, its contract above that). Effects:
      programs, runs, traces; [always] (every run) and [from] (one run), with
      their rules for sequence and loops.
    - Ids (pkg/utils): Snowflake (snowflake.go) and ConvID (conv_id.go). Ids are
      strictly increasing, positive and distinct between nodes while the clock shows a
      time before September 2039, when the milliseconds outgrow their 41 bits;
      generation terminates; conversation ids are faithful. The wait loops take the
      clock as the list of its readings, so running out of readings is running
      forever, and termination is proved from a reading that is late enough.
    - ConsistentHash (GrowRPC/xclient/consistent_hash.go): the ring refines
      successor lookup; adding servers disturbs only keys that move to them; the
      order of insertion is irrelevant. The hash is any function to uint32 (crc32
      by default); statements that need it say that no two servers share a point.
    - Discovery (GrowRPC/xclient/discovery*.go): the interface as the class
      [Discovery] with its contract [DiscoveryLaws]; Module Multi (static list),
      Etcd (the watcher and its events), Gee (polling the registry).
    - Registry (GrowRPC/registry): Module Gee (registry.go) and Etcd (etcd.go, the
      lease discipline; KeepAlive runs for any number of rounds).
    - Codec (GrowRPC/codec): the bufio writer, Module Protobuf (length-prefixed
      frames), Gob (which cannot skip a body) and Json. Marshalling is a class with a round-trip law, and
      instances over bit strings show the laws can hold.
    - RpcClient (GrowRPC/client.go): Module Client (the state machine of callers,
      sender and receiver over a heap of calls), Dial (options, handshake, timeout).
    - RpcServer (GrowRPC/server.go, service.go, midware): Module Handler
      (interceptors), Handle (one request against its timeout), Serve (the loop of
      a connection, run for any number of requests), Conn (that loop with the goroutines
      it starts, the wait group that counts them and the closing of the codec), Accept (the handshake), Mount
      (what is served over HTTP, with the debug page).
    - Rpc (client.go and server.go together): Module EndToEnd, client and server at the two
      ends of a connection, every goroutine of both interleaved.
    - Pool (GrowRPC/pool/pool.go): the pool as a machine of borrowers, a cleaner and
      a closer.
    - XClient (GrowRPC/xclient/xclient.go): calls through discovery and pools, against
      the discovery contract and, for the gateways, over etcd; broadcast.
    - Mq (pkg/mq/rabbitmq.go): payloads, topology, publishing with confirmation.
    - Ws (gateway/ws): Module Client (send queue), Routing (connection map and route
      table over several gateways), Gateway (handlers, downward consumer, the
      life of a connection; ReadPump runs for any number of messages).
    - Dao (logic/models, logic/dao): the tables and every statement on them.
    - Logic (logic/service/upload_consumer.go): the upward consumer; [store_env]
      runs it over the tables with faults injected anywhere.
    - Services (logic/service/chat_service.go, friend_service.go, group_service.go).
    - System: the upward path as a whole. Module Threads runs programs as goroutines
      that take turns at every command; Module Upload puts gateways, the broker and
      logic servers together, several of each, over one table of messages, any of
      which may fail or die; their programs are those of Ws, Mq and Logic.
    - Inbox: the way down, in Module Inbox: the goroutines of all gateways, command by
      command, over the table of messages, with RPCs that take effect late or never.
    - Session: whose texts, in Module Session: the goroutines of all gateways, started as
      the handlers start them, over the connection maps, with the users of the connections.
    - Chat: who said what, in Module Chat: the gateways of Session and the goroutines of
      the logic servers, over the tables; what goes up is what the one publishes and the
      other consumes, what comes down the other way round.
    - Users (pkg/utils/jwt.go, crypto.go, logic/dao/users.go,
      logic/service/user_service.go): Module Token and Password over classes for
      the JWT and bcrypt libraries, Table (the users table), Service.
    - Api (gateway/api, gateway/router): the handlers, a Module per package, and
      Router with the routes, the JWT middleware and the dispatch of a request.
    - AgentSchema: the messages of the agent framework and the arguments of MCP.
    - Retrieval (agent/retrieval): Fusion (reciprocal ranks) and Threshold.
    - Graph (agent/graph): Chunker, Rerank (with the parsing of the scores) and
      Pipeline.
    - AgentMiddleware (agent/middleware): ToolFix, TrimResult, AutoContinue,
      SafeAgent, Approval, RateLimit (with its Lua script over a sorted set).
    - AgentMemory (agent/memory, engine/engine.go, dao/summary.go): Short (the
      Redis window and its compression), Recall, Context, CheckPoint.
    - AgentTask (agent/task, dao/scheduled_messages.go and its tools): Table (the
      statements, with the columns they name), Cron, and the two tools.
    - AgentTools (dao/messages.go, the search and summary tools, mcp/search_chat.go):
      Time (pkg/utils/resolveTime.go), Query (the SQL and its arguments), Search,
      Summarize.
    - AgentChat (agent/handler, engine/session_channel.go, runner.go):
      SessionChannel, Runner, Sse, Approve, Index.
    - Config (pkg/config, engine/runner.go, memory/summarizer.go): Files (finding the
      file, key and provider) and Reload (hooks against the requests that fill the
      caches).
    - VectorDb (pkg/vector_db): Columns (the converters, the fields, the result of a
      search), Init (connecting, creating the collections) and Clients (what retrievers
      and indexers are configured with).
    - Eval (agent/eval): Metrics, Searches (the four that are compared), Reports, Print.
    - Boot (the three main.go, pkg/db, pkg/cache, pkg/logger, gateway/rpcclient): Setup
      (the singletons and what fills them, the migration, the accept loop), Mains (the
      main functions over the globals of the process), Shutdown (signal, closing order
      and the two servers of the agent as a step relation).
    - Schema (logic/models, agent/models, pkg/db/migrate.go, agent/dao): LogicModels and
      AgentModels (what the gorm tags declare), Migration (the tables after any sequence
      of starts), Members (what the key of group_members allows), Lookup (by name).
    - AgentWiring (agent/callback, engine/runner.go, mcp/client.go, the constructors of
      the tools): Callbacks and Build.
    - Stubs (GrowRPC/cmd/protoc-gen-growrpc, pkg/proto): Generator (the lines the plugin
      writes) and Protos (the four services, registered and called).
    - Integration (pkg/proto/rpc_integration_test, GrowRPC/main): Integration (the mock
      service, the tests, their verdict) and Demo, run over the connection of Rpc.

    Prelude, GoStd, GoText and Effects are used by all; RpcServer takes the codecs and
    the client of the two files before it, Rpc joins all three; Logic and Services act on Dao; System joins
    Ws, Mq, Logic and Dao, Inbox joins Ws, Logic and Dao;
    Session joins the two Modules Routing and Gateway of Ws, Chat joins Session with Logic, Services, Dao and Inbox; Boot joins whatever a main function starts; Schema joins Boot
    and Dao; Stubs joins RpcServer with the calls of Api and Ws;
    Integration joins Stubs and Rpc.

    ** What the theorems show

    Delivery: the gateway acknowledges only what the broker confirmed; every
    upward and downward delivery is settled exactly once; an acknowledged message to a
    user is stored; a redelivery leaves one row; a group message gives every member one
    row, unless its INSERT fails, which is only logged.
    System says it of the whole: whichever processes fail or die and however they
    interleave, an upload a gateway acknowledged is waiting, in delivery, settled as
    dead, or acknowledged by a logic server, once one has declared the queue; then a
    message to a user is stored, and of one to a group the copies of its members were
    tried. Every delivery is accounted for. Inbox says when a stored message may be marked read: when it was
    handed to a connection, acknowledged, inserted as read, or came in while its
    receiver's messages were about to be marked.
    Life cycle: nothing is served before what it uses is set up, the consumers of a
    gateway apart, which start before its hook and its sequence numbers; resources close in
    order; the tables of both services converge whatever the order of their starts,
    but for one key, and that key decides what can be done with groups.
    RPC: a call is a run of its handler with its own arguments, at most once; calls are
    notified at most once, with their own answer, and none is lost; the
    stubs call what the registration stores, and every call of the gateway is found;
    requests are answered with the result of their handler, or the timeout; a codec is
    closed once every request is answered; connections stay in step with their framing; panics
    are contained; the pool keeps its limits and lends exclusively.
    Routing: ring, discovery and registry agree with what is registered; the calls of a
    user go to one server from every gateway that has seen the same registrations.
    Data: message state moves forward only; pages cover a history; ids are unique;
    the users table stays well formed, and who registered can log in.
    Identity: what a request does is done in the name of the user of its token; what a
    connection uploads is said in the name of the user who opened it, and what it is
    handed, the notice to a connection that is replaced included, is meant for that user (Session); from connection to connection nobody is
    misquoted, and every row of messages is what its sender said (Chat); the
    search and summary tools read only what their user takes part in, rows by id only
    for ids their own vector search answered; a destructive tool runs only once approved,
    once, as it was shown.
    Agent: a decision reaches its stream once; what is stored is what was streamed;
    compression summarises what it removes; the context ends with the question;
    continuations are bounded, and the request rate is up to the rounding of the scores,
    the spread of the clocks and readings that overtake each other; a scheduled task moves through
    its states once; fusion, chunks and the index lose nothing; a reload reaches
    every cache; a runner is built with its own tools behind the approval; the copy of
    a stream is closed once; what is stored as vectors has the columns of its collection and is
    found under its ids; the evaluation judges each labelled query once per search
    and counts it in one row of each table.
    Where the code falls short of this the theorem says so: error texts that
    contain 1062, unread counts that grow with redeliveries, page limits the dao
    replaces, cached pages that stay stale or are shared, routes that an old
    connection removes, join requests anyone can approve, MCP tools that trust
    the user their arguments name, updates that name columns the table lacks, two
    compressions at once, chunks longer than their field, a pipeline lost in a
    reload, an error without
    text that counts as a success, a handler that outlives its connection after a timeout, a broker that drops what comes before the queue is declared, a message that is
    marked read with those a user was shown on connecting, messages anyone can
    acknowledge, groups that outsiders write to, an AI message
    redelivered for ever, an address registered before its port is open, two
    migrations at once, a key that lets a group have one member, and others stated
    next to the definitions they concern.

    ** Bounds and fuel

    Loops over lists are structural. Loops that depend on the outside run for a
    number of rounds that the theorem quantifies over (KeepAlive, serveCodec,
    ReadPump), over the list of what arrives (the batch worker, the consumers, the
    clock), or with the length of the data as fuel, proved sufficient (binary
    search, bufio writes, scrolling through pages, chunks, batches of documents).
    The chat stream takes as fuel how often it may be interrupted and resumed, and
    its theorem says that it returns unless it was resumed that often.
    The accept loop and the goroutine that reads a stream take a number of rounds and
    say whether they have ended by then. System, Inbox, Session, Chat and Rpc bound nothing: their runs are
    the reachable states of a step relation, with any number of processes or goroutines.

    ** What is not modelled

    The encoding and rotation of log lines, the libraries for embeddings and vector
    search, column types and defaults, generated protobuf code, the benchmark; of the
    HTTP API the static files and the CORS headers. In System a process fails by dying:
    a live process does not lose its connection to the broker, and the broker does not
    restart. The order in which the framework wraps the middleware is its own; Build
    shows which ones it is given.
    Most of gateway/ws/reliability.go is commented out; what is left of it is in Ws
    and Ids. The agent framework is what its callers see of it: events of a run, the
    state of an interrupt, tool calls. In Inbox the push queue and Redis answer anything
    at any time, as any environment may. In Dao a row inserted with key 0 would get an
    auto-increment key from MySQL; the model stores it under 0, which only happens
    without a reliability manager. Text comparison is by bytes except where a
    collation is a parameter, Redis entries do not expire during a run except in
    RateLimit, and the clock of [store_env] stands still.

    In Chat the broker may deliver what was published to any gateway, any number of times
    or never, a request for unread messages is answered from the tables at any moment, and
    the rows of scheduled tasks come from the agent, whose statements are in AgentTask.

    The next parts to model, in this order: the loss of a broker connection in a process
    that lives on; the agent's loop with its middleware composed. *)

From stdpp Require Export base gmap sets list strings pretty sorting relations.
From Stdlib Require Export Ascii ZArith Lia.

#[global] Open Scope Z_scope.

(** ** Machine integers

    Go's [int] and [int64] are 64-bit two's complement, [int32] 32-bit,
    [uint32] and [uint64] wrap modulo their width. *)

Definition wrap_s (w z : Z) : Z := (z + 2 ^ (w - 1)) mod 2 ^ w - 2 ^ (w - 1).
Definition wrap_u (w z : Z) : Z := z mod 2 ^ w.

Definition int64 (z : Z) : Z := wrap_s 64 z.
Definition int32 (z : Z) : Z := wrap_s 32 z.
Definition uint64 (z : Z) : Z := wrap_u 64 z.
Definition uint32 (z : Z) : Z := wrap_u 32 z.

Definition MaxInt32 : Z := 2 ^ 31 - 1.
Definition MaxInt64 : Z := 2 ^ 63 - 1.

Definition is_int64 (z : Z) : Prop := - 2 ^ 63 <= z < 2 ^ 63.
Definition is_int32 (z : Z) : Prop := - 2 ^ 31 <= z < 2 ^ 31.
Definition is_uint64 (z : Z) : Prop := 0 <= z < 2 ^ 64.
Definition is_uint32 (z : Z) : Prop := 0 <= z < 2 ^ 32.

Lemma wrap_s_id w z : 0 < w -> - 2 ^ (w - 1) <= z < 2 ^ (w - 1) -> wrap_s w z = z.
Proof.
  intros Hw Hz. unfold wrap_s.
  assert (2 ^ w = 2 * 2 ^ (w - 1)) as Hp.
  { rewrite <- Z.pow_succ_r by lia. f_equal. lia. }
  rewrite Z.mod_small; lia.
Qed.

Lemma wrap_s_range w z : 0 < w -> - 2 ^ (w - 1) <= wrap_s w z < 2 ^ (w - 1).
Proof.
  intros Hw. unfold wrap_s.
  assert (2 ^ w = 2 * 2 ^ (w - 1)) as Hp.
  { rewrite <- Z.pow_succ_r by lia. f_equal. lia. }
  assert (0 < 2 ^ w) by (apply Z.pow_pos_nonneg; lia).
  pose proof (Z.mod_pos_bound (z + 2 ^ (w - 1)) (2 ^ w)). lia.
Qed.

Lemma int64_id z : is_int64 z -> int64 z = z.
Proof. intros H. apply wrap_s_id; [lia | exact H]. Qed.
Lemma int32_id z : is_int32 z -> int32 z = z.
Proof. intros H. apply wrap_s_id; [lia | exact H]. Qed.
Lemma int64_range z : is_int64 (int64 z).
Proof. apply (wrap_s_range 64). lia. Qed.
Lemma int32_range z : is_int32 (int32 z).
Proof. apply (wrap_s_range 32). lia. Qed.
Lemma uint64_id z : is_uint64 z -> uint64 z = z.
Proof. intros H. apply Z.mod_small, H. Qed.
Lemma uint64_range z : is_uint64 (uint64 z).
Proof. apply Z.mod_pos_bound. lia. Qed.
Lemma uint32_id z : is_uint32 z -> uint32 z = z.
Proof. intros H. apply Z.mod_small, H. Qed.
Lemma uint32_range z : is_uint32 (uint32 z).
Proof. apply Z.mod_pos_bound. lia. Qed.

Create HintDb go.
#[export] Hint Resolve int64_range int32_range uint64_range uint32_range : go.
#[export] Hint Rewrite int64_id int32_id uint64_id uint32_id using assumption : go.

(** ** Results of Go functions

    A Go function that returns [(T, error)] and may panic is a value of
    [outcome T]: [Ok v] is [(v, nil)], [Err e] is a non-nil error (with its
    text) and [Panic m] is a run-time panic. *)

Inductive outcome (A : Type) : Type :=
| Ok (a : A)
| Err (e : string)
| Panic (m : string).
Arguments Ok {A} _.
Arguments Err {A} _.
Arguments Panic {A} _.

Definition outcome_bind {A B} (m : outcome A) (k : A -> outcome B) : outcome B :=
  match m with
  | Ok a => k a
  | Err e => Err e
  | Panic p => Panic p
  end.

Definition outcome_map {A B} (f : A -> B) (m : outcome A) : outcome B :=
  outcome_bind m (fun a => Ok (f a)).

#[export] Instance outcome_eq_dec {A} `{EqDecision A} : EqDecision (outcome A).
Proof. solve_decision. Defined.

Declare Scope go_scope.
Delimit Scope go_scope with go.
Notation "x <-! m ; k" := (outcome_bind m (fun x => k))
  (at level 60, m at next level, right associativity) : go_scope.

(** Slice indexing [l[i]] with Go's bounds check. *)
Definition slice_at {A} (l : list A) (i : Z) : outcome A :=
  if decide (0 <= i) then
    match l !! Z.to_nat i with
    | Some a => Ok a
    | None => Panic "index out of range"
    end
  else Panic "index out of range".

Definition len {A} (l : list A) : Z := Z.of_nat (length l).

Lemma len_app {A} (l k : list A) : len (l ++ k) = len l + len k.
Proof. unfold len. rewrite length_app. lia. Qed.
Lemma len_nonneg {A} (l : list A) : 0 <= len l.
Proof. unfold len. lia. Qed.

Lemma slice_at_ok {A} (l : list A) i :
  0 <= i < len l -> exists a, slice_at l i = Ok a /\ l !! Z.to_nat i = Some a.
Proof.
  intros [H0 H1]. unfold slice_at, len in *.
  rewrite decide_True by lia.
  destruct (lookup_lt_is_Some_2 l (Z.to_nat i)) as [a Ha]; [lia |].
  exists a. by rewrite Ha.
Qed.

Lemma slice_at_elem {A} (l : list A) i a : slice_at l i = Ok a -> a ∈ l.
Proof.
  unfold slice_at. repeat case_match; intros; simplify_eq.
  by eapply list_elem_of_lookup_2.
Qed.

Lemma slice_at_neg {A} (l : list A) i : i < 0 -> slice_at l i = Panic "index out of range".
Proof. intros H. unfold slice_at. rewrite decide_False by lia. done. Qed.

(** ** Transition systems *)

Section reachability.
Context {S : Type} (step : S -> S -> Prop) (Inv : S -> Prop).
Hypothesis Inv_step : forall s s', Inv s -> step s s' -> Inv s'.

Lemma invariant_rtc s s' : Inv s -> rtc step s s' -> Inv s'.
Proof. intros Hs H. induction H; eauto. Qed.
End reachability.

(** ** Decimal text

    [strconv.FormatInt(z, 10)], [strconv.Itoa] and the verb [%d] of [fmt]. *)

Definition Itoa (z : Z) : string := pretty z.

Definition is_digit_or_minus (a : ascii) : bool :=
  bool_decide (a ∈ ["-"; "0"; "1"; "2"; "3"; "4"; "5"; "6"; "7"; "8"; "9"]%char).

Fixpoint string_forallb (p : ascii -> bool) (s : string) : bool :=
  match s with
  | EmptyString => true
  | String a s' => p a && string_forallb p s'
  end.

Lemma string_forallb_app p s t :
  string_forallb p (s +:+ t) = string_forallb p s && string_forallb p t.
Proof. induction s as [| a s IH]; simpl; [done |]. by rewrite IH, andb_assoc. Qed.

Lemma pretty_N_go_digits x s :
  string_forallb is_digit_or_minus s = true ->
  string_forallb is_digit_or_minus (pretty_N_go x s) = true.
Proof.
  revert s. induction (N.lt_wf_0 x) as [x _ IH]; intros s Hs.
  assert (x = 0 \/ 0 < x)%N as [-> | Hx] by lia; [by rewrite pretty_N_go_0 |].
  rewrite pretty_N_go_step by done. apply IH; [by apply N.div_lt |]. simpl.
  rewrite Hs, andb_true_r. unfold pretty_N_char. by repeat case_match.
Qed.

Lemma Itoa_digits z : string_forallb is_digit_or_minus (Itoa z) = true.
Proof.
  unfold Itoa, pretty, pretty_Z.
  assert (forall n, string_forallb is_digit_or_minus (pretty_N n) = true) as HN.
  { intros n. unfold pretty_N. case_decide; [done |]. by apply pretty_N_go_digits. }
  destruct z; [done | apply HN |]. rewrite string_forallb_app. simpl. apply HN.
Qed.

#[export] Instance Itoa_inj : Inj (=) (=) Itoa.
Proof. unfold Itoa. apply _. Qed.

Lemma Itoa_nonempty z : Itoa z <> "".
Proof.
  destruct z as [| p | p]; [done | | done].
  intros H. assert (Itoa (Z.pos p) = "" /\ Itoa 0 = "0") as [_ _] by done.
  unfold Itoa, pretty, pretty_Z, pretty, pretty_positive, pretty, pretty_N in H.
  case_decide; [done |].
  assert (forall x s, (String.length s <= String.length (pretty_N_go x s))%nat) as Hlen.
  { intros x. induction (N.lt_wf_0 x) as [x _ IH]; intros s.
    assert (x = 0 \/ 0 < x)%N as [-> | Hx] by lia; [by rewrite pretty_N_go_0 |].
    rewrite pretty_N_go_step by done.
    etrans; [| by apply IH, N.div_lt]. simpl. lia. }
  rewrite pretty_N_go_step in H by lia.
  pose proof (Hlen (N.pos p `div` 10)%N (String (pretty_N_char (N.pos p `mod` 10)) "")) as Hl.
  rewrite H in Hl. simpl in Hl. lia.
Qed.

(** A separator that is not a digit splits a concatenation uniquely. *)
Lemma sep_inj (p : ascii -> bool) (a : ascii) (s s' t t' : string) :
  p a = false ->
  string_forallb p s = true -> string_forallb p s' = true ->
  s +:+ String a t = s' +:+ String a t' -> s = s' /\ t = t'.
Proof.
  intros Ha. revert s'. induction s as [| b s IH]; intros [| b' s'] Hs Hs' Heq;
    simpl in *; simplify_eq; try congruence.
  - done.
  - rewrite Ha in Hs'. done.
  - rewrite Ha in Hs. done.
  - apply andb_true_iff in Hs as [_ Hs], Hs' as [_ Hs'].
    destruct (IH s') as [-> ->]; done.
Qed.
