(* ===== verification/GoStd.v ===== *)
(** * The parts of Go's standard library the program uses

    Executable definitions of the functions of [sort], [strings], [strconv]
    and [hash/crc32] that the modelled files call, with the lemmas about them
    the components share. Strings are byte strings, as in Go. *)
From S2P Require Import Prelude.

(** ** sort.Search

    Binary search over [0, n): the smallest index at which [f] is true, when
    [f] is false on a prefix and true on the rest. The loop halves the interval,
    so [n] iterations are more than enough. *)

Fixpoint search_loop (fuel : nat) (f : nat -> bool) (i j : nat) : nat :=
  match fuel with
  | O => i
  | S k =>
      if (i <? j)%nat then
        let h := ((i + j) / 2)%nat in
        if f h then search_loop k f i h else search_loop k f (S h) j
      else i
  end.

Definition sort_Search (n : nat) (f : nat -> bool) : nat := search_loop n f 0 n.

Lemma search_loop_spec fuel f i j n :
  (i <= j <= n)%nat -> (j - i <= fuel)%nat ->
  (forall a b, (a <= b < n)%nat -> f a = true -> f b = true) ->
  (forall k, (k < i)%nat -> f k = false) ->
  (forall k, (j <= k < n)%nat -> f k = true) ->
  let r := search_loop fuel f i j in
  (i <= r <= j)%nat /\ (forall k, (k < r)%nat -> f k = false) /\
  (forall k, (r <= k < n)%nat -> f k = true).
Proof.
  intros Hij Hfuel Hmono. revert i j Hij Hfuel.
  induction fuel as [| fuel IH]; intros i j Hij Hfuel Hlo Hhi; cbn [search_loop].
  - assert (i = j) as -> by lia. split; [lia | auto].
  - destruct (Nat.ltb_spec i j) as [Hlt | Hge].
    2: { assert (i = j) as -> by lia. split; [lia | auto]. }
    assert (i <= (i + j) / 2 < j)%nat as Hh.
    { split; [apply Nat.div_le_lower_bound; lia | apply Nat.Div0.div_lt_upper_bound; lia]. }
    set (h := ((i + j) / 2)%nat) in *.
    destruct (f h) eqn:Hfh.
    + edestruct (IH i h) as (H1 & H2 & H3); [lia | lia | done | |].
      { intros k Hk. apply (Hmono h); [lia | done]. }
      split; [lia | auto].
    + edestruct (IH (S h) j) as (H1 & H2 & H3); [lia | lia | | done |].
      { intros k Hk. destruct (f k) eqn:Hfk; [| done].
        rewrite (Hmono k h) in Hfh; [done | lia | done]. }
      split; [lia | auto].
Qed.

Lemma sort_Search_spec n f :
  (forall a b, (a <= b < n)%nat -> f a = true -> f b = true) ->
  (sort_Search n f <= n)%nat /\
  (forall k, (k < sort_Search n f)%nat -> f k = false) /\
  (forall k, (sort_Search n f <= k < n)%nat -> f k = true).
Proof.
  intros Hmono. unfold sort_Search.
  destruct (search_loop_spec n f 0 n n) as (H1 & H2 & H3); try lia; auto.
  split; [lia | auto].
Qed.

(** ** sort.Ints and sort.Strings

    The result of sorting by a total order is unique, so any sorting algorithm
    is Go's; stdpp's merge sort computes it. *)

Definition sort_Ints (l : list Z) : list Z := merge_sort Z.le l.

Lemma sort_Ints_perm l : sort_Ints l ≡ₚ l.
Proof. apply merge_sort_Permutation. Qed.

Lemma sort_Ints_sorted l : StronglySorted Z.le (sort_Ints l).
Proof. apply (StronglySorted_merge_sort _). Qed.

Lemma sort_Ints_elem l k : k ∈ sort_Ints l <-> k ∈ l.
Proof. by rewrite sort_Ints_perm. Qed.

Lemma sort_Ints_unique l k : l ≡ₚ k -> sort_Ints l = sort_Ints k.
Proof.
  intros H. apply (StronglySorted_unique Z.le).
  - apply sort_Ints_sorted.
  - apply sort_Ints_sorted.
  - by rewrite !sort_Ints_perm.
Qed.

Lemma sort_Ints_length l : length (sort_Ints l) = length l.
Proof. by rewrite sort_Ints_perm. Qed.

Lemma StronglySorted_lookup {A} (R : relation A) l i j a b :
  StronglySorted R l -> l !! i = Some a -> l !! j = Some b -> (i < j)%nat -> R a b.
Proof.
  intros Hs. revert i j. induction Hs as [| x l Hs IH HF]; intros i j Hi Hj Hij; [done |].
  destruct i as [| i], j as [| j]; simpl in *; simplify_eq; [lia | | lia |].
  - rewrite Forall_forall in HF. by eapply HF, list_elem_of_lookup_2.
  - eapply IH; eauto with lia.
Qed.

Lemma sorted_lookup_le l i j a b :
  StronglySorted Z.le l -> l !! i = Some a -> l !! j = Some b -> (i <= j)%nat -> a <= b.
Proof.
  intros Hs Hi Hj Hij. destruct (decide (i = j)) as [-> | ?]; [simplify_eq; lia |].
  eapply (StronglySorted_lookup Z.le l i j); eauto with lia.
Qed.

Definition str_le (s t : string) : Prop := String.leb s t = true.
#[export] Instance str_le_dec : RelDecision str_le.
Proof. intros s t. unfold str_le. apply _. Defined.
#[export] Instance str_le_total : Total str_le.
Proof. intros s t. apply String.leb_total. Qed.
#[export] Instance str_le_antisymm : AntiSymm (=) str_le.
Proof. intros s t. apply String.leb_antisym. Qed.

Lemma ascii_compare_N a b : Ascii.compare a b = N.compare (N_of_ascii a) (N_of_ascii b).
Proof. done. Qed.

#[export] Instance str_le_trans : Transitive str_le.
Proof.
  intros s. induction s as [| a s IH]; intros [| b t] [| c u] H1 H2;
    unfold str_le, String.leb in *; simpl in *; try done.
  rewrite !ascii_compare_N in *.
  destruct (N.compare_spec (N_of_ascii a) (N_of_ascii b)) as [Hab | Hab | Hab];
    destruct (N.compare_spec (N_of_ascii b) (N_of_ascii c)) as [Hbc | Hbc | Hbc];
    try done.
  - rewrite Hab, Hbc, N.compare_refl. by apply (IH t u).
  - rewrite Hab, (proj2 (N.compare_lt_iff _ _) Hbc). done.
  - rewrite <- Hbc, (proj2 (N.compare_lt_iff _ _) Hab). done.
  - rewrite (proj2 (N.compare_lt_iff (N_of_ascii a) (N_of_ascii c))); [done | lia].
Qed.

Definition sort_Strings (l : list string) : list string := merge_sort str_le l.

Lemma sort_Strings_perm l : sort_Strings l ≡ₚ l.
Proof. apply merge_sort_Permutation. Qed.
Lemma sort_Strings_sorted l : StronglySorted str_le (sort_Strings l).
Proof. apply (StronglySorted_merge_sort _). Qed.

(** Two lists with the same elements up to order sort to the same list. *)
Lemma sort_Strings_unique l k : l ≡ₚ k -> sort_Strings l = sort_Strings k.
Proof.
  intros H. apply (StronglySorted_unique str_le).
  - apply sort_Strings_sorted.
  - apply sort_Strings_sorted.
  - by rewrite !sort_Strings_perm.
Qed.

(** ** hash/crc32: ChecksumIEEE

    The reflected polynomial [0xEDB88320], initial value and final mask
    [0xFFFFFFFF], one bit at a time. *)

Definition crc32_poly : Z := 0xEDB88320.
Definition crc32_mask : Z := 0xFFFFFFFF.

Definition crc32_bit (crc : Z) : Z :=
  if Z.testbit crc 0 then Z.lxor (Z.shiftr crc 1) crc32_poly else Z.shiftr crc 1.

Fixpoint iter_n {A} (n : nat) (f : A -> A) (x : A) : A :=
  match n with O => x | S k => iter_n k f (f x) end.

Definition crc32_byte (crc : Z) (b : ascii) : Z :=
  iter_n 8 crc32_bit (Z.lxor crc (Z.of_N (N_of_ascii b))).

Fixpoint crc32_update (crc : Z) (s : string) : Z :=
  match s with
  | EmptyString => crc
  | String b s' => crc32_update (crc32_byte crc b) s'
  end.

Definition ChecksumIEEE (s : string) : Z :=
  Z.lxor (crc32_update crc32_mask s) crc32_mask.

(** The check value of the CRC-32/IEEE catalogue. *)
Example ChecksumIEEE_check : ChecksumIEEE "123456789" = 0xCBF43926.
Proof. vm_compute. reflexivity. Qed.

Lemma lxor_uint32 a b : is_uint32 a -> is_uint32 b -> is_uint32 (Z.lxor a b).
Proof.
  unfold is_uint32. intros Ha Hb. split; [apply Z.lxor_nonneg; lia |].
  destruct (decide (Z.lxor a b = 0)) as [-> | Hne]; [lia |].
  assert (0 <= Z.lxor a b) by (apply Z.lxor_nonneg; lia).
  apply Z.log2_lt_pow2; [lia |].
  eapply Z.le_lt_trans; [apply Z.log2_lxor; lia |].
  assert (forall x, 0 <= x < 2 ^ 32 -> Z.log2 x < 32) as Hl.
  { intros x Hx. destruct (decide (x = 0)) as [-> | ?]; [done |].
    apply Z.log2_lt_pow2; lia. }
  apply Z.max_lub_lt; auto.
Qed.

Lemma shiftr_uint32 a : is_uint32 a -> is_uint32 (Z.shiftr a 1).
Proof.
  unfold is_uint32. intros Ha. rewrite Z.shiftr_div_pow2 by lia.
  split; [apply Z.div_pos; lia | apply Z.div_lt_upper_bound; lia].
Qed.

Lemma crc32_bit_uint32 c : is_uint32 c -> is_uint32 (crc32_bit c).
Proof.
  intros H. unfold crc32_bit. case_match; [apply lxor_uint32 |].
  - by apply shiftr_uint32.
  - done.
  - by apply shiftr_uint32.
Qed.

Lemma iter_n_inv {A} (P : A -> Prop) n f x :
  (forall y, P y -> P (f y)) -> P x -> P (iter_n n f x).
Proof. intros Hf. revert x. induction n; simpl; auto. Qed.

Lemma byte_range (b : ascii) : 0 <= Z.of_N (N_of_ascii b) < 256.
Proof. pose proof (N_ascii_bounded b). lia. Qed.

Lemma crc32_update_uint32 s c : is_uint32 c -> is_uint32 (crc32_update c s).
Proof.
  revert c. induction s as [| b s IH]; intros c Hc; simpl; [done |].
  apply IH, (iter_n_inv is_uint32); [apply crc32_bit_uint32 |].
  apply lxor_uint32; [done |]. pose proof (byte_range b). unfold is_uint32. lia.
Qed.

Lemma ChecksumIEEE_range s : is_uint32 (ChecksumIEEE s).
Proof. apply lxor_uint32; [by apply crc32_update_uint32 | done]. Qed.
#[export] Hint Resolve ChecksumIEEE_range : go.

(** ** strings *)

Definition HasPrefix (s p : string) : bool := String.prefix p s.

Fixpoint string_drop (n : nat) (s : string) : string :=
  match n, s with
  | O, _ => s
  | S k, EmptyString => EmptyString
  | S k, String _ s' => string_drop k s'
  end.

Definition TrimPrefix (s p : string) : string :=
  if HasPrefix s p then string_drop (String.length p) s else s.

Lemma prefix_app p s : String.prefix p (p +:+ s) = true.
Proof. induction p as [| a p IH]; simpl; [by destruct s |]. by destruct (ascii_dec a a). Qed.

Lemma TrimPrefix_app p s : TrimPrefix (p +:+ s) p = s.
Proof.
  unfold TrimPrefix, HasPrefix. rewrite prefix_app.
  induction p as [| a p IH]; simpl; auto.
Qed.

(** strings.Split with a one-byte separator and strings.Join. *)
Fixpoint Split (s : string) (sep : ascii) : list string :=
  match s with
  | EmptyString => [""]
  | String a s' =>
      if Ascii.eqb a sep then "" :: Split s' sep
      else match Split s' sep with
           | w :: ws => String a w :: ws
           | [] => [String a ""]
           end
  end.

Fixpoint Join (l : list string) (sep : string) : string :=
  match l with
  | [] => ""
  | [w] => w
  | w :: ws => w +:+ sep +:+ Join ws sep
  end.

Definition no_byte (c : ascii) (s : string) : bool :=
  string_forallb (fun a => negb (Ascii.eqb a c)) s.

Lemma Split_nonempty s c : Split s c <> [].
Proof. destruct s; simpl; [done |]. repeat case_match; done. Qed.

Lemma Split_no_byte s c : no_byte c s = true -> Split s c = [s].
Proof.
  induction s as [| a s IH]; simpl; [done |].
  intros [Ha Hs]%andb_true_iff. unfold no_byte in IH. rewrite (IH Hs).
  by destruct (Ascii.eqb a c).
Qed.

Lemma Split_app s t c : no_byte c s = true -> Split (s +:+ String c t) c = s :: Split t c.
Proof.
  induction s as [| a s IH]; simpl; [by rewrite Ascii.eqb_refl |].
  intros [Ha Hs]%andb_true_iff. rewrite (IH Hs). by destruct (Ascii.eqb a c).
Qed.

Lemma Split_Join l c :
  l <> [] -> Forall (fun w => no_byte c w = true) l -> Split (Join l (String c "")) c = l.
Proof.
  intros Hne Hl. induction Hl as [| w l Hw Hl IH]; [done |].
  destruct l as [| w' l]; [by apply Split_no_byte |].
  change (Join (w :: w' :: l) (String c "")) with (w +:+ String c (Join (w' :: l) (String c ""))).
  rewrite Split_app by done. by rewrite IH.
Qed.

(** The UTF-8 encodings of the code points [unicode.IsSpace] accepts. *)
Definition byte (n : N) : ascii := ascii_of_N n.
Definition utf8_spaces : list string :=
  let s3 a b c := String (byte a) (String (byte b) (String (byte c) "")) in
  [String (byte 9) ""; String (byte 10) ""; String (byte 11) ""; String (byte 12) "";
   String (byte 13) ""; " "; String (byte 0xC2) (String (byte 0x85) "");
   String (byte 0xC2) (String (byte 0xA0) ""); s3 0xE1 0x9A 0x80; s3 0xE2 0x80 0x80;
   s3 0xE2 0x80 0x81; s3 0xE2 0x80 0x82; s3 0xE2 0x80 0x83; s3 0xE2 0x80 0x84;
   s3 0xE2 0x80 0x85; s3 0xE2 0x80 0x86; s3 0xE2 0x80 0x87; s3 0xE2 0x80 0x88;
   s3 0xE2 0x80 0x89; s3 0xE2 0x80 0x8A; s3 0xE2 0x80 0xA8; s3 0xE2 0x80 0xA9;
   s3 0xE2 0x80 0xAF; s3 0xE2 0x81 0x9F; s3 0xE3 0x80 0x80]%N.

Definition string_rev (s : string) : string :=
  String.string_of_list_ascii (reverse (String.list_ascii_of_string s)).

(** Drop leading members of [ws], as long as there is one. *)
Fixpoint trim_left (fuel : nat) (ws : list string) (s : string) : string :=
  match fuel with
  | O => s
  | S k =>
      match list_find (fun w => String.prefix w s = true) ws with
      | Some (_, w) => trim_left k ws (string_drop (String.length w) s)
      | None => s
      end
  end.

(** strings.TrimSpace: every step removes at least a byte, so the length of the
    string bounds the number of steps. *)
Definition TrimSpace (s : string) : string :=
  let l := trim_left (String.length s) utf8_spaces s in
  string_rev (trim_left (String.length l) (string_rev <$> utf8_spaces) (string_rev l)).

Example TrimSpace_ex : TrimSpace "  a b 	" = "a b".
Proof. vm_compute. reflexivity. Qed.

(** A text without white space at either end. *)
Definition trimmed (s : string) : bool :=
  bool_decide (Forall (fun w => String.prefix w s = false) utf8_spaces) &&
  bool_decide (Forall (fun w => String.prefix w (string_rev s) = false) (string_rev <$> utf8_spaces)).

Lemma string_rev_involutive s : string_rev (string_rev s) = s.
Proof.
  unfold string_rev. rewrite String.list_ascii_of_string_of_list_ascii, reverse_involutive.
  apply String.string_of_list_ascii_of_string.
Qed.

Lemma trim_left_id fuel ws s :
  Forall (fun w => String.prefix w s = false) ws -> trim_left fuel ws s = s.
Proof.
  intros H. destruct fuel; simpl; [done |].
  destruct (list_find _ ws) as [[i w] |] eqn:E; [| done].
  apply list_find_Some in E as (Hi & Hp & _).
  eapply Forall_lookup_1 in H; [| done]. congruence.
Qed.

Lemma TrimSpace_trimmed s : trimmed s = true -> TrimSpace s = s.
Proof.
  unfold trimmed. rewrite andb_true_iff, !bool_decide_eq_true. intros [H1 H2].
  unfold TrimSpace. rewrite (trim_left_id _ utf8_spaces s H1).
  rewrite (trim_left_id _ _ _ H2). apply string_rev_involutive.
Qed.

(** ** strconv.ParseInt(s, 10, 64) *)

Definition digit_val (a : ascii) : option Z :=
  let n := Z.of_N (N_of_ascii a) in
  if (48 <=? n) && (n <=? 57) then Some (n - 48) else None.

(** The value of a digit string read after [acc]; [None] at a non-digit. *)
Fixpoint digits_val (acc : Z) (s : string) : option Z :=
  match s with
  | "" => Some acc
  | String a s' => match digit_val a with Some d => digits_val (acc * 10 + d) s' | None => None end
  end.

Definition ParseUint (s : string) : option Z :=
  match s with "" => None | _ => digits_val 0 s end.

Definition in_int64 (z : Z) : bool := (- 2 ^ 63 <=? z) && (z <? 2 ^ 63).

Definition ParseInt (s : string) : outcome Z :=
  let v := match s with
           | String "-" s' => Z.opp <$> ParseUint s'
           | String "+" s' => ParseUint s'
           | _ => ParseUint s
           end in
  match v with
  | Some z => if in_int64 z then Ok z else Err "value out of range"
  | None => Err "invalid syntax"
  end.

Lemma digit_val_char (x : N) : (x < 10)%N -> digit_val (pretty_N_char x) = Some (Z.of_N x).
Proof.
  intros Hx. assert (x ∈ [0; 1; 2; 3; 4; 5; 6; 7; 8; 9]%N) as Hin by (rewrite !elem_of_cons; lia).
  repeat (apply elem_of_cons in Hin as [-> | Hin]; [done |]). by apply elem_of_nil in Hin.
Qed.

Lemma digits_val_go x s : digits_val 0 (pretty_N_go x s) = digits_val (Z.of_N x) s.
Proof.
  revert s. induction (N.lt_wf_0 x) as [x _ IH]; intros s.
  destruct (decide (x = 0)%N) as [-> | Hx]; [by rewrite pretty_N_go_0 |].
  rewrite pretty_N_go_step by lia. rewrite IH by (apply N.div_lt; lia).
  cbn [digits_val]. rewrite digit_val_char by (apply N.mod_lt; lia). f_equal.
  rewrite N2Z.inj_div, N2Z.inj_mod. pose proof (Z.div_mod (Z.of_N x) 10). lia.
Qed.

Lemma ParseUint_pretty (n : N) : ParseUint (pretty n) = Some (Z.of_N n).
Proof.
  unfold pretty, pretty_N. case_decide as H; [by subst |].
  pose proof (digits_val_go n "") as Hd. unfold ParseUint.
  destruct (pretty_N_go n "") as [| a s] eqn:E; [| exact Hd].
  exfalso. apply (Itoa_nonempty (Z.of_N n)). unfold Itoa, pretty, pretty_Z.
  destruct n as [| p]; [done |]. cbn [Z.of_N].
  unfold pretty, pretty_positive, pretty, pretty_N. by rewrite decide_False.
Qed.

Lemma ParseUint_head s z : ParseUint s = Some z ->
  match s with String "-" _ | String "+" _ => False | _ => True end.
Proof.
  destruct s as [| a s]; [done |]. simpl.
  destruct a as [[] [] [] [] [] [] [] []]; simpl; done.
Qed.

Lemma ParseInt_Itoa z : is_int64 z -> ParseInt (Itoa z) = Ok z.
Proof.
  intros Hz. assert (in_int64 z = true) as Hr.
  { unfold in_int64, is_int64 in *. apply andb_true_iff. lia. }
  assert (forall n : N, z = Z.of_N n -> ParseInt (pretty n) = Ok z) as HN.
  { intros n ->. pose proof (ParseUint_pretty n) as Hp. pose proof (ParseUint_head _ _ Hp) as Hh.
    unfold ParseInt. destruct (pretty n) as [| a s] eqn:E; [done |].
    destruct a as [[] [] [] [] [] [] [] []]; simpl in Hh; try done; rewrite Hp, Hr; done. }
  unfold Itoa, pretty, pretty_Z. destruct z as [| p | p]; [by vm_compute | |].
  - apply (HN (N.pos p)). done.
  - change (ParseInt (String "-" (pretty (N.pos p))) = Ok (Z.neg p)).
    unfold ParseInt. rewrite ParseUint_pretty. cbn [fmap option_fmap option_map].
    change (- Z.of_N (N.pos p)) with (Z.neg p). by rewrite Hr.
Qed.

(** ** time.Duration.String, on nanoseconds *)

(** fmtFrac: the fraction of [v] in [n] digits without trailing zeros, and the rest. *)
Fixpoint fmtFrac (n : nat) (print : bool) (buf : string) (v : Z) : string * Z :=
  match n with
  | O => (if print then "." +:+ buf else buf, v)
  | S n =>
      let digit := v mod 10 in
      let print := print || negb (digit =? 0) in
      fmtFrac n print (if print then Itoa digit +:+ buf else buf) (v / 10)
  end.
Definition with_unit_of (n : nat) (unit : string) (v : Z) : string :=
  let '(frac, whole) := fmtFrac n false "" v in Itoa whole +:+ frac +:+ unit.
Definition Duration_String (d : Z) : string :=
  let u := Z.abs d in
  (if d <? 0 then "-" else "") +:+
  (if u =? 0 then "0s"
   else if u <? 10 ^ 3 then with_unit_of 0 "ns" u
   else if u <? 10 ^ 6 then with_unit_of 3 "µs" u
   else if u <? 10 ^ 9 then with_unit_of 6 "ms" u
   else
     let '(frac, seconds) := fmtFrac 9 false "" u in
     (if 60 <=? seconds then
        (if 3600 <=? seconds then Itoa (seconds / 3600) +:+ "h" else "") +:+ Itoa (seconds / 60 mod 60) +:+ "m"
      else "") +:+ Itoa (seconds mod 60) +:+ frac +:+ "s").
Example Duration_String_examples :
  Duration_String <$> [0; 1; 1100; 2200000; 3300000000; 245000000000; 245001000000; 18367001000000; -1500000000] =
    ["0s"; "1ns"; "1.1µs"; "2.2ms"; "3.3s"; "4m5s"; "4m5.001s"; "5h6m7.001s"; "-1.5s"].
Proof. vm_compute. reflexivity. Qed.
