(* ===== verification/GoText.v ===== *)
(** * Text: more of Go's strings package, and UTF-8

    Searching, trimming and splitting byte strings, and the conversions between
    strings and runes ([]rune(s), string(runes), unicode/utf8), with the round
    trips the chunker and the parsers rely on. *)
From S2P Require Import Prelude GoStd.

(** ** strings: searching *)

(** strings.Contains *)
Fixpoint Contains (s sub : string) : bool :=
  String.prefix sub s || match s with EmptyString => false | String _ s' => Contains s' sub end.

(** strings.Index: the first position of [sub]; [None] for -1. *)
Fixpoint Index (s sub : string) : option nat :=
  if String.prefix sub s then Some O
  else match s with EmptyString => None | String _ s' => S <$> Index s' sub end.

(** strings.IndexByte and strings.LastIndexByte *)
Fixpoint IndexByte (s : string) (c : ascii) : option nat :=
  match s with
  | EmptyString => None
  | String a s' => if Ascii.eqb a c then Some O else S <$> IndexByte s' c
  end.

Fixpoint LastIndexByte (s : string) (c : ascii) : option nat :=
  match s with
  | EmptyString => None
  | String a s' =>
      match LastIndexByte s' c with
      | Some i => Some (S i)
      | None => if Ascii.eqb a c then Some O else None
      end
  end.

(** s[:n], for n within the string *)
Fixpoint string_take (n : nat) (s : string) : string :=
  match n, s with
  | S k, String a s' => String a (string_take k s')
  | _, _ => EmptyString
  end.

Lemma string_app_cons a (s t : string) : String a s +:+ t = String a (s +:+ t).
Proof. done. Qed.

Lemma string_app_empty (s : string) : "" +:+ s = s.
Proof. done. Qed.

Lemma string_take_drop n s : string_take n s +:+ string_drop n s = s.
Proof.
  revert s. induction n as [| n IH]; intros [| a s]; [done .. |]. cbn.
  by rewrite string_app_cons, IH.
Qed.

Lemma string_drop_app s t : string_drop (String.length s) (s +:+ t) = t.
Proof. by induction s. Qed.
Lemma string_take_app s t : string_take (String.length s) (s +:+ t) = s.
Proof.
  induction s as [| a s IH]; [by destruct t |]. rewrite string_app_cons. cbn. by rewrite IH.
Qed.

Lemma string_app_assoc (s t u : string) : s +:+ t +:+ u = (s +:+ t) +:+ u.
Proof. induction s as [| a s IH]; [done |]. by rewrite !string_app_cons, IH. Qed.
Lemma string_app_nil (s : string) : s +:+ "" = s.
Proof. induction s as [| a s IH]; [done |]. by rewrite string_app_cons, IH. Qed.
Lemma string_length_app (s t : string) :
  String.length (s +:+ t) = (String.length s + String.length t)%nat.
Proof. induction s as [| a s IH]; [done |]. rewrite string_app_cons. cbn. by rewrite IH. Qed.
#[export] Hint Rewrite string_app_cons string_app_empty string_app_nil string_length_app : str.

Lemma IndexByte_no_byte s c : no_byte c s = true -> IndexByte s c = None.
Proof.
  induction s as [| a s IH]; simpl; [done |]. intros [Ha Hs]%andb_true_iff.
  destruct (Ascii.eqb a c); [done |]. by rewrite IH.
Qed.

Lemma IndexByte_app s t c :
  no_byte c s = true -> IndexByte (s +:+ String c t) c = Some (String.length s).
Proof.
  induction s as [| a s IH]; [rewrite string_app_empty; cbn; by rewrite Ascii.eqb_refl |]. rewrite string_app_cons. cbn.
  intros [Ha Hs]%andb_true_iff. destruct (Ascii.eqb a c); [done |]. by rewrite IH.
Qed.

(** ** Reversal, and what TrimSpace leaves *)

Lemma string_rev_cons a s : string_rev (String a s) = string_rev s +:+ String a "".
Proof.
  unfold string_rev. cbn [String.list_ascii_of_string]. rewrite reverse_cons.
  generalize (reverse (String.list_ascii_of_string s)) as l. intros l.
  induction l as [| b l IH]; [done |]. cbn. by rewrite IH.
Qed.

Lemma string_rev_app s t : string_rev (s +:+ t) = string_rev t +:+ string_rev s.
Proof.
  induction s as [| a s IH]; [by rewrite string_app_nil |].
  by rewrite string_app_cons, !string_rev_cons, IH, string_app_assoc.
Qed.

Lemma string_forallb_rev p s : string_forallb p (string_rev s) = string_forallb p s.
Proof.
  induction s as [| a s IH]; [done |]. rewrite string_rev_cons, string_forallb_app, IH. cbn.
  by rewrite andb_true_r, andb_comm.
Qed.

Lemma string_forallb_impl p q s :
  (forall a, p a = true -> q a = true) -> string_forallb p s = true -> string_forallb q s = true.
Proof.
  intros H. induction s as [| a s IH]; cbn; [done |]. intros [Ha Hs]%andb_true_iff.
  by rewrite (H a Ha), IH.
Qed.

Lemma trim_left_done fuel ws s :
  Forall (fun w => w <> "") ws -> (String.length s <= fuel)%nat ->
  Forall (fun w => String.prefix w (trim_left fuel ws s) = false) ws.
Proof.
  intros Hne. revert s. induction fuel as [| fuel IH]; intros s Hl.
  - destruct s as [| a s]; cbn in *; [| lia]. eapply Forall_impl; [exact Hne |]. by intros [].
  - cbn. destruct (list_find _ ws) as [[i w] |] eqn:E.
    + apply list_find_Some in E as (Hi & Hp & _). apply IH.
      rewrite Forall_lookup in Hne. specialize (Hne _ _ Hi).
      destruct w as [| b w], s as [| a s]; cbn in *; try done.
      clear -Hl. revert s Hl. induction w; intros [| ? s]; cbn; intros; try lia.
      apply IHw. lia.
    + apply Forall_forall. intros w Hw. apply list_find_None in E. rewrite Forall_forall in E.
      specialize (E w Hw). by destruct (String.prefix w s).
Qed.

(** One-byte white space *)
Definition ascii_space (a : ascii) : bool := bool_decide (String a "" ∈ utf8_spaces).

(** Trimmed text does not end with white space. *)
Lemma TrimSpace_end s t u :
  TrimSpace s = t +:+ u -> string_forallb ascii_space u = true -> u = "".
Proof.
  intros E Hu. destruct (string_rev u) as [| a v] eqn:Ev.
  { rewrite <- (string_rev_involutive u), Ev. done. }
  exfalso. assert (string_rev (TrimSpace s) = String a (v +:+ string_rev t)) as Hr.
  { by rewrite E, string_rev_app, Ev. }
  unfold TrimSpace in Hr. rewrite string_rev_involutive in Hr.
  rewrite <- string_forallb_rev, Ev in Hu. cbn in Hu. apply andb_true_iff in Hu as [Ha _].
  apply bool_decide_eq_true in Ha.
  set (l := trim_left _ utf8_spaces s) in Hr.
  assert (String.length (string_rev l) <= String.length l)%nat as Hlen.
  { clear. induction l as [| a l IH]; [done |]. rewrite string_rev_cons, string_length_app. cbn. lia. }
  pose proof (trim_left_done (String.length l) (string_rev <$> utf8_spaces) (string_rev l)) as Hd.
  rewrite Hr, !Forall_forall in Hd.
  assert (String.prefix (String a "") (String a (v +:+ string_rev t)) = false) as Hf.
  { apply Hd; [| exact Hlen |].
    - intros w Hw. unfold utf8_spaces in Hw. cbn in Hw. rewrite !elem_of_cons, elem_of_nil in Hw.
      repeat destruct Hw as [-> | Hw]; done.
    - apply list_elem_of_fmap. by exists (String a ""). }
  cbn in Hf. destruct (ascii_dec a a); [| done]. by destruct (v +:+ string_rev t).
Qed.

(** ** strings: prefixes, suffixes, splitting *)

(** strings.HasSuffix and strings.TrimSuffix *)
Definition HasSuffix (s suf : string) : bool :=
  HasPrefix (string_rev s) (string_rev suf).
Definition TrimSuffix (s suf : string) : string :=
  if HasSuffix s suf then string_take (String.length s - String.length suf) s else s.

(** strings.Trim with a cutset of single bytes *)
Definition Trim (s cutset : string) : string :=
  let ws := (fun a => String a "") <$> String.list_ascii_of_string cutset in
  let l := trim_left (String.length s) ws s in
  string_rev (trim_left (String.length l) ws (string_rev l)).

(** strings.Split with a non-empty separator; a match moves on by its length. *)
Fixpoint SplitStr_go (fuel : nat) (cur s sep : string) : list string :=
  match fuel with
  | O => [string_rev cur +:+ s]
  | S k =>
      match s with
      | EmptyString => [string_rev cur]
      | String a s' =>
          if String.prefix sep s
          then string_rev cur :: SplitStr_go k "" (string_drop (String.length sep) s) sep
          else SplitStr_go k (String a cur) s' sep
      end
  end.
Definition SplitStr (s sep : string) : list string := SplitStr_go (S (String.length s)) "" s sep.

Example SplitStr_ex : SplitStr "a},{b},{" "},{" = ["a"; "b"; ""].
Proof. vm_compute. reflexivity. Qed.

(** strings.SplitN(s, sep, 2) for a one-byte separator *)
Definition SplitN2 (s : string) (sep : ascii) : list string :=
  match IndexByte s sep with
  | Some i => [string_take i s; string_drop (S i) s]
  | None => [s]
  end.

(** strings.Fields: the maximal runs without white space. *)
Fixpoint Fields_go (fuel : nat) (cur s : string) : list string :=
  let push ws := if String.eqb cur "" then ws else string_rev cur :: ws in
  match fuel with
  | O => push []
  | S k =>
      match s with
      | EmptyString => push []
      | String a s' =>
          match list_find (fun w => String.prefix w s = true) utf8_spaces with
          | Some (_, w) => push (Fields_go k "" (string_drop (String.length w) s))
          | None => Fields_go k (String a cur) s'
          end
      end
  end.
Definition Fields (s : string) : list string := Fields_go (S (String.length s)) "" s.

Example Fields_ex : Fields "  db  pass word " = ["db"; "pass"; "word"].
Proof. vm_compute. reflexivity. Qed.

(** strings.ToLower on text whose upper-case letters are ASCII *)
Definition lower_byte (a : ascii) : ascii :=
  let n := N_of_ascii a in if ((65 <=? n) && (n <=? 90))%N then ascii_of_N (n + 32) else a.
Fixpoint ToLowerASCII (s : string) : string :=
  match s with EmptyString => "" | String a s' => String (lower_byte a) (ToLowerASCII s') end.

(** ** UTF-8 *)

Definition RuneError : Z := 0xFFFD.

Definition byteZ (a : ascii) : Z := Z.of_N (N_of_ascii a).
Definition Zbyte (z : Z) : ascii := ascii_of_N (Z.to_N z).

Lemma byteZ_Zbyte z : 0 <= z < 256 -> byteZ (Zbyte z) = z.
Proof. intros H. unfold byteZ, Zbyte. rewrite N_ascii_embedding; lia. Qed.

(** A rune a string can hold: a code point that is not a surrogate. *)
Definition rune_ok (r : Z) : bool :=
  (0 <=? r) && (r <=? 0x10FFFF) && negb ((0xD800 <=? r) && (r <=? 0xDFFF)).

(** string(r): a rune that is no code point becomes U+FFFD. *)
Definition encode_rune (r : Z) : string :=
  let r := if rune_ok r then r else RuneError in
  if r <? 0x80 then String (Zbyte r) ""
  else if r <? 0x800 then String (Zbyte (0xC0 + r / 64)) (String (Zbyte (0x80 + r mod 64)) "")
  else if r <? 0x10000 then
    String (Zbyte (0xE0 + r / 4096)) (String (Zbyte (0x80 + r / 64 mod 64))
      (String (Zbyte (0x80 + r mod 64)) ""))
  else
    String (Zbyte (0xF0 + r / 262144)) (String (Zbyte (0x80 + r / 4096 mod 64))
      (String (Zbyte (0x80 + r / 64 mod 64)) (String (Zbyte (0x80 + r mod 64)) ""))).

Definition cont (a : ascii) : option Z :=
  let b := byteZ a in if (0x80 <=? b) && (b <=? 0xBF) then Some (b - 0x80) else None.

(** utf8.DecodeRuneInString on a non-empty string: the rune and what is left; an
    invalid encoding is U+FFFD and takes one byte. Overlong forms, surrogates and
    code points above U+10FFFF are invalid. *)
Definition decode_rune (a : ascii) (s : string) : Z * string :=
  let b := byteZ a in
  let check (lo hi v : Z) (rest : string) := if (lo <=? v) && (v <=? hi) && rune_ok v then (v, rest) else (RuneError, s) in
  if b <? 0x80 then (b, s)
  else if b <? 0xC0 then (RuneError, s)
  else if b <? 0xE0 then
    match s with
    | String a1 s1 =>
        match cont a1 with Some c1 => check 0x80 0x7FF ((b - 0xC0) * 64 + c1) s1 | None => (RuneError, s) end
    | _ => (RuneError, s)
    end
  else if b <? 0xF0 then
    match s with
    | String a1 (String a2 s2) =>
        match cont a1, cont a2 with
        | Some c1, Some c2 => check 0x800 0xFFFF ((b - 0xE0) * 4096 + c1 * 64 + c2) s2
        | _, _ => (RuneError, s)
        end
    | _ => (RuneError, s)
    end
  else if b <? 0xF8 then
    match s with
    | String a1 (String a2 (String a3 s3)) =>
        match cont a1, cont a2, cont a3 with
        | Some c1, Some c2, Some c3 =>
            check 0x10000 0x10FFFF ((b - 0xF0) * 262144 + c1 * 4096 + c2 * 64 + c3) s3
        | _, _, _ => (RuneError, s)
        end
    | _ => (RuneError, s)
    end
  else (RuneError, s).

(** []rune(s): every step takes at least a byte. *)
Fixpoint runes_go (fuel : nat) (s : string) : list Z :=
  match fuel, s with
  | S k, String a s' => let '(r, rest) := decode_rune a s' in r :: runes_go k rest
  | _, _ => []
  end.
Definition runes (s : string) : list Z := runes_go (String.length s) s.

(** string(rs) *)
Definition of_runes (rs : list Z) : string := foldr (fun r s => encode_rune r +:+ s) "" rs.

Example runes_ex : runes "a你" = [97; 0x4F60].
Proof. vm_compute. reflexivity. Qed.
Example runes_bad : runes (String (ascii_of_N 0xE4) "b") = [RuneError; 98].
Proof. vm_compute. reflexivity. Qed.

Lemma cont_byte c : 0 <= c < 64 -> cont (Zbyte (0x80 + c)) = Some c.
Proof.
  intros H. unfold cont. rewrite byteZ_Zbyte by lia.
  rewrite (proj2 (Z.leb_le 128 _)), (proj2 (Z.leb_le _ 191)) by lia. cbn [andb]. f_equal. lia.
Qed.

Ltac split_bool := repeat match goal with
  | H : (_ && _)%bool = true |- _ => apply andb_true_iff in H as []
  | H : (_ <=? _) = true |- _ => apply Z.leb_le in H
  | H : (_ <? _) = true |- _ => apply Z.ltb_lt in H
  | H : (_ <=? _) = false |- _ => apply Z.leb_gt in H
  | H : (_ <? _) = false |- _ => apply Z.ltb_ge in H
  end.

Ltac zdiv r := pose proof (Z.div_mod r 64); pose proof (Z.mod_pos_bound r 64);
  pose proof (Z.div_mod (r / 64) 64); pose proof (Z.mod_pos_bound (r / 64) 64);
  pose proof (Z.div_mod (r / 64 / 64) 64); pose proof (Z.mod_pos_bound (r / 64 / 64) 64);
  replace (r / 4096) with (r / 64 / 64) in * by (rewrite Z.div_div by lia; done);
  replace (r / 262144) with (r / 64 / 64 / 64) in * by (rewrite !Z.div_div by lia; done).

(** Decide a comparison of integers. *)
Ltac zbool := repeat match goal with
  | |- context [?a <? ?b] => first [rewrite (proj2 (Z.ltb_lt a b)) by lia | rewrite (proj2 (Z.ltb_ge a b)) by lia]
  | |- context [?a <=? ?b] => first [rewrite (proj2 (Z.leb_le a b)) by lia | rewrite (proj2 (Z.leb_gt a b)) by lia]
  end; cbn [andb].

(** Decoding what was encoded. *)
Lemma encode_decode r s :
  rune_ok r = true ->
  exists a t, encode_rune r = String a t /\ decode_rune a (t +:+ s) = (r, s).
Proof.
  intros Hr. unfold encode_rune. rewrite Hr. pose proof Hr as H. unfold rune_ok in H. split_bool.
  zdiv r.
  destruct (r <? 128) eqn:?; [| destruct (r <? 2048) eqn:?; [| destruct (r <? 65536) eqn:?]];
    split_bool; eexists _, _; (split; [reflexivity |]);
    autorewrite with str; unfold decode_rune; rewrite byteZ_Zbyte by lia; zbool;
    rewrite ?cont_byte by lia; zbool.
  - done.
  - replace ((192 + r / 64 - 192) * 64 + r mod 64) with r by lia. by zbool; rewrite Hr.
  - replace ((224 + r / 64 / 64 - 224) * 4096 + r / 64 mod 64 * 64 + r mod 64) with r by lia.
    by zbool; rewrite Hr.
  - replace ((240 + r / 64 / 64 / 64 - 240) * 262144 + r / 64 / 64 mod 64 * 4096 +
             r / 64 mod 64 * 64 + r mod 64) with r by lia.
    by zbool; rewrite Hr.
Qed.

Lemma encode_rune_length r : (1 <= String.length (encode_rune r))%nat.
Proof. unfold encode_rune. repeat case_match; simpl; lia. Qed.

Lemma decode_rune_ok a s : rune_ok (decode_rune a s).1 = true.
Proof.
  unfold decode_rune. pose proof (byte_range a) as Hb. fold (byteZ a) in Hb.
  assert (byteZ a <? 128 = true -> rune_ok (byteZ a) = true) as H1.
  { intros H. split_bool. unfold rune_ok. by zbool. }
  repeat case_match; simplify_eq; try done; split_bool; auto.
Qed.

Lemma decode_rune_shorter a s : (String.length (decode_rune a s).2 <= String.length s)%nat.
Proof. unfold decode_rune. repeat case_match; simplify_eq; cbn; lia. Qed.

Lemma runes_go_fuel n m s :
  (String.length s <= n)%nat -> (String.length s <= m)%nat -> runes_go n s = runes_go m s.
Proof.
  revert m s. induction n as [| n IH]; intros [| m] [| a s] Hn Hm; cbn in *; try done; try lia.
  pose proof (decode_rune_shorter a s) as Hs. destruct (decode_rune a s) as [r rest]. cbn in Hs.
  f_equal. apply IH; lia.
Qed.

Lemma runes_cons a s : runes (String a s) = (decode_rune a s).1 :: runes (decode_rune a s).2.
Proof.
  unfold runes. cbn [String.length runes_go]. pose proof (decode_rune_shorter a s) as Hs.
  destruct (decode_rune a s) as [r rest]. cbn in *. f_equal. apply runes_go_fuel; lia.
Qed.

Lemma runes_ok s : Forall (fun r => rune_ok r = true) (runes s).
Proof.
  unfold runes. generalize (String.length s) as n. intros n. revert s.
  induction n as [| n IH]; intros [| a s]; cbn; [constructor .. |].
  pose proof (decode_rune_ok a s) as H. destruct (decode_rune a s) as [r rest]. by constructor.
Qed.

(** Runes survive being put in a string. *)
Lemma runes_of_runes rs : Forall (fun r => rune_ok r = true) rs -> runes (of_runes rs) = rs.
Proof.
  induction 1 as [| r rs Hr Hrs IH]; [done |]. cbn [of_runes foldr]. fold (of_runes rs).
  destruct (encode_decode r (of_runes rs) Hr) as (a & t & -> & E).
  rewrite string_app_cons, runes_cons, E. cbn [fst snd]. by rewrite IH.
Qed.

(** Text that is valid UTF-8 (utf8.ValidString): nothing is replaced. *)
Definition ValidString (s : string) : bool := String.eqb (of_runes (runes s)) s.

Lemma ValidString_of_runes rs : Forall (fun r => rune_ok r = true) rs -> ValidString (of_runes rs) = true.
Proof. intros H. unfold ValidString. rewrite runes_of_runes by done. apply String.eqb_refl. Qed.

Lemma of_runes_app l k : of_runes (l ++ k) = of_runes l +:+ of_runes k.
Proof.
  induction l as [| r l IH]; [done |]. cbn [of_runes foldr app].
  fold (of_runes (l ++ k)) (of_runes l). by rewrite IH, string_app_assoc.
Qed.

(** ** strconv *)

(** The value strconv.ParseInt leaves when its error is dropped: the nearest int64
    when the number does not fit, else 0. *)
Definition ParseInt_value (s : string) : Z :=
  match ParseInt s with
  | Ok v => v
  | Err e => if String.eqb e "value out of range" then (if HasPrefix s "-" then - 2 ^ 63 else 2 ^ 63 - 1) else 0
  | Panic _ => 0
  end.
