(* ===== verification/GoJson.v ===== *)
(** * json.Valid

    The scanner of encoding/json: one state per position in a value, a stack of
    the objects and arrays that are open, one step per byte. *)
From S2P Require Import Prelude GoStd GoText.

Inductive frame := ObjectKey | ObjectValue | ArrayValue.

Inductive scan :=
| BeginValue | BeginValueOrEmpty | BeginString | BeginStringOrEmpty
| EndValue | EndTop
| InString | InStringEsc | InStringEscU (digits : nat)
| Neg | Num0 | Num1 | Dot | Dot0 | Exp | ExpSign | Exp0
| T_ | Tr_ | Tru_ | F_ | Fa_ | Fal_ | Fals_ | N_ | Nu_ | Nul_.

(** maxNestingDepth *)
Definition maxNestingDepth : nat := 10000.

Definition config : Type := scan * list frame.

Definition eqc (a b : ascii) : bool := Ascii.eqb a b.
Definition quote_byte : ascii := byte 34.
Definition json_space (a : ascii) : bool :=
  eqc a " " || eqc a (byte 9) || eqc a (byte 13) || eqc a (byte 10).
Definition digit (a : ascii) : bool := match digit_val a with Some _ => true | None => false end.
Definition digit19 (a : ascii) : bool := digit a && negb (eqc a "0").
Definition hex (a : ascii) : bool :=
  let n := N_of_ascii a in
  (digit a || ((97 <=? n) && (n <=? 102)) || ((65 <=? n) && (n <=? 70)))%N.

(** pushParseState *)
Definition push (st : scan) (f : frame) (stack : list frame) : option config :=
  if (S (length stack) <=? maxNestingDepth)%nat then Some (st, f :: stack) else None.

(** popParseState: below the last frame the value is complete. *)
Definition pop (stack : list frame) : config :=
  match stack with
  | [] => (EndTop, [])
  | _ => (EndValue, stack)
  end.

(** stateEndValue *)
Definition end_value (a : ascii) (stack : list frame) : option config :=
  match stack with
  | [] => if json_space a then Some (EndTop, []) else None
  | f :: rest =>
      if json_space a then Some (EndValue, stack)
      else match f with
           | ObjectKey => if eqc a ":" then Some (BeginValue, ObjectValue :: rest) else None
           | ObjectValue =>
               if eqc a "," then Some (BeginString, ObjectKey :: rest)
               else if eqc a "}" then Some (pop rest) else None
           | ArrayValue =>
               if eqc a "," then Some (BeginValue, stack)
               else if eqc a "]" then Some (pop rest) else None
           end
  end.

Definition begin_value (a : ascii) (stack : list frame) : option config :=
  if json_space a then Some (BeginValue, stack)
  else if eqc a "{" then push BeginStringOrEmpty ObjectKey stack
  else if eqc a "[" then push BeginValueOrEmpty ArrayValue stack
  else if eqc a quote_byte then Some (InString, stack)
  else if eqc a "-" then Some (Neg, stack)
  else if eqc a "0" then Some (Num0, stack)
  else if eqc a "t" then Some (T_, stack)
  else if eqc a "f" then Some (F_, stack)
  else if eqc a "n" then Some (N_, stack)
  else if digit19 a then Some (Num1, stack)
  else None.

Definition begin_string (a : ascii) (stack : list frame) : option config :=
  if json_space a then Some (BeginString, stack)
  else if eqc a quote_byte then Some (InString, stack)
  else None.

(** after the digits of a number, before a fraction *)
Definition after_int (a : ascii) (stack : list frame) : option config :=
  if eqc a "." then Some (Dot, stack)
  else if eqc a "e" || eqc a "E" then Some (Exp, stack)
  else end_value a stack.

Definition scan_step (c : config) (a : ascii) : option config :=
  let '(st, stack) := c in
  match st with
  | BeginValue => begin_value a stack
  | BeginValueOrEmpty =>
      if json_space a then Some (BeginValueOrEmpty, stack)
      else if eqc a "]" then end_value a stack
      else begin_value a stack
  | BeginString => begin_string a stack
  | BeginStringOrEmpty =>
      if json_space a then Some (BeginStringOrEmpty, stack)
      else if eqc a "}" then
        match stack with
        | _ :: rest => end_value a (ObjectValue :: rest)
        | [] => None
        end
      else begin_string a stack
  | EndValue => end_value a stack
  | EndTop => if json_space a then Some (EndTop, stack) else None
  | InString =>
      if eqc a quote_byte then Some (EndValue, stack)
      else if eqc a "\" then Some (InStringEsc, stack)
      else if byteZ a <? 0x20 then None
      else Some (InString, stack)
  | InStringEsc =>
      if existsb (eqc a) ["b"; "f"; "n"; "r"; "t"; "\"; "/"; quote_byte]%char then Some (InString, stack)
      else if eqc a "u" then Some (InStringEscU 4, stack)
      else None
  | InStringEscU n =>
      if hex a then
        match n with
        | S (S n') => Some (InStringEscU (S n'), stack)
        | _ => Some (InString, stack)
        end
      else None
  | Neg =>
      if eqc a "0" then Some (Num0, stack)
      else if digit19 a then Some (Num1, stack)
      else None
  | Num1 => if digit a then Some (Num1, stack) else after_int a stack
  | Num0 => after_int a stack
  | Dot => if digit a then Some (Dot0, stack) else None
  | Dot0 =>
      if digit a then Some (Dot0, stack)
      else if eqc a "e" || eqc a "E" then Some (Exp, stack)
      else end_value a stack
  | Exp =>
      if eqc a "+" || eqc a "-" then Some (ExpSign, stack)
      else if digit a then Some (Exp0, stack)
      else None
  | ExpSign => if digit a then Some (Exp0, stack) else None
  | Exp0 => if digit a then Some (Exp0, stack) else end_value a stack
  | T_ => if eqc a "r" then Some (Tr_, stack) else None
  | Tr_ => if eqc a "u" then Some (Tru_, stack) else None
  | Tru_ => if eqc a "e" then Some (EndValue, stack) else None
  | F_ => if eqc a "a" then Some (Fa_, stack) else None
  | Fa_ => if eqc a "l" then Some (Fal_, stack) else None
  | Fal_ => if eqc a "s" then Some (Fals_, stack) else None
  | Fals_ => if eqc a "e" then Some (EndValue, stack) else None
  | N_ => if eqc a "u" then Some (Nu_, stack) else None
  | Nu_ => if eqc a "l" then Some (Nul_, stack) else None
  | Nul_ => if eqc a "l" then Some (EndValue, stack) else None
  end.

Fixpoint scan_run (c : config) (s : string) : option config :=
  match s with
  | EmptyString => Some c
  | String a s' => match scan_step c a with Some c' => scan_run c' s' | None => None end
  end.

Definition scan_init : config := (BeginValue, []).

(** checkValid: after the last byte a space must end the value. *)
Definition at_end (c : config) : bool :=
  match c with
  | (EndTop, _) => true
  | _ => match scan_step c " " with Some (EndTop, _) => true | _ => false end
  end.

Definition Valid (s : string) : bool :=
  match scan_run scan_init s with Some c => at_end c | None => false end.

Definition quote : string := String quote_byte "".

Example Valid_ex :
  Valid ("{" +:+ quote +:+ "a" +:+ quote +:+ ": [1, -2.5e3, true, null], " +:+ quote +:+ "b" +:+ quote +:+ ":{}} ") = true.
Proof. vm_compute. reflexivity. Qed.
Example Valid_bad : Valid "{1}" = false /\ Valid "[1,]" = false /\ Valid "01" = false /\ Valid "" = false.
Proof. vm_compute. auto. Qed.

Lemma scan_run_app c s t :
  scan_run c (s +:+ t) = match scan_run c s with Some c' => scan_run c' t | None => None end.
Proof.
  revert c. induction s as [| a s IH]; intros c; [done |]. rewrite string_app_cons. cbn.
  by destruct (scan_step c a).
Qed.

(** After a complete value only white space may follow. *)
Lemma scan_end_spaces stack s c :
  scan_run (EndTop, stack) s = Some c -> string_forallb json_space s = true.
Proof.
  revert stack. induction s as [| a s IH]; intros stack; [done |]. cbn.
  destruct (json_space a); [| done]. apply IH.
Qed.

(** A value that ends with a closing brace is complete at the brace. *)
Lemma scan_brace c c' :
  scan_step c "}" = Some c' -> at_end c' = true -> exists stack, c' = (EndTop, stack).
Proof.
  destruct c as [st stack].
  assert (forall stk, at_end (pop stk) = true -> exists stack, pop stk = (EndTop, stack)) as Hpop.
  { intros [| [] rest]; cbn; intros; [by eexists | done ..]. }
  assert (forall stk c', end_value "}" stk = Some c' -> at_end c' = true -> exists stack, c' = (EndTop, stack)) as He.
  { intros [| [] rest] c2; cbn; [done | done | | done]. intros [= <-] Hend. by apply Hpop. }
  destruct st; cbn; try change (digit "}") with false; try change (byteZ "}" <? 32) with false;
    cbn; try done; try (by intros; eapply He).
  - destruct stack; [done |]. intros [= <-]. apply Hpop.
  - by intros [= <-].
Qed.

(** A complete object followed by text: the whole is valid only if that text is
    white space. *)
Lemma Valid_object_prefix s t :
  Valid (s +:+ "}") = true -> Valid ((s +:+ "}") +:+ t) = true -> string_forallb json_space t = true.
Proof.
  unfold Valid. rewrite (scan_run_app _ (s +:+ "}")), (scan_run_app _ s).
  destruct (scan_run scan_init s) as [c |]; [| done]. cbn.
  destruct (scan_step c "}") as [c' |] eqn:E; [| done]. intros Hend.
  destruct (scan_brace c c' E Hend) as [stack ->].
  destruct (scan_run (EndTop, stack) t) eqn:Et; [| done]. intros _. by eapply scan_end_spaces.
Qed.

(** White space of JSON is white space. *)
Lemma json_space_is_space a : json_space a = true -> ascii_space a = true.
Proof.
  unfold json_space, eqc. rewrite !orb_true_iff, !Ascii.eqb_eq.
  intros [[[-> | ->] | ->] | ->]; by vm_compute.
Qed.
