(* ===== verification/GoFloat.v ===== *)
(** * float64

    IEEE 754 binary64 by the Standard Library's specification of floating-point
    arithmetic, which computes; the comparisons as a total order on numbers that
    are not NaN, and the sums of positive numbers, which are never NaN. *)
From S2P Require Import Prelude.
From Stdlib Require Export SpecFloat.

Definition float64 : Type := spec_float.

Definition fadd : float64 -> float64 -> float64 := SFadd 53 1024.
Definition fsub : float64 -> float64 -> float64 := SFsub 53 1024.
Definition fdiv : float64 -> float64 -> float64 := SFdiv 53 1024.
Definition fabs : float64 -> float64 := SFabs.
(** float64(z) for an integer *)
Definition of_Z (z : Z) : float64 := binary_normalize 53 1024 z 0 false.
(** a decimal literal [p/q]: the quotient of exact integers, correctly rounded *)
Definition flit (p q : Z) : float64 := fdiv (of_Z p) (of_Z q).

(** a < b, a <= b and a == b; every comparison with NaN is false. *)
Definition flt (a b : float64) : bool := SFltb a b.
Definition fle (a b : float64) : bool := SFleb a b.
Definition feq (a b : float64) : bool := SFeqb a b.

Definition f0 : float64 := S754_zero false.
Definition f1 : float64 := of_Z 1.

Definition is_nan (a : float64) : bool := match a with S754_nan => true | _ => false end.

#[export] Instance float64_eq_dec : EqDecision float64.
Proof. solve_decision. Defined.

(** The order of the numbers that are not NaN, as a pair of integers. *)
Definition fkey (a : float64) : Z * Z :=
  match a with
  | S754_zero _ | S754_nan => (0, 0)
  | S754_infinity false => (2 ^ 2000, 0)
  | S754_infinity true => (- 2 ^ 2000, 0)
  | S754_finite false m e => (2 ^ 1999 + e, Z.pos m)
  | S754_finite true m e => (- 2 ^ 1999 - e, Z.neg m)
  end.

(** Exponents a binary64 number can have. *)
Definition fwf (a : float64) : bool :=
  match a with S754_finite _ _ e => (- 2000 <=? e) && (e <=? 2000) | S754_nan => false | _ => true end.

Definition lex_lt (p q : Z * Z) : Prop := p.1 < q.1 \/ p.1 = q.1 /\ p.2 < q.2.

Lemma big : 2 ^ 2000 = 2 * 2 ^ 1999 /\ 10000 < 2 ^ 1999.
Proof. split; [rewrite <- Z.pow_succ_r by lia; done | by vm_compute]. Qed.

Lemma SFcompare_key a b :
  fwf a = true -> fwf b = true ->
  exists c, SFcompare a b = Some c /\
  match c with
  | Lt => lex_lt (fkey a) (fkey b)
  | Gt => lex_lt (fkey b) (fkey a)
  | Eq => fkey a = fkey b
  end.
Proof.
  intros Ha Hb. destruct big as [B1 B2]. unfold fkey, fwf in *. rewrite B1. revert B2.
  generalize (2 ^ 1999) as B. intros B B2. clear B1.
  destruct a as [? | [] | | [] m e], b as [? | [] | | [] m' e']; try done;
    try apply andb_true_iff in Ha as [Ha1%Z.leb_le Ha2%Z.leb_le];
    try apply andb_true_iff in Hb as [Hb1%Z.leb_le Hb2%Z.leb_le];
    cbn [SFcompare]; eexists; (split; [reflexivity |]); unfold lex_lt; cbn [fst snd]; try lia; try done.
  - destruct (Z.compare_spec e e'); cbn; [subst | lia | lia].
    change (Pos.compare_cont Eq m m') with (Pos.compare m m').
    destruct (Pos.compare_spec m m'); cbn; [by subst | lia | lia].
  - destruct (Z.compare_spec e e'); cbn; [subst | lia | lia].
    change (Pos.compare_cont Eq m m') with (Pos.compare m m').
    destruct (Pos.compare_spec m m'); cbn; [by subst | lia | lia].
Qed.

Lemma flt_key a b : fwf a = true -> fwf b = true -> flt a b = true <-> lex_lt (fkey a) (fkey b).
Proof.
  intros Ha Hb. destruct (SFcompare_key a b Ha Hb) as (c & E & H). unfold flt, SFltb. rewrite E.
  unfold lex_lt in *. destruct c; split; try done; try lia; intros; exfalso;
    destruct (fkey a), (fkey b); simplify_eq/=; lia.
Qed.

Lemma feq_key a b : fwf a = true -> fwf b = true -> feq a b = true <-> fkey a = fkey b.
Proof.
  intros Ha Hb. destruct (SFcompare_key a b Ha Hb) as (c & E & H). unfold feq, SFeqb. rewrite E.
  unfold lex_lt in *. destruct c; split; try done; try (intros; exfalso; destruct (fkey a), (fkey b); simplify_eq/=; lia).
Qed.

(** ** Sums and quotients of positive numbers are numbers *)

(** not NaN and not negative *)
Definition fpos (a : float64) : bool :=
  match a with
  | S754_zero false | S754_infinity false => true
  | S754_finite false _ e => (- 2000 <=? e) && (e <=? 2000)
  | _ => false
  end.

Lemma fpos_wf a : fpos a = true -> fwf a = true.
Proof. by destruct a as [[] | [] | | [] m e]. Qed.

Lemma shr_1_nonneg r : 0 <= shr_m r -> 0 <= shr_m (shr_1 r).
Proof. destruct r as [[| [p | p |] | p] ? ?]; cbn; lia. Qed.

Lemma iter_pos_inv {A} (P : A -> Prop) (f : A -> A) n x :
  (forall y, P y -> P (f y)) -> P x -> P (SpecFloat.iter_pos f n x).
Proof. intros Hf. revert x. induction n; cbn; intros x Hx; auto. Qed.

Lemma shr_fexp_pos m e l r e' :
  0 <= m -> shr_fexp 53 1024 m e l = (r, e') -> 0 <= shr_m r /\ - 1074 <= e'.
Proof.
  intros Hm. unfold shr_fexp, shr.
  assert (0 <= shr_m (shr_record_of_loc m l)) as H0 by (by destruct l as [| []]).
  assert (- 1074 <= fexp 53 1024 (Zdigits2 m + e)) as He by (unfold fexp, emin; lia).
  destruct (fexp 53 1024 (Zdigits2 m + e) - e) eqn:E; intros [= <- <-].
  - split; [done | lia].
  - split; [apply iter_pos_inv; [apply shr_1_nonneg | done] | lia].
  - split; [done | lia].
Qed.

Lemma binary_round_aux_pos m e l : 0 <= m -> fpos (binary_round_aux 53 1024 false m e l) = true.
Proof.
  intros Hm. unfold binary_round_aux.
  destruct (shr_fexp 53 1024 m e l) as [r e'] eqn:E1.
  apply shr_fexp_pos in E1 as [Hr He]; [| done].
  destruct (shr_fexp 53 1024 (round_nearest_even _ _) _ _) as [r' e''] eqn:E2.
  apply shr_fexp_pos in E2 as [Hr' He'].
  - destruct (shr_m r') eqn:E; [done | | lia].
    destruct (Z.leb_spec e'' (1024 - 53)); [| done].
    unfold fpos. apply andb_true_iff. lia.
  - unfold round_nearest_even. repeat case_match; lia.
Qed.

Lemma binary_round_pos m e : fpos (binary_round 53 1024 false m e) = true.
Proof. unfold binary_round. destruct (shl_align m e _). apply binary_round_aux_pos. lia. Qed.

Lemma fadd_pos a b : fpos a = true -> fpos b = true -> fpos (fadd a b) = true.
Proof.
  intros Ha Hb. unfold fadd, SFadd.
  destruct a as [[] | [] | | [] m e], b as [[] | [] | | [] m' e']; try done.
  cbn [cond_Zopp]. unfold binary_normalize.
  destruct (_ + _) eqn:E; [done | apply binary_round_pos | lia].
Qed.

Lemma of_Z_pos z : 0 <= z -> fpos (of_Z z) = true.
Proof.
  intros Hz. unfold of_Z, binary_normalize. destruct z; [done | apply binary_round_pos | lia].
Qed.

(** A quotient of positive numbers is a number, unless both are infinite or zero. *)
Lemma fdiv_pos a b :
  fpos a = true -> fpos b = true ->
  match a, b with S754_zero _, S754_zero _ | S754_infinity _, S754_infinity _ => False | _, _ => True end ->
  fpos (fdiv a b) = true.
Proof.
  intros Ha Hb Hn. unfold fdiv, SFdiv.
  destruct a as [[] | [] | | [] m e], b as [[] | [] | | [] m' e']; try done.
  cbn [xorb]. unfold SFdiv_core_binary.
  set (s := _ - _ - _). clearbody s.
  destruct (Z.div_eucl _ _) as [q r] eqn:E. apply binary_round_aux_pos.
  change q with (fst (q, r)). rewrite <- E.
  change (0 <= Z.div (match s with Z0 => Z.pos m | Z.pos _ => Z.shiftl (Z.pos m) s | Z.neg _ => 0 end) (Z.pos m')).
  apply Z.div_pos; [| lia]. destruct s; [lia | | lia]. apply Z.shiftl_nonneg. lia.
Qed.

Example third_ex : fdiv f1 (of_Z 3) = S754_finite false 6004799503160661 (- 54).
Proof. vm_compute. reflexivity. Qed.
