(* ===== verification/GoSort.v ===== *)
(** * sort.Slice

    Up to twelve elements sort.Slice is an insertion sort, whatever [less] is. Above
    that only its contract is used: it leaves a permutation of [s] in which no
    element is less than one before it when [less] is a strict weak order on the
    elements; when [less] moreover tells all of them apart the result is unique, so
    merge sort computes Go's. *)
From S2P Require Import Prelude.

Section sort_slice.
Context {A : Type} (less : A -> A -> bool).

Definition not_after (x y : A) : Prop := less y x = false.
#[export] Instance not_after_dec : RelDecision not_after.
Proof. intros x y. unfold not_after. apply _. Defined.

(** insertionSortLessFunc: the sorted part, its last element first. *)
Fixpoint sift (x : A) (sorted : list A) : list A :=
  match sorted with
  | [] => [x]
  | y :: sorted => if less x y then y :: sift x sorted else x :: y :: sorted
  end.
Definition insertion_sort (l : list A) : list A := reverse (foldl (fun sorted x => sift x sorted) [] l).

Definition sort_Slice (l : list A) : list A :=
  if (length l <=? 12)%nat then insertion_sort l else merge_sort not_after l.

Lemma sift_perm x l : sift x l ≡ₚ x :: l.
Proof. induction l as [| y l IH]; cbn; [done |]. destruct (less x y); [by rewrite IH, Permutation_swap | done]. Qed.

Lemma insertion_sort_perm l : insertion_sort l ≡ₚ l.
Proof.
  unfold insertion_sort. rewrite reverse_Permutation.
  assert (forall acc, foldl (fun sorted x => sift x sorted) acc l ≡ₚ l ++ acc) as H; [| by rewrite H, app_nil_r].
  induction l as [| x l IH]; intros acc; cbn; [done |]. by rewrite IH, sift_perm, <- Permutation_middle.
Qed.

Lemma sort_Slice_perm l : sort_Slice l ≡ₚ l.
Proof. unfold sort_Slice. destruct (_ <=? _)%nat; [apply insertion_sort_perm | apply merge_sort_Permutation]. Qed.

Lemma Sorted_Strongly (R : relation A) l :
  (forall x y z, x ∈ l -> y ∈ l -> z ∈ l -> R x y -> R y z -> R x z) ->
  Sorted R l -> StronglySorted R l.
Proof.
  induction l as [| x l IH]; intros Ht Hs; [constructor |].
  apply Sorted_inv in Hs as [Hs Hx]. assert (StronglySorted R l) as Hl.
  { apply IH; [| done]. intros a b c Ha Hb Hc. apply Ht; by right. }
  constructor; [done |]. destruct Hx as [| y l Hxy]; [constructor |].
  constructor; [done |]. apply StronglySorted_inv in Hl as [_ Hy].
  rewrite Forall_forall in *. intros z Hz. apply (Ht x y z); [set_solver .. | done | auto].
Qed.

(** [less] is a strict weak order on the elements of [l]. *)
Definition weak_order_on (l : list A) : Prop :=
  forall x y z, x ∈ l -> y ∈ l -> z ∈ l -> not_after x y -> not_after y z -> not_after x z.
(** and it tells its elements apart *)
Definition separates (l : list A) : Prop :=
  forall x y, x ∈ l -> y ∈ l -> not_after x y -> not_after y x -> x = y.

Lemma weak_order_perm l k : l ≡ₚ k -> weak_order_on l -> weak_order_on k.
Proof. intros Hp Hw x y z. rewrite <- Hp. apply Hw. Qed.
Lemma separates_perm l k : l ≡ₚ k -> separates l -> separates k.
Proof. intros Hp Hs x y. rewrite <- Hp. apply Hs. Qed.

Hypothesis less_asym : forall x y, less x y = true -> less y x = false.

Lemma not_after_total : Total not_after.
Proof.
  intros x y. unfold not_after. destruct (less y x) eqn:E; [right; by apply less_asym | by left].
Qed.

(** Sifting keeps the sorted part sorted, whose elements come in descending order. *)
Lemma sift_sorted x l :
  weak_order_on (x :: l) -> StronglySorted (flip not_after) l -> StronglySorted (flip not_after) (sift x l).
Proof.
  induction l as [| y l IH]; intros Hw Hs; cbn [sift]; [by repeat constructor |].
  pose proof (StronglySorted_inv Hs) as [Hl Hy]. destruct (less x y) eqn:E.
  - constructor.
    + apply IH; [| done]. intros a b c Ha Hb Hc. apply Hw; set_solver.
    + rewrite sift_perm. constructor; [by apply less_asym | done].
  - constructor; [done |]. constructor; [done |]. rewrite Forall_forall in *.
    intros z Hz. apply (Hw z y x); [set_solver .. | exact (Hy z Hz) | exact E].
Qed.

Lemma StronglySorted_reverse (R : relation A) l : StronglySorted (flip R) l -> StronglySorted R (reverse l).
Proof.
  induction l as [| x l IH]; intros Hs; [constructor |]. apply StronglySorted_inv in Hs as [Hs Hx].
  rewrite reverse_cons. apply StronglySorted_app_2; [| by apply IH | by repeat constructor].
  intros y z. rewrite elem_of_reverse, list_elem_of_singleton. intros Hy ->.
  rewrite Forall_forall in Hx. by apply Hx.
Qed.

Lemma insertion_sort_sorted l : weak_order_on l -> StronglySorted not_after (insertion_sort l).
Proof.
  intros Hw. apply StronglySorted_reverse.
  assert (forall acc, weak_order_on (l ++ acc) -> StronglySorted (flip not_after) acc ->
    StronglySorted (flip not_after) (foldl (fun sorted x => sift x sorted) acc l)) as H.
  { clear Hw. induction l as [| x l IH]; intros acc Hw Hs; cbn; [done |]. apply IH.
    - eapply weak_order_perm; [| exact Hw]. by rewrite sift_perm, <- Permutation_middle.
    - apply sift_sorted; [| done]. intros a b c Ha Hb Hc. apply Hw; set_solver. }
  apply H; [by rewrite app_nil_r | constructor].
Qed.

Lemma sort_Slice_sorted l : weak_order_on l -> StronglySorted not_after (sort_Slice l).
Proof.
  intros Hw. unfold sort_Slice. destruct (_ <=? _)%nat; [by apply insertion_sort_sorted |].
  apply Sorted_Strongly.
  - intros x y z. rewrite !merge_sort_Permutation. apply Hw.
  - pose proof not_after_total. apply Sorted_merge_sort; apply _.
Qed.

(** Whatever sorts [l] by a separating order gives what merge sort gives. *)
Lemma sort_Slice_unique l k :
  weak_order_on l -> separates l -> k ≡ₚ l -> StronglySorted not_after k -> k = sort_Slice l.
Proof.
  intros Hw Hs Hp Hk. eapply (StronglySorted_unique_strong not_after).
  - intros x y Hx Hy. rewrite Hp in Hx. rewrite sort_Slice_perm in Hy. by apply Hs.
  - done.
  - by apply sort_Slice_sorted.
  - by rewrite sort_Slice_perm.
Qed.

Lemma sort_Slice_proper l k :
  weak_order_on l -> separates l -> l ≡ₚ k -> sort_Slice l = sort_Slice k.
Proof.
  intros Hw Hs Hp. apply sort_Slice_unique.
  - by eapply weak_order_perm.
  - by eapply separates_perm.
  - by rewrite sort_Slice_perm.
  - by apply sort_Slice_sorted.
Qed.
End sort_slice.
