(* ===== verification/Ids.v ===== *)
(** * Identifiers: apps/pkg/utils

    [Module Snowflake] models snowflake.go, the generator of message ids, and
    [Module ConvID] models conv_id.go and the conversation names the gateway
    builds itself. A clock is the list of the successive results of
    [time.Now().UnixMilli()]: a waiting loop consumes readings, and a function
    that runs out of readings is still waiting ([None]). *)
From S2P Require Import Prelude GoStd GoText.

Module Snowflake.

Record Snowflake := mkSnowflake {
  lastTimestamp : Z;
  sequence : Z;
  nodeID : Z;
}.

(** NewSnowflake: panics unless the node id fits in ten bits. *)
Definition NewSnowflake (node : Z) : outcome Snowflake :=
  if (node <? 0) || (1023 <? node)
  then Panic "node ID must be between 0 and 1023"
  else Ok (mkSnowflake 0 0 node).

(** The package state: the [sync.Once] and the instance it sets. *)
Record PkgState := mkPkg {
  once_done : bool;
  snowflakeInstance : option Snowflake;
}.

Definition pkg_init : PkgState := mkPkg false None.

Definition InitSnowflake (node : Z) (p : PkgState) : outcome unit * PkgState :=
  if once_done p then (Ok tt, p)
  else if (node <? 0) || (1023 <? node)
  then (Err "node ID must be between 0 and 1023", mkPkg true (snowflakeInstance p))
  else (Ok tt, mkPkg true (Some (mkSnowflake 0 0 node))).

Definition GetSnowflake (p : PkgState) : outcome Snowflake :=
  match snowflakeInstance p with
  | None => Panic "snowflake not initialized, call InitSnowflake first"
  | Some s => Ok s
  end.

(** The loop [for current <= last { Sleep; current = now() }], entered with
    [current <= last]. *)
Fixpoint wait_past (last : Z) (clock : list Z) : option (Z * list Z) :=
  match clock with
  | [] => None
  | c :: rest => if c <=? last then wait_past last rest else Some (c, rest)
  end.

Definition pack (ts node seq : Z) : Z :=
  Z.lor (Z.lor (int64 (Z.shiftl ts 22)) (int64 (Z.shiftl node 12))) seq.

(** Generate: the id, the new state and the unread part of the clock. *)
Definition Generate (s : Snowflake) (clock : list Z) : option (Z * Snowflake * list Z) :=
  match clock with
  | [] => None
  | now :: rest0 =>
      '(current, rest) ←
        (if now <? lastTimestamp s then wait_past (lastTimestamp s) rest0
         else Some (now, rest0));
      '(current', seq', rest') ←
        (if current =? lastTimestamp s then
           let seq := Z.land (sequence s + 1) 0xFFF in
           if seq =? 0 then
             '(c, r) ← wait_past (lastTimestamp s) rest; Some (c, seq, r)
           else Some (current, seq, rest)
         else Some (current, 0, rest));
      Some (pack current' (nodeID s) seq',
            mkSnowflake current' seq' (nodeID s), rest')
  end.

(** GenerateString *)
Definition GenerateString (s : Snowflake) (clock : list Z) : option (string * Snowflake * list Z) :=
  '(id, s', r) ← Generate s clock; Some (Itoa id, s', r).

(** [n] calls one after the other (each holds the mutex for its whole body). *)
Fixpoint generate_many (n : nat) (s : Snowflake) (clock : list Z)
    : option (list Z * Snowflake * list Z) :=
  match n with
  | O => Some ([], s, clock)
  | S k =>
      '(id, s', r) ← Generate s clock;
      '(ids, s'', r') ← generate_many k s' r;
      Some (id :: ids, s'', r')
  end.

Record SnowflakeInfo := mkInfo { Timestamp : Z; NodeID : Z; Sequence : Z }.

Definition ParseSnowflakeID (id : Z) : SnowflakeInfo :=
  mkInfo (int64 (Z.shiftr id 22 + 1288834974657))
         (Z.land (Z.shiftr id 12) 0x3FF)
         (Z.land id 0xFFF).

(** ** Well-formedness *)

Definition wf (s : Snowflake) : Prop :=
  0 <= lastTimestamp s < 2 ^ 41 /\ 0 <= sequence s < 4096 /\ 0 <= nodeID s < 1024.

(** No reading, in milliseconds since 1970, needs more than the 41 bits of the
    timestamp field: true until September 2039. *)
Definition clock_ok (clock : list Z) : Prop := Forall (fun c => c < 2 ^ 41) clock.

(** The arithmetic reading of [pack]. *)
Definition packed (ts node seq : Z) : Z := ts * 2 ^ 22 + node * 2 ^ 12 + seq.

Lemma lor_disjoint_add a b n :
  0 <= n -> 0 <= b < 2 ^ n -> Z.lor (a * 2 ^ n) b = a * 2 ^ n + b.
Proof.
  intros Hn Hb. rewrite <- Z.add_lor_land.
  enough (Z.land (a * 2 ^ n) b = 0) as -> by lia.
  apply Z.bits_inj'. intros i Hi. rewrite Z.land_spec, Z.bits_0.
  destruct (decide (i < n)) as [Hlt | Hge].
  - rewrite Z.mul_pow2_bits_low by lia. done.
  - rewrite <- (Z.mod_small b (2 ^ n)), Z.mod_pow2_bits_high by lia.
    by rewrite andb_false_r.
Qed.

Lemma pack_packed ts node seq :
  0 <= ts < 2 ^ 41 -> 0 <= node < 1024 -> 0 <= seq < 4096 ->
  pack ts node seq = packed ts node seq.
Proof.
  intros Ht Hn Hs. unfold pack, packed. rewrite !Z.shiftl_mul_pow2 by lia.
  rewrite (int64_id (ts * 2 ^ 22)) by (unfold is_int64; lia).
  rewrite (int64_id (node * 2 ^ 12)) by (unfold is_int64; lia).
  rewrite lor_disjoint_add by lia.
  replace (ts * 2 ^ 22 + node * 2 ^ 12) with ((ts * 2 ^ 10 + node) * 2 ^ 12) by lia.
  rewrite lor_disjoint_add by lia. lia.
Qed.

Lemma wait_past_Some last clock c r :
  wait_past last clock = Some (c, r) -> last < c /\ c ∈ clock /\ r `suffix_of` clock.
Proof.
  induction clock as [| x clock IH]; simpl; [done |].
  destruct (Z.leb_spec x last).
  - intros Hw. destruct (IH Hw) as (? & ? & ?). repeat split; [done | by right |].
    by apply suffix_cons_r.
  - intros [= -> ->]. repeat split; [done | by left | by exists [c]].
Qed.

Lemma wait_past_progress last clock :
  (exists c, c ∈ clock /\ last < c) -> is_Some (wait_past last clock).
Proof.
  induction clock as [| x clock IH]; simpl; intros (c & Hc & Hlt); [by apply elem_of_nil in Hc |].
  destruct (Z.leb_spec x last); [| eauto].
  apply elem_of_cons in Hc as [-> | Hc]; [lia | eauto].
Qed.

Lemma clock_ok_elem clock c : clock_ok clock -> c ∈ clock -> c < 2 ^ 41.
Proof. unfold clock_ok. rewrite Forall_forall. auto. Qed.
Lemma clock_ok_suffix clock r : clock_ok clock -> r `suffix_of` clock -> clock_ok r.
Proof. unfold clock_ok. intros H [k ->]. by apply Forall_app in H as [_ H]. Qed.

Lemma next_seq_range q : 0 <= q < 4096 ->
  0 <= Z.land (q + 1) 0xFFF < 4096 /\
  (Z.land (q + 1) 0xFFF <> 0 -> Z.land (q + 1) 0xFFF = q + 1).
Proof.
  intros Hq. change 0xFFF with (Z.ones 12). rewrite Z.land_ones by lia.
  pose proof (Z.mod_pos_bound (q + 1) (2 ^ 12)).
  destruct (decide (q = 4095)) as [-> | ?]; [done |].
  rewrite Z.mod_small by lia. lia.
Qed.

(** One step of the generator, as a relation between the two states: the pair
    (timestamp, sequence) grows lexicographically and the clock is consumed. *)
Lemma Generate_inv s clock id s' r :
  wf s -> clock_ok clock -> Generate s clock = Some (id, s', r) ->
  wf s' /\ clock_ok r /\ nodeID s' = nodeID s /\
  id = pack (lastTimestamp s') (nodeID s') (sequence s') /\
  (lastTimestamp s < lastTimestamp s' \/
   lastTimestamp s = lastTimestamp s' /\ sequence s < sequence s').
Proof.
  intros (Ht & Hq & Hn) Hc. unfold Generate.
  destruct clock as [| now rest0]; [done |]. apply Forall_cons in Hc as [Hnow Hrest0].
  destruct (if now <? lastTimestamp s then _ else _) as [[current rest] |] eqn:E1; [| done].
  assert (lastTimestamp s <= current /\ 0 <= current < 2 ^ 41 /\ clock_ok rest) as (Hle & Hcur & Hok).
  { destruct (Z.ltb_spec now (lastTimestamp s)); [| simplify_eq; split_and!; (done || lia)].
    apply wait_past_Some in E1 as (? & Hin & ?).
    pose proof (clock_ok_elem _ _ Hrest0 Hin). split_and!; [lia.. | eauto using clock_ok_suffix]. }
  simpl. destruct (Z.eqb_spec current (lastTimestamp s)) as [-> | Hne]; simpl.
  2: { intros [= <- <- <-]. simpl. unfold wf. simpl. repeat split; try done; lia. }
  pose proof (next_seq_range _ Hq) as [Hr1 Hr2].
  destruct (Z.eqb_spec (Z.land (sequence s + 1) 0xFFF) 0) as [Hz | Hz]; simpl.
  - destruct (wait_past _ rest) as [[c r'] |] eqn:E2; simpl; [| done].
    apply wait_past_Some in E2 as (? & Hin & ?).
    pose proof (clock_ok_elem _ _ Hok Hin).
    intros [= <- <- <-]. unfold wf. simpl. rewrite Hz.
    repeat split; eauto using clock_ok_suffix; lia.
  - intros [= <- <- <-]. unfold wf. simpl. rewrite Hr2 by done.
    repeat split; try done; lia.
Qed.

Lemma packed_lex t1 q1 t2 q2 node :
  0 <= q1 < 4096 -> 0 <= q2 < 4096 -> 0 <= node < 1024 ->
  t1 < t2 \/ t1 = t2 /\ q1 < q2 -> packed t1 node q1 < packed t2 node q2.
Proof. unfold packed. intros. nia. Qed.

Definition last_id (s : Snowflake) : Z := pack (lastTimestamp s) (nodeID s) (sequence s).

Lemma last_id_packed s : wf s -> last_id s = packed (lastTimestamp s) (nodeID s) (sequence s).
Proof. intros (? & ? & ?). unfold last_id. apply pack_packed; assumption. Qed.

Lemma last_id_bound s : wf s -> 0 <= last_id s < 2 ^ 63.
Proof. intros H. rewrite last_id_packed by done. destruct H as (? & ? & ?). unfold packed. lia. Qed.

Lemma Generate_increasing s clock id s' r :
  wf s -> clock_ok clock -> Generate s clock = Some (id, s', r) ->
  id = last_id s' /\ last_id s < last_id s'.
Proof.
  intros Hwf Hc HG. destruct (Generate_inv _ _ _ _ _ Hwf Hc HG) as (Hwf' & _ & Hn & Hid & Hlex).
  split; [done |]. rewrite !last_id_packed by done. rewrite Hn.
  destruct Hwf as (? & ? & ?), Hwf' as (? & ? & ?). by apply packed_lex.
Qed.

(** C36: While the clock shows a time before September 2039 - no reading needs more
    than the 41 bits of the timestamp - the ids one node generates are strictly
    increasing and positive int64 values, in the order of the calls: within that bound
    readings may repeat, jump forward or go back, even before 1970. *)
Theorem ids_strictly_increasing n s clock ids s' r :
  wf s -> clock_ok clock -> generate_many n s clock = Some (ids, s', r) ->
  StronglySorted Z.lt ids /\ Forall (fun id => last_id s < id < 2 ^ 63) ids.
Proof.
  revert s clock ids. induction n as [| n IH]; intros s clock ids Hwf Hc Hg; simpl in Hg.
  { simplify_eq. split; constructor. }
  destruct (Generate s clock) as [[[id s1] r1] |] eqn:EG; simpl in Hg; [| done].
  destruct (generate_many n s1 r1) as [[[ids1 s2] r2] |] eqn:EM; simpl in Hg; [| done].
  simplify_eq. pose proof (Generate_increasing _ _ _ _ _ Hwf Hc EG) as [-> Hlt].
  destruct (Generate_inv _ _ _ _ _ Hwf Hc EG) as (Hwf1 & Hc1 & _).
  destruct (IH _ _ _ Hwf1 Hc1 EM) as [HS HF].
  split; constructor; auto.
  - eapply Forall_impl; [exact HF |]. simpl. lia.
  - pose proof (last_id_bound s1 Hwf1). lia.
  - eapply Forall_impl; [exact HF |]. simpl. lia.
Qed.

(** The bound is needed: nothing checks it, and the first id of September 2039 is
    negative. *)
Lemma id_turns_negative : exists id, Generate (mkSnowflake (2 ^ 41 - 1) 0 7) [2 ^ 41] = Some id /\ id.1.1 < 0.
Proof. eexists. split; [vm_compute; reflexivity |]. simpl. lia. Qed.

(** Concrete states and clocks are well formed by computation. *)
Ltac solve_wf := unfold wf; simpl; lia.
Ltac solve_clock := unfold clock_ok; repeat constructor; lia.

(** A node restarted through the same millisecond with the clock set back. *)
Lemma ids_strictly_increasing_witness :
  let s := mkSnowflake 100 4094 7 in
  let clock := [100; 100; 99; 100; 101; 100; -50; 102; 102] in
  exists ids s' r, generate_many 4 s clock = Some (ids, s', r) /\
    StronglySorted Z.lt ids /\ Forall (fun id => last_id s < id < 2 ^ 63) ids.
Proof.
  intros s clock. do 3 eexists. split; [vm_compute; reflexivity |].
  apply (ids_strictly_increasing 4 s clock _ (mkSnowflake 102 1 7) []).
  - solve_wf.
  - unfold clock. solve_clock.
  - vm_compute. reflexivity.
Defined.

Lemma generate_many_node n s clock ids s' r :
  wf s -> clock_ok clock -> generate_many n s clock = Some (ids, s', r) ->
  Forall (fun id => Z.land (Z.shiftr id 12) 0x3FF = nodeID s) ids.
Proof.
  revert s clock ids. induction n as [| n IH]; intros s clock ids Hwf Hc Hg; simpl in Hg.
  { simplify_eq. constructor. }
  destruct (Generate s clock) as [[[id s1] r1] |] eqn:EG; simpl in Hg; [| done].
  destruct (generate_many n s1 r1) as [[[ids1 s2] r2] |] eqn:EM; simpl in Hg; [| done].
  simplify_eq. destruct (Generate_inv _ _ _ _ _ Hwf Hc EG) as (Hwf1 & Hc1 & Hn & -> & _).
  constructor; [| rewrite <- Hn; eauto].
  destruct Hwf1 as (Ht & Hq & Hnode). rewrite pack_packed by done. rewrite Hn in *.
  change 0x3FF with (Z.ones 10). rewrite Z.land_ones, Z.shiftr_div_pow2 by lia.
  unfold packed.
  replace (_ + _ + _) with ((lastTimestamp s1 * 2 ^ 10 + nodeID s) * 2 ^ 12 + sequence s1) by lia.
  rewrite Z.div_add_l by lia. rewrite (Z.div_small (sequence s1)) by lia.
  rewrite Z.add_0_r, Z.add_comm, Z.mod_add by lia. by apply Z.mod_small.
Qed.

(** Two nodes with different node numbers (the gateway, logic and agent
    processes) never generate the same id, whatever their clocks show before then. *)
Theorem nodes_never_collide n1 n2 s1 s2 c1 c2 ids1 ids2 s1' s2' r1 r2 :
  wf s1 -> wf s2 -> clock_ok c1 -> clock_ok c2 -> nodeID s1 <> nodeID s2 ->
  generate_many n1 s1 c1 = Some (ids1, s1', r1) ->
  generate_many n2 s2 c2 = Some (ids2, s2', r2) ->
  forall id, id ∈ ids1 -> id ∉ ids2.
Proof.
  intros Hw1 Hw2 Hc1 Hc2 Hne H1 H2 id Hin1 Hin2.
  apply generate_many_node in H1; [| done..]. apply generate_many_node in H2; [| done..].
  rewrite Forall_forall in H1, H2. apply Hne.
  by rewrite <- (H1 id), <- (H2 id) by done.
Qed.

Lemma nodes_never_collide_witness :
  exists ids1 ids2,
    option_map (fun x => fst (fst x)) (generate_many 2 (mkSnowflake 0 0 1) [5; 5]) = Some ids1 /\
    option_map (fun x => fst (fst x)) (generate_many 2 (mkSnowflake 0 0 2) [5; 5]) = Some ids2 /\
    forall id, id ∈ ids1 -> id ∉ ids2.
Proof.
  do 2 eexists. split; [vm_compute; reflexivity | split; [vm_compute; reflexivity |]].
  apply (nodes_never_collide 2 2 (mkSnowflake 0 0 1) (mkSnowflake 0 0 2) [5; 5] [5; 5] _ _
           (mkSnowflake 5 1 1) (mkSnowflake 5 1 2) [] []);
    first [ solve_wf | solve_clock | simpl; lia | vm_compute; reflexivity ].
Defined.

(** Generate returns as soon as the clock shows a millisecond after the last
    one used: a rollback or an exhausted sequence only waits for that reading. *)
Theorem Generate_terminates s clock :
  (exists c, c ∈ clock /\ lastTimestamp s < c) -> is_Some (Generate s clock).
Proof.
  intros (c & Hc & Hlt). unfold Generate. destruct clock as [| now rest]; [by apply elem_of_nil in Hc |].
  assert (now <= lastTimestamp s -> is_Some (wait_past (lastTimestamp s) rest)) as Hw.
  { intros Hle. apply wait_past_progress. exists c.
    apply elem_of_cons in Hc as [-> | Hc]; [lia | done]. }
  destruct (Z.ltb_spec now (lastTimestamp s)) as [Hb | Hb].
  - destruct Hw as [[c' r'] E]; [lia |]. rewrite E. simpl.
    apply wait_past_Some in E as (Hgt & _).
    destruct (Z.eqb_spec c' (lastTimestamp s)); [lia |]. simpl. eauto.
  - simpl. destruct (Z.eqb_spec now (lastTimestamp s)) as [-> | Hne]; simpl; [| eauto].
    destruct Hw as [[c' r'] E]; [lia |]. rewrite E.
    by destruct (_ =? 0); simpl; eauto.
Qed.

Lemma Generate_terminates_witness :
  is_Some (Generate (mkSnowflake 100 4095 3) [90; 91; 100; 101]).
Proof.
  apply (Generate_terminates (mkSnowflake 100 4095 3) [90; 91; 100; 101]).
  exists 101. split; [| simpl; lia]. repeat (first [left; done | right]).
Defined.

(** ParseSnowflakeID recovers the node and the sequence of a generated id,
    but not its time: it adds 1288834974657 to a field Generate filled with the
    plain Unix milliseconds, so the timestamp it reports is always that far in
    the future. *)
Theorem Parse_of_Generate s clock id s' r :
  wf s -> clock_ok clock -> Generate s clock = Some (id, s', r) ->
  ParseSnowflakeID id =
    mkInfo (lastTimestamp s' + 1288834974657) (nodeID s) (sequence s').
Proof.
  intros Hwf Hc HG.
  assert (generate_many 1 s clock = Some ([id], s', r)) as HM by (simpl; by rewrite HG).
  apply generate_many_node in HM as Hnode; [| done..]. apply Forall_cons in Hnode as [Hnode _].
  destruct (Generate_inv _ _ _ _ _ Hwf Hc HG) as ((Ht & Hq & Hn) & _ & Hns & Hid & _).
  unfold ParseSnowflakeID. rewrite Hnode. clear Hnode HM HG.
  rewrite pack_packed in Hid by done. unfold packed in Hid. subst id. f_equal.
  - rewrite Z.shiftr_div_pow2 by lia.
    replace (_ + _ + _) with (lastTimestamp s' * 2 ^ 22 + (nodeID s' * 2 ^ 12 + sequence s')) by lia.
    rewrite Z.div_add_l, (Z.div_small (_ + _)) by lia.
    rewrite Z.add_0_r. apply int64_id. unfold is_int64. lia.
  - change 0xFFF with (Z.ones 12). rewrite Z.land_ones by lia.
    replace (_ + _ + _) with (sequence s' + (lastTimestamp s' * 2 ^ 10 + nodeID s') * 2 ^ 12) by lia.
    rewrite Z.mod_add by lia. by apply Z.mod_small.
Qed.

Lemma Parse_of_Generate_witness :
  exists id s' r, Generate (mkSnowflake 0 0 9) [1700000000000] = Some (id, s', r) /\
    ParseSnowflakeID id = mkInfo (1700000000000 + 1288834974657) 9 0.
Proof.
  do 3 eexists. split; [vm_compute; reflexivity |].
  apply (Parse_of_Generate (mkSnowflake 0 0 9) [1700000000000] _ (mkSnowflake 1700000000000 0 9) []).
  - solve_wf.
  - solve_clock.
  - vm_compute. reflexivity.
Defined.

(** A rejected node number uses up the [sync.Once]: a later, valid call reports
    success without installing an instance, and GetSnowflake panics. *)
Theorem InitSnowflake_poisoned bad node :
  (bad <? 0) || (1023 <? bad) = true ->
  exists p, InitSnowflake bad pkg_init = (Err "node ID must be between 0 and 1023", p) /\
    InitSnowflake node p = (Ok tt, p) /\
    GetSnowflake p = Panic "snowflake not initialized, call InitSnowflake first".
Proof. intros H. unfold InitSnowflake. simpl. rewrite H. by eexists. Qed.

End Snowflake.

Module ConvID.

(** SingleChatConvID *)
Definition SingleChatConvID (a b : Z) : string :=
  if b <? a then Itoa b +:+ "_" +:+ Itoa a else Itoa a +:+ "_" +:+ Itoa b.

(** GroupConvID, also written [fmt.Sprintf("group_%d", id)] in handleGroupChat. *)
Definition GroupConvID (g : Z) : string := "group_" +:+ Itoa g.

(** The AI conversation of handlerAIChat: [fmt.Sprintf("ai_%d", senderId)]. *)
Definition AIConvID (u : Z) : string := "ai_" +:+ Itoa u.

(** The Redis key of GetNextSeqID: [fmt.Sprintf("seq:%s:%d", conv, user)]. *)
Definition seq_key (conv : string) (participant : Z) : string :=
  "seq:" +:+ conv +:+ ":" +:+ Itoa participant.

(** The conversations of the program, and their names. *)
Inductive conversation :=
| Single (a b : Z)
| Group (g : Z)
| AI (u : Z).

Definition conv_id (c : conversation) : string :=
  match c with
  | Single a b => SingleChatConvID a b
  | Group g => GroupConvID g
  | AI u => AIConvID u
  end.

(** Two names of the same conversation: a single chat has no direction. *)
Definition same_conversation (c d : conversation) : Prop :=
  match c, d with
  | Single a b, Single a' b' => a = a' /\ b = b' \/ a = b' /\ b = a'
  | Group g, Group g' => g = g'
  | AI u, AI u' => u = u'
  | _, _ => False
  end.

#[export] Instance same_conversation_equiv : Equivalence same_conversation.
Proof.
  split.
  - intros []; simpl; auto.
  - intros [] []; simpl; intuition auto.
  - intros [] [] []; simpl; intuition congruence.
Qed.

Lemma single_norm a b : exists x y, x <= y /\ SingleChatConvID a b = Itoa x +:+ String "_" (Itoa y) /\
  (x = a /\ y = b \/ x = b /\ y = a).
Proof.
  unfold SingleChatConvID. destruct (Z.ltb_spec b a); [exists b, a | exists a, b]; (split; [lia | auto]).
Qed.

Lemma digits_head_ne z a s t : is_digit_or_minus a = false -> Itoa z +:+ s <> String a t.
Proof.
  intros Ha H. pose proof (Itoa_digits z) as Hd. pose proof (Itoa_nonempty z) as Hne.
  destruct (Itoa z) as [| b u]; [done |]. simpl in *. injection H as -> _.
  by rewrite Ha in Hd.
Qed.

(** A conversation id names one conversation: two ids are equal exactly when
    they name the same single chat (in either order of its two users), the same
    group or the same user's AI chat, so histories and vectors keyed by it are
    never shared across conversations. *)
Theorem conv_id_faithful c d : conv_id c = conv_id d <-> same_conversation c d.
Proof.
  split.
  - destruct c as [a b | g | u], d as [a' b' | g' | u']; simpl;
      unfold GroupConvID, AIConvID; try (intros H; by simplify_eq).
    + destruct (single_norm a b) as (x & y & Hxy & -> & Hor).
      destruct (single_norm a' b') as (x' & y' & Hxy' & -> & Hor').
      intros H. apply (sep_inj is_digit_or_minus) in H as [H1%Itoa_inj H2%Itoa_inj];
        [intuition lia | done | apply Itoa_digits..].
    + destruct (single_norm a b) as (x & y & _ & -> & _). intros H. by apply digits_head_ne in H.
    + destruct (single_norm a b) as (x & y & _ & -> & _). intros H. by apply digits_head_ne in H.
    + destruct (single_norm a' b') as (x & y & _ & -> & _). intros H.
      symmetry in H. by apply digits_head_ne in H.
    + destruct (single_norm a' b') as (x & y & _ & -> & _). intros H.
      symmetry in H. by apply digits_head_ne in H.
  - destruct c as [a b | g | u], d as [a' b' | g' | u']; simpl; try done; [| by intros -> ..].
    intros [[-> ->] | [-> ->]]; [done |]. unfold SingleChatConvID.
    destruct (Z.ltb_spec a' b'), (Z.ltb_spec b' a'); try done; [lia |].
    by replace a' with b' by lia.
Qed.

Definition not_colon (a : ascii) : bool := negb (Ascii.eqb a ":").

Lemma digit_not_colon a : is_digit_or_minus a = true -> not_colon a = true.
Proof.
  unfold is_digit_or_minus, not_colon. rewrite bool_decide_eq_true.
  intros H. repeat (apply elem_of_cons in H as [-> | H]; [done |]). by apply elem_of_nil in H.
Qed.

Lemma conv_id_no_colon c : string_forallb not_colon (conv_id c) = true.
Proof.
  assert (forall z, string_forallb not_colon (Itoa z) = true) as HI.
  { intros z. eapply string_forallb_impl; [apply digit_not_colon | apply Itoa_digits]. }
  destruct c as [a b | g | u]; simpl; [| apply HI..].
  destruct (single_norm a b) as (x & y & _ & -> & _).
  rewrite string_forallb_app. simpl. by rewrite !HI.
Qed.

(** Each participant of each conversation has a sequence counter of its own:
    the Redis keys of two (conversation, participant) pairs are equal only for
    the same conversation and the same participant. *)
Theorem seq_key_faithful c d p q :
  seq_key (conv_id c) p = seq_key (conv_id d) q <-> same_conversation c d /\ p = q.
Proof.
  rewrite <- conv_id_faithful. unfold seq_key. split.
  - intros H. simplify_eq.
    apply (sep_inj not_colon) in H as [? ?%Itoa_inj]; auto using conv_id_no_colon.
  - by intros [-> ->].
Qed.

End ConvID.
