(* ===== verification/Effects.v ===== *)
(** * Effectful code: commands, programs, runs and traces

    Code that talks to the outside (a broker, a database, a cache, a socket) is a
    program over a signature of commands. An environment answers each command
    from a state of its own; running a program in it gives the result and the
    trace of the commands with their answers. A theorem over every environment
    holds whatever the outside answers. *)
From S2P Require Import Prelude.

(** The commands a component issues and the type of each answer. *)
Record Sig := mkSig {
  cmd : Type;
  res : cmd -> Type;
}.

Inductive prog (S : Sig) (A : Type) : Type :=
| Ret (a : A)
| Do (c : cmd S) (k : res S c -> prog S A).
Arguments Ret {S A} _.
Arguments Do {S A} _ _.

Fixpoint bind {S A B} (p : prog S A) (f : A -> prog S B) : prog S B :=
  match p with
  | Ret a => f a
  | Do c k => Do c (fun r => bind (k r) f)
  end.

Definition call {S} (c : cmd S) : prog S (res S c) := Do c Ret.

Declare Scope prog_scope.
Delimit Scope prog_scope with prog.
Bind Scope prog_scope with prog.
Notation "x <- p ;; k" := (bind p (fun x => k))
  (at level 100, p at next level, right associativity) : prog_scope.
Notation "p ;; k" := (bind p (fun _ => k))
  (at level 100, right associativity) : prog_scope.
Notation "' x <- p ;; k" := (bind p (fun x => k))
  (at level 100, x pattern, p at next level, right associativity) : prog_scope.

(** A loop over a list. *)
Fixpoint for_each {S A} (l : list A) (f : A -> prog S unit) : prog S unit :=
  match l with
  | [] => Ret tt
  | a :: l' => bind (f a) (fun _ => for_each l' f)
  end.

Definition event (S : Sig) : Type := { c : cmd S & res S c }.
Definition ev {S : Sig} (c : cmd S) (r : res S c) : event S := existT c r.

(** An environment with state [W]. *)
Definition env (S : Sig) (W : Type) : Type := forall c : cmd S, W -> res S c * W.

Fixpoint run {S W A} (h : env S W) (p : prog S A) (w : W) : A * W * list (event S) :=
  match p with
  | Ret a => (a, w, [])
  | Do c k =>
      let '(r, w1) := h c w in
      let '(a, w2, tr) := run h (k r) w1 in
      (a, w2, ev c r :: tr)
  end.

Definition result {A W T} (x : A * W * T) : A := x.1.1.
Definition final {A W T} (x : A * W * T) : W := x.1.2.
Definition trace {A W T} (x : A * W * T) : T := x.2.

Section run.
Context {S : Sig} {W : Type} (h : env S W).

Lemma run_bind {A B} (p : prog S A) (f : A -> prog S B) w :
  run h (bind p f) w =
    let '(a, w1, tr1) := run h p w in
    let '(b, w2, tr2) := run h (f a) w1 in
    (b, w2, tr1 ++ tr2).
Proof.
  revert w. induction p as [a | c k IH]; intros w; simpl.
  - by destruct (run h (f a) w) as [[b w2] tr2].
  - destruct (h c w) as [r w1]. rewrite IH.
    destruct (run h (k r) w1) as [[a w2] tr1].
    by destruct (run h (f a) w2) as [[b w3] tr2].
Qed.

Lemma run_call c w : run h (call c) w = ((h c w).1, (h c w).2, [ev c (h c w).1]).
Proof. unfold call. simpl. by destruct (h c w). Qed.

(** What every run of [p] satisfies, whatever is answered. *)
Definition always {A} (p : prog S A) (Q : A -> list (event S) -> Prop) : Prop :=
  forall w, Q (result (run h p w)) (trace (run h p w)).

Lemma always_Ret {A} (a : A) (Q : A -> list (event S) -> Prop) : Q a [] -> always (Ret a) Q.
Proof. intros H w. exact H. Qed.

Lemma always_Do {A} c (k : res S c -> prog S A) Q :
  (forall r, always (k r) (fun a tr => Q a (ev c r :: tr))) -> always (Do c k) Q.
Proof.
  intros H w. unfold always in H. simpl. destruct (h c w) as [r w1].
  specialize (H r w1). by destruct (run h (k r) w1) as [[a w2] tr].
Qed.

Lemma always_bind {A B} (p : prog S A) (f : A -> prog S B) P Q :
  always p P ->
  (forall a tr, P a tr -> always (f a) (fun b tr' => Q b (tr ++ tr'))) ->
  always (bind p f) Q.
Proof.
  intros Hp Hf w. specialize (Hp w). unfold always in Hf. rewrite run_bind.
  destruct (run h p w) as [[a w1] tr1]. simpl in Hp.
  specialize (Hf a tr1 Hp w1). by destruct (run h (f a) w1) as [[b w2] tr2].
Qed.

Lemma always_impl {A} (p : prog S A) (P Q : A -> list (event S) -> Prop) :
  always p P -> (forall a tr, P a tr -> Q a tr) -> always p Q.
Proof. intros Hp H w. apply H, Hp. Qed.

(** A loop whose body keeps a property of its own trace. *)
Lemma always_for_each {A} (l : list A) (f : A -> prog S unit) (P : list (event S) -> Prop) :
  P [] -> (forall t t', P t -> P t' -> P (t ++ t')) ->
  (forall a, a ∈ l -> always (f a) (fun _ tr => P tr)) ->
  always (for_each l f) (fun _ tr => P tr).
Proof.
  intros H0 Happ. induction l as [| a l IH]; intros Hf; simpl; [by apply always_Ret |].
  eapply always_bind; [apply Hf; by left |]. simpl. intros _ tr Htr.
  eapply always_impl; [apply IH; intros; apply Hf; by right |]. auto.
Qed.
End run.

(** What one run satisfies: the result, the final state and the trace from [w]. *)
Section from.
Context {S : Sig} {W : Type} (h : env S W).

Definition from {A} (w : W) (p : prog S A) (Q : A -> W -> list (event S) -> Prop) : Prop :=
  Q (result (run h p w)) (final (run h p w)) (trace (run h p w)).

Lemma from_Ret {A} w (a : A) (Q : A -> W -> list (event S) -> Prop) : Q a w [] -> from w (Ret a) Q.
Proof. done. Qed.

Lemma from_Do {A} w c (k : res S c -> prog S A) Q :
  from (h c w).2 (k (h c w).1) (fun a w' tr => Q a w' (ev c (h c w).1 :: tr)) -> from w (Do c k) Q.
Proof.
  unfold from. simpl. destruct (h c w) as [r w1]. simpl.
  by destruct (run h (k r) w1) as [[a w2] tr].
Qed.

Lemma from_bind {A B} w (p : prog S A) (f : A -> prog S B) P Q :
  from w p P ->
  (forall a w1 tr, P a w1 tr -> from w1 (f a) (fun b w2 tr' => Q b w2 (tr ++ tr'))) ->
  from w (bind p f) Q.
Proof.
  unfold from. intros Hp Hf. rewrite run_bind. destruct (run h p w) as [[a w1] tr1]. simpl in Hp.
  specialize (Hf a w1 tr1 Hp). by destruct (run h (f a) w1) as [[b w2] tr2].
Qed.

Lemma from_impl {A} w (p : prog S A) (P Q : A -> W -> list (event S) -> Prop) :
  from w p P -> (forall a w' tr, P a w' tr -> Q a w' tr) -> from w p Q.
Proof. intros H HPQ. by apply HPQ. Qed.

(** A loop with an invariant over the elements done so far. *)
Lemma from_for_each {A} w (l : list A) (f : A -> prog S unit) (I : list A -> W -> list (event S) -> Prop) :
  I [] w [] ->
  (forall before a w1 tr, I before w1 tr -> a ∈ l ->
     from w1 (f a) (fun _ w2 tr' => I (before ++ [a]) w2 (tr ++ tr'))) ->
  from w (for_each l f) (fun _ w' tr => I l w' tr).
Proof.
  intros H0 Hf.
  assert (forall rest before w1 tr, (forall a, a ∈ rest -> a ∈ l) -> I before w1 tr ->
    from w1 (for_each rest f) (fun _ w2 tr' => I (before ++ rest) w2 (tr ++ tr'))) as H.
  { induction rest as [| a rest IH]; intros before w1 tr Hl HI; simpl.
    - apply from_Ret. by rewrite !app_nil_r.
    - eapply from_bind; [apply Hf; [exact HI |]; apply Hl; by left |]. simpl. intros ? w2 tr' HI'.
      eapply from_impl; [apply (IH _ _ _ (fun b Hb => Hl b (list_elem_of_further _ _ _ Hb)) HI') |].
      simpl. intros ? w3 tr3 H3. by rewrite <- !app_assoc in H3. }
  eapply from_impl; [by apply (H l [] w []) |]. done.
Qed.
End from.

(** Every command a program can issue satisfies a predicate. *)
Section commands.
Context {S : Sig} (P : cmd S -> Prop).

Fixpoint only {A} (p : prog S A) : Prop :=
  match p with
  | Ret _ => True
  | Do c k => P c /\ forall r, only (k r)
  end.

Lemma only_bind {A B} (p : prog S A) (f : A -> prog S B) :
  only p -> (forall a, only (f a)) -> only (bind p f).
Proof. intros Hp Hf. induction p as [a | c k IH]; simpl in *; [apply Hf | destruct Hp; auto]. Qed.

Lemma only_for_each {A} (l : list A) (f : A -> prog S unit) :
  (forall a, only (f a)) -> only (for_each l f).
Proof. intros Hf. induction l; simpl; [done | by apply only_bind]. Qed.

(** What those commands keep, the program keeps. *)
Lemma only_invariant {W A} (h : env S W) (I : W -> Prop) (p : prog S A) w :
  only p -> (forall c w, P c -> I w -> I (h c w).2) -> I w ->
  from h w p (fun _ w' _ => I w').
Proof.
  intros Hp HI. revert w. induction p as [a | c k IH]; intros w Hw; [done |].
  destruct Hp as [Hc Hk]. apply from_Do. by apply IH; [| apply HI].
Qed.
End commands.

(** Every run issues only such commands. *)
Lemma only_always {S : Sig} (P : cmd S -> Prop) {W A} (h : env S W) (p : prog S A) :
  only P p -> always h p (fun _ tr => Forall (fun e => P (projT1 e)) tr).
Proof.
  induction p as [a | c k IH]; intros Hp; [by apply always_Ret |]. destruct Hp as [Hc Hk].
  apply always_Do. intros r. eapply always_impl; [apply IH, Hk |]. intros ? tr Htr. by constructor.
Qed.

Lemma only_impl {S : Sig} (P Q : cmd S -> Prop) {A} (p : prog S A) :
  only P p -> (forall c, P c -> Q c) -> only Q p.
Proof. intros Hp H. induction p as [a | c k IH]; simpl in *; [done |]. destruct Hp. auto. Qed.

(** Events selected by a test on the command and its answer. *)
Section counting.
Context {S : Sig} (p : event S -> bool).

Definition occurrences (tr : list (event S)) : nat := length (filter p tr).

Lemma occurrences_app t t' : occurrences (t ++ t') = (occurrences t + occurrences t')%nat.
Proof. unfold occurrences. by rewrite filter_app, length_app. Qed.
Lemma occurrences_nil : occurrences [] = O.
Proof. done. Qed.
Lemma occurrences_cons e t :
  occurrences (e :: t) = ((if p e then 1 else 0) + occurrences t)%nat.
Proof. unfold occurrences. rewrite filter_cons. destruct (p e); by simpl. Qed.
End counting.
#[export] Hint Rewrite @occurrences_app @occurrences_nil @occurrences_cons : go.

(** What a trace shows of one kind of event. *)
Section views.
Context {S : Sig} {B : Type} (v : event S -> list B).

Definition view (tr : list (event S)) : list B := tr ≫= v.

Lemma view_nil : view [] = [].
Proof. done. Qed.
Lemma view_cons e tr : view (e :: tr) = v e ++ view tr.
Proof. apply bind_cons. Qed.
Lemma view_app t t' : view (t ++ t') = view t ++ view t'.
Proof. apply bind_app. Qed.

(** A loop shows what its bodies show, in order. *)
Lemma always_for_each_view {W A} (h : env S W) (l : list A) (f : A -> prog S unit) (g : A -> list B) :
  (forall a, a ∈ l -> always h (f a) (fun _ tr => view tr = g a)) ->
  always h (for_each l f) (fun _ tr => view tr = l ≫= g).
Proof.
  induction l as [| a l IH]; intros Hf; simpl; [by apply always_Ret |].
  eapply always_bind; [apply Hf; by left |]. simpl. intros _ tr Htr.
  eapply always_impl; [apply IH; intros; apply Hf; by right |]. simpl.
  intros _ tr' Htr'. by rewrite view_app, Htr, Htr'.
Qed.
End views.
#[export] Hint Rewrite @view_nil @view_cons @view_app : go.

(** Two facts about the same program. *)
Lemma always_and {S : Sig} {W A} (h : env S W) (p : prog S A) P Q :
  always h p P -> always h p Q -> always h p (fun a tr => P a tr /\ Q a tr).
Proof. intros H1 H2 w. split; [apply H1 | apply H2]. Qed.

(** Walk a straight-line program, answering each command by a variable; the
    commands of a signature are unfolded by the hints of [prog]. *)
Create HintDb prog.
#[export] Hint Unfold call : prog.

Ltac walk :=
  repeat first
    [ apply always_Ret
    | apply always_Do; let r := fresh "r" in intros r; cbn [bind]
    | progress (autounfold with prog; cbn [bind])
    | case_match; cbn [bind] ].

(** What every run ends with, whatever is answered. *)
Fixpoint ends {S A} (p : prog S A) (P : A -> Prop) : Prop :=
  match p with
  | Ret a => P a
  | Do c k => forall r, ends (k r) P
  end.

Lemma ends_bind {S A B} (p : prog S A) (f : A -> prog S B) (P : A -> Prop) (Q : B -> Prop) :
  ends p P -> (forall a, P a -> ends (f a) Q) -> ends (bind p f) Q.
Proof. intros Hp Hf. induction p as [a | c k IH]; cbn in *; eauto. Qed.
Lemma ends_True {S A} (p : prog S A) : ends p (fun _ => True).
Proof. induction p; cbn; auto. Qed.
Lemma ends_always {S : Sig} {W A} (h : env S W) (p : prog S A) P : ends p P -> always h p (fun a _ => P a).
Proof. induction p as [a | c k IH]; intros Hp; [by apply always_Ret | apply always_Do; auto]. Qed.

(** What every run does, each event seen after those before it: it is as [Q] says, and
    the run ends as [P] says. *)
Section history.
Context {S : Sig}.

Fixpoint sat {A} (Q : list (event S) -> event S -> Prop) (past : list (event S)) (p : prog S A)
    (P : list (event S) -> A -> Prop) : Prop :=
  match p with
  | Ret a => P past a
  | Do c k => forall r, Q past (ev c r) /\ sat Q (past ++ [ev c r]) (k r) P
  end.

Lemma sat_bind {A B} Q past (p : prog S A) (f : A -> prog S B) P P' :
  sat Q past p P -> (forall past' a, P past' a -> sat Q past' (f a) P') -> sat Q past (bind p f) P'.
Proof.
  revert past. induction p as [a | c k IH]; intros past Hp Hf; cbn in *; [auto |].
  intros r. destruct (Hp r). split; [done |]. by apply IH.
Qed.

Lemma sat_impl {A} Q past (p : prog S A) (P P' : list (event S) -> A -> Prop) :
  sat Q past p P -> (forall past' a, P past' a -> P' past' a) -> sat Q past p P'.
Proof.
  revert past. induction p as [a | c k IH]; intros past Hp HP; cbn in *; [auto |].
  intros r. destruct (Hp r). split; [done |]. by eapply IH.
Qed.

Lemma sat_always {W A} (h : env S W) Q past (p : prog S A) P :
  sat Q past p P ->
  always h p (fun a tr => P (past ++ tr) a /\ forall t1 e t2, tr = t1 ++ e :: t2 -> Q (past ++ t1) e).
Proof.
  revert past. induction p as [a | c k IH]; intros past Hp; cbn [sat] in Hp.
  - apply always_Ret. rewrite app_nil_r. split; [done |]. by intros [].
  - apply always_Do. intros r. destruct (Hp r) as [Hq Hk]. eapply always_impl; [by apply IH |]. cbn beta.
    intros a tr [H1 H2]. rewrite <- app_assoc in H1. split; [done |].
    intros [| e1 t1] e t2 [= <- E]; [by rewrite app_nil_r |]. specialize (H2 _ _ _ E). by rewrite <- app_assoc in H2.
Qed.
End history.

(** Commands of one signature carried out as programs over another. *)
Fixpoint interp {S T A} (f : forall c : cmd S, prog T (res S c)) (p : prog S A) : prog T A :=
  match p with
  | Ret a => Ret a
  | Do c k => bind (f c) (fun r => interp f (k r))
  end.

Lemma interp_sat {S T A} (R : relation (list (event T))) `{!PreOrder R}
    (f : forall c : cmd S, prog T (res S c)) (p : prog S A) Q past (P : A -> Prop) :
  (forall past c, sat Q past (f c) (fun past' _ => R past past')) ->
  ends p P -> sat Q past (interp f p) (fun past' a => R past past' /\ P a).
Proof.
  intros Hf. revert past. induction p as [a | c k IH]; intros past Hp; cbn; [by split |].
  eapply sat_bind; [apply Hf |]. cbn. intros past1 r H1. eapply sat_impl; [by apply IH |].
  cbn. intros past2 a [H2 Ha]. split; [by etrans | done].
Qed.
