(* ===== verification/ConsistentHash.v ===== *)
(** * The consistent-hash ring: apps/pkg/GrowRPC/xclient/consistent_hash.go

    [New], [Add] and [Get] of the ring, the abstract notion of clockwise
    successor [Get] implements, and the stability theorems that make it usable
    for routing: membership, minimal disruption and independence of the order in
    which servers were learnt. *)
From S2P Require Import Prelude GoStd.

(** Hash: [func(data []byte) uint32]. *)
Definition Hash : Type := string -> Z.

Record Map := mkMap {
  hash : Hash;
  replicas : Z;
  keys : list Z;
  hashMap : gmap Z string;
}.

(** New: a nil hash function selects [crc32.ChecksumIEEE]. *)
Definition New (replicas : Z) (fn : option Hash) : Map :=
  mkMap (default ChecksumIEEE fn) replicas [] ∅.

(** The body of Add's inner loop: one virtual node. *)
Definition add_virtual (key : string) (m : Map) (i : Z) : Map :=
  let h := hash m (Itoa i +:+ key) in
  mkMap (hash m) (replicas m) (keys m ++ [h]) (<[h := key]> (hashMap m)).

(** The body of Add's outer loop: the virtual nodes of one server. *)
Definition add_node (m : Map) (key : string) : Map :=
  foldl (add_virtual key) m (seqZ 0 (replicas m)).

Definition Add (ks : list string) (m : Map) : Map :=
  let m' := foldl add_node m ks in
  mkMap (hash m') (replicas m') (sort_Ints (keys m')) (hashMap m').

Definition Get (m : Map) (key : string) : string :=
  match keys m with
  | [] => ""
  | _ =>
      let h := hash m key in
      let n := length (keys m) in
      let idx := sort_Search n (fun i => match keys m !! i with
                                         | Some k => h <=? k
                                         | None => false
                                         end) in
      default "" (keys m !! (idx mod n)%nat ≫= fun k => hashMap m !! k)
  end.

(** ** The abstract ring *)

(** [clockwise P h s]: [s] is the first point of [P] at or after [h], wrapping
    around to the least point when there is none. *)
Definition clockwise (P : Z -> Prop) (h s : Z) : Prop :=
  P s /\
  ((h <= s /\ forall k, P k -> h <= k -> s <= k) \/
   ((forall k, P k -> k < h) /\ forall k, P k -> s <= k)).

Lemma clockwise_unique P h s s' : clockwise P h s -> clockwise P h s' -> s = s'.
Proof.
  intros (Hs & [(H1 & H2) | (H1 & H2)]) (Hs' & [(H1' & H2') | (H1' & H2')]);
    pose proof (H2 s' Hs'); pose proof (H2' s Hs);
    try pose proof (H1 s' Hs'); try pose proof (H1' s Hs); lia.
Qed.

#[export] Instance clockwise_proper :
  Proper (pointwise_relation Z iff ==> eq ==> eq ==> iff) clockwise.
Proof.
  intros P Q HPQ h ? <- s ? <-. unfold clockwise.
  unfold pointwise_relation in HPQ. by setoid_rewrite HPQ.
Qed.

Lemma clockwise_iff (P Q : Z -> Prop) h s :
  (forall k, P k <-> Q k) -> clockwise P h s <-> clockwise Q h s.
Proof. intros H. by apply clockwise_proper. Qed.

(** Adding points only redirects to the new points. *)
Lemma clockwise_extend (P Q : Z -> Prop) h s s' :
  clockwise P h s -> clockwise (fun k => P k \/ Q k) h s' -> s' = s \/ Q s'.
Proof.
  intros Hs Hs'. destruct Hs' as ([HP | HQ] & Hor); [| by right]. left.
  apply (clockwise_unique P h); [| done]. split; [done |].
  destruct Hor as [(? & H2) | (H1 & H2)]; [left | right]; split; auto.
Qed.

(** ** The representation invariant *)

Definition ring_wf (m : Map) : Prop :=
  StronglySorted Z.le (keys m) /\ forall h, h ∈ keys m <-> is_Some (hashMap m !! h).

(** The points server [key] puts on the ring. *)
Definition vnodes (m : Map) (key : string) : list Z :=
  (fun i => hash m (Itoa i +:+ key)) <$> seqZ 0 (replicas m).

Lemma New_wf r fn : ring_wf (New r fn).
Proof.
  split; simpl; [constructor |]. intros h. rewrite lookup_empty.
  split; [intros H; by apply elem_of_nil in H | by intros []].
Qed.

Lemma add_virtual_fold key m ns :
  let m' := foldl (add_virtual key) m ns in
  hash m' = hash m /\ replicas m' = replicas m /\
  keys m' = keys m ++ ((fun i => hash m (Itoa i +:+ key)) <$> ns) /\
  forall h, hashMap m' !! h =
    if decide (h ∈ (fun i => hash m (Itoa i +:+ key)) <$> ns) then Some key else hashMap m !! h.
Proof.
  revert m. induction ns as [| i ns IH]; intros m; cbn [foldl fmap list_fmap].
  { split_and!; [done | done | by rewrite app_nil_r |].
    intros h. case_decide as Hd; [by apply elem_of_nil in Hd | done]. }
  destruct (IH (add_virtual key m i)) as (H1 & H2 & H3 & H4). simpl in *.
  split_and!; [done | done | by rewrite H3, <- app_assoc |].
  intros h. rewrite H4.
  destruct (decide (h ∈ _ <$> ns)) as [Hin | Hin];
    destruct (decide (h ∈ _ :: _)) as [Hc | Hc]; rewrite elem_of_cons in Hc; try tauto.
  - destruct Hc as [-> | Hc]; [by rewrite lookup_insert_eq | done].
  - rewrite lookup_insert_ne; [done | intros <-; tauto].
Qed.

Lemma add_node_spec m key :
  hash (add_node m key) = hash m /\ replicas (add_node m key) = replicas m /\
  keys (add_node m key) = keys m ++ vnodes m key /\
  forall h, hashMap (add_node m key) !! h =
    if decide (h ∈ vnodes m key) then Some key else hashMap m !! h.
Proof. apply add_virtual_fold. Qed.

(** What a whole Add does to the ring: every new point belongs to a server that
    owns it among those added, and the other points keep their owner. *)
Lemma add_nodes_spec ks m :
  let m' := foldl add_node m ks in
  hash m' = hash m /\ replicas m' = replicas m /\
  keys m' ≡ₚ keys m ++ (ks ≫= vnodes m) /\
  forall h,
    (h ∉ ks ≫= vnodes m -> hashMap m' !! h = hashMap m !! h) /\
    (h ∈ ks ≫= vnodes m -> exists k, k ∈ ks /\ h ∈ vnodes m k /\ hashMap m' !! h = Some k).
Proof.
  revert m. induction ks as [| key ks IH]; intros m; cbn [foldl].
  { split_and!; [done | done | by rewrite app_nil_r |].
    intros h. split; [done |]. intros H. by apply elem_of_nil in H. }
  destruct (add_node_spec m key) as (A1 & A2 & A3 & A4).
  destruct (IH (add_node m key)) as (H1 & H2 & H3 & H4).
  assert (forall k, vnodes (add_node m key) k = vnodes m k) as HV.
  { intros k. unfold vnodes. by rewrite A1, A2. }
  assert (ks ≫= vnodes (add_node m key) = ks ≫= vnodes m) as HB.
  { by apply list_bind_ext. }
  rewrite HB in H3, H4. rewrite !bind_cons.
  split_and!.
  - by rewrite H1.
  - by rewrite H2.
  - rewrite H3, A3. by rewrite <- app_assoc.
  - intros h. split.
    { intros Hn. rewrite elem_of_app in Hn. rewrite (proj1 (H4 h)) by tauto.
      rewrite A4. by rewrite decide_False by tauto. }
    intros Hin. destruct (decide (h ∈ ks ≫= vnodes m)) as [Hk | Hk].
    + destruct (proj2 (H4 h) Hk) as (k & ? & Hv & ?). exists k. rewrite HV in Hv.
      split; [by right | done].
    + assert (h ∈ vnodes m key) by (apply elem_of_app in Hin; tauto).
      exists key. split_and!; [by left | done |].
      rewrite (proj1 (H4 h)) by done. rewrite A4. by rewrite decide_True.
Qed.

Lemma Add_fields ks m :
  hash (Add ks m) = hash m /\ replicas (Add ks m) = replicas m /\
  hashMap (Add ks m) = hashMap (foldl add_node m ks) /\
  forall h, h ∈ keys (Add ks m) <-> h ∈ keys m \/ h ∈ ks ≫= vnodes m.
Proof.
  destruct (add_nodes_spec ks m) as (H1 & H2 & H3 & _).
  unfold Add. simpl. split_and!; [done | done | done |].
  intros h. rewrite sort_Ints_elem, H3. apply elem_of_app.
Qed.

Lemma Add_wf ks m : ring_wf m -> ring_wf (Add ks m).
Proof.
  intros [_ Hm]. split; [apply sort_Ints_sorted |]. intros h.
  destruct (Add_fields ks m) as (_ & _ & -> & ->).
  destruct (add_nodes_spec ks m) as (_ & _ & _ & H4).
  rewrite Hm. destruct (decide (h ∈ ks ≫= vnodes m)) as [Hin | Hn].
  - destruct (proj2 (H4 h) Hin) as (k & _ & _ & ->). split; eauto.
  - rewrite (proj1 (H4 h) Hn). tauto.
Qed.
#[export] Hint Resolve New_wf Add_wf : go.

Lemma Add_keys_length ks m :
  0 <= replicas m -> len (keys (Add ks m)) = len (keys m) + replicas m * len ks.
Proof.
  intros Hr. destruct (add_nodes_spec ks m) as (_ & _ & H3 & _).
  unfold len, Add. simpl. rewrite sort_Ints_length, H3, length_app. clear H3.
  enough (Z.of_nat (length (ks ≫= vnodes m)) = replicas m * Z.of_nat (length ks)) by lia.
  induction ks as [| k ks IH]; [simpl; lia |].
  rewrite bind_cons, length_app. cbn [length].
  unfold vnodes at 1. rewrite length_fmap, length_seqZ. lia.
Qed.

(** Get finds the clockwise successor of the key's hash and returns its owner. *)
Lemma Get_clockwise m key :
  ring_wf m -> keys m <> [] ->
  exists s, clockwise (.∈ keys m) (hash m key) s /\ hashMap m !! s = Some (Get m key).
Proof.
  intros [Hsort Hdom] Hne. unfold Get.
  destruct (keys m) as [| k0 ks] eqn:Hk; [done |]. rewrite <- Hk in *. clear Hne.
  set (h := hash m key). set (n := length (keys m)).
  set (f := fun i => match keys m !! i with Some k => h <=? k | None => false end).
  assert (0 < n)%nat as Hn by (unfold n; rewrite Hk; simpl; lia).
  destruct (sort_Search_spec n f) as (Hle & Hlo & Hhi).
  { intros a b [Hab Hbn]. unfold f.
    destruct (lookup_lt_is_Some_2 (keys m) a) as [ka Ha]; [unfold n in Hbn; lia |].
    destruct (lookup_lt_is_Some_2 (keys m) b) as [kb Hb]; [done |].
    rewrite Ha, Hb, !Z.leb_le. pose proof (sorted_lookup_le _ _ _ _ _ Hsort Ha Hb Hab). lia. }
  set (r := sort_Search n f) in *.
  destruct (lookup_lt_is_Some_2 (keys m) (r mod n)) as [s Hs]; [by apply Nat.mod_upper_bound; lia |].
  rewrite Hs. simpl.
  assert (s ∈ keys m) as Hin by (by eapply list_elem_of_lookup_2).
  exists s. split; [| by destruct (proj1 (Hdom s) Hin) as [v ->]].
  split; [done |].
  destruct (decide (r = n)) as [Hr | Hr].
  - right. rewrite Hr, Nat.Div0.mod_same in Hs. split.
    + intros k [i Hi]%list_elem_of_lookup. pose proof (lookup_lt_Some _ _ _ Hi) as Hlt.
      specialize (Hlo i ltac:(unfold n in *; lia)). unfold f in Hlo. rewrite Hi in Hlo. lia.
    + intros k [i Hi]%list_elem_of_lookup. eapply (sorted_lookup_le _ 0 i); eauto with lia.
  - left. rewrite Nat.mod_small in Hs by lia. split.
    + specialize (Hhi r ltac:(lia)). unfold f in Hhi. rewrite Hs in Hhi. lia.
    + intros k [i Hi]%list_elem_of_lookup Hhk. pose proof (lookup_lt_Some _ _ _ Hi) as Hlt.
      destruct (decide (r <= i)%nat) as [Hri | Hri].
      * by eapply (sorted_lookup_le _ r i); eauto.
      * specialize (Hlo i ltac:(lia)). unfold f in Hlo. rewrite Hi in Hlo. lia.
Qed.

Lemma Get_empty m key : keys m = [] -> Get m key = "".
Proof. unfold Get. by intros ->. Qed.

(** No two servers share a point. *)
Definition collision_free (m : Map) (ks : list string) : Prop :=
  forall k1 k2 h, k1 ∈ ks -> k2 ∈ ks -> h ∈ vnodes m k1 -> h ∈ vnodes m k2 -> k1 = k2.

Lemma NoDup_collision_free m ks : NoDup (ks ≫= vnodes m) -> collision_free m ks.
Proof.
  unfold collision_free. induction ks as [| k ks IH]; rewrite ?bind_cons.
  { intros _ k1 k2 h H. by apply elem_of_nil in H. }
  intros (Hk & Hdisj & Hks)%NoDup_app k1 k2 h.
  assert (forall k', k' ∈ ks -> h ∈ vnodes m k' -> h ∈ ks ≫= vnodes m) as Hin.
  { intros k' ? ?. apply list_elem_of_bind. eauto. }
  rewrite !elem_of_cons. intros [-> | H1] [-> | H2] Hv1 Hv2; eauto.
  - destruct (Hdisj h); eauto.
  - destruct (Hdisj h); eauto.
Qed.

(** [a] owns the clockwise successor of the key's hash on the ring of [ks]. *)
Definition ring_owner (r : Z) (fn : option Hash) (ks : list string) (key a : string) : Prop :=
  exists s, clockwise (fun h => h ∈ ks ≫= vnodes (New r fn)) (hash (New r fn) key) s /\
    a ∈ ks /\ s ∈ vnodes (New r fn) a.

Lemma Get_ring_owner r fn ks key :
  0 < r -> ks <> [] -> ring_owner r fn ks key (Get (Add ks (New r fn)) key).
Proof.
  set (m := Add ks (New r fn)).
  intros Hr Hks. destruct (Add_fields ks (New r fn)) as (Eh & _ & HM & HK).
  fold m in Eh, HM, HK. unfold ring_owner. rewrite <- Eh.
  assert (forall h, h ∈ keys m <-> h ∈ ks ≫= vnodes (New r fn)) as HK'.
  { intros h. rewrite HK. simpl. rewrite elem_of_nil. tauto. }
  destruct (Get_clockwise m key) as (s & Hs & Howner).
  - apply Add_wf, New_wf.
  - intros Hnil. pose proof (Add_keys_length ks (New r fn) ltac:(simpl; lia)) as HL.
    fold m in HL. rewrite Hnil in HL. unfold len in HL. simpl in HL.
    destruct ks; [done | simpl in HL; lia].
  - exists s. split; [by apply (clockwise_iff _ _ _ _ HK') |].
    destruct Hs as [Hin _]. apply HK' in Hin.
    destruct (add_nodes_spec ks (New r fn)) as (_ & _ & _ & H4).
    destruct (proj2 (H4 s) Hin) as (k & Hk & Hv & HMk).
    assert (Get m key = k) as -> by (rewrite HM in Howner; congruence).
    done.
Qed.

Lemma ring_owner_unique r fn ks ks' key a a' :
  (forall k, k ∈ ks <-> k ∈ ks') -> collision_free (New r fn) ks ->
  ring_owner r fn ks key a -> ring_owner r fn ks' key a' -> a = a'.
Proof.
  intros Hperm Hfree (s & Hs & Hin & Hv) (s' & Hs' & Hin' & Hv').
  apply (clockwise_iff _ (fun h => h ∈ ks ≫= vnodes (New r fn))) in Hs'.
  2: { intros h. rewrite !list_elem_of_bind. by setoid_rewrite Hperm. }
  pose proof (clockwise_unique _ _ _ _ Hs Hs') as <-.
  eapply (Hfree _ _ s); eauto. by apply Hperm.
Qed.

Lemma Get_same_set r fn ks ks' key :
  0 < r -> (forall k, k ∈ ks <-> k ∈ ks') -> collision_free (New r fn) ks ->
  Get (Add ks (New r fn)) key = Get (Add ks' (New r fn)) key.
Proof.
  intros Hr Hperm Hfree.
  destruct (decide (ks = [])) as [-> | Hne].
  { destruct ks' as [| k ks']; [done |].
    assert (k ∈ []) as Hin by (apply Hperm; left). by apply elem_of_nil in Hin. }
  assert (ks' <> []) as Hne'.
  { intros ->. destruct ks as [| k ks]; [done |].
    assert (k ∈ []) as Hin by (apply Hperm; left). by apply elem_of_nil in Hin. }
  eapply ring_owner_unique; [exact Hperm | exact Hfree | |]; by apply Get_ring_owner.
Qed.

(** C34: On a ring built by New and Add, Get is the owner of the key's clockwise
    successor - the first point at or after its hash, else the least point - and
    when no two servers share a point it is the only such server. *)
Theorem Get_refines_ring r fn ks key :
  0 < r -> ks <> [] ->
  ring_owner r fn ks key (Get (Add ks (New r fn)) key) /\
  (collision_free (New r fn) ks ->
   forall a, ring_owner r fn ks key a -> a = Get (Add ks (New r fn)) key).
Proof.
  intros Hr Hks. split; [by apply Get_ring_owner |]. intros Hfree a Ha.
  eapply ring_owner_unique; [| exact Hfree | exact Ha | by apply Get_ring_owner]. done.
Qed.

Lemma Get_refines_ring_witness :
  ring_owner 3 None ["tcp@a:1"; "tcp@b:2"] "42" (Get (Add ["tcp@a:1"; "tcp@b:2"] (New 3 None)) "42") /\
  (collision_free (New 3 None) ["tcp@a:1"; "tcp@b:2"] ->
   forall a, ring_owner 3 None ["tcp@a:1"; "tcp@b:2"] "42" a ->
   a = Get (Add ["tcp@a:1"; "tcp@b:2"] (New 3 None)) "42").
Proof. apply (Get_refines_ring 3 None ["tcp@a:1"; "tcp@b:2"] "42"); [lia | done]. Defined.

(** Adding servers disturbs only the keys that move to them: after Add every
    key keeps its server or is taken over by one of those added. *)
Theorem Add_minimal_disruption m ks key :
  ring_wf m -> keys m <> [] ->
  Get (Add ks m) key = Get m key \/ Get (Add ks m) key ∈ ks.
Proof.
  intros Hwf Hne. destruct (Add_fields ks m) as (Hh & _ & HM & HK).
  destruct (add_nodes_spec ks m) as (_ & _ & _ & H4).
  destruct (Get_clockwise m key Hwf Hne) as (s & Hs & Howner).
  destruct (Get_clockwise (Add ks m) key) as (s' & Hs' & Howner'); [by apply Add_wf | |].
  { intros Hnil. destruct (keys m) as [| k0 l]; [done |].
    assert (k0 ∈ keys (Add ks m)) as Hin by (apply HK; left; left).
    rewrite Hnil in Hin. by apply elem_of_nil in Hin. }
  rewrite Hh in Hs'. apply (clockwise_iff _ _ _ _ HK) in Hs'.
  rewrite HM in Howner'.
  destruct (decide (s' ∈ ks ≫= vnodes m)) as [Hnew | Hold].
  - right. destruct (proj2 (H4 s') Hnew) as (k & Hk & _ & E). by simplify_eq.
  - left. destruct (clockwise_extend _ _ _ _ _ Hs Hs') as [-> | ?]; [| done].
    rewrite (proj1 (H4 s) Hold) in Howner'. by simplify_eq.
Qed.

Lemma Add_minimal_disruption_witness :
  let m := Add ["tcp@a:1"; "tcp@b:2"] (New 3 None) in
  Get (Add ["tcp@c:3"] m) "42" = Get m "42" \/ Get (Add ["tcp@c:3"] m) "42" ∈ ["tcp@c:3"].
Proof.
  apply (Add_minimal_disruption (Add ["tcp@a:1"; "tcp@b:2"] (New 3 None)) ["tcp@c:3"] "42").
  - apply Add_wf, New_wf.
  - vm_compute. discriminate.
Defined.

(** The owner table after an Add depends on the table before it, not on the
    order of the points. *)
Definition own_node (f : Hash) (n : Z) (M : gmap Z string) (key : string) : gmap Z string :=
  foldl (fun M i => <[f (Itoa i +:+ key) := key]> M) M (seqZ 0 n).

Lemma add_virtuals_eq key ns f n l M :
  foldl (add_virtual key) (mkMap f n l M) ns =
  mkMap f n (l ++ ((fun i => f (Itoa i +:+ key)) <$> ns))
    (foldl (fun M i => <[f (Itoa i +:+ key) := key]> M) M ns).
Proof.
  revert l M. induction ns as [| i ns IH]; intros l M; cbn [foldl fmap list_fmap].
  { by rewrite app_nil_r. }
  unfold add_virtual at 2. simpl. rewrite IH. by rewrite <- app_assoc.
Qed.

Lemma add_nodes_eq ks f n l M :
  foldl add_node (mkMap f n l M) ks =
  mkMap f n (l ++ (ks ≫= vnodes (New n (Some f)))) (foldl (own_node f n) M ks).
Proof.
  revert l M. induction ks as [| k ks IH]; intros l M; cbn [foldl].
  { by rewrite app_nil_r. }
  unfold add_node at 2. cbn [replicas]. rewrite add_virtuals_eq, IH, bind_cons. by rewrite <- app_assoc.
Qed.

Lemma Add_Add ks ks' m : Add ks' (Add ks m) = Add (ks ++ ks') m.
Proof.
  destruct m as [f n l M]. unfold Add. cbv zeta. rewrite !add_nodes_eq.
  cbn [hash replicas keys hashMap]. rewrite ?add_nodes_eq, foldl_app.
  cbn [hash replicas keys hashMap]. f_equal. apply sort_Ints_unique. by rewrite sort_Ints_perm, bind_app, app_assoc.
Qed.

(** The ring depends only on the set of servers: however the servers were
    ordered and split over successive Add calls, every key is routed to the same
    server, provided no two servers share a virtual-node hash. *)
Theorem Get_order_independent r fn ks1 ks2 ks' key :
  0 < r -> (forall k, k ∈ ks' <-> k ∈ ks1 ++ ks2) -> collision_free (New r fn) ks' ->
  Get (Add ks2 (Add ks1 (New r fn))) key = Get (Add ks' (New r fn)) key.
Proof. intros Hr Hset Hfree. rewrite Add_Add. symmetry. by apply Get_same_set. Qed.

Lemma Get_order_independent_witness :
  Get (Add ["tcp@a:1"] (Add ["tcp@b:2"] (New 2 None))) "42" =
  Get (Add ["tcp@a:1"; "tcp@b:2"] (New 2 None)) "42".
Proof.
  apply (Get_order_independent 2 None ["tcp@b:2"] ["tcp@a:1"] ["tcp@a:1"; "tcp@b:2"] "42").
  - lia.
  - intros k. simpl. rewrite !elem_of_cons, elem_of_nil. tauto.
  - apply NoDup_collision_free. apply (bool_decide_unpack _). vm_compute. exact I.
Defined.
