(* ===== verification/Discovery.v ===== *)
(** * Service discovery: apps/pkg/GrowRPC/xclient/discovery*.go

    [Module Multi] is the hand-maintained list of discovery.go, [Module Etcd] the
    watcher of discovery_etcd.go and [Module Gee] the registry client of
    discovery_gee.go. The class [Discovery] is the Go interface they implement
    and [DiscoveryLaws] what a client may rely on. Each method holds the mutex
    for its whole body, so a method is one atomic transition. *)
From S2P Require Import Prelude GoStd ConsistentHash.

(** SelectMode: an int, with its three named values. *)
Inductive SelectMode :=
| RandomSelect
| RoundRobinSelect
| ConsistentHashSelect
| OtherMode (n : Z).

(** [math/rand]: a generator state and [Intn], whose result lies in [0, n). *)
Class Rand (G : Type) := {
  Intn : Z -> G -> Z * G;
  Intn_range : forall n g, 0 < n -> 0 <= (Intn n g).1 < n;
}.

Definition err_no_servers : string := "rpc discovery: no available servers".
Definition err_key_required : string := "rpc discovery: key is required for ConsistentHash".
Definition err_mode : string := "rpc discovery: not supported select mode".

(** Fifty virtual nodes per server and the default hash. *)
Definition ring_of (servers : list string) : Map := Add servers (New 50 None).

Lemma ring_of_owner servers key : servers <> [] -> Get (ring_of servers) key ∈ servers.
Proof.
  intros H. destruct (Get_ring_owner 50 None servers key) as (? & _ & ? & _); [lia | done | done].
Qed.

(** ** The interface *)

Class Discovery (D : Type) := {
  disc_get : SelectMode -> string -> D -> outcome string * D;
  disc_getall : D -> outcome (list string) * D;
}.

(** What a client relies on: an address Get returns is one GetAll would list, and
    consistent-hash selection needs a key and has no memory. *)
Class DiscoveryLaws (D : Type) `{Discovery D} (inv : D -> Prop) := {
  disc_get_inv : forall mode key d, inv d -> inv (disc_get mode key d).2;
  disc_get_member : forall mode key d a l,
    inv d -> (disc_get mode key d).1 = Ok a -> (disc_getall d).1 = Ok l -> a ∈ l;
  disc_sticky : forall key d, (disc_get ConsistentHashSelect key d).2 = d;
  disc_keyless : forall d, exists e, (disc_get ConsistentHashSelect "" d).1 = Err e;
}.

Module Multi.
Section multi.
Context {G : Type} `{Rand G}.

Record MultiServersDiscovery := mkMulti {
  r : G;
  servers : list string;
  index : Z;
  hashMap : Map;
}.

Definition NewMultiServerDiscovery (l : list string) (seed : G) : MultiServersDiscovery :=
  let '(i, g) := Intn (MaxInt32 - 1) seed in
  mkMulti g l i (ring_of l).

Definition Refresh (d : MultiServersDiscovery) : outcome unit := Ok tt.

Definition Update (l : list string) (d : MultiServersDiscovery) : MultiServersDiscovery :=
  mkMulti (r d) l (index d) (ring_of l).

Definition Get (mode : SelectMode) (key : string) (d : MultiServersDiscovery)
    : outcome string * MultiServersDiscovery :=
  let n := len (servers d) in
  if n =? 0 then (Err err_no_servers, d)
  else
    match mode with
    | RandomSelect =>
        let '(i, g) := Intn n (r d) in
        (slice_at (servers d) i, mkMulti g (servers d) (index d) (hashMap d))
    | RoundRobinSelect =>
        match slice_at (servers d) (Z.rem (index d) n) with
        | Ok s => (Ok s, mkMulti (r d) (servers d) (Z.rem (int64 (index d + 1)) n) (hashMap d))
        | e => (e, d)
        end
    | ConsistentHashSelect =>
        if String.eqb key "" then (Err err_key_required, d)
        else (Ok (ConsistentHash.Get (hashMap d) key), d)
    | OtherMode _ => (Err err_mode, d)
    end.

Definition GetAll (d : MultiServersDiscovery) : outcome (list string) := Ok (servers d).

#[global] Instance multi_discovery : Discovery MultiServersDiscovery := {
  disc_get := Get;
  disc_getall d := (GetAll d, d);
}.

(** The index fits an int and the ring holds the listed servers. *)
Definition inv (d : MultiServersDiscovery) : Prop :=
  0 <= index d <= MaxInt32 /\ hashMap d = ring_of (servers d).

Lemma multi_New_inv l seed : inv (NewMultiServerDiscovery l seed).
Proof.
  unfold NewMultiServerDiscovery, inv.
  pose proof (Intn_range (MaxInt32 - 1) seed) as Hi. unfold MaxInt32 in *.
  destruct (Intn _ seed) as [i g]; simpl in *. split; [lia | done].
Qed.

Lemma Update_inv l d : inv d -> inv (Update l d).
Proof. intros [Hi _]. by split. Qed.

(** Round robin from any index: no panic, and the index advances by one. *)
Lemma multi_Get_round_robin key d :
  inv d -> servers d <> [] -> len (servers d) <= MaxInt32 ->
  exists s, Get RoundRobinSelect key d =
      (Ok s, mkMulti (r d) (servers d) ((index d + 1) mod len (servers d)) (hashMap d)) /\
    servers d !! Z.to_nat (index d mod len (servers d)) = Some s.
Proof.
  intros [Hi _] Hne Hmax. unfold Get, MaxInt32 in *.
  assert (0 < len (servers d)) as Hn by (unfold len; destruct (servers d); [done | simpl; lia]).
  destruct (Z.eqb_spec (len (servers d)) 0); [lia |].
  rewrite Z.rem_mod_nonneg by lia.
  destruct (slice_at_ok (servers d) (index d mod len (servers d))) as (s & -> & Hs).
  { apply Z.mod_pos_bound. lia. }
  exists s. rewrite int64_id by (unfold is_int64; lia). by rewrite Z.rem_mod_nonneg by lia.
Qed.

#[global] Instance multi_laws :
  DiscoveryLaws MultiServersDiscovery (fun d => inv d /\ len (servers d) <= MaxInt32).
Proof.
  split.
  - intros mode key d [Hinv Hlen]. simpl. unfold Get.
    destruct (Z.eqb_spec (len (servers d)) 0) as [? | Hn0]; [done |].
    destruct mode as [| | | m].
    + destruct (Intn _ _) as [i g]. by destruct Hinv.
    + destruct (multi_Get_round_robin key d Hinv) as (s & HG & _); [by intros E; rewrite E in Hn0 | done |].
      unfold Get in HG. destruct (Z.eqb_spec (len (servers d)) 0); [done |].
      rewrite HG. unfold inv. simpl. pose proof (len_nonneg (servers d)).
      pose proof (Z.mod_pos_bound (index d + 1) (len (servers d))).
      destruct Hinv. repeat split; try lia; done.
    + by destruct (String.eqb key "").
    + done.
  - intros mode key d a l [Hinv Hlen]. simpl. unfold Get, GetAll. intros HG [= <-].
    destruct (Z.eqb_spec (len (servers d)) 0) as [? | Hn0]; [done |].
    destruct mode as [| | | m]; [| | | done].
    + destruct (Intn _ _) as [i g]. by eapply slice_at_elem.
    + destruct (slice_at _ _) eqn:E; simpl in HG; simplify_eq. by eapply slice_at_elem.
    + destruct (String.eqb key ""); simpl in HG; simplify_eq.
      destruct Hinv as [_ ->]. apply ring_of_owner. by intros E; rewrite E in Hn0.
  - intros key d. simpl. unfold Get. by repeat case_match.
  - intros d. simpl. unfold Get. case_match; by eexists.
Qed.

(** [k] successive round-robin selections. *)
Fixpoint get_many (k : nat) (d : MultiServersDiscovery) : list (outcome string) :=
  match k with
  | O => []
  | S k' => let '(s, d') := Get RoundRobinSelect "" d in s :: get_many k' d'
  end.

Lemma get_many_nth k d j :
  inv d -> servers d <> [] -> len (servers d) <= MaxInt32 -> (j < k)%nat ->
  exists s, get_many k d !! j = Some (Ok s) /\
    servers d !! Z.to_nat ((index d + Z.of_nat j) mod len (servers d)) = Some s.
Proof.
  intros Hinv Hne Hmax. revert d j Hinv Hne Hmax.
  induction k as [| k IH]; intros d j Hinv Hne Hmax Hj; [lia |].
  destruct (multi_Get_round_robin "" d Hinv Hne Hmax) as (s & HG & Hs).
  cbn [get_many]. rewrite HG. destruct j as [| j].
  { exists s. rewrite Z.add_0_r. done. }
  assert (0 < len (servers d)) as Hn by (unfold len; destruct (servers d); [done | simpl; lia]).
  edestruct (IH (mkMulti (r d) (servers d) ((index d + 1) mod len (servers d)) (hashMap d)) j)
    as (s' & H1 & H2); simpl; try done; [| lia |].
  - destruct Hinv as [? Hr]. split; simpl; [| done].
    pose proof (Z.mod_pos_bound (index d + 1) (len (servers d))). lia.
  - exists s'. split; [done |]. simpl in H2. rewrite Zplus_mod_idemp_l in H2.
    by replace (index d + 1 + Z.of_nat j) with (index d + Z.of_nat (S j)) in H2 by lia.
Qed.

(** Round robin is fair: from any state, as many successive selections as
    there are servers return every server exactly once, in list order starting
    at the current index; none of them fails. *)
Theorem round_robin_fair d :
  inv d -> servers d <> [] -> len (servers d) <= MaxInt32 ->
  get_many (length (servers d)) d = Ok <$> rotate (Z.to_nat (index d)) (servers d) /\
  rotate (Z.to_nat (index d)) (servers d) ≡ₚ servers d.
Proof.
  intros Hinv Hne Hmax. split.
  - apply list_eq_same_length with (n := length (servers d)).
    + by rewrite length_fmap, length_rotate.
    + generalize (length (servers d)). intros k. revert d Hinv Hne Hmax.
      induction k as [| k IH]; intros d Hinv Hne Hmax; [done |]. cbn [get_many].
      destruct (multi_Get_round_robin "" d Hinv Hne Hmax) as (s & -> & _). cbn [length]. f_equal.
      apply IH; simpl; try done. destruct Hinv as [? Hr]. split; simpl; [| done].
      pose proof (Z.mod_pos_bound (index d + 1) (len (servers d))). unfold len in *.
      destruct (servers d); [done | simpl in *; lia].
    + intros j x y Hj Hx Hy.
      destruct (get_many_nth (length (servers d)) d j Hinv Hne Hmax Hj) as (s & Hs & Hl).
      apply list_lookup_fmap_Some in Hy as (y' & -> & Hy').
      rewrite lookup_rotate_r in Hy' by done. unfold rotate_nat_add in Hy'.
      rewrite Z2Nat.id in Hy' by (destruct Hinv; lia). unfold len in Hl. congruence.
  - unfold rotate. rewrite Permutation_app_comm. by rewrite take_drop.
Qed.
End multi.
End Multi.

(** A linear congruential generator, to run the definitions. *)
Definition lcg_Intn (n g : Z) : Z * Z := (g mod n, (g * 1103515245 + 12345) mod 2 ^ 31).
Lemma lcg_range n g : 0 < n -> 0 <= (lcg_Intn n g).1 < n.
Proof. intros Hn. by apply Z.mod_pos_bound. Qed.
#[global] Instance lcg : Rand Z := { Intn := lcg_Intn; Intn_range := lcg_range }.

Lemma round_robin_fair_witness :
  let d := Multi.NewMultiServerDiscovery ["a"; "b"; "c"] 7 in
  Multi.get_many (length (Multi.servers d)) d =
    Ok <$> rotate (Z.to_nat (Multi.index d)) (Multi.servers d) /\
  rotate (Z.to_nat (Multi.index d)) (Multi.servers d) ≡ₚ Multi.servers d.
Proof.
  apply (Multi.round_robin_fair (Multi.NewMultiServerDiscovery ["a"; "b"; "c"] 7)).
  - apply Multi.multi_New_inv.
  - done.
  - unfold len, MaxInt32. simpl. lia.
Defined.

Module Etcd.

(** An event of the etcd watch: its type and key. *)
Inductive Event :=
| PUT (key : string)
| DELETE (key : string).

Definition prefix_of (serviceName : string) : string := "/services/" +:+ serviceName +:+ "/".

(** parseAddr *)
Definition parseAddr (serviceName key : string) : string :=
  TrimPrefix key (prefix_of serviceName).

(** contains *)
Definition contains (l : list string) (addr : string) : bool :=
  existsb (fun a => String.eqb a addr) l.

(** remove: the last server takes the place of the first match. *)
Definition remove (l : list string) (addr : string) : list string :=
  match list_find (fun a => a = addr) l with
  | Some (i, _) =>
      match last l with
      | Some z => take (length l - 1) (<[i := z]> l)
      | None => l
      end
  | None => l
  end.

Section etcd.
Context {G : Type} `{Rand G}.

Record EtcdDiscovery := mkEtcd {
  serviceName : string;
  servers : list string;
  index : Z;            (* atomic.Int32 *)
  r : G;
  hashMap : Map;
  stopped : bool;       (* stopCh closed *)
}.

Definition NewEtcdDiscovery (name : string) (seed : G) : EtcdDiscovery :=
  let '(i, g) := Intn (MaxInt32 - 1) seed in
  mkEtcd name [] (int32 i) g (New 50 None) false.

Definition set_servers (l : list string) (d : EtcdDiscovery) : EtcdDiscovery :=
  mkEtcd (serviceName d) l (index d) (r d) (ring_of l) (stopped d).

(** updateServersFromKVs: the keys of a range response. *)
Definition updateServersFromKVs (kvs : list string) (d : EtcdDiscovery) : EtcdDiscovery :=
  set_servers (filter (fun a => a <> "") (parseAddr (serviceName d) <$> kvs)) d.

Definition handleEvent (ev : Event) (d : EtcdDiscovery) : EtcdDiscovery :=
  match ev with
  | PUT key =>
      let addr := parseAddr (serviceName d) key in
      if negb (String.eqb addr "") && negb (contains (servers d) addr)
      then set_servers (servers d ++ [addr]) d
      else set_servers (servers d) d
  | DELETE key =>
      let addr := parseAddr (serviceName d) key in
      set_servers (remove (servers d) addr) d
  end.

Definition Refresh (d : EtcdDiscovery) : outcome unit := Ok tt.

Definition Update (l : list string) (d : EtcdDiscovery) : EtcdDiscovery := set_servers l d.

Definition Get (mode : SelectMode) (key : string) (d : EtcdDiscovery)
    : outcome string * EtcdDiscovery :=
  let n := len (servers d) in
  if n =? 0 then (Err err_no_servers, d)
  else
    match mode with
    | RandomSelect =>
        let '(i, g) := Intn n (r d) in
        (slice_at (servers d) i,
         mkEtcd (serviceName d) (servers d) (index d) g (hashMap d) (stopped d))
    | RoundRobinSelect =>
        (* index.Add(1) returns the new value; the subtraction is int32 too *)
        let i' := int32 (index d + 1) in
        (slice_at (servers d) (Z.rem (int32 (i' - 1)) n),
         mkEtcd (serviceName d) (servers d) i' (r d) (hashMap d) (stopped d))
    | ConsistentHashSelect =>
        if String.eqb key "" then (Err err_key_required, d)
        else (Ok (ConsistentHash.Get (hashMap d) key), d)
    | OtherMode _ => (Err err_mode, d)
    end.

Definition GetAll (d : EtcdDiscovery) : outcome (list string) := Ok (servers d).

Definition Close (d : EtcdDiscovery) : EtcdDiscovery :=
  mkEtcd (serviceName d) (servers d) (index d) (r d) (hashMap d) true.

(** ** The watch goroutine

    [watch] alternates between fetching a snapshot, applying the events of a
    watch channel and sleeping; [isStopped] and [sleepOrStop] end it. *)

Inductive phase := Fetching | Watching | Sleeping | Done.

Inductive watch_step : phase * EtcdDiscovery -> phase * EtcdDiscovery -> Prop :=
| watch_isStopped d :
    stopped d = true -> watch_step (Fetching, d) (Done, d)
| watch_get_error d :
    stopped d = false -> watch_step (Fetching, d) (Sleeping, d)
| watch_get_ok d kvs :
    stopped d = false -> NoDup kvs ->
    watch_step (Fetching, d) (Watching, updateServersFromKVs kvs d)
| watch_event d ev :
    watch_step (Watching, d) (Watching, handleEvent ev d)
| watch_broken d :
    watch_step (Watching, d) (Sleeping, d)
| watch_wake d :
    watch_step (Sleeping, d) (Fetching, d)
| watch_sleepOrStop d :
    stopped d = true -> watch_step (Sleeping, d) (Done, d)
| watch_close p d :
    watch_step (p, d) (p, Close d)
| watch_get p d mode key :
    watch_step (p, d) (p, (Get mode key d).2).

(** The ring holds exactly the listed servers, and the counter is an int32. *)
Definition inv (d : EtcdDiscovery) : Prop :=
  is_int32 (index d) /\
  (servers d <> [] -> hashMap d = ring_of (servers d)).

Lemma etcd_New_inv name seed : inv (NewEtcdDiscovery name seed).
Proof.
  unfold NewEtcdDiscovery, inv. destruct (Intn _ seed) as [i g]. simpl.
  split; [apply int32_range | done].
Qed.

Lemma set_servers_inv l d : inv d -> inv (set_servers l d).
Proof. intros [? _]. by split. Qed.

Lemma handleEvent_inv ev d : inv d -> inv (handleEvent ev d).
Proof. intros Hd. destruct ev; simpl; [case_match |]; by apply set_servers_inv. Qed.

Lemma Get_inv mode key d : inv d -> inv (Get mode key d).2.
Proof.
  intros [Hi Hm]. unfold Get. case_match; [done |].
  destruct mode; [destruct (Intn _ _) | | case_match |]; try done.
  split; [apply int32_range | done].
Qed.

#[global] Instance etcd_discovery : Discovery EtcdDiscovery := {
  disc_get := Get;
  disc_getall d := (GetAll d, d);
}.

#[global] Instance etcd_laws : DiscoveryLaws EtcdDiscovery inv.
Proof.
  split; [apply Get_inv | | intros key d; simpl; unfold Get; by repeat case_match
    | intros d; simpl; unfold Get; case_match; by eexists].
  intros mode key d a l [_ Hm]. simpl. unfold Get, GetAll. intros HG [= <-].
  destruct (Z.eqb_spec (len (servers d)) 0) as [? | Hn0]; [done |].
  destruct mode as [| | | m]; [| | | done].
  - destruct (Intn _ _) as [i g]. by eapply slice_at_elem.
  - by eapply slice_at_elem.
  - assert (servers d <> []) as Hne by (intros E; by rewrite E in Hn0).
    destruct (String.eqb key ""); simpl in HG; simplify_eq.
    rewrite (Hm Hne). by apply ring_of_owner.
Qed.

Lemma watch_step_inv p d p' d' : watch_step (p, d) (p', d') -> inv d -> inv d'.
Proof.
  intros Hs Hd. inversion Hs; subst; auto using set_servers_inv, handleEvent_inv, Get_inv.
  by apply set_servers_inv.
Qed.

(** ** What the watcher's list means

    [servers_ok]: the list has no duplicates and no empty address. *)
Definition servers_ok (d : EtcdDiscovery) : Prop := NoDup (servers d) /\ "" ∉ servers d.

Definition server_set (d : EtcdDiscovery) : gset string := list_to_set (servers d).

Lemma remove_out l a : a ∉ l -> remove l a = l.
Proof.
  intros Ha. unfold remove. destruct (list_find _ l) as [[i x] |] eqn:E; [| done].
  apply list_find_Some in E as (Hi & -> & _). by apply list_elem_of_lookup_2 in Hi.
Qed.

Lemma remove_in l a : a ∈ l -> a :: remove l a ≡ₚ l.
Proof.
  intros Hin. unfold remove.
  destruct (list_find (fun x => x = a) l) as [[i x] |] eqn:E.
  2: { apply list_find_None in E. rewrite Forall_forall in E. by destruct (E a). }
  apply list_find_Some in E as (Hi & -> & _).
  destruct (last l) as [z |] eqn:Hz; [| by apply last_None in Hz as ->].
  apply last_Some in Hz as [k ->]. rewrite length_app. simpl.
  replace (length k + 1 - 1)%nat with (length k) by lia.
  destruct (decide (i < length k)%nat) as [Hlt | Hge].
  - rewrite lookup_app_l in Hi by done.
    rewrite insert_app_l, take_app_length' by (rewrite ?length_insert; done).
    rewrite insert_take_drop by done. rewrite <- Permutation_middle.
    rewrite <- (delete_take_drop k i). rewrite Permutation_swap.
    rewrite <- (delete_Permutation _ _ _ Hi). by rewrite <- Permutation_cons_append.
  - pose proof (lookup_lt_Some _ _ _ Hi) as Hl. rewrite length_app in Hl. simpl in Hl.
    assert (i = length k) as -> by lia.
    rewrite list_lookup_middle in Hi by done. simplify_eq.
    rewrite take_insert_ge, take_app_length by lia. by rewrite Permutation_cons_append.
Qed.

Lemma contains_spec l a : contains l a = true <-> a ∈ l.
Proof.
  unfold contains. rewrite existsb_exists. setoid_rewrite String.eqb_eq.
  setoid_rewrite <- list_elem_of_In. naive_solver.
Qed.

(** The specification: the set of keys in the store under the prefix. *)
Definition store_step (K : gset string) (ev : Event) : gset string :=
  match ev with
  | PUT key => {[key]} ∪ K
  | DELETE key => K ∖ {[key]}
  end.

Definition event_key (ev : Event) : string :=
  match ev with PUT key | DELETE key => key end.

(** The addresses a store registers for a service: what follows the prefix. *)
Definition addresses (name : string) (K : gset string) : gset string :=
  set_map (parseAddr name) K ∖ {[""]}.

Definition has_prefix (name key : string) : Prop := exists a, key = prefix_of name +:+ a.

Lemma parseAddr_key name a : parseAddr name (prefix_of name +:+ a) = a.
Proof. apply TrimPrefix_app. Qed.

Lemma elem_of_addresses name K a :
  (forall k, k ∈ K -> has_prefix name k) ->
  a ∈ addresses name K <-> prefix_of name +:+ a ∈ K /\ a <> "".
Proof.
  intros HK. unfold addresses. rewrite elem_of_difference, elem_of_map, elem_of_singleton.
  split; intros [H1 H2]; (split; [| done]).
  - destruct H1 as (k & -> & Hk). destruct (HK k Hk) as [b ->]. by rewrite parseAddr_key.
  - exists (prefix_of name +:+ a). by rewrite parseAddr_key.
Qed.

(** The simulation between the store and the watcher's copy of it. *)
Definition tracks (K : gset string) (d : EtcdDiscovery) : Prop :=
  (forall k, k ∈ K -> has_prefix (serviceName d) k) /\
  NoDup (servers d) /\
  (forall a, a ∈ servers d <-> a ∈ addresses (serviceName d) K).

Lemma snapshot_tracks kvs d :
  (forall k, k ∈ kvs -> has_prefix (serviceName d) k) -> NoDup kvs ->
  tracks (list_to_set kvs) (updateServersFromKVs kvs d).
Proof.
  intros HK Hnd. unfold tracks. simpl. split_and!.
  - intros k Hk. apply HK. set_solver.
  - apply NoDup_filter. apply NoDup_fmap_2_strong; [| done].
    intros x y Hx Hy. destruct (HK x Hx) as [a ->], (HK y Hy) as [b ->].
    rewrite !parseAddr_key. by intros ->.
  - intros a. rewrite elem_of_addresses by set_solver.
    rewrite list_elem_of_filter, list_elem_of_fmap, elem_of_list_to_set.
    split; intros [H1 H2]; split; try done.
    + destruct H2 as (k & -> & Hk). destruct (HK k Hk) as [b ->]. by rewrite parseAddr_key.
    + exists (prefix_of (serviceName d) +:+ a). by rewrite parseAddr_key.
Qed.

Lemma handleEvent_tracks K ev d :
  has_prefix (serviceName d) (event_key ev) ->
  tracks K d -> tracks (store_step K ev) (handleEvent ev d).
Proof.
  intros [b Hb] (HK & Hnd & Hset).
  assert (HK' : forall k, k ∈ store_step K ev -> has_prefix (serviceName d) k).
  { destruct ev; simpl in *; intros k; [| set_solver].
    intros [->%elem_of_singleton | ?]%elem_of_union; [by exists b | auto]. }
  assert (Hset' : forall a, a ∈ servers d <-> prefix_of (serviceName d) +:+ a ∈ K /\ a <> "").
  { intros a. by rewrite Hset, elem_of_addresses. }
  assert (Hinj : forall a c, prefix_of (serviceName d) +:+ a = prefix_of (serviceName d) +:+ c <-> a = c).
  { intros a c. split; [| by intros ->]. intros E.
    rewrite <- (parseAddr_key (serviceName d) a), E. apply parseAddr_key. }
  destruct ev as [k | k]; simpl in Hb; subst k; unfold handleEvent; rewrite parseAddr_key.
  - pose proof (contains_spec (servers d) b) as Hc.
    destruct (String.eqb_spec b ""); [| destruct (contains (servers d) b)];
      unfold tracks; simpl; split_and!; try done.
    + intros a. rewrite elem_of_addresses by done. simpl.
      rewrite Hset', elem_of_union, elem_of_singleton, Hinj. naive_solver.
    + intros a. rewrite elem_of_addresses by done. simpl.
      rewrite Hset', elem_of_union, elem_of_singleton, Hinj. apply proj1 in Hc.
      specialize (Hc eq_refl). rewrite Hset' in Hc. naive_solver.
    + apply NoDup_app. split_and!; [done | | apply NoDup_singleton].
      intros x Hx ->%list_elem_of_singleton. apply Hc in Hx. done.
    + intros a. rewrite elem_of_addresses by done. simpl.
      rewrite elem_of_app, Hset', elem_of_union, elem_of_singleton, Hinj, list_elem_of_singleton.
      naive_solver.
  - unfold tracks. simpl. split; [done |].
    destruct (decide (b ∈ servers d)) as [Hin | Hn].
    + pose proof (remove_in _ _ Hin) as Hp. rewrite <- Hp in Hnd.
      apply NoDup_cons in Hnd as [Hnot Hnd]. split; [done |].
      intros a. rewrite elem_of_addresses by done. simpl.
      rewrite elem_of_difference, elem_of_singleton, Hinj.
      assert (a ∈ servers d <-> a = b \/ a ∈ remove (servers d) b) as Ha
        by (rewrite <- Hp at 1; apply elem_of_cons).
      rewrite Hset' in Ha. naive_solver.
    + rewrite remove_out by done. split; [done |].
      intros a. rewrite elem_of_addresses by done. simpl.
      rewrite elem_of_difference, elem_of_singleton, Hinj, Hset'. rewrite Hset' in Hn. naive_solver.
Qed.

Definition watched (kvs : list string) (evs : list Event) (d : EtcdDiscovery) : EtcdDiscovery :=
  foldl (fun d ev => handleEvent ev d) (updateServersFromKVs kvs d) evs.

Definition stored (kvs : list string) (evs : list Event) : gset string :=
  foldl store_step (list_to_set kvs) evs.

Lemma handleEvent_fields ev d :
  serviceName (handleEvent ev d) = serviceName d /\
  hashMap (handleEvent ev d) = ring_of (servers (handleEvent ev d)).
Proof. destruct ev; simpl; [case_match |]; done. Qed.

Lemma watched_tracks kvs evs d :
  (forall k, k ∈ kvs ++ (event_key <$> evs) -> has_prefix (serviceName d) k) -> NoDup kvs ->
  serviceName (watched kvs evs d) = serviceName d /\
  tracks (stored kvs evs) (watched kvs evs d) /\
  hashMap (watched kvs evs d) = ring_of (servers (watched kvs evs d)).
Proof.
  intros Hk Hnd. unfold watched, stored.
  assert (tracks (list_to_set kvs) (updateServersFromKVs kvs d)) as Ht.
  { apply snapshot_tracks; [| done]. intros k ?. apply Hk. set_solver. }
  revert Ht. generalize (list_to_set kvs : gset string). intros K.
  assert (forall ev, ev ∈ evs -> has_prefix (serviceName (updateServersFromKVs kvs d)) (event_key ev)) as He.
  { intros ev ?. apply Hk. rewrite elem_of_app, list_elem_of_fmap. eauto. }
  assert (hashMap (updateServersFromKVs kvs d) = ring_of (servers (updateServersFromKVs kvs d))) as Hr
    by done.
  change (serviceName d) with (serviceName (updateServersFromKVs kvs d)).
  revert He Hr. generalize (updateServersFromKVs kvs d). clear Hk. intros d0 He Hr.
  revert K d0 He Hr. induction evs as [| ev evs IH]; intros K d0 He Hr Ht; [done |]. cbn [foldl].
  destruct (handleEvent_fields ev d0) as [En Er]. rewrite <- En. apply IH.
  - intros ev' ?. rewrite En. apply He. by right.
  - done.
  - apply handleEvent_tracks; [| done]. apply He. by left.
Qed.

(** The watcher refines the store: after a snapshot and any sequence of
    PUT and DELETE events below its prefix, the server list is, without
    duplicates, exactly the set of addresses the store then registers, and the
    ring is the ring of that list. *)
Theorem watcher_tracks_store kvs evs d :
  (forall k, k ∈ kvs ++ (event_key <$> evs) -> has_prefix (serviceName d) k) -> NoDup kvs ->
  let d' := watched kvs evs d in
  NoDup (servers d') /\
  (forall a, a ∈ servers d' <-> a ∈ addresses (serviceName d) (stored kvs evs)) /\
  hashMap d' = ring_of (servers d').
Proof.
  intros Hk Hnd. destruct (watched_tracks kvs evs d Hk Hnd) as (En & (_ & H1 & H2) & H3).
  rewrite En in H2. done.
Qed.

(** Two gateways that watched different histories of the store but ended on
    the same keys route every key to the same server, when no two of the
    registered servers share a virtual-node hash. *)
Theorem watchers_agree kvs evs d kvs' evs' d' key :
  serviceName d = serviceName d' ->
  (forall k, k ∈ kvs ++ (event_key <$> evs) -> has_prefix (serviceName d) k) -> NoDup kvs ->
  (forall k, k ∈ kvs' ++ (event_key <$> evs') -> has_prefix (serviceName d) k) -> NoDup kvs' ->
  stored kvs evs = stored kvs' evs' ->
  collision_free (New 50 None) (elements (addresses (serviceName d) (stored kvs evs))) ->
  (Get ConsistentHashSelect key (watched kvs evs d)).1 =
  (Get ConsistentHashSelect key (watched kvs' evs' d')).1.
Proof.
  intros En Hk Hnd Hk' Hnd' Hst Hfree. rewrite En in Hk'.
  destruct (watched_tracks kvs evs d Hk Hnd) as (E1 & (_ & H1 & H2) & H3).
  destruct (watched_tracks kvs' evs' d' Hk' Hnd') as (E1' & (_ & H1' & H2') & H3').
  set (w := watched kvs evs d) in *. set (w' := watched kvs' evs' d') in *.
  assert (servers w ≡ₚ servers w') as Hp.
  { apply NoDup_Permutation; [done | done |]. intros a. by rewrite H2, H2', E1, E1', En, Hst. }
  unfold Get, len. rewrite Hp. case_match; [done |]. case_match; [done |]. simpl. f_equal.
  rewrite H3, H3'. unfold ring_of. apply Get_same_set; [lia | by intros; rewrite Hp |].
  intros k1 k2 h Hk1 Hk2. apply Hfree; rewrite elem_of_elements, <- E1; by apply H2.
Qed.

(** ** Round robin and the 32-bit counter *)

Lemma etcd_Get_round_robin key d :
  servers d <> [] ->
  Get RoundRobinSelect key d =
    (slice_at (servers d) (Z.rem (int32 (int32 (index d + 1) - 1)) (len (servers d))),
     mkEtcd (serviceName d) (servers d) (int32 (index d + 1)) (r d) (hashMap d) (stopped d)).
Proof. intros Hne. unfold Get. case_match eqn:E; [| done]. by destruct (servers d). Qed.

Lemma index_before_add i : is_int32 i -> int32 (int32 (i + 1) - 1) = i.
Proof.
  intros Hi. unfold is_int32, int32, wrap_s in *. change (2 ^ (32 - 1)) with (2 ^ 31).
  destruct (decide (i = 2 ^ 31 - 1)) as [-> | Hn]; [by vm_compute |].
  rewrite (Z.mod_small (i + 1 + 2 ^ 31)) by lia. rewrite Z.mod_small by lia. lia.
Qed.

(** The etcd round robin is correct until its atomic int32 counter wraps:
    with a non-negative counter [i] the selection is server [i mod n]; but once
    the counter is -2^31, every server count that does not divide 2^31 makes the
    index negative and the selection panics. *)
Theorem round_robin_until_overflow key d :
  servers d <> [] -> is_int32 (index d) ->
  (0 <= index d ->
    exists s, (Get RoundRobinSelect key d).1 = Ok s /\
      servers d !! Z.to_nat (index d mod len (servers d)) = Some s) /\
  (index d = MaxInt32 -> index (Get RoundRobinSelect key d).2 = - 2 ^ 31) /\
  (index d = - 2 ^ 31 -> 2 ^ 31 mod len (servers d) <> 0 ->
    (Get RoundRobinSelect key d).1 = Panic "index out of range").
Proof.
  intros Hne Hi. rewrite etcd_Get_round_robin, index_before_add by done. simpl.
  assert (0 < len (servers d)) as Hn by (unfold len; destruct (servers d); [done | simpl; lia]).
  split_and!.
  - intros H0. rewrite Z.rem_mod_nonneg by lia.
    destruct (slice_at_ok (servers d) (index d mod len (servers d))) as (s & -> & Hs);
      [apply Z.mod_pos_bound; lia | eauto].
  - intros ->. by vm_compute.
  - intros -> Hmod. apply slice_at_neg.
    rewrite Z.rem_opp_l', Z.rem_mod_nonneg by lia.
    pose proof (Z.mod_pos_bound (2 ^ 31) (len (servers d))). lia.
Qed.
End etcd.
End Etcd.

(** A run of the watcher, for the witnesses. *)
Definition demo_d : Etcd.EtcdDiscovery (G := Z) := Etcd.NewEtcdDiscovery "chat" 7.
Definition demo_kvs : list string := ["/services/chat/tcp@a:1"; "/services/chat/tcp@b:2"].
Definition demo_evs : list Etcd.Event := [Etcd.DELETE "/services/chat/tcp@a:1"; Etcd.PUT "/services/chat/tcp@c:3"].

Lemma demo_prefix : forall k, k ∈ demo_kvs ++ (Etcd.event_key <$> demo_evs) -> Etcd.has_prefix "chat" k.
Proof.
  apply Forall_forall. repeat constructor; (eexists; reflexivity).
Qed.

Lemma watcher_tracks_store_witness :
  let d' := Etcd.watched demo_kvs demo_evs demo_d in
  NoDup (Etcd.servers d') /\
  (forall a, a ∈ Etcd.servers d' <-> a ∈ Etcd.addresses "chat" (Etcd.stored demo_kvs demo_evs)) /\
  Etcd.hashMap d' = ring_of (Etcd.servers d').
Proof.
  apply (Etcd.watcher_tracks_store demo_kvs demo_evs demo_d); [exact demo_prefix |].
  apply (bool_decide_unpack _). vm_compute. exact I.
Defined.

Definition demo_kvs' : list string := ["/services/chat/tcp@c:3"; "/services/chat/tcp@b:2"].

Lemma watchers_agree_witness :
  (Etcd.Get ConsistentHashSelect "42" (Etcd.watched demo_kvs demo_evs demo_d)).1 =
  (Etcd.Get ConsistentHashSelect "42" (Etcd.watched demo_kvs' [] demo_d)).1.
Proof.
  apply (Etcd.watchers_agree demo_kvs demo_evs demo_d demo_kvs' [] demo_d "42").
  - reflexivity.
  - exact demo_prefix.
  - apply (bool_decide_unpack _). vm_compute. exact I.
  - apply Forall_forall. repeat constructor; (eexists; reflexivity).
  - apply (bool_decide_unpack _). vm_compute. exact I.
  - apply (bool_decide_unpack _). vm_compute. exact I.
  - apply NoDup_collision_free. apply (bool_decide_unpack _). vm_compute. exact I.
Defined.

Lemma round_robin_until_overflow_witness :
  let d := Etcd.mkEtcd "chat" ["a"; "b"; "c"] (- 2 ^ 31) 7 (ring_of ["a"; "b"; "c"]) false in
  (0 <= Etcd.index d ->
    exists s, (Etcd.Get RoundRobinSelect "" d).1 = Ok s /\
      Etcd.servers d !! Z.to_nat (Etcd.index d mod len (Etcd.servers d)) = Some s) /\
  (Etcd.index d = MaxInt32 -> Etcd.index (Etcd.Get RoundRobinSelect "" d).2 = - 2 ^ 31) /\
  (Etcd.index d = - 2 ^ 31 -> 2 ^ 31 mod len (Etcd.servers d) <> 0 ->
    (Etcd.Get RoundRobinSelect "" d).1 = Panic "index out of range").
Proof.
  apply (Etcd.round_robin_until_overflow ""
    (Etcd.mkEtcd "chat" ["a"; "b"; "c"] (- 2 ^ 31) 7 (ring_of ["a"; "b"; "c"]) false)).
  - done.
  - unfold is_int32. simpl. lia.
Defined.

Module Gee.
Section gee.
Context {G : Type} `{Rand G}.

(** Instants and durations are integers (nanoseconds). *)
Record GeeRegistryDiscovery := mkGee {
  base : Multi.MultiServersDiscovery (G := G);
  registry : string;
  timeout : Z;
  lastUpdate : Z;
}.

Definition defaultUpdateTimeout : Z := 10 * 10 ^ 9.

(** The zero [time.Time]. *)
Definition zero_time : Z := 0.

Definition NewGeeRegistryDiscovery (registerAddr : string) (t : Z) (seed : G)
    : GeeRegistryDiscovery :=
  let t := if t =? 0 then defaultUpdateTimeout else t in
  mkGee (Multi.NewMultiServerDiscovery [] seed) registerAddr t zero_time.

(** Assigning the promoted field [servers]: index and ring stay as they are. *)
Definition set_servers (l : list string) (now : Z) (d : GeeRegistryDiscovery) :
    GeeRegistryDiscovery :=
  let b := base d in
  mkGee (Multi.mkMulti (Multi.r b) l (Multi.index b) (Multi.hashMap b))
    (registry d) (timeout d) now.

Definition Update (l : list string) (now : Z) (d : GeeRegistryDiscovery) :
    GeeRegistryDiscovery := set_servers l now d.

(** The addresses in the registry's reply: fields that are not blank. *)
Definition parse_servers (header : string) : list string :=
  TrimSpace <$> filter (fun s => TrimSpace s <> "") (Split header ","%char).

(** [now] and [now'] are the two readings of the clock, [reply] what
    [http.Get] gives: the header of the reply ("" when absent) or an error. *)
Definition Refresh (now : Z) (reply : outcome string) (now' : Z) (d : GeeRegistryDiscovery)
    : outcome unit * GeeRegistryDiscovery :=
  if now <? lastUpdate d + timeout d then (Ok tt, d)
  else
    match reply with
    | Ok header => (Ok tt, set_servers (parse_servers header) now' d)
    | Err e => (Err e, d)
    | Panic m => (Panic m, d)
    end.

Definition Get (now : Z) (reply : outcome string) (now' : Z) (mode : SelectMode) (key : string)
    (d : GeeRegistryDiscovery) : outcome string * GeeRegistryDiscovery :=
  match Refresh now reply now' d with
  | (Ok _, d1) =>
      let '(s, b) := Multi.Get mode key (base d1) in
      (s, mkGee b (registry d1) (timeout d1) (lastUpdate d1))
  | (Err e, d1) => (Err e, d1)
  | (Panic m, d1) => (Panic m, d1)
  end.

Definition GetAll (now : Z) (reply : outcome string) (now' : Z) (d : GeeRegistryDiscovery)
    : outcome (list string) * GeeRegistryDiscovery :=
  match Refresh now reply now' d with
  | (Ok _, d1) => (Multi.GetAll (base d1), d1)
  | (Err e, d1) => (Err e, d1)
  | (Panic m, d1) => (Panic m, d1)
  end.

(** The calls a client can make. *)
Inductive gee_step : GeeRegistryDiscovery -> GeeRegistryDiscovery -> Prop :=
| gee_Update l now d : gee_step d (Update l now d)
| gee_Refresh now reply now' d : gee_step d (Refresh now reply now' d).2
| gee_Get now reply now' mode key d : gee_step d (Get now reply now' mode key d).2
| gee_GetAll now reply now' d : gee_step d (GetAll now reply now' d).2.

(** The ring is the one of the empty list it was created with. *)
Definition stale_ring (d : GeeRegistryDiscovery) : Prop :=
  keys (Multi.hashMap (base d)) = [].

Lemma multi_Get_ring mode key (b : Multi.MultiServersDiscovery (G := G)) :
  Multi.hashMap (Multi.Get mode key b).2 = Multi.hashMap b.
Proof.
  unfold Multi.Get. case_match; [done |].
  destruct mode; [destruct (Intn _ _); done | | by case_match | done].
  by destruct (slice_at _ _).
Qed.

Lemma Refresh_stale now reply now' d :
  stale_ring d -> stale_ring (Refresh now reply now' d).2.
Proof. intros Hd. unfold Refresh. case_match; [done |]. by destruct reply. Qed.

Lemma gee_step_stale d d' : stale_ring d -> gee_step d d' -> stale_ring d'.
Proof.
  intros Hd Hs. destruct Hs as [| now reply now' d | now reply now' mode key d | now reply now' d].
  - done.
  - by apply Refresh_stale.
  - unfold Get. pose proof (Refresh_stale now reply now' d Hd) as Hr.
    destruct (Refresh now reply now' d) as [[] d1]; simpl in *; try done.
    destruct (Multi.Get mode key (base d1)) as [s b] eqn:E. unfold stale_ring in *. simpl.
    pose proof (multi_Get_ring mode key (base d1)) as HE. rewrite E in HE. simpl in HE.
    by rewrite HE.
  - unfold GetAll. pose proof (Refresh_stale now reply now' d Hd) as Hr.
    by destruct (Refresh now reply now' d) as [[] d1].
Qed.

(** The registry-backed discovery never rebuilds its hash ring: in every
    state its methods can reach, whatever servers it lists, consistent-hash
    selection with a key succeeds with the empty address. *)
Theorem gee_consistent_hash_empty registerAddr t seed d now reply now' key d1 :
  rtc gee_step (NewGeeRegistryDiscovery registerAddr t seed) d ->
  Refresh now reply now' d = (Ok tt, d1) -> Multi.servers (base d1) <> [] -> key <> "" ->
  (Get now reply now' ConsistentHashSelect key d).1 = Ok "".
Proof.
  intros Hr HR Hne Hkey.
  assert (stale_ring d1) as Hs.
  { change d1 with (Ok (A := unit) tt, d1).2. rewrite <- HR. apply Refresh_stale.
    eapply (invariant_rtc gee_step stale_ring gee_step_stale); [| exact Hr].
    unfold NewGeeRegistryDiscovery, Multi.NewMultiServerDiscovery, stale_ring.
    by destruct (Intn _ seed). }
  unfold Get. rewrite HR. unfold Multi.Get.
  destruct (Z.eqb_spec (len (Multi.servers (base d1))) 0) as [E |];
    [by destruct (Multi.servers (base d1)) |].
  destruct (String.eqb_spec key ""); [done |]. simpl. by rewrite Get_empty.
Qed.

(** A reply listing clean addresses is parsed back to those addresses. *)
Lemma parse_servers_Join l :
  Forall (fun a => trimmed a = true /\ a <> "" /\ no_byte ","%char a = true) l ->
  parse_servers (Join l ",") = l.
Proof.
  intros Hl. unfold parse_servers. destruct l as [| a l]; [by vm_compute |].
  rewrite Split_Join; [| done | by eapply Forall_impl; [exact Hl | naive_solver]].
  assert (forall k, Forall (fun a => trimmed a = true /\ a <> "" /\ no_byte ","%char a = true) k ->
    TrimSpace <$> filter (fun s => TrimSpace s <> "") k = k) as Hk; [| by apply Hk].
  clear. induction 1 as [| b k (Hb & Hne & _) Hk IH]; [done |].
  rewrite filter_cons, TrimSpace_trimmed by done. rewrite decide_True by done.
  cbn [fmap list_fmap]. rewrite TrimSpace_trimmed by done. f_equal. apply IH.
Qed.
End gee.
End Gee.

Lemma gee_consistent_hash_empty_witness :
  (Gee.Get 100 (Ok "tcp@a:1, tcp@b:2") 101 ConsistentHashSelect "42"
     (Gee.NewGeeRegistryDiscovery (G := Z) "http://reg" 1 7)).1 = Ok "".
Proof.
  apply (Gee.gee_consistent_hash_empty "http://reg" 1 7
    (Gee.NewGeeRegistryDiscovery "http://reg" 1 7) 100 (Ok "tcp@a:1, tcp@b:2") 101 "42"
    (Gee.set_servers ["tcp@a:1"; "tcp@b:2"] 101 (Gee.NewGeeRegistryDiscovery "http://reg" 1 7))).
  - apply rtc_refl.
  - unfold Gee.Refresh. f_equal.
  - discriminate.
  - discriminate.
Defined.
