(* ===== verification/Registry.v ===== *)
(** * Registries: apps/pkg/GrowRPC/registry/{registry,etcd}.go

    [Module Gee] is the in-memory HTTP registry with its heartbeat sender;
    [Module Etcd] registers one service instance under a lease and keeps it. *)
From S2P Require Import Prelude GoStd Effects ConsistentHash Discovery.
#[local] Open Scope prog_scope.

Module Gee.

(** The map from address to [ServerItem]; each item is reached through the map
    only, so it is represented by its [start] time. *)
Record GeeRegistry := mkGeeRegistry {
  timeout : Z;
  servers : gmap string Z;
}.

Definition defaultTimeout : Z := 5 * 60 * 10 ^ 9.

Definition New (t : Z) : GeeRegistry := mkGeeRegistry t ∅.

Definition putServer (addr : string) (now : Z) (r : GeeRegistry) : GeeRegistry :=
  match servers r !! addr with
  | None => mkGeeRegistry (timeout r) (<[addr := now]> (servers r))
  | Some _ => mkGeeRegistry (timeout r) (<[addr := now]> (servers r))
  end.

Definition expired (timeout start now : Z) : bool :=
  negb ((timeout =? 0) || (now <? start + timeout)).

(** One iteration of the range loop; [clock addr] is the time it reads. *)
Definition alive_step (t : Z) (clock : string -> Z)
    (st : list string * gmap string Z) (item : string * Z) : list string * gmap string Z :=
  let '(alive, m) := st in
  let '(addr, start) := item in
  if expired t start (clock addr) then (alive, delete addr m) else (alive ++ [addr], m).

(** [order] is the order in which the range loop visits the map. *)
Definition aliveServers (order : list (string * Z)) (clock : string -> Z) (r : GeeRegistry)
    : list string * GeeRegistry :=
  let '(alive, m) := foldl (alive_step (timeout r) clock) ([], servers r) order in
  (sort_Strings alive, mkGeeRegistry (timeout r) m).

(** ** HTTP *)

Record Request := mkRequest { method : string; req_header : gmap string string }.
Record Response := mkResponse { status : Z; resp_header : gmap string string }.

(** [Header.Get]: "" when absent. *)
Definition header_get (h : gmap string string) (k : string) : string := default "" (h !! k).

Definition StatusOK : Z := 200.
Definition StatusMethodNotAllowed : Z := 405.
Definition StatusInternalServerError : Z := 500.

Definition ServeHTTP (order : list (string * Z)) (clock : string -> Z) (now : Z)
    (req : Request) (r : GeeRegistry) : Response * GeeRegistry :=
  if String.eqb (method req) "GET" then
    let '(alive, r') := aliveServers order clock r in
    (mkResponse StatusOK {[ "X-Geerpc-Servers" := Join alive "," ]}, r')
  else if String.eqb (method req) "POST" then
    let addr := header_get (req_header req) "X-Geerpc-Servers" in
    if String.eqb addr "" then (mkResponse StatusInternalServerError ∅, r)
    else (mkResponse StatusOK ∅, putServer addr now r)
  else (mkResponse StatusMethodNotAllowed ∅, r).

(** The request a heartbeat sends, and the loop: it stops at the first transport
    error; the status of the reply is not looked at. *)
Definition heartbeat_request (addr : string) : Request :=
  mkRequest "POST" {[ "X-Geerpc-Server" := addr ]}.

Definition sendHeartbeat (do : Request -> outcome Response) (addr : string) : outcome unit :=
  outcome_bind (do (heartbeat_request addr)) (fun _ => Ok tt).

Definition Heartbeat_duration (duration : Z) : Z :=
  if duration =? 0 then defaultTimeout - 60 * 10 ^ 9 else duration.

(** The replies to the successive ticks, up to the first failure. *)
Fixpoint Heartbeat (ticks : list (outcome Response)) (addr : string) : nat :=
  match ticks with
  | [] => O
  | r :: ticks' =>
      match sendHeartbeat (fun _ => r) addr with
      | Ok _ => S (Heartbeat ticks' addr)
      | _ => 1%nat
      end
  end.

(** ** Properties *)

Definition is_alive (r : GeeRegistry) (clock : string -> Z) (addr : string) : Prop :=
  exists start, servers r !! addr = Some start /\ expired (timeout r) start (clock addr) = false.

Lemma alive_fold t clock order alive m :
  NoDup order.*1 -> (forall a s, (a, s) ∈ order -> m !! a = Some s) ->
  let '(alive', m') := foldl (alive_step t clock) (alive, m) order in
  alive' = alive ++ (filter (fun x => expired t x.2 (clock x.1) = false) order).*1 /\
  forall a s, m' !! a = Some s <-> m !! a = Some s /\ ((a, s) ∈ order -> expired t s (clock a) = false).
Proof.
  revert alive m. induction order as [| [a s] order IH]; intros alive m Hnd Hm; cbn [foldl].
  { split; [by rewrite app_nil_r |]. intros a s. split; [| by intros []].
    intros H. split; [done |]. intros Hn. by apply elem_of_nil in Hn. }
  cbn in Hnd. apply NoDup_cons in Hnd as [Ha Hnd].
  assert (forall s', (a, s') ∉ order) as Hno.
  { intros s' H. apply Ha. apply list_elem_of_fmap. by exists (a, s'). }
  unfold alive_step at 2. destruct (expired t s (clock a)) eqn:E.
  - specialize (IH alive (delete a m) Hnd). destruct (foldl _ _ order) as [alive' m'].
    destruct IH as [-> Hm'].
    { intros b s' Hin. rewrite lookup_delete_ne; [apply Hm; by right | intros ->; by eapply Hno]. }
    split; [by rewrite filter_cons_False by (simpl; congruence) |].
    intros b s'. rewrite Hm', lookup_delete_Some, elem_of_cons. split.
    + intros [[Hne Hb] Hx]. split; [done |]. intros [Heq | ?]; [by simplify_eq | auto].
    + intros [Hb Hx]. split_and!; [| done | auto]. intros <-.
      rewrite (Hm a s) in Hb by (by left). simplify_eq.
      rewrite Hx in E by (by left). done.
  - specialize (IH (alive ++ [a]) m Hnd). destruct (foldl _ _ order) as [alive' m'].
    destruct IH as [-> Hm'].
    { intros b s' Hin. apply Hm. by right. }
    split; [rewrite filter_cons_True by done; by rewrite <- app_assoc |].
    intros b s'. rewrite Hm', elem_of_cons. naive_solver.
Qed.

Lemma aliveServers_spec order clock r :
  order ≡ₚ map_to_list (servers r) ->
  let '(l, r') := aliveServers order clock r in
  StronglySorted str_le l /\ NoDup l /\ (forall a, a ∈ l <-> is_alive r clock a) /\
  timeout r' = timeout r /\
  forall a s, servers r' !! a = Some s <->
    servers r !! a = Some s /\ expired (timeout r) s (clock a) = false.
Proof.
  intros Hord. unfold aliveServers.
  pose proof (alive_fold (timeout r) clock order [] (servers r)) as Hf.
  destruct (foldl _ _ order) as [alive m].
  assert (forall a s, (a, s) ∈ order <-> servers r !! a = Some s) as Hin.
  { intros a s. rewrite Hord. apply elem_of_map_to_list. }
  destruct Hf as [-> Hm].
  { rewrite Hord. apply NoDup_fst_map_to_list. }
  { intros a s. apply Hin. }
  simpl. split_and!; [apply sort_Strings_sorted | | | done |].
  - rewrite sort_Strings_perm. apply NoDup_fmap_fst.
    + intros x y1 y2 [_ H1%Hin]%list_elem_of_filter [_ H2%Hin]%list_elem_of_filter. congruence.
    + apply NoDup_filter. rewrite Hord. apply NoDup_map_to_list.
  - intros a. rewrite sort_Strings_perm, list_elem_of_fmap. unfold is_alive. split.
    + intros ([b s] & -> & [He Hb]%list_elem_of_filter). apply Hin in Hb. eauto.
    + intros (s & Hs & He). exists (a, s). split; [done |]. by rewrite list_elem_of_filter, Hin.
  - intros a s. rewrite Hm, Hin. naive_solver.
Qed.

Definition clean_address (a : string) : Prop :=
  trimmed a = true /\ a <> "" /\ no_byte ","%char a = true.

(** What a client learns from the registry: in whatever order the map is
    visited, a refresh of the discovery client from a GET reply gives exactly the
    unexpired addresses, sorted and without duplicates, and the registry forgets
    exactly the expired ones; addresses must be trimmed, comma-free, non-empty. *)
Theorem refresh_learns_alive {G} `{Discovery.Rand G} order clock now r now1 now2
    (d : Discovery.Gee.GeeRegistryDiscovery (G := G)) :
  order ≡ₚ map_to_list (servers r) ->
  (forall a s, servers r !! a = Some s -> clean_address a) ->
  Discovery.Gee.lastUpdate d + Discovery.Gee.timeout d <= now1 ->
  let '(resp, r') := ServeHTTP order clock now (mkRequest "GET" ∅) r in
  let '(e, d') := Discovery.Gee.Refresh now1
      (Ok (header_get (resp_header resp) "X-Geerpc-Servers")) now2 d in
  let l := Discovery.Multi.servers (Discovery.Gee.base d') in
  e = Ok tt /\ StronglySorted str_le l /\ NoDup l /\
  (forall a, a ∈ l <-> is_alive r clock a) /\
  (forall a, is_Some (servers r' !! a) <-> is_alive r clock a).
Proof.
  intros Hord Hclean Hexp. unfold ServeHTTP. simpl.
  pose proof (aliveServers_spec order clock r Hord) as Hal.
  destruct (aliveServers order clock r) as [l r']. destruct Hal as (H1 & H2 & H3 & _ & H5).
  unfold Discovery.Gee.Refresh. destruct (Z.ltb_spec now1 (Discovery.Gee.lastUpdate d + Discovery.Gee.timeout d)); [lia |].
  unfold header_get. simpl. rewrite lookup_singleton_eq. simpl.
  rewrite Discovery.Gee.parse_servers_Join.
  2: { apply Forall_forall. intros a (s & Hs & _)%H3. by eapply Hclean. }
  split_and!; try done. intros a. unfold is_alive, is_Some. by setoid_rewrite H5.
Qed.

(** A heartbeat never registers its server: the header it sets is not the one
    the registry reads, so every heartbeat is answered with status 500 and leaves
    the registry unchanged, while its sender sees success and goes on for ever. *)
Theorem heartbeat_never_registers order clock now addr r :
  ServeHTTP order clock now (heartbeat_request addr) r =
    (mkResponse StatusInternalServerError ∅, r) /\
  sendHeartbeat (fun req => Ok (ServeHTTP order clock now req r).1) addr = Ok tt /\
  forall n, Heartbeat (replicate n (Ok (mkResponse StatusInternalServerError ∅))) addr = n.
Proof. split_and!; [done | done |]. induction n as [| n IH]; [done |]. simpl. by rewrite IH. Qed.

End Gee.

Lemma refresh_learns_alive_witness :
  let r := Gee.putServer "tcp@b:2" 90 (Gee.putServer "tcp@a:1" 10 (Gee.New 50)) in
  let clock := fun _ : string => 100 in
  let '(resp, r') := Gee.ServeHTTP [("tcp@b:2", 90); ("tcp@a:1", 10)] clock 100 (Gee.mkRequest "GET" ∅) r in
  let '(e, d') := Discovery.Gee.Refresh 100
      (Ok (Gee.header_get (Gee.resp_header resp) "X-Geerpc-Servers")) 101
      (Discovery.Gee.NewGeeRegistryDiscovery (G := Z) "http://reg" 1 7) in
  let l := Discovery.Multi.servers (Discovery.Gee.base d') in
  e = Ok tt /\ StronglySorted str_le l /\ NoDup l /\
  (forall a, a ∈ l <-> Gee.is_alive r clock a) /\
  (forall a, is_Some (Gee.servers r' !! a) <-> Gee.is_alive r clock a).
Proof.
  apply (Gee.refresh_learns_alive [("tcp@b:2", 90); ("tcp@a:1", 10)] (fun _ => 100) 100
    (Gee.putServer "tcp@b:2" 90 (Gee.putServer "tcp@a:1" 10 (Gee.New 50))) 100 101
    (Discovery.Gee.NewGeeRegistryDiscovery (G := Z) "http://reg" 1 7)).
  - apply (bool_decide_unpack _). vm_compute. exact I.
  - intros a s. change (Gee.servers _) with ({["tcp@b:2" := 90; "tcp@a:1" := 10]} : gmap string Z).
    rewrite !lookup_insert_Some, lookup_singleton_Some. unfold Gee.clean_address.
    naive_solver.
  - vm_compute. discriminate.
Defined.

Module Etcd.

Definition lease : Type := Z.

(** The etcd client's calls, the context, the timer and the keep-alive channel:
    [KaRecv] is one receive, [false] when the channel is closed or yields nil. *)
Inductive etcd_cmd :=
| Grant (ttl : Z)
| Put (key value : string) (l : lease)
| Revoke (l : lease)
| KeepAliveOpen (l : lease)
| KaRecv
| CtxDone
| SleepOrDone (d : Z)
| ClientClose.

Definition etcd_res (c : etcd_cmd) : Type :=
  match c with
  | Grant _ => outcome lease
  | Put _ _ _ | Revoke _ | KeepAliveOpen _ | ClientClose => outcome unit
  | KaRecv => bool
  | CtxDone | SleepOrDone _ => option string      (* the context's error, if done *)
  end.

Definition etcd : Sig := mkSig etcd_cmd etcd_res.
Definition grant ttl : prog etcd (outcome lease) := call (S := etcd) (Grant ttl).
Definition put k v l : prog etcd (outcome unit) := call (S := etcd) (Put k v l).
Definition revoke l : prog etcd (outcome unit) := call (S := etcd) (Revoke l).
Definition ka_open l : prog etcd (outcome unit) := call (S := etcd) (KeepAliveOpen l).
Definition ka_recv : prog etcd bool := call (S := etcd) KaRecv.
Definition ctx_done : prog etcd (option string) := call (S := etcd) CtxDone.
Definition sleep (d : Z) : prog etcd (option string) := call (S := etcd) (SleepOrDone d).
Definition client_close : prog etcd (outcome unit) := call (S := etcd) ClientClose.

#[local] Hint Unfold grant put revoke ka_open ka_recv ctx_done sleep client_close : prog.

Record EtcdRegistry := mkEtcdRegistry {
  leaseID : lease;
  leaseTTL : Z;
  key : string;
  value : string;
  closed : bool;
}.

Definition set_lease (l : lease) (r : EtcdRegistry) : EtcdRegistry :=
  mkEtcdRegistry l (leaseTTL r) (key r) (value r) (closed r).

(** [client] is the outcome of [clientv3.New]. *)
Definition NewEtcdRegistry (client : outcome unit) (ttl : Z) : outcome EtcdRegistry :=
  let ttl := if ttl <=? 0 then 10 else ttl in
  outcome_map (fun _ => mkEtcdRegistry 0 ttl "" "" false) client.

Section etcd_registry.
(** [json.Marshal] of the value map. *)
Variable Marshal : gmap string string -> string.

(** The meta entries are written over the "addr" entry. *)
Definition value_map (addr : string) (meta : option (gmap string string)) : gmap string string :=
  default ∅ meta ∪ {[ "addr" := addr ]}.

Definition Register (serviceName addr : string) (meta : option (gmap string string))
    (r : EtcdRegistry) : prog etcd (outcome unit * EtcdRegistry) :=
  resp <- grant (leaseTTL r) ;;
  match resp with
  | Err e => Ret (Err ("etcd grant lease: " +:+ e), r)
  | Panic m => Ret (Panic m, r)
  | Ok l =>
      let r1 := mkEtcdRegistry l (leaseTTL r)
        ("/services/" +:+ serviceName +:+ "/" +:+ addr)
        (Marshal (value_map addr meta)) (closed r) in
      err <- put (key r1) (value r1) (leaseID r1) ;;
      match err with
      | Err e => Ret (Err ("etcd put key: " +:+ e), r1)
      | Ok u => Ret (Ok u, r1)
      | Panic m => Ret (Panic m, r1)
      end
  end.

Definition reRegister (r : EtcdRegistry) : prog etcd (outcome unit * EtcdRegistry) :=
  (if leaseID r =? 0 then Ret tt else revoke (leaseID r) ;; Ret tt) ;;
  resp <- grant (leaseTTL r) ;;
  match resp with
  | Err e => Ret (Err e, r)
  | Panic m => Ret (Panic m, r)
  | Ok l =>
      let r1 := set_lease l r in
      err <- put (key r1) (value r1) (leaseID r1) ;;
      Ret (err, r1)
  end.

(** Drain the keep-alive channel; [n] bounds the responses received. *)
Fixpoint drain (n : nat) : prog etcd unit :=
  match n with
  | O => Ret tt
  | S n' => more <- ka_recv ;; (if more then drain n' else Ret tt)
  end.

(** Re-register, and on failure wait: [Some e] when the context ended meanwhile. *)
Definition recover (r : EtcdRegistry) : prog etcd (option string * EtcdRegistry) :=
  '(err, r1) <- reRegister r ;;
  match err with
  | Ok _ => Ret (None, r1)
  | _ => e <- sleep (3 * 10 ^ 9) ;; Ret (e, r1)
  end.

(** [n] bounds the iterations of the endless loop and [m] the responses of
    each keep-alive channel; [None] when the loop still runs after [n]. *)
Fixpoint KeepAlive (n m : nat) (r : EtcdRegistry) : prog etcd (option string * EtcdRegistry) :=
  match n with
  | O => Ret (None, r)
  | S n' =>
      done <- ctx_done ;;
      match done with
      | Some e => Ret (Some e, r)
      | None =>
          ch <- ka_open (leaseID r) ;;
          match ch with
          | Ok _ => drain m
          | _ => Ret tt
          end ;;
          '(e, r1) <- recover r ;;
          match e with
          | Some e => Ret (Some e, r1)
          | None => KeepAlive n' m r1
          end
      end
  end.

Definition Deregister (r : EtcdRegistry) : prog etcd (outcome unit) :=
  if leaseID r =? 0 then Ret (Ok tt) else revoke (leaseID r).

Definition Close (r : EtcdRegistry) : prog etcd (outcome unit * EtcdRegistry) :=
  err <- client_close ;;
  Ret (err, mkEtcdRegistry (leaseID r) (leaseTTL r) (key r) (value r) true).

(** ** The lease discipline

    A monitor of the trace: the lease in force is the one last granted; every
    Put writes the registered key and value under it, and every Revoke and
    keep-alive is for it. [None] when an event breaks the discipline. *)
Definition monitor (k v : string) (l : option lease) (e : event etcd) : option lease :=
  l ← l;
  match e with
  | existT (Grant _) (Ok l') => Some l'
  | existT (Put k' v' l') _ =>
      if String.eqb k k' && String.eqb v v' && (l =? l') then Some l else None
  | existT (Revoke l') _ | existT (KeepAliveOpen l') _ => if l =? l' then Some l else None
  | existT _ _ => Some l
  end.

Definition in_force (k v : string) (l : lease) (tr : list (event etcd)) : option lease :=
  foldl (monitor k v) (Some l) tr.

Lemma in_force_app k v l t t' :
  in_force k v l (t ++ t') = (l' ← in_force k v l t; in_force k v l' t').
Proof.
  unfold in_force. rewrite foldl_app. destruct (foldl _ (Some l) t); [done |]. simpl.
  induction t' as [| e t' IH]; [done |]. exact IH.
Qed.

Lemma in_force_register k v l0 ttl l x t :
  in_force k v l0 (@ev etcd (Grant ttl) (Ok l) :: @ev etcd (Put k v l) x :: t) = in_force k v l t.
Proof. unfold in_force. simpl. by rewrite !String.eqb_refl, Z.eqb_refl. Qed.

(** [Q] of the monitored outcome: same key, value and ttl, and the record's
    lease is the one in force. *)
Definition disciplined (r r' : EtcdRegistry) (tr : list (event etcd)) : Prop :=
  key r' = key r /\ value r' = value r /\
  in_force (key r) (value r) (leaseID r) tr = Some (leaseID r').

Lemma disciplined_app r r1 r2 t t' :
  disciplined r r1 t -> disciplined r1 r2 t' -> disciplined r r2 (t ++ t').
Proof.
  intros (E1 & E2 & H) (E1' & E2' & H'). unfold disciplined.
  rewrite in_force_app, H, E1', E2', E1, E2. simpl. by rewrite <- E1, <- E2.
Qed.

Lemma disciplined_nil r : disciplined r r [].
Proof. done. Qed.

Context {W : Type} (h : env etcd W).

Lemma reRegister_disciplined r :
  always h (reRegister r) (fun x tr => disciplined r x.2 tr).
Proof.
  unfold reRegister, set_lease.
  destruct (Z.eqb_spec (leaseID r) 0); walk; unfold disciplined, in_force;
    (split_and!; [done | done |]); simpl; subst; simpl;
    repeat (rewrite ?Z.eqb_refl, ?String.eqb_refl; simpl); done.
Qed.

Lemma drain_disciplined m r : always h (drain m) (fun _ tr => disciplined r r tr).
Proof.
  induction m as [| m IH]; simpl; [by apply always_Ret |].
  apply always_Do. intros [|]; simpl; [| by apply always_Ret].
  eapply always_impl; [exact IH |]. done.
Qed.

Lemma recover_disciplined r :
  always h (recover r) (fun x tr => disciplined r x.2 tr).
Proof.
  eapply always_bind; [apply reRegister_disciplined |]. intros [err r1] tr Hd. simpl in Hd.
  destruct err; walk; simpl; (eapply disciplined_app; [exact Hd | apply disciplined_nil]).
Qed.

Lemma KeepAlive_disciplined n m r :
  always h (KeepAlive n m r) (fun x tr => disciplined r x.2 tr).
Proof.
  revert r. induction n as [| n IH]; intros r; cbn [KeepAlive]; [by apply always_Ret |].
  apply always_Do. intros [e |]; cbn [bind]; [by apply always_Ret |].
  apply always_Do. intros ch. cbn [bind].
  assert (always h (match ch with Ok _ => drain m | _ => Ret tt end)
    (fun _ tr => disciplined r r (@ev etcd CtxDone None :: @ev etcd (KeepAliveOpen (leaseID r)) ch :: tr))) as Hd.
  { assert (forall tr, disciplined r r tr ->
      disciplined r r (@ev etcd CtxDone None :: @ev etcd (KeepAliveOpen (leaseID r)) ch :: tr)) as Hx.
    { intros tr Htr. unfold disciplined, in_force in *. simpl. by rewrite Z.eqb_refl. }
    destruct ch; [eapply always_impl; [apply (drain_disciplined m r) | intros ? ?; apply Hx] | |]; apply always_Ret, Hx, disciplined_nil. }
  eapply always_bind; [exact Hd |]. simpl. intros _ tr Htr.
  eapply always_bind; [apply recover_disciplined |]. simpl. intros [e r1] tr1 Htr1. simpl in Htr1.
  pose proof (disciplined_app _ _ _ _ _ Htr Htr1) as H1. simpl in H1.
  destruct e; [apply always_Ret; simpl; by rewrite app_nil_r |].
  eapply always_impl; [apply IH |]. simpl. intros x tr2 H2.
  pose proof (disciplined_app _ _ _ _ _ H1 H2) as H3. simpl in H3. by rewrite <- app_assoc in H3.
Qed.

Definition revoke_all (l : lease) (tr : list (event etcd)) : Prop :=
  exists tr0 x, tr = tr0 ++ [@ev etcd (Revoke l) x].

(** The lease discipline of the etcd registration: however long KeepAlive
    runs and whatever etcd answers, every Put writes the registered key and value
    under the lease granted last, every Revoke and keep-alive is for that lease,
    and a final Deregister revokes it (so no put key outlives the instance). *)
Theorem registration_follows_lease n m serviceName addr meta r :
  always h
    ('(err, r1) <- Register serviceName addr meta r ;;
     match err with
     | Ok _ => '(_, r2) <- KeepAlive n m r1 ;; Deregister r2 ;; Ret (Some (r1, r2))
     | _ => Ret None
     end)
    (fun x tr =>
      forall r1 r2, x = Some (r1, r2) ->
      key r1 = "/services/" +:+ serviceName +:+ "/" +:+ addr /\
      in_force (key r1) (value r1) (leaseID r) tr = Some (leaseID r2) /\
      (leaseID r2 <> 0 -> revoke_all (leaseID r2) tr)).
Proof.
  unfold Register, grant, put, call. apply always_Do. intros resp. cbn [bind].
  destruct resp as [l | e | p]; cbn [bind]; [| by apply always_Ret..].
  apply always_Do. intros err. cbn [bind].
  destruct err as [[] | e | p]; cbn [bind]; [| by apply always_Ret..].
  set (r1 := mkEtcdRegistry _ _ _ _ _).
  eapply always_bind; [apply KeepAlive_disciplined |]. intros [e r2] tr (E1 & E2 & Hf). simpl in *.
  unfold Deregister, revoke, call. destruct (Z.eqb_spec (leaseID r2) 0) as [H0 | H0]; cbn [bind].
  - apply always_Ret. intros ? ? [= <- <-]. split_and!; [done | | done].
    rewrite app_nil_r. etrans; [apply in_force_register | exact Hf].
  - apply always_Do. intros d. apply always_Ret. intros ? ? [= <- <-]. split_and!; [done | |].
    + etrans; [apply in_force_register |]. rewrite in_force_app.
      unfold r1 in *. cbn [key value leaseID] in Hf. rewrite Hf.
      unfold in_force. simpl. by rewrite Z.eqb_refl.
    + intros _. eexists (_ :: _ :: tr), d. reflexivity.
Qed.
End etcd_registry.
End Etcd.
