(* ===== verification/Codec.v ===== *)
(** * Message codecs: apps/pkg/GrowRPC/codec/{codec,protobuf,gob,json}.go

    [Module Protobuf] is the length-prefixed framing over a buffered writer,
    [Module Gob] and [Module Json] the two encoders that work on a stream of
    values. Serialisation itself (protobuf, gob, json) is a parameter with its
    documented law: decoding what was encoded gives the value back. *)
From S2P Require Import Prelude GoStd GoText.

(** codec.Header *)
Record Header := mkHeader {
  ServiceMethod : string;
  Seq : Z;
  Error : string;
  Metadata : gmap string string;
}.

#[export] Instance Header_eq_dec : EqDecision Header.
Proof. solve_decision. Defined.

Inductive Type_ := GobType | JsonType | ProtobufType | OtherType (s : string).

Definition type_name (t : Type_) : string :=
  match t with
  | GobType => "application/gob"
  | JsonType => "application/json"
  | ProtobufType => "application/protobuf"
  | OtherType s => s
  end.

(** NewCodecFuncMap: the constructors init registers. *)
Definition NewCodecFuncMap : gmap string Type_ :=
  {[ type_name GobType := GobType;
     type_name JsonType := JsonType;
     type_name ProtobufType := ProtobufType ]}.

Definition err_body : string := "rpc codec: body must implement proto.Message".
Definition err_eof : string := "EOF".
Definition err_unexpected_eof : string := "unexpected EOF".

Definition slen (s : string) : Z := Z.of_nat (String.length s).

Lemma slen_app s t : slen (s +:+ t) = slen s + slen t.
Proof. unfold slen. induction s as [| a s IH]; [done | simpl; lia]. Qed.

(** ** The buffered writer and the reader of a connection *)

(** [bufio.Writer] of the default size over a connection that takes every byte
    until it breaks; the first error sticks. *)
Record Writer := mkWriter {
  sent : string;      (* what the connection has taken *)
  buffered : string;
  conn_up : bool;
  werr : option string;
}.

Definition bufsize : Z := 4096.

Definition conn_write (p : string) (w : Writer) : Writer :=
  if conn_up w then mkWriter (sent w +:+ p) (buffered w) true (werr w)
  else mkWriter (sent w) (buffered w) false (Some "broken pipe").

Definition Flush (w : Writer) : outcome unit * Writer :=
  match werr w with
  | Some e => (Err e, w)
  | None =>
      if String.eqb (buffered w) "" then (Ok tt, w)
      else
        let w1 := conn_write (buffered w) w in
        match werr w1 with
        | Some e => (Err e, w1)
        | None => (Ok tt, mkWriter (sent w1) "" (conn_up w1) None)
        end
  end.

(** The loop of [Writer.Write]; three rounds are enough: fill and flush, write
    the rest directly, leave. *)
Fixpoint write_loop (n : nat) (p : string) (w : Writer) : string * Writer :=
  match n with
  | O => (p, w)
  | S n' =>
      let avail := bufsize - slen (buffered w) in
      if (avail <? slen p) && bool_decide (werr w = None) then
        if String.eqb (buffered w) "" then write_loop n' "" (conn_write p w)
        else
          let k := Z.to_nat avail in
          let w1 := mkWriter (sent w) (buffered w +:+ string_take k p) (conn_up w) (werr w) in
          write_loop n' (string_drop k p) (Flush w1).2
      else (p, w)
  end.

Definition buf_Write (p : string) (w : Writer) : outcome unit * Writer :=
  let '(p, w) := write_loop 3 p w in
  match werr w with
  | Some e => (Err e, w)
  | None => (Ok tt, mkWriter (sent w) (buffered w +:+ p) (conn_up w) None)
  end.

(** All the bytes written so far, flushed or not. *)
Definition written (w : Writer) : string := sent w +:+ buffered w.

Definition healthy (w : Writer) : Prop :=
  conn_up w = true /\ werr w = None /\ slen (buffered w) <= bufsize.

(** [io.ReadFull]: exactly [n] bytes of the stream. *)
Definition ReadFull (n : Z) (inp : string) : outcome string * string :=
  if n =? 0 then (Ok "", inp)
  else if String.eqb inp "" then (Err err_eof, inp)
  else if slen inp <? n then (Err err_unexpected_eof, "")
  else (Ok (string_take (Z.to_nat n) inp), string_drop (Z.to_nat n) inp).

(** [binary.BigEndian] for a uint32. *)
Definition byte_of (z : Z) : ascii := ascii_of_N (Z.to_N (z mod 256)).
Definition of_byte (a : ascii) : Z := Z.of_N (N_of_ascii a).

Definition PutUint32 (n : Z) : string :=
  String (byte_of (n / 2 ^ 24)) (String (byte_of (n / 2 ^ 16))
    (String (byte_of (n / 2 ^ 8)) (String (byte_of n) ""))).

Definition GetUint32 (s : string) : Z :=
  match s with
  | String a (String b (String c (String d _))) =>
      of_byte a * 2 ^ 24 + of_byte b * 2 ^ 16 + of_byte c * 2 ^ 8 + of_byte d
  | _ => 0
  end.

Lemma of_byte_of z : of_byte (byte_of z) = z mod 256.
Proof.
  unfold of_byte, byte_of. pose proof (Z.mod_pos_bound z 256).
  rewrite N_ascii_embedding by lia. rewrite Z2N.id by lia. done.
Qed.

Lemma GetUint32_Put n s : is_uint32 n -> GetUint32 (PutUint32 n +:+ s) = n.
Proof.
  intros Hn. unfold is_uint32 in Hn. cbv [PutUint32 String.append GetUint32].
  rewrite !of_byte_of.
  pose proof (Z.div_mod n (2 ^ 8)). pose proof (Z.div_mod (n / 2 ^ 8) (2 ^ 8)).
  pose proof (Z.div_mod (n / 2 ^ 16) (2 ^ 8)).
  rewrite Z.div_div in * by lia. change (2 ^ 8 * 2 ^ 8) with (2 ^ 16) in *.
  change (2 ^ 16 * 2 ^ 8) with (2 ^ 24) in *.
  change 256 with (2 ^ 8).
  rewrite (Z.mod_small (n / 2 ^ 24)) by (split; [apply Z.div_pos; lia | apply Z.div_lt_upper_bound; lia]).
  lia.
Qed.

Lemma ReadFull_app s t : ReadFull (slen s) (s +:+ t) = (Ok s, t).
Proof.
  unfold ReadFull. destruct (Z.eqb_spec (slen s) 0) as [H | H].
  { destruct s; [done | unfold slen in H; simpl in H; lia]. }
  destruct (String.eqb_spec (s +:+ t) "") as [E |].
  { destruct s; [done | discriminate]. }
  rewrite slen_app. destruct (Z.ltb_spec (slen s + slen t) (slen s)); [unfold slen in *; lia |].
  unfold slen. rewrite Nat2Z.id. by rewrite string_take_app, string_drop_app.
Qed.

Lemma length_string_take n s : (String.length (string_take n s) <= n)%nat.
Proof. revert s. induction n as [| n IH]; intros [| a s]; simpl; try lia. specialize (IH s). lia. Qed.

Lemma Flush_healthy w :
  healthy w ->
  (Flush w).1 = Ok tt /\ (Flush w).2 = mkWriter (written w) "" true None.
Proof.
  destruct w as [s b up e]. intros (Hu & He & _). simpl in *. subst.
  unfold Flush, written. simpl. destruct (String.eqb_spec b ""); subst; simpl.
  - by rewrite string_app_nil.
  - done.
Qed.

(** On a connection that holds, the buffered writer keeps every byte in order. *)
Lemma buf_Write_healthy p w :
  healthy w ->
  exists w', buf_Write p w = (Ok tt, w') /\ healthy w' /\ written w' = written w +:+ p.
Proof.
  assert (forall n p w, healthy w -> (if decide (buffered w = "") then 2 <= n else 3 <= n)%nat ->
    exists p' w', write_loop n p w = (p', w') /\ healthy w' /\
      slen (buffered w') + slen p' <= bufsize /\ written w' +:+ p' = written w +:+ p) as Hloop.
  { clear p w. induction n as [| n IH]; intros p w Hw Hn; [case_decide; lia |]. simpl.
    destruct Hw as (Hu & He & Hb). rewrite He. rewrite (bool_decide_true (None = None)) by done.
    destruct (Z.ltb_spec (bufsize - slen (buffered w)) (slen p)) as [Hlt | Hge]; simpl.
    2: { exists p, w. split_and!; try done. lia. }
    destruct (String.eqb_spec (buffered w) "") as [Hbe | Hbe].
    - rewrite decide_True in Hn by done. unfold conn_write. rewrite Hu, Hbe.
      destruct n as [| n]; [lia |]. simpl. rewrite He. simpl.
      eexists _, _. split; [reflexivity |]. unfold healthy, written, bufsize, slen. simpl.
      rewrite Hbe. by rewrite !string_app_nil.
    - rewrite decide_False in Hn by done.
      set (k := Z.to_nat _). set (w1 := mkWriter _ _ _ _).
      assert (healthy w1) as Hw1.
      { split_and!; [done | done |]. unfold w1. simpl. rewrite slen_app.
        pose proof (length_string_take k p). unfold slen in *. lia. }
      destruct (Flush_healthy w1 Hw1) as [_ ->].
      destruct (IH (string_drop k p) (mkWriter (written w1) "" true None)) as (p' & w' & H1 & H2 & H3 & H4).
      + split_and!; [done | done |]. by vm_compute.
      + simpl. lia.
      + exists p', w'. split_and!; [done | done | done |]. rewrite H4. unfold written, w1. simpl.
        rewrite string_app_nil, <- !string_app_assoc, string_take_drop. done. }
  intros Hw. unfold buf_Write.
  destruct (Hloop 3%nat p w Hw) as (p' & w' & -> & (Hu & He & Hb) & Hlen & Hwr);
    [case_decide; lia |].
  rewrite He. eexists. split; [reflexivity |]. unfold healthy, written in *. simpl.
  rewrite slen_app. rewrite <- Hwr, string_app_assoc. done.
Qed.

(** ** Protobuf *)

(** [proto.Marshal] and [proto.Unmarshal] of one message type. *)
Class Proto (M : Type) := {
  Marshal : M -> outcome string;
  Unmarshal : string -> outcome M;
}.

(** What the protobuf library documents: decoding the encoding of a message
    gives an equal message. *)
Class ProtoLaws (M : Type) `{Proto M} := {
  Unmarshal_Marshal : forall m d, Marshal m = Ok d -> Unmarshal d = Ok m;
}.

Module Protobuf.
Section protobuf.
Context {M : Type} `{ProtoLaws M} `{ProtoLaws Header}.

(** The values a caller can pass as a body. *)
Inductive Body :=
| BNil
| BEmptyStruct
| BMsg (m : M)
| BOther.

Definition Close (w : Writer) : Writer := mkWriter (sent w) (buffered w) false (werr w).

Definition writeMessage {A} `{Proto A} (m : A) (w : Writer) : outcome unit * Writer :=
  match Marshal m with
  | Ok data =>
      match buf_Write (PutUint32 (uint32 (slen data))) w with
      | (Ok _, w1) => buf_Write data w1
      | r => r
      end
  | Err e => (Err e, w)
  | Panic p => (Panic p, w)
  end.

Definition writeEmptyBody (w : Writer) : outcome unit * Writer :=
  match buf_Write (PutUint32 0) w with
  | (Ok _, w1) => Flush w1
  | r => r
  end.

Definition Write (h : Header) (b : Body) (w : Writer) : outcome unit * Writer :=
  match writeMessage h w with
  | (Ok _, w1) =>
      match b with
      | BNil | BEmptyStruct => writeEmptyBody w1
      | BOther => (Err err_body, w1)
      | BMsg m =>
          match writeMessage m w1 with
          | (Ok _, w2) => Flush w2
          | r => r
          end
      end
  | r => r
  end.

(** The bytes of one message, and the rest of the stream. *)
Definition readFrame (inp : string) : outcome string * string :=
  match ReadFull 4 inp with
  | (Ok hd, inp1) => ReadFull (GetUint32 hd) inp1
  | r => r
  end.

Definition readMessage {A} `{Proto A} (inp : string) : outcome A * string :=
  match readFrame inp with
  | (Ok data, rest) => (Unmarshal data, rest)
  | (Err e, rest) => (Err e, rest)
  | (Panic p, rest) => (Panic p, rest)
  end.

Definition ReadHeader (inp : string) : outcome Header * string := readMessage inp.

(** Where ReadBody puts the body: nowhere, a protobuf message, another type. *)
Inductive Target := TNil | TMsg | TOther.

(** A body that is skipped reads as [None]. *)
Definition ReadBody (t : Target) (inp : string) : outcome (option M) * string :=
  match t with
  | TNil => let '(r, rest) := readFrame inp in (outcome_map (fun _ => None) r, rest)
  | TOther => (Err err_body, inp)
  | TMsg => let '(r, rest) := readMessage inp in (outcome_map Some r, rest)
  end.

(** ** Framing *)

Definition frame (data : string) : string := PutUint32 (slen data) +:+ data.

Definition fits (data : string) : Prop := slen data < 2 ^ 32.

Lemma readFrame_frame data rest :
  fits data -> readFrame (frame data +:+ rest) = (Ok data, rest).
Proof.
  intros Hd. unfold readFrame, frame. rewrite <- string_app_assoc.
  change 4 with (slen (PutUint32 (slen data))). rewrite ReadFull_app.
  rewrite <- (string_app_nil (PutUint32 (slen data))).
  rewrite GetUint32_Put by (unfold is_uint32, fits, slen in *; lia). apply ReadFull_app.
Qed.

Lemma writeMessage_healthy {A} `{Proto A} (m : A) data w :
  healthy w -> Marshal m = Ok data -> fits data ->
  exists w', writeMessage m w = (Ok tt, w') /\ healthy w' /\ written w' = written w +:+ frame data.
Proof.
  intros Hw Hm Hd. unfold writeMessage. rewrite Hm.
  rewrite uint32_id by (unfold is_uint32, fits, slen in *; lia).
  destruct (buf_Write_healthy (PutUint32 (slen data)) w Hw) as (w1 & -> & Hw1 & E1).
  destruct (buf_Write_healthy data w1 Hw1) as (w2 & -> & Hw2 & E2).
  exists w2. split_and!; [done | done |]. by rewrite E2, E1, <- string_app_assoc.
Qed.

(** The bytes a message occupies on the wire. *)
Definition encodes (msg : Header * Body) (bytes : string) : Prop :=
  exists hd bd, Marshal msg.1 = Ok hd /\ fits hd /\ fits bd /\ bytes = frame hd +:+ frame bd /\
    match msg.2 with
    | BNil | BEmptyStruct => bd = ""
    | BMsg m => Marshal m = Ok bd
    | BOther => False
    end.

Lemma Write_healthy msg bytes w :
  healthy w -> encodes msg bytes ->
  Write msg.1 msg.2 w = (Ok tt, mkWriter (written w +:+ bytes) "" true None).
Proof.
  intros Hw (hd & bd & Hh & Hfh & Hfb & -> & Hb). unfold Write.
  destruct (writeMessage_healthy _ _ _ Hw Hh Hfh) as (w1 & -> & Hw1 & E1).
  assert (forall w2, healthy w2 -> written w2 = written w1 +:+ frame bd ->
    Flush w2 = (Ok tt, mkWriter (written w +:+ (frame hd +:+ frame bd)) "" true None)) as HF.
  { intros w2 Hw2 E2. destruct (Flush_healthy w2 Hw2) as [F1 F2].
    rewrite (surjective_pairing (Flush w2)), F1, F2, E2, E1. by rewrite <- string_app_assoc. }
  destruct msg as [h b]. simpl in *. destruct b as [| | m |]; [| | | done].
  1, 2: subst bd; unfold writeEmptyBody;
    destruct (buf_Write_healthy (PutUint32 0) w1 Hw1) as (w2 & -> & Hw2 & E2); by apply HF.
  destruct (writeMessage_healthy m bd w1 Hw1 Hb Hfb) as (w2 & -> & Hw2 & E2). by apply HF.
Qed.

(** A session: the messages written in order, and a reader that decodes them,
    told for each whether its body is read or skipped. *)
Fixpoint write_all (msgs : list (Header * Body)) (w : Writer) : outcome unit * Writer :=
  match msgs with
  | [] => (Ok tt, w)
  | (h, b) :: msgs' =>
      match Write h b w with
      | (Ok _, w1) => write_all msgs' w1
      | r => r
      end
  end.

Fixpoint read_all (targets : list Target) (inp : string) :
    outcome (list (Header * option M)) * string :=
  match targets with
  | [] => (Ok [], inp)
  | t :: targets' =>
      match ReadHeader inp with
      | (Ok h, inp1) =>
          match ReadBody t inp1 with
          | (Ok b, inp2) =>
              let '(r, rest) := read_all targets' inp2 in
              (outcome_map (cons (h, b)) r, rest)
          | (Err e, rest) => (Err e, rest)
          | (Panic p, rest) => (Panic p, rest)
          end
      | (Err e, rest) => (Err e, rest)
      | (Panic p, rest) => (Panic p, rest)
      end
  end.

(** How a reader treats a body: it may skip any, and decode a message. *)
Definition reads (b : Body) (t : Target) : Prop :=
  t = TNil \/ (t = TMsg /\ exists m, b = BMsg m).

Definition received (msg : Header * Body) (t : Target) : Header * option M :=
  (msg.1, match t, msg.2 with TMsg, BMsg m => Some m | _, _ => None end).

Lemma write_all_healthy msgs bytes w :
  healthy w -> Forall2 encodes msgs bytes ->
  exists w', write_all msgs w = (Ok tt, w') /\ healthy w' /\
    written w' = written w +:+ foldr String.append "" bytes /\
    (msgs <> [] \/ buffered w = "" -> buffered w' = "").
Proof.
  intros Hw Henc. revert w Hw. induction Henc as [| [h b] by_ msgs bytes He Henc IH]; intros w Hw.
  { exists w. simpl. rewrite string_app_nil. split_and!; try done. by intros []. }
  cbn [write_all foldr]. pose proof (Write_healthy _ _ _ Hw He) as HW. simpl in HW. rewrite HW.
  edestruct (IH (mkWriter (written w +:+ by_) "" true None)) as (w' & -> & Hw' & E & Hb).
  { split_and!; [done | done | by vm_compute]. }
  exists w'. split_and!; [done | done | | intros _; apply Hb; by right].
  rewrite E. unfold written at 1. simpl. by rewrite string_app_nil, string_app_assoc.
Qed.

Lemma read_all_encoded msgs bytes targets rest :
  Forall2 encodes msgs bytes -> Forall2 reads (snd <$> msgs) targets ->
  read_all targets (foldr String.append "" bytes +:+ rest) = (Ok (zip_with received msgs targets), rest).
Proof.
  intros Henc. revert targets. induction Henc as [| [h b] by_ msgs bytes He Henc IH];
    intros targets Ht; inversion Ht as [| ? t ? targets' Hr Ht']; subst; [done |].
  destruct He as (hd & bd & Hh & Hfh & Hfb & -> & Hb). simpl in Hh, Hb.
  cbn [read_all foldr]. unfold ReadHeader, readMessage. rewrite <- !string_app_assoc.
  rewrite readFrame_frame, (Unmarshal_Marshal _ _ Hh) by done.
  assert (ReadBody t (frame bd +:+ (foldr String.append "" bytes +:+ rest)) =
    (Ok (received (h, b) t).2, foldr String.append "" bytes +:+ rest)) as ->.
  { destruct Hr as [-> | (-> & m & ->)]; unfold ReadBody, readMessage;
      rewrite readFrame_frame by done; [done |]. by rewrite (Unmarshal_Marshal _ _ Hb). }
  by rewrite (IH targets' Ht').
Qed.

(** C32: Framing round trip: on a connection that holds, any sequence of messages
    whose parts marshal to less than 2^32 bytes is written without error and
    left flushed, and the peer reads back every header and every body it wants,
    in order, skipping the others, with nothing left over. *)
Theorem protobuf_session_roundtrip msgs bytes targets :
  Forall2 encodes msgs bytes -> Forall2 reads (snd <$> msgs) targets ->
  exists w', write_all msgs (mkWriter "" "" true None) = (Ok tt, w') /\ buffered w' = "" /\
    read_all targets (sent w') = (Ok (zip_with received msgs targets), "").
Proof.
  intros Henc Ht.
  destruct (write_all_healthy msgs bytes (mkWriter "" "" true None)) as (w' & -> & _ & E & Hb); [| done |].
  { split_and!; [done | done | by vm_compute]. }
  exists w'. split_and!; [done | apply Hb; by right |].
  assert (sent w' = foldr String.append "" bytes +:+ "") as ->.
  { unfold written in E. rewrite Hb in E by (by right). by rewrite !string_app_nil in *. }
  by apply read_all_encoded.
Qed.

(** A body that is not a protobuf message desynchronises the connection: the
    Write that refuses it has already buffered its header, and the next good
    Write sends that header first, so the peer reads the refused call's header
    and takes the good call's header for its body. *)
Theorem refused_body_desynchronises h1 hd1 msg2 hd2 bd2 :
  Marshal h1 = Ok hd1 -> fits hd1 ->
  Marshal msg2.1 = Ok hd2 -> encodes msg2 (frame hd2 +:+ frame bd2) -> fits hd2 -> fits bd2 ->
  exists w1, Write h1 BOther (mkWriter "" "" true None) = (Err err_body, w1) /\
    (Write msg2.1 msg2.2 w1).1 = Ok tt /\
    let out := sent (Write msg2.1 msg2.2 w1).2 in
    out = frame hd1 +:+ (frame hd2 +:+ frame bd2) /\
    ReadHeader out = (Ok h1, frame hd2 +:+ frame bd2) /\
    ReadBody TNil (frame hd2 +:+ frame bd2) = (Ok None, frame bd2).
Proof.
  intros Hh1 Hf1 Hh2 He Hf2 Hb2. unfold Write at 1.
  destruct (writeMessage_healthy h1 hd1 (mkWriter "" "" true None)) as (w1 & -> & Hw1 & E1);
    [split_and!; [done | done | by vm_compute] | done | done |].
  exists w1. split; [done |]. rewrite (Write_healthy msg2 _ w1 Hw1 He). cbn [fst snd sent].
  rewrite E1. unfold written. cbn [sent buffered]. change ("" +:+ "") with "". cbv zeta.
  change ("" +:+ frame hd1) with (frame hd1). split_and!; [done | done | |].
  - unfold ReadHeader, readMessage. rewrite readFrame_frame by done.
    by rewrite (Unmarshal_Marshal _ _ Hh1).
  - unfold ReadBody. by rewrite readFrame_frame.
Qed.
End protobuf.
End Protobuf.

(** ** A concrete serialisation, to run the definitions *)

Fixpoint bits_of (p : positive) : string :=
  match p with
  | xH => ""
  | xO p => String "0" (bits_of p)
  | xI p => String "1" (bits_of p)
  end.

Fixpoint of_bits (s : string) : positive :=
  match s with
  | String a s' => if Ascii.eqb a "0" then xO (of_bits s') else xI (of_bits s')
  | "" => xH
  end.

Lemma of_bits_of p : of_bits (bits_of p) = p.
Proof. induction p as [p IH | p IH |]; simpl; by rewrite ?IH. Qed.

#[export] Instance Header_countable : Countable Header.
Proof.
  apply (inj_countable' (fun h => (ServiceMethod h, Seq h, Error h, Metadata h))
    (fun x => mkHeader x.1.1.1 x.1.1.2 x.1.2 x.2)).
  by intros [].
Defined.

Section bit_proto.
Context {A} `{Countable A}.

Definition bit_Marshal (a : A) : outcome string := Ok (bits_of (encode a)).
Definition bit_Unmarshal (s : string) : outcome A :=
  match decode (of_bits s) with Some a => Ok a | None => Err "invalid wire format" end.

Definition bit_proto : Proto A := {| Marshal := bit_Marshal; Unmarshal := bit_Unmarshal |}.

Lemma bit_laws : @ProtoLaws A bit_proto.
Proof.
  split. intros m d [= <-]. simpl. unfold bit_Unmarshal. by rewrite of_bits_of, decode_encode.
Qed.
End bit_proto.

#[global] Instance Header_bit_proto : Proto Header := bit_proto.
#[global] Instance Header_bit_laws : ProtoLaws Header := bit_laws.
#[global] Instance string_bit_proto : Proto string := bit_proto.
#[global] Instance string_bit_laws : ProtoLaws string := bit_laws.

Definition demo_header (n : Z) : Header := mkHeader "Chat.Send" n "" {[ "trace" := "t1" ]}.
Definition demo_frame {A} `{Countable A} (a : A) : string := Protobuf.frame (bits_of (encode a)).

Lemma demo_encodes n (b : string) :
  Protobuf.fits (bits_of (encode (demo_header n))) -> Protobuf.fits (bits_of (encode b)) ->
  Protobuf.encodes (demo_header n, Protobuf.BMsg b) (demo_frame (demo_header n) +:+ demo_frame b).
Proof. intros Hh Hb. by exists (bits_of (encode (demo_header n))), (bits_of (encode b)). Qed.

Lemma demo_small s : (String.length s <=? 1000)%nat = true -> Protobuf.fits s.
Proof. intros H%Nat.leb_le. unfold Protobuf.fits, slen. lia. Qed.

Lemma protobuf_session_roundtrip_witness :
  let msgs := [(demo_header 1, Protobuf.BMsg "hi"); (demo_header 2, Protobuf.BMsg "you")] in
  exists w', Protobuf.write_all msgs (mkWriter "" "" true None) = (Ok tt, w') /\ buffered w' = "" /\
    Protobuf.read_all [Protobuf.TMsg; Protobuf.TNil] (sent w') =
      (Ok (zip_with Protobuf.received msgs [Protobuf.TMsg; Protobuf.TNil]), "").
Proof.
  eapply (Protobuf.protobuf_session_roundtrip (M := string)
    [(demo_header 1, Protobuf.BMsg "hi"); (demo_header 2, Protobuf.BMsg "you")]).
  - constructor; [| constructor; [| constructor]]; apply demo_encodes; apply demo_small;
      vm_compute; reflexivity.
  - constructor; [| constructor; [| constructor]]; [right; eauto | by left].
Defined.

Lemma refused_body_desynchronises_witness :
  let hd1 := bits_of (encode (demo_header 1)) in
  let hd2 := bits_of (encode (demo_header 2)) in
  let bd2 := bits_of (encode "you") in
  exists w1, Protobuf.Write (demo_header 1) (Protobuf.BOther (M := string)) (mkWriter "" "" true None) =
      (Err err_body, w1) /\
    (Protobuf.Write (demo_header 2) (Protobuf.BMsg "you") w1).1 = Ok tt /\
    let out := sent (Protobuf.Write (demo_header 2) (Protobuf.BMsg "you") w1).2 in
    out = Protobuf.frame hd1 +:+ (Protobuf.frame hd2 +:+ Protobuf.frame bd2) /\
    Protobuf.ReadHeader out = (Ok (demo_header 1), Protobuf.frame hd2 +:+ Protobuf.frame bd2) /\
    Protobuf.ReadBody (M := string) Protobuf.TNil (Protobuf.frame hd2 +:+ Protobuf.frame bd2) =
      (Ok None, Protobuf.frame bd2).
Proof.
  apply (Protobuf.refused_body_desynchronises (M := string) (demo_header 1)
    (bits_of (encode (demo_header 1))) (demo_header 2, Protobuf.BMsg "you")).
  - reflexivity.
  - apply demo_small. vm_compute. reflexivity.
  - reflexivity.
  - apply demo_encodes; apply demo_small; vm_compute; reflexivity.
  - apply demo_small. vm_compute. reflexivity.
  - apply demo_small. vm_compute. reflexivity.
Defined.

(** ** Gob and JSON: streams of encoded values *)

(** A connection that carries values: what was sent, what is buffered. *)
Record ValueConn (T : Type) := mkConn { vsent : list T; vbuf : list T; vclosed : bool }.
Arguments mkConn {T} _ _ _.
Arguments vsent {T} _.
Arguments vbuf {T} _.
Arguments vclosed {T} _.

Definition vflush {T} (c : ValueConn T) : ValueConn T :=
  if vclosed c then c else mkConn (vsent c ++ vbuf c) [] (vclosed c).
Definition vclose {T} (c : ValueConn T) : ValueConn T := mkConn (vsent c) (vbuf c) true.

(** An encoder of values of type [V] as items [T] of the stream, and its decoder. *)
Class ValueCodec (V T : Type) := {
  Encode : V -> outcome T;
  Decode : T -> outcome V;
}.

Class ValueCodecLaws (V T : Type) `{ValueCodec V T} := {
  Decode_Encode : forall v t, Encode v = Ok t -> Decode t = Ok v;
}.

(** [enc.Encode(v)]: nothing is buffered when encoding fails. *)
Definition enc_Encode {V T} `{ValueCodec V T} (v : V) (c : ValueConn T) : outcome unit * ValueConn T :=
  match Encode v with
  | Ok t => (Ok tt, mkConn (vsent c) (vbuf c ++ [t]) (vclosed c))
  | Err e => (Err e, c)
  | Panic p => (Panic p, c)
  end.

Definition dec_Decode {V T} `{ValueCodec V T} (inp : list T) : outcome V * list T :=
  match inp with
  | [] => (Err err_eof, [])
  | t :: rest => (Decode t, rest)
  end.

(** Reading a value without looking at it. *)
Definition dec_skip {T} (inp : list T) : outcome unit * list T :=
  match inp with
  | [] => (Err err_eof, [])
  | _ :: rest => (Ok tt, rest)
  end.

Module Gob.

Record gobHeader := mkGobHeader {
  gServiceMethod : string;
  gSeq : Z;
  gError : string;
  gMetadata : string;
}.

Section gob.
Context {B T : Type} `{ValueCodecLaws B T} `{ValueCodecLaws gobHeader T}.
(** [encoding/json] on a [map[string]string]: the empty text is never valid. *)
Context `{ValueCodecLaws (gmap string string) string}.
Hypothesis json_nonempty : forall (m : gmap string string), Encode (T := string) m <> Ok "".

(** [b, _ := json.Marshal(...)]: an error leaves the text empty. *)
Definition metaStr (md : gmap string string) : string :=
  if decide (md = ∅) then ""
  else match Encode md with Ok s => s | _ => "" end.

Definition to_wire (h : Header) : gobHeader :=
  mkGobHeader (ServiceMethod h) (Seq h) (Error h) (metaStr (Metadata h)).

Definition Write (h : Header) (body : B) (c : ValueConn T) : outcome unit * ValueConn T :=
  let '(err, c1) :=
    match enc_Encode (to_wire h) c with
    | (Ok _, c1) => enc_Encode body c1
    | r => r
    end in
  let c2 := vflush c1 in
  match err with Ok _ => (err, c2) | _ => (err, vclose c2) end.

(** A header whose metadata cannot be decoded keeps what was decoded: nothing. *)
Definition ReadHeader (inp : list T) : outcome Header * list T :=
  let '(r, rest) := dec_Decode (V := gobHeader) inp in
  (outcome_map (fun wh =>
     mkHeader (gServiceMethod wh) (gSeq wh) (gError wh)
       (if String.eqb (gMetadata wh) "" then ∅
        else match Decode (T := string) (gMetadata wh) with Ok md => md | _ => ∅ end)) r, rest).

(** The type a value was encoded with, as the decoder reports it. *)
Variable type_of : T -> string.

(** A nil body is decoded into an interface variable, which takes only a value encoded as
    an interface: Encode never sends one, so the value is consumed and refused. *)
Definition discard_error (v : T) : string :=
  "gob: local interface type *interface {} can only be decoded from remote interface type; received concrete type " +:+ type_of v.
Definition ReadBody (wanted : bool) (inp : list T) : outcome (option B) * list T :=
  if wanted then let '(r, rest) := dec_Decode (V := B) inp in (outcome_map Some r, rest)
  else
    match inp with
    | [] => (Err err_eof, [])
    | v :: rest => (Err (discard_error v), rest)
    end.

(** No body can be skipped, so an answer that carries an error, or that nobody waits for,
    ends the connection of its client. *)
Lemma gob_skips_nothing inp : exists e, (ReadBody false inp).1 = Err e.
Proof. destruct inp; by eexists. Qed.

(** A gob message round-trips: when header and body encode, Write succeeds,
    flushes both and leaves the connection open, and the peer's ReadHeader and
    ReadBody give back the header - metadata included, whose JSON text must
    encode - and the body; when one does not, Write fails and closes. *)
Theorem gob_message_roundtrip h body c :
  vclosed c = false -> vbuf c = [] ->
  (Metadata h = ∅ \/ exists s, Encode (T := string) (Metadata h) = Ok s) ->
  match Encode (T := T) (to_wire h), Encode (T := T) body with
  | Ok th, Ok tb =>
      Write h body c = (Ok tt, mkConn (vsent c ++ [th; tb]) [] false) /\
      forall rest, ReadHeader (th :: tb :: rest) = (Ok h, tb :: rest) /\
        ReadBody true (tb :: rest) = (Ok (Some body), rest)
  | _, _ => (Write h body c).1 <> Ok tt /\ vclosed (Write h body c).2 = true
  end.
Proof.
  intros Hc Hb Hmd. unfold Write, enc_Encode.
  destruct (Encode (to_wire h)) as [th | e | p] eqn:Eh; [| by split..].
  destruct (Encode body) as [tb | e | p] eqn:Eb; [| by split..].
  unfold vflush. simpl. rewrite Hc, Hb. split; [done |]. intros rest.
  unfold ReadHeader, ReadBody. simpl.
  rewrite (Decode_Encode _ _ Eh), (Decode_Encode _ _ Eb). split; [| done]. simpl.
  do 2 f_equal. destruct h as [sm sq er md]. simpl in *. f_equal. unfold metaStr.
  case_decide as Hd; [by simpl; subst |].
  destruct Hmd as [Hmd | [s Hs]]; [done |]. rewrite Hs.
  destruct (String.eqb_spec s ""); [subst; by destruct (json_nonempty md) |].
  by rewrite (Decode_Encode _ _ Hs).
Qed.
End gob.
End Gob.

Module Json.
Section json.
Context {B T : Type} `{ValueCodecLaws B T} `{ValueCodecLaws Header T}.

Definition Write (h : Header) (body : B) (c : ValueConn T) : outcome unit * ValueConn T :=
  let '(err, c1) :=
    match enc_Encode h c with
    | (Ok _, c1) => (Ok tt, (enc_Encode body c1).2)     (* the body's error is logged only *)
    | r => r
    end in
  let c2 := vflush c1 in
  match err with Ok _ => (err, c2) | _ => (err, vclose c2) end.

Definition ReadHeader (inp : list T) : outcome Header * list T := dec_Decode inp.

Definition ReadBody (wanted : bool) (inp : list T) : outcome (option B) * list T :=
  if wanted then let '(r, rest) := dec_Decode (V := B) inp in (outcome_map Some r, rest)
  else let '(r, rest) := dec_skip inp in (outcome_map (fun _ => None) r, rest).

Lemma Write_spec h body c th :
  vclosed c = false -> Encode (T := T) h = Ok th ->
  Write h body c = (Ok tt,
    mkConn (vsent c ++ vbuf c ++ th :: match Encode (T := T) body with Ok tb => [tb] | _ => [] end)
      [] false).
Proof.
  intros Hc Eh. unfold Write, enc_Encode. rewrite Eh.
  destruct (Encode body); unfold vflush; simpl; rewrite Hc; by rewrite <- ?app_assoc.
Qed.

(** The JSON codec reports success for a body it could not encode: the
    header alone reaches the peer, the connection stays open, and the next
    message's header is what the peer reads as the missing body; a body that
    does encode round-trips. *)
Theorem json_body_error_swallowed h h' body body' c th th' :
  vclosed c = false -> vbuf c = [] ->
  Encode (T := T) h = Ok th -> Encode (T := T) h' = Ok th' ->
  match Encode (T := T) body with
  | Ok tb =>
      Write h body c = (Ok tt, mkConn (vsent c ++ [th; tb]) [] false) /\
      forall rest, ReadHeader (th :: tb :: rest) = (Ok h, tb :: rest) /\
        ReadBody true (tb :: rest) = (Ok (Some body), rest)
  | _ =>
      exists c1, Write h body c = (Ok tt, c1) /\ vclosed c1 = false /\
        vsent c1 = vsent c ++ [th] /\
        exists tl, vsent (Write h' body' c1).2 = vsent c ++ th :: th' :: tl /\
          forall rest, ReadHeader (th :: th' :: rest) = (Ok h, th' :: rest) /\
            ReadBody false (th' :: rest) = (Ok None, rest)
  end.
Proof.
  intros Hc Hb Eh Eh'. rewrite (Write_spec h body c th Hc Eh), Hb.
  assert (forall x rest, ReadHeader (th :: x :: rest) = (Ok h, x :: rest)) as HR.
  { intros x rest. unfold ReadHeader. simpl. by rewrite (Decode_Encode _ _ Eh). }
  destruct (Encode body) as [tb | e | p] eqn:Eb.
  { split; [done |]. intros rest. split; [done |]. unfold ReadBody. simpl.
    by rewrite (Decode_Encode _ _ Eb). }
  all: eexists; (split_and!; [reflexivity | done | done |]);
    rewrite (Write_spec h' body' _ th') by done;
    eexists; (split; [simpl; by rewrite <- app_assoc | by intros rest]).
Qed.
End json.
End Json.

(** A concrete value codec, to run the definitions; [None] does not encode. *)
Section bit_codec.
Context {A} `{Countable A}.
Definition tag_Encode (a : A) : outcome string := Ok (String "{" (bits_of (encode a))).
Definition tag_Decode (s : string) : outcome A :=
  match s with
  | String _ s => match decode (of_bits s) with Some a => Ok a | None => Err "bad value" end
  | "" => Err "unexpected end of JSON input"
  end.
Definition tag_codec : ValueCodec A string := {| Encode := tag_Encode; Decode := tag_Decode |}.
Lemma tag_laws : @ValueCodecLaws A string tag_codec.
Proof. split. intros v t [= <-]. simpl. by rewrite of_bits_of, decode_encode. Qed.

Definition opt_Encode (a : option A) : outcome string :=
  match a with Some a => tag_Encode a | None => Err "unsupported type" end.
Definition opt_codec : ValueCodec (option A) string :=
  {| Encode := opt_Encode; Decode s := outcome_map Some (tag_Decode s) |}.
Lemma opt_laws : @ValueCodecLaws (option A) string opt_codec.
Proof.
  split. intros [v |] t [= <-]. simpl. by rewrite of_bits_of, decode_encode.
Qed.
End bit_codec.

#[export] Instance gobHeader_eq_dec : EqDecision Gob.gobHeader.
Proof. solve_decision. Defined.
#[export] Instance gobHeader_countable : Countable Gob.gobHeader.
Proof.
  apply (inj_countable' (fun h => (Gob.gServiceMethod h, Gob.gSeq h, Gob.gError h, Gob.gMetadata h))
    (fun x => Gob.mkGobHeader x.1.1.1 x.1.1.2 x.1.2 x.2)).
  by intros [].
Defined.

#[global] Instance gobHeader_codec : ValueCodec Gob.gobHeader string := tag_codec.
#[global] Instance gobHeader_laws : ValueCodecLaws Gob.gobHeader string := tag_laws.
#[global] Instance Header_codec : ValueCodec Header string := tag_codec.
#[global] Instance Header_laws : ValueCodecLaws Header string := tag_laws.
#[global] Instance metadata_codec : ValueCodec (gmap string string) string := tag_codec.
#[global] Instance metadata_laws : ValueCodecLaws (gmap string string) string := tag_laws.
#[global] Instance body_codec : ValueCodec (option string) string := opt_codec.
#[global] Instance body_laws : ValueCodecLaws (option string) string := opt_laws.

Lemma gob_message_roundtrip_witness :
  let h := demo_header 3 in
  let c := mkConn (T := string) ["old"] [] false in
  match Encode (T := string) (Gob.to_wire h), Encode (T := string) (Some "hi") with
  | Ok th, Ok tb =>
      Gob.Write h (Some "hi") c = (Ok tt, mkConn (vsent c ++ [th; tb]) [] false) /\
      forall rest, Gob.ReadHeader (th :: tb :: rest) = (Ok h, tb :: rest) /\
        Gob.ReadBody (fun _ => "string") true (tb :: rest) = (Ok (Some (Some "hi")), rest)
  | _, _ => (Gob.Write h (Some "hi") c).1 <> Ok tt /\ vclosed (Gob.Write h (Some "hi") c).2 = true
  end.
Proof.
  apply (Gob.gob_message_roundtrip (B := option string) (T := string)).
  - intros m. discriminate.
  - reflexivity.
  - reflexivity.
  - right. eexists. reflexivity.
Defined.

Lemma json_body_error_swallowed_witness :
  let h := demo_header 1 in
  let h' := demo_header 2 in
  let c := mkConn (T := string) [] [] false in
  exists th th', match Encode (T := string) (None : option string) with
    | Ok tb =>
        Json.Write h (None : option string) c = (Ok tt, mkConn (vsent c ++ [th; tb]) [] false) /\
        forall rest, Json.ReadHeader (th :: tb :: rest) = (Ok h, tb :: rest) /\
          Json.ReadBody true (tb :: rest) = (Ok (Some (None : option string)), rest)
    | _ =>
        exists c1, Json.Write h (None : option string) c = (Ok tt, c1) /\ vclosed c1 = false /\
          vsent c1 = vsent c ++ [th] /\
          exists tl, vsent (Json.Write h' (Some "you") c1).2 = vsent c ++ th :: th' :: tl /\
            forall rest, Json.ReadHeader (th :: th' :: rest) = (Ok h, th' :: rest) /\
              Json.ReadBody (B := option string) false (th' :: rest) = (Ok None, rest)
    end.
Proof.
  eexists _, _.
  apply (Json.json_body_error_swallowed (B := option string) (T := string)
    (demo_header 1) (demo_header 2) None (Some "you") (mkConn [] [] false)); reflexivity.
Defined.
