(* ===== verification/RpcClient.v ===== *)
(** * The RPC client: apps/pkg/GrowRPC/client.go

    [Module Client] is the multiplexing client: its operations on the shared
    state, and a step relation that interleaves any number of callers, the
    receiving goroutine, Close and the peer. [Module Dial] is how a client is
    obtained: options, handshake, connect timeout and address parsing. *)
From S2P Require Import Prelude GoStd Effects Codec.
#[local] Open Scope prog_scope.

Definition ErrShutdown : string := "connection is shut down".

Module Client.
Section client.
(** The type of reply bodies. *)
Context {B : Type}.

(** A call object is a cell of the heap, named by its address. [Done] counts
    the notifications put in the call's channel. *)
Definition addr : Type := nat.

Record Call := mkCall {
  Seq : Z;
  ServiceMethod : string;
  Metadata : gmap string string;
  Error : option string;
  Reply : option B;
  Done : nat;
}.

Definition NewCall (serviceMethod : string) (metadata : gmap string string) : Call :=
  mkCall 0 serviceMethod metadata None None 0.

(** The metadata of goWithContext: the deadline in Unix milliseconds. *)
Definition call_metadata (deadline : option Z) : gmap string string :=
  match deadline with
  | Some ms => {[ "deadline" := Itoa ms ]}
  | None => ∅
  end.

(** Where the goroutine of [receive] stands. *)
Inductive Receiver :=
| Reading                                   (* before ReadHeader *)
| GotHeader (call : option addr) (h : Header)  (* removeCall done, body unread *)
| Broken (err : string)                     (* left the loop *)
| Ended.                                    (* terminateCalls done *)

(** Where the goroutine of a Call stands. *)
Inductive Caller :=
| Sending                                   (* inside send *)
| Waiting                                   (* in the select *)
| Returned (r : outcome unit).

Record Client := mkClient {
  heap : gmap addr Call;
  seq : Z;
  pending : gmap Z addr;
  closing : bool;
  shutdown : bool;
  sending : option addr;      (* who holds the sending mutex *)
  receiver : Receiver;
  callers : gmap addr Caller;
  inbox : list (Header * outcome (option B));  (* headers and bodies received *)
}.

Definition newClientCodec : Client := mkClient ∅ 1 ∅ false false None Reading ∅ [].

Definition set_heap (f : gmap addr Call -> gmap addr Call) (c : Client) : Client :=
  mkClient (f (heap c)) (seq c) (pending c) (closing c) (shutdown c) (sending c)
    (receiver c) (callers c) (inbox c).
Definition set_sending (s : option addr) (c : Client) : Client :=
  mkClient (heap c) (seq c) (pending c) (closing c) (shutdown c) s
    (receiver c) (callers c) (inbox c).
Definition set_receiver (r : Receiver) (c : Client) : Client :=
  mkClient (heap c) (seq c) (pending c) (closing c) (shutdown c) (sending c)
    r (callers c) (inbox c).
Definition set_caller (a : addr) (k : Caller) (c : Client) : Client :=
  mkClient (heap c) (seq c) (pending c) (closing c) (shutdown c) (sending c)
    (receiver c) (<[a := k]> (callers c)) (inbox c).
Definition receive_body (h : Header) (b : outcome (option B)) (c : Client) : Client :=
  mkClient (heap c) (seq c) (pending c) (closing c) (shutdown c) (sending c)
    (receiver c) (callers c) (inbox c ++ [(h, b)]).

(** ** The operations *)

Definition IsAvailable (c : Client) : bool := negb (shutdown c) && negb (closing c).

(** Close, with what closing the codec reports. *)
Definition Close (cc_close : outcome unit) (c : Client) : outcome unit * Client :=
  if closing c then (Err ErrShutdown, c)
  else (cc_close,
        mkClient (heap c) (seq c) (pending c) true (shutdown c) (sending c)
          (receiver c) (callers c) (inbox c)).

Definition set_Seq (s : Z) (x : Call) : Call :=
  mkCall s (ServiceMethod x) (Metadata x) (Error x) (Reply x) (Done x).
Definition set_Error (e : string) (x : Call) : Call :=
  mkCall (Seq x) (ServiceMethod x) (Metadata x) (Some e) (Reply x) (Done x).
Definition set_Reply (b : option B) (x : Call) : Call :=
  mkCall (Seq x) (ServiceMethod x) (Metadata x) (Error x)
    (match b with Some _ => b | None => Reply x end) (Done x).
(** call.done() *)
Definition done_ (x : Call) : Call :=
  mkCall (Seq x) (ServiceMethod x) (Metadata x) (Error x) (Reply x) (S (Done x)).

Definition registerCall (a : addr) (c : Client) : outcome Z * Client :=
  if closing c || shutdown c then (Err ErrShutdown, c)
  else
    (Ok (seq c),
     mkClient (alter (set_Seq (seq c)) a (heap c)) (uint64 (seq c + 1))
       (<[seq c := a]> (pending c)) (closing c) (shutdown c) (sending c)
       (receiver c) (callers c) (inbox c)).

Definition removeCall (s : Z) (c : Client) : option addr * Client :=
  (pending c !! s,
   mkClient (heap c) (seq c) (delete s (pending c)) (closing c) (shutdown c) (sending c)
     (receiver c) (callers c) (inbox c)).

Definition finish (err : string) (x : Call) : Call := done_ (set_Error err x).

(** The loop over [pending] of terminateCalls. *)
Definition terminateCalls (err : string) (c : Client) : Client :=
  mkClient (map_fold (fun _ a hp => alter (finish err) a hp) (heap c) (pending c))
    (seq c) (pending c) (closing c) true (sending c) (receiver c) (callers c) (inbox c).

(** send up to the Write: the codec header is filled from the call. *)
Definition request_header (x : Call) (s : Z) : Header :=
  mkHeader (ServiceMethod x) s "" (Metadata x).

Definition send_begin (a : addr) (c : Client) : Client :=
  match registerCall a c with
  | (Ok _, c1) => set_sending (Some a) c1
  | (_, c1) => set_caller a Waiting (set_heap (alter (finish ErrShutdown) a) c1)
  end.

(** send after the Write. *)
Definition send_end (a : addr) (s : Z) (w : outcome unit) (c : Client) : Client :=
  let c1 :=
    match w with
    | Err e =>
        match removeCall s c with
        | (Some a', c1) => set_heap (alter (finish e) a') c1
        | (None, c1) => c1
        end
    | _ => c
    end in
  set_caller a Waiting (set_sending None c1).

(** The body of receive's loop after ReadHeader, in its two atomic halves. *)
Definition on_header (h : Header) (c : Client) : Client :=
  let '(call, c1) := removeCall (Codec.Seq h) c in set_receiver (GotHeader call h) c1.

Definition body_error (b : outcome (option B)) : option string :=
  match b with Ok _ => None | Err e | Panic e => Some e end.

Definition on_body (call : option addr) (h : Header) (b : outcome (option B)) (c : Client) : Client :=
  let c1 := receive_body h b c in
  let c2 :=
    match call with
    | None => c1
    | Some a =>
        if negb (String.eqb (Codec.Error h) "") then
          set_heap (alter (finish (Codec.Error h)) a) c1
        else
          match b with
          | Ok r => set_heap (alter (fun x => done_ (set_Reply r x)) a) c1
          | Err e | Panic e => set_heap (alter (finish ("reading body " +:+ e)) a) c1
          end
    end in
  set_receiver (match body_error b with Some e => Broken e | None => Reading end) c2.

(** What the select of Call gives when the call is done. *)
Definition call_result (x : Call) : outcome unit :=
  match Error x with Some e => Err e | None => Ok tt end.

(** ** The interleavings

    The mutex [mu] is held across each operation, [sending] across send and
    terminateCalls. Runs are those of fewer than 2^64 - 1 registered calls: the
    counter has not wrapped to a number in use. *)

Inductive step : Client -> Client -> Prop :=
| step_new c a serviceMethod deadline :
    heap c !! a = None ->
    step c (set_caller a Sending
             (set_heap (<[a := NewCall serviceMethod (call_metadata deadline)]>) c))
| step_send_begin c a x :
    callers c !! a = Some Sending -> sending c = None -> heap c !! a = Some x ->
    seq c < 2 ^ 64 - 1 -> step c (send_begin a c)
| step_send_end c a x w :
    sending c = Some a -> heap c !! a = Some x -> step c (send_end a (Seq x) w c)
| step_header c h :
    receiver c = Reading -> step c (on_header h c)
| step_header_error c e :
    receiver c = Reading -> step c (set_receiver (Broken e) c)
| step_body c call h b :
    receiver c = GotHeader call h -> step c (on_body call h b c)
| step_terminate c e :
    receiver c = Broken e -> sending c = None ->
    step c (set_receiver Ended (terminateCalls e c))
| step_done c a x :
    callers c !! a = Some Waiting -> heap c !! a = Some x -> (0 < Done x)%nat ->
    step c (set_caller a (Returned (call_result x)) c)
| step_ctx_done c a x e :
    callers c !! a = Some Waiting -> heap c !! a = Some x ->
    step c (set_caller a (Returned (Err ("rpc client: call failed: " +:+ e)))
             (removeCall (Seq x) c).2)
| step_close c r :
    step c (Close r c).2.

(** ** The life of a call *)

Inductive phase :=
| Fresh        (* created, send has not registered it *)
| Live         (* registered: waiting for its response *)
| Hand         (* taken by the receiver, body being read *)
| Finished     (* notified *)
| Cancelled.   (* removed by its caller when the context ended *)

(** The response that finished a call without error. *)
Definition answered (c : Client) (x : Call) : Prop :=
  exists h, (h, Ok (Reply x)) ∈ inbox c /\ Codec.Seq h = Seq x /\ Codec.Error h = "".

Definition in_hand (c : Client) (a : addr) : Prop := exists h, receiver c = GotHeader (Some a) h.

Definition phase_ok (c : Client) (a : addr) (x : Call) (k : Caller) (p : phase) : Prop :=
  match p with
  | Fresh =>
      k = Sending /\ sending c <> Some a /\ Done x = O /\ Seq x = 0
  | Live =>
      Done x = O /\ pending c !! Seq x = Some a /\ shutdown c = false /\
      (k = Sending /\ sending c = Some a \/ k = Waiting)
  | Hand =>
      Done x = O /\ pending c !! Seq x <> Some a /\ 0 < Seq x /\
      (exists h, receiver c = GotHeader (Some a) h /\ Codec.Seq h = Seq x) /\
      (k = Sending /\ sending c = Some a \/ k = Waiting \/ exists e, k = Returned (Err e))
  | Finished =>
      Done x = 1%nat /\ (pending c !! Seq x <> Some a \/ shutdown c = true) /\
      (Error x = None -> answered c x) /\
      (k = Sending /\ sending c = Some a \/ k = Waiting \/
       (exists e, k = Returned (Err e)) \/ k = Returned (Ok tt) /\ Error x = None)
  | Cancelled =>
      Done x = O /\ pending c !! Seq x <> Some a /\ exists e, k = Returned (Err e)
  end.

(** What holds of every call object. *)
Definition cell_ok (c : Client) (a : addr) (x : Call) : Prop :=
  0 <= Seq x < seq c /\
  (Done x = O -> Error x = None /\ Reply x = None) /\
  exists k p, callers c !! a = Some k /\ phase_ok c a x k p /\ (in_hand c a -> p = Hand).

Record Inv (c : Client) : Prop := {
  Inv_seq : 1 <= seq c < 2 ^ 64;
  Inv_pending : forall s a, pending c !! s = Some a ->
    exists x, heap c !! a = Some x /\ Seq x = s /\ 0 < s;
  Inv_unique : forall a b x y, heap c !! a = Some x -> heap c !! b = Some y ->
    Seq x = Seq y -> 0 < Seq x -> a = b;
  Inv_shutdown : shutdown c = true <-> receiver c = Ended;
  Inv_hand : forall a h, receiver c = GotHeader (Some a) h -> is_Some (heap c !! a);
  Inv_sending : forall a, sending c = Some a ->
    shutdown c = false /\ callers c !! a = Some Sending;
  Inv_callers : forall a, is_Some (callers c !! a) -> is_Some (heap c !! a);
  Inv_cell : forall a x, heap c !! a = Some x -> cell_ok c a x;
}.

Lemma client_New_Inv : Inv newClientCodec.
Proof.
  split; simpl; try done; try (intros *; rewrite lookup_empty; try done; by intros []).
Qed.

(** A cell is untouched by a step that leaves its surroundings alone. *)
Lemma cell_frame c c' a x :
  cell_ok c a x -> seq c <= seq c' -> callers c' !! a = callers c !! a ->
  (pending c' !! Seq x = Some a <-> pending c !! Seq x = Some a) ->
  (shutdown c' = shutdown c) ->
  (sending c' = Some a <-> sending c = Some a) ->
  (forall h, receiver c' = GotHeader (Some a) h <-> receiver c = GotHeader (Some a) h) ->
  (forall m, m ∈ inbox c -> m ∈ inbox c') ->
  cell_ok c' a x.
Proof.
  intros (Hs & Hd & k & p & Hk & Hp & Hh) Hseq Hcal Hpend Hshut Hsend Hrecv Hin.
  split_and!; [lia | lia | done |]. exists k, p. rewrite Hcal. split_and!; [done | |].
  - destruct p; unfold phase_ok, answered in *; rewrite ?Hpend, ?Hshut, ?Hsend; try done.
    + setoid_rewrite Hrecv. done.
    + naive_solver.
  - unfold in_hand in *. setoid_rewrite Hrecv. done.
Qed.

(** Every number in [pending] belongs to the call it maps to. *)
Lemma pending_self c a x s :
  Inv c -> heap c !! a = Some x -> pending c !! s = Some a -> s = Seq x.
Proof. intros HI Hx Hp. destruct (Inv_pending c HI s a Hp) as (y & Hy & <- & _). by simplify_eq. Qed.

Lemma pending_own c a b x :
  Inv c -> heap c !! a = Some x -> pending c !! Seq x = Some b -> a = b.
Proof.
  intros HI Hx Hp. destruct (Inv_pending c HI _ b Hp) as (y & Hy & Hs & H0).
  by apply (Inv_unique c HI a b x y).
Qed.

Lemma terminate_fold e (hp : gmap addr Call) (m : gmap Z addr) :
  (forall s t a, m !! s = Some a -> m !! t = Some a -> s = t) ->
  let hp' := map_fold (fun _ a hp => alter (finish e) a hp) hp m in
  (forall s a, m !! s = Some a -> hp' !! a = finish e <$> hp !! a) /\
  (forall a, (forall s, m !! s <> Some a) -> hp' !! a = hp !! a).
Proof.
  intros Hinj hp'. unfold hp'. clear hp'. revert Hinj.
  apply (map_fold_weak_ind (fun r m =>
    (forall s t a, m !! s = Some a -> m !! t = Some a -> s = t) ->
    (forall s a, m !! s = Some a -> r !! a = finish e <$> hp !! a) /\
    (forall a, (forall s, m !! s <> Some a) -> r !! a = hp !! a))).
  { intros _. split; [intros s a; by rewrite lookup_empty | done]. }
  clear m. intros i b m r Hi IH Hinj.
  assert (forall s, m !! s = Some b -> False) as Hb.
  { intros s Hs. assert (s = i) as -> by (apply (Hinj s i b); [by rewrite lookup_insert_ne by congruence | by rewrite lookup_insert_eq]).
    congruence. }
  destruct IH as [IH1 IH2].
  { intros s t a Hs Ht. apply (Hinj s t a); rewrite lookup_insert_ne; congruence. }
  split.
  - intros s a Hs. apply lookup_insert_Some in Hs as [[-> ->] | [Hne Hs]].
    + rewrite lookup_alter_eq, IH2; [done |]. intros s' Hs'. by eapply Hb.
    + rewrite lookup_alter_ne by (intros ->; by eapply Hb). by eapply IH1.
  - intros a Ha. rewrite lookup_alter_ne.
    + apply IH2. intros s Hs. apply (Ha s). rewrite lookup_insert_ne; congruence.
    + intros ->. apply (Ha i). by rewrite lookup_insert_eq.
Qed.

(** Updating a call but not its number. *)
Section alter.
Context (c : Client) (HI : Inv c) (f : Call -> Call) (a : addr) (Hf : forall x, Seq (f x) = Seq x).

Lemma alter_cell b y : alter f a (heap c) !! b = Some y -> exists x, heap c !! b = Some x /\ Seq y = Seq x.
Proof.
  intros [(<- & x & Hx & ->) | [_ Hy]]%lookup_alter_Some; [exists x; by rewrite Hf | by exists y].
Qed.

Lemma alter_unique b b' y y' :
  alter f a (heap c) !! b = Some y -> alter f a (heap c) !! b' = Some y' ->
  Seq y = Seq y' -> 0 < Seq y -> b = b'.
Proof.
  intros (x & Hx & Ex)%alter_cell (x' & Hx' & Ex')%alter_cell Heq Hpos.
  apply (Inv_unique c HI b b' x x'); congruence || lia.
Qed.

Lemma alter_pending s b :
  pending c !! s = Some b -> exists x, alter f a (heap c) !! b = Some x /\ Seq x = s /\ 0 < s.
Proof.
  intros Hp. destruct (Inv_pending c HI s b Hp) as (x & Hx & Hs & H0).
  destruct (decide (a = b)) as [<- | Hne].
  - exists (f x). by rewrite lookup_alter_eq, Hx, Hf.
  - exists x. by rewrite lookup_alter_ne.
Qed.
End alter.

Lemma new_Inv c a m d :
  Inv c -> heap c !! a = None ->
  Inv (set_caller a Sending (set_heap (<[a := NewCall m (call_metadata d)]>) c)).
Proof.
  intros HI Ha.
  assert (forall h, receiver c <> GotHeader (Some a) h) as Hnh.
  { intros h Hr. destruct (Inv_hand c HI a h Hr). congruence. }
  assert (sending c <> Some a) as Hns.
  { intros Hs. destruct (Inv_sending c HI a Hs) as [_ Hc].
    destruct (Inv_callers c HI a) as [? ?]; [by eexists | congruence]. }
  split; simpl; try apply HI.
  - intros s b Hb. destruct (Inv_pending c HI s b Hb) as (y & Hy & ?). exists y.
    rewrite lookup_insert_ne by congruence. done.
  - intros b b' x y [[<- <-] | [Hb Hx]]%lookup_insert_Some [[<- <-] | [Hb' Hy]]%lookup_insert_Some;
      simpl; intros; try done; try lia. by eapply (Inv_unique c HI).
  - intros b h Hr. rewrite lookup_insert_ne by (intros ->; by eapply Hnh). by eapply (Inv_hand c HI).
  - intros b Hb. destruct (Inv_sending c HI b Hb). rewrite lookup_insert_ne by congruence. done.
  - intros b. rewrite !lookup_insert_is_Some. pose proof (Inv_callers c HI b). tauto.
  - intros b x [[<- <-] | [Hb Hx]]%lookup_insert_Some.
    + pose proof (Inv_seq c HI). split_and!; simpl; [lia | lia | done |].
      exists Sending, Fresh. rewrite lookup_insert_eq. split_and!; try done.
      intros [h Hr]. exfalso. by eapply Hnh.
    + eapply (cell_frame c); simpl; try done; [by apply HI | by rewrite lookup_insert_ne].
Qed.

Lemma fresh_cell c a x :
  Inv c -> heap c !! a = Some x -> callers c !! a = Some Sending -> sending c = None ->
  phase_ok c a x Sending Fresh /\ ~ in_hand c a /\ Error x = None /\ Reply x = None.
Proof.
  intros HI Hx Hk Hs. destruct (Inv_cell c HI a x Hx) as (_ & Hd & k & p & Hk' & Hp & Hh).
  simplify_eq. destruct p; simpl in *; try naive_solver; rewrite Hs in Hp; naive_solver.
Qed.

Lemma send_begin_Inv c a x :
  Inv c -> callers c !! a = Some Sending -> sending c = None -> heap c !! a = Some x ->
  seq c < 2 ^ 64 - 1 -> Inv (send_begin a c).
Proof.
  intros HI Hk Hs Hx Hlt.
  destruct (fresh_cell c a x HI Hx Hk Hs) as ((_ & _ & Hd & H0) & Hnh & He & Hr).
  pose proof (Inv_seq c HI) as Hseq.
  assert (forall s, pending c !! s <> Some a) as Hnp.
  { intros s Hp. destruct (Inv_pending c HI s a Hp) as (y & Hy & ? & ?). simplify_eq. lia. }
  unfold send_begin, registerCall. destruct (closing c || shutdown c) eqn:Ecl.
  - split; simpl; try apply HI.
    + by apply alter_pending.
    + by apply alter_unique.
    + intros b h Hb. rewrite lookup_alter_is_Some. by eapply (Inv_hand c HI).
    + intros b Hb. congruence.
    + intros b. rewrite lookup_insert_is_Some, lookup_alter_is_Some.
      pose proof (Inv_callers c HI b). destruct (decide (a = b)) as [<- |]; [by eexists | naive_solver].
    + intros b y [(<- & z & Hz & ->) | [Hb Hy]]%lookup_alter_Some.
      * simplify_eq. split_and!; simpl; [lia | lia | done |].
        exists Waiting, Finished. rewrite lookup_insert_eq. simpl. split_and!; try done.
        -- lia.
        -- left. apply Hnp.
        -- tauto.
      * eapply (cell_frame c); simpl; try done; [by apply HI | by rewrite lookup_insert_ne].
  - apply orb_false_iff in Ecl as [_ Hsh].
    rewrite uint64_id by (unfold is_uint64; lia).
    split; simpl; try apply HI; [lia | ..].
    + intros s b [[<- <-] | [Hne Hb]]%lookup_insert_Some.
      * exists (set_Seq (seq c) x). rewrite lookup_alter_eq, Hx. simpl. split_and!; [done | done | lia].
      * destruct (Inv_pending c HI s b Hb) as (y & Hy & ?). exists y.
        rewrite lookup_alter_ne by (intros ->; by eapply Hnp). done.
    + intros b b' y y' [(<- & z & Hz & ->) | [Hb Hy]]%lookup_alter_Some
        [(<- & z' & Hz' & ->) | [Hb' Hy']]%lookup_alter_Some; simpl; intros; try done.
      * destruct (Inv_cell c HI b' y' Hy') as (? & _). lia.
      * destruct (Inv_cell c HI b y Hy) as (? & _). lia.
      * by eapply (Inv_unique c HI).
    + intros b h Hb. rewrite lookup_alter_is_Some. by eapply (Inv_hand c HI).
    + intros b [= <-]. done.
    + intros b. rewrite lookup_alter_is_Some. apply (Inv_callers c HI).
    + intros b y [(<- & z & Hz & ->) | [Hb Hy]]%lookup_alter_Some.
      * simplify_eq. split_and!; simpl; [lia | lia | naive_solver |].
        exists Sending, Live. split_and!; simpl; [done | | done].
        rewrite lookup_insert_eq. split_and!; try done. by left.
      * eapply (cell_frame c); simpl; try done; [by apply HI | lia | | naive_solver].
        destruct (Inv_cell c HI b y Hy) as (? & _). rewrite lookup_insert_ne by lia. done.
Qed.

(** The call whose send holds the mutex: registered, and not lost. *)
Lemma sending_cell c a x :
  Inv c -> sending c = Some a -> heap c !! a = Some x ->
  exists p, phase_ok c a x Sending p /\ p <> Fresh /\ p <> Cancelled /\ (in_hand c a -> p = Hand) /\
    (Done x = O -> Error x = None /\ Reply x = None) /\ 0 <= Seq x < seq c.
Proof.
  intros HI Hs Hx. destruct (Inv_cell c HI a x Hx) as (Hr & Hd & k & p & Hk & Hp & Hh).
  destruct (Inv_sending c HI a Hs) as [_ Hk']. simplify_eq. exists p.
  split_and!; try done; try lia; intros ->; simpl in Hp; [tauto | by destruct Hp as (_ & _ & ? & ?)].
Qed.

(** The sender returns from send with its call in a proper phase. *)
Lemma send_return_Inv c a x :
  Inv c -> sending c = Some a -> heap c !! a = Some x ->
  Inv (set_caller a Waiting (set_sending None c)).
Proof.
  intros HI Hs Hx. destruct (sending_cell c a x HI Hs Hx) as (p & Hp & Hf & Hc & Hh & Hd & Hr).
  split; simpl; try apply HI; try done.
  - intros b Hb. apply lookup_insert_is_Some in Hb as [<- | [_ Hb]]; [by eexists | by apply (Inv_callers c HI)].
  - intros b y Hy. destruct (decide (a = b)) as [<- | Hne].
    + simplify_eq. split_and!; [lia | simpl; lia | done |]. exists Waiting, p. simpl.
      rewrite lookup_insert_eq. split_and!; [done | | done].
      destruct p; simpl in *; try done; naive_solver.
    + eapply (cell_frame c); simpl; try done; [by apply HI | by rewrite lookup_insert_ne | ].
      split; [done | intros E; congruence].
Qed.

(** A call in [pending] before the shutdown is live. *)
Lemma pending_live c a x :
  Inv c -> heap c !! a = Some x -> pending c !! Seq x = Some a -> shutdown c = false ->
  ~ in_hand c a /\ exists k, callers c !! a = Some k /\ Done x = O /\
    (k = Sending /\ sending c = Some a \/ k = Waiting).
Proof.
  intros HI Hx Hpx Hsh.
  destruct (Inv_cell c HI a x Hx) as (_ & _ & k & p & Hk & Hp & Hh).
  assert (p = Live) as ->.
  { destruct p; simpl in Hp; try done; try (destruct Hp as (_ & ? & _); done).
    - destruct Hp as (_ & _ & _ & H0). destruct (Inv_pending c HI _ _ Hpx) as (? & _ & _ & ?). lia.
    - destruct Hp as (_ & [? | ?] & _); congruence. }
  split; [intros Hi; by apply Hh in Hi |]. exists k.
  destruct Hp as (H0 & _ & _ & Hk'). done.
Qed.

(** Finishing a registered call with an error, out of [pending]. *)
Lemma remove_finish_Inv c a x e :
  Inv c -> heap c !! a = Some x -> pending c !! Seq x = Some a -> shutdown c = false ->
  Inv (set_heap (alter (finish e) a) (removeCall (Seq x) c).2).
Proof.
  intros HI Hx Hpx Hsh. destruct (Inv_cell c HI a x Hx) as (Hr & Hd & _).
  destruct (pending_live c a x HI Hx Hpx Hsh) as (Hnh & k & Hk & H0 & Hk').
  split; simpl; try apply HI.
  - intros s b [Hne Hb]%lookup_delete_Some. by apply alter_pending.
  - by apply alter_unique.
  - intros b h Hb. rewrite lookup_alter_is_Some. by eapply (Inv_hand c HI).
  - intros b Hb. rewrite lookup_alter_is_Some. by apply (Inv_callers c HI).
  - intros b y [(<- & z & Hz & ->) | [Hb Hy]]%lookup_alter_Some.
    + simplify_eq. split_and!; simpl; [lia | lia | done |].
      exists k, Finished. simpl. split_and!; try done; [lia | | naive_solver].
      left. by rewrite lookup_delete_eq.
    + eapply (cell_frame c); simpl; try done; [by apply HI |].
      rewrite lookup_delete_ne; [done |]. intros E. apply Hb.
      rewrite E in Hpx. symmetry. by apply (pending_own c b a y).
Qed.

Lemma send_end_Inv c a x w :
  Inv c -> sending c = Some a -> heap c !! a = Some x -> Inv (send_end a (Seq x) w c).
Proof.
  intros HI Hs Hx. unfold send_end.
  destruct w as [u | e | m]; [by eapply send_return_Inv | | by eapply send_return_Inv].
  pose proof (Inv_sending c HI a Hs) as [Hsh _]. unfold removeCall.
  destruct (pending c !! Seq x) as [b |] eqn:Hp.
  - pose proof (pending_own c a b x HI Hx Hp) as <-.
    eapply (send_return_Inv _ a); [by apply remove_finish_Inv | done |].
    simpl. by rewrite lookup_alter_eq, Hx.
  - assert (Inv (removeCall (Seq x) c).2) as HI'; [| by eapply (send_return_Inv _ a)].
    unfold removeCall. rewrite delete_id by done. simpl. by destruct c.
Qed.

Lemma on_header_Inv c h : Inv c -> receiver c = Reading -> Inv (on_header h c).
Proof.
  intros HI Hrd. unfold on_header. destruct (removeCall _ c) as [o c1] eqn:E.
  injection E as <- <-.
  assert (forall a h', receiver c <> GotHeader (Some a) h') as Hn by congruence.
  assert (shutdown c = false) as Hsh.
  { apply not_true_is_false. rewrite (Inv_shutdown c HI). congruence. }
  split; simpl; try apply HI.
  - intros s b [Hne Hb]%lookup_delete_Some. by apply HI.
  - rewrite Hsh. done.
  - intros a h' [= Hp <-]. destruct (Inv_pending c HI _ _ Hp) as (x & Hx & _). by eexists.
  - intros b y Hy. destruct (decide (pending c !! Codec.Seq h = Some b)) as [Hp | Hp].
    + pose proof (pending_self c b y _ HI Hy Hp) as Hs.
      destruct (Inv_cell c HI b y Hy) as (Hr & Hd & k & p & Hk & Hp' & Hh).
      split_and!; [simpl; lia | simpl; lia | done |]. exists k, Hand.
      destruct (Inv_pending c HI _ _ Hp) as (? & _ & _ & Hpos).
      split; [done |]. split; [| done]. simpl. rewrite <- Hs, lookup_delete_eq.
      destruct p; simpl in Hp'; rewrite <- Hs in Hp'; [lia | | naive_solver | | naive_solver].
      * destruct Hp' as (H0 & _ & _ & Hk'). rewrite Hp.
        split_and!; [done | done | lia | by exists h | tauto].
      * destruct Hp' as (_ & [? | ?] & _); congruence.
    + eapply (cell_frame c); simpl; try done; [by apply HI | |].
      * rewrite lookup_delete_Some. split; [tauto |]. intros Hy'. split; [congruence | done].
      * intros h'. split; [intros [= E _]; congruence | intros E; congruence].
Qed.

Lemma receiver_Inv c r :
  Inv c -> (forall a h, receiver c <> GotHeader (Some a) h) ->
  (forall a h, r <> GotHeader (Some a) h) -> receiver c <> Ended -> r <> Ended ->
  Inv (set_receiver r c).
Proof.
  intros HI H1 H2 H3 H4. split; simpl; try apply HI.
  - rewrite (Inv_shutdown c HI). done.
  - intros a h E. by apply H2 in E.
  - intros b y Hy. eapply (cell_frame c); simpl; try done; [by apply HI |].
    intros h. split; intros E; exfalso; [by eapply H2 | by eapply H1].
Qed.

(** The receiver finishes the call it holds: [f] is how. *)
Lemma hand_finish_Inv c a h f m r :
  Inv c -> receiver c = GotHeader (Some a) h ->
  (forall x, Seq (f x) = Seq x) -> (forall x, Done (f x) = S (Done x)) ->
  (forall x, Reply x = None -> Error x = None -> Error (f x) = None ->
     m = Ok (Reply (f x)) /\ Codec.Error h = "") ->
  (forall a h, r <> GotHeader (Some a) h) -> r <> Ended ->
  Inv (set_receiver r (set_heap (alter f a) (receive_body h m c))).
Proof.
  intros HI Hrc Hf1 Hf2 Hf3 Hr1 Hr2.
  assert (shutdown c = false) as Hsh.
  { apply not_true_is_false. rewrite (Inv_shutdown c HI). congruence. }
  split; simpl; try apply HI.
  - by apply alter_pending.
  - by apply alter_unique.
  - rewrite Hsh. split; [done | intros E; by destruct (Hr2 E)].
  - intros b h' E. by apply Hr1 in E.
  - intros b Hb. rewrite lookup_alter_is_Some. by apply (Inv_callers c HI).
  - intros b y [(<- & z & Hz & ->) | [Hb Hy]]%lookup_alter_Some.
    + destruct (Inv_cell c HI a z Hz) as (Hs & Hd & k & p & Hk & Hp & Hh).
      rewrite Hh in Hp by (by exists h). destruct Hp as (H0 & Hnp & Hpos & (h' & Eh & Es) & Hk').
      assert (h' = h) as -> by congruence. destruct (Hd H0) as [He Hrep].
      split_and!; rewrite ?Hf1, ?Hf2; simpl; [lia | lia | done |].
      exists k, Finished. simpl. rewrite Hf1, Hf2. split_and!; [done | lia | by left | | | ].
      * intros Hok. destruct (Hf3 z Hrep He Hok) as [-> Hh0]. exists h.
        rewrite Hf1. split_and!; [set_solver | done | done].
      * naive_solver.
      * intros [h' E]. by apply Hr1 in E.
    + eapply (cell_frame c); simpl; try done; [by apply HI | |].
      * intros h'. split; [intros E; by apply Hr1 in E | intros E; congruence].
      * set_solver.
Qed.

Lemma on_body_Inv c o h b : Inv c -> receiver c = GotHeader o h -> Inv (on_body o h b c).
Proof.
  intros HI Hrc. unfold on_body.
  set (r := match body_error b with Some e => Broken e | None => Reading end).
  assert ((forall a h, r <> GotHeader (Some a) h) /\ r <> Ended) as [Hr1 Hr2]
    by (unfold r; by case_match).
  destruct o as [a |].
  - destruct (String.eqb_spec (Codec.Error h) "") as [He | He]; simpl.
    + destruct b as [rep | e | e]; eapply hand_finish_Inv; try done.
      intros x Hrep _ _. split; [| done]. by destruct rep; simpl; rewrite ?Hrep.
    + by eapply hand_finish_Inv.
  - assert (Inv (receive_body h b c)) as HI'.
    { split; simpl; try apply HI. intros b' y Hy. eapply (cell_frame c); simpl; try done; [by apply HI |].
      set_solver. }
    apply receiver_Inv; simpl; try done; congruence.
Qed.

Lemma terminate_Inv c e :
  Inv c -> receiver c = Broken e -> sending c = None ->
  Inv (set_receiver Ended (terminateCalls e c)).
Proof.
  intros HI Hrc Hs.
  assert (shutdown c = false) as Hsh.
  { apply not_true_is_false. rewrite (Inv_shutdown c HI). congruence. }
  destruct (terminate_fold e (heap c) (pending c)) as [H1 H2].
  { intros s t a Hp Hp'. destruct (Inv_pending c HI _ _ Hp) as (x & Hx & <- & _).
    symmetry. by eapply pending_self. }
  set (hp' := map_fold _ (heap c) (pending c)) in *.
  assert (forall a y, hp' !! a = Some y -> exists x, heap c !! a = Some x /\ Seq y = Seq x /\
    (pending c !! Seq x = Some a /\ y = finish e x \/ pending c !! Seq x <> Some a /\ y = x)) as Hinv.
  { intros a y Hy. destruct (heap c !! a) as [x |] eqn:Hx.
    - exists x. destruct (decide (pending c !! Seq x = Some a)) as [Hp | Hp].
      + rewrite (H1 _ _ Hp), Hx in Hy. simpl in Hy. simplify_eq. split_and!; [done | done |]. by left.
      + rewrite H2 in Hy; [simplify_eq; split_and!; [done | done |]; by right |].
        intros s Hps. pose proof (pending_self c a x s HI Hx Hps). by subst.
    - rewrite H2 in Hy; [congruence |]. intros s Hps.
      destruct (Inv_pending c HI s a Hps) as (? & ? & _). congruence. }
  assert (forall a x, heap c !! a = Some x -> is_Some (hp' !! a)) as Hdom.
  { intros a x Hx. destruct (decide (pending c !! Seq x = Some a)) as [Hp | Hp].
    - rewrite (H1 _ _ Hp), Hx. by eexists.
    - rewrite H2; [by eexists |]. intros s Hps. pose proof (pending_self c a x s HI Hx Hps). by subst. }
  unfold terminateCalls. fold hp'. split; simpl; try apply HI; try done.
  - intros s a Hp. destruct (Inv_pending c HI s a Hp) as (x & Hx & Hxs & H0).
    exists (finish e x). by rewrite (H1 s a Hp), Hx.
  - intros a b y y' (x & Hx & E & _)%Hinv (x' & Hx' & E' & _)%Hinv. intros.
    apply (Inv_unique c HI a b x x'); congruence || lia.
  - intros a. rewrite Hs. done.
  - intros a Ha. destruct (Inv_callers c HI a Ha) as [x Hx]. by eapply Hdom.
  - intros a y (x & Hx & E & Hor)%Hinv.
    destruct (Inv_cell c HI a x Hx) as (Hr & Hd & k & p & Hk & Hp & Hh).
    assert (~ in_hand c a) as Hnh by (intros [h ?]; congruence).
    destruct Hor as [[Hpx ->] | [Hpx ->]]; (split_and!; [simpl; lia | simpl; lia | done |]).
    + destruct (pending_live c a x HI Hx Hpx Hsh) as (_ & k' & Hk'' & H0 & [[_ ?] | ->]); [congruence |].
      exists Waiting, Finished. simpl. simplify_eq.
      split_and!; [done | lia | by right | done | by right; left | by intros []].
    + exists k, p. simpl. split_and!; [done | | by intros []].
      destruct p; simpl in Hp |- *; [exact Hp | | | | exact Hp].
      * destruct Hp as (_ & ? & _). congruence.
      * destruct Hp as (_ & _ & _ & (h & ? & _) & _). congruence.
      * destruct Hp as (H0 & _ & Ha & Hk'). split_and!; [exact H0 | by left | exact Ha | exact Hk'].
Qed.

(** A waiting call out of [pending] may be told of an error. *)
Lemma phase_err c a x p e k' :
  phase_ok c a x Waiting p -> pending c !! Seq x <> Some a -> k' = Returned (Err e) ->
  phase_ok c a x k' p.
Proof.
  intros Hp Hn ->. destruct p; simpl in Hp |- *.
  - by destruct Hp.
  - by destruct Hp as (_ & ? & _).
  - destruct Hp as (H0 & H1 & H2 & H3 & _). split_and!; try done. right. right. by eexists.
  - destruct Hp as (H0 & H1 & H2 & _). split_and!; try done. right. right. left. by eexists.
  - by destruct Hp as (_ & _ & ? & ?).
Qed.

(** The caller leaves the select. *)
Lemma return_Inv c a x r :
  Inv c -> callers c !! a = Some Waiting -> heap c !! a = Some x ->
  ((exists e, r = Err e) /\ pending c !! Seq x <> Some a \/ (0 < Done x)%nat /\ r = call_result x) ->
  Inv (set_caller a (Returned r) c).
Proof.
  intros HI Hk Hx Hr. split; simpl; try apply HI.
  - intros b Hb. destruct (Inv_sending c HI b Hb). rewrite lookup_insert_ne by congruence. done.
  - intros b Hb. apply lookup_insert_is_Some in Hb as [<- | [_ Hb]]; [by eexists | by apply (Inv_callers c HI)].
  - intros b y Hy. destruct (decide (a = b)) as [<- | Hne].
    2: { eapply (cell_frame c); simpl; try done; [by apply HI | by rewrite lookup_insert_ne]. }
    simplify_eq. destruct (Inv_cell c HI a x Hx) as (Hs & Hd & k & p & Hk' & Hp & Hh). simplify_eq.
    split_and!; [simpl; lia | simpl; lia | done |]. exists (Returned r).
    cbn [callers set_caller]. rewrite lookup_insert_eq. destruct Hr as [[[e ->] Hnp] | [Hdone ->]].
    + exists p. split; [done |]. split; [| exact Hh]. eapply phase_err; eauto.
    + exists p. split; [done |]. split; [| exact Hh]. destruct p; simpl in Hp |- *.
      * by destruct Hp.
      * destruct Hp as (H0 & _). lia.
      * destruct Hp as (H0 & _). lia.
      * destruct Hp as (H0 & H1 & H2 & _). split_and!; [done | done | done |].
        unfold call_result. destruct (Error x); [right; right; left; by eexists | by do 3 right].
      * destruct Hp as (H0 & _). lia.
Qed.

Lemma ctx_done_Inv c a x e :
  Inv c -> callers c !! a = Some Waiting -> heap c !! a = Some x ->
  Inv (set_caller a (Returned (Err e)) (removeCall (Seq x) c).2).
Proof.
  intros HI Hk Hx. unfold removeCall. simpl.
  destruct (decide (pending c !! Seq x = Some a)) as [Hp | Hp].
  - split; simpl; try apply HI.
    + intros s b [_ Hb]%lookup_delete_Some. by apply HI.
    + intros b Hb. destruct (Inv_sending c HI b Hb). rewrite lookup_insert_ne by congruence. done.
    + intros b Hb. apply lookup_insert_is_Some in Hb as [<- | [_ Hb]]; [by eexists | by apply (Inv_callers c HI)].
    + intros b y Hy. destruct (decide (a = b)) as [<- | Hne].
      * simplify_eq. destruct (Inv_cell c HI a x Hx) as (Hs & Hd & k & p & Hk' & Hph & Hh). simplify_eq.
        split_and!; [simpl; lia | simpl; lia | done |]. exists (Returned (Err e)).
        cbn [callers set_caller]. rewrite lookup_insert_eq. destruct (Inv_pending c HI _ _ Hp) as (? & _ & _ & H0).
        destruct p; simpl in Hph; [by destruct Hph | | by destruct Hph as (_ & ? & _) | |
          by destruct Hph as (_ & ? & _)].
        -- exists Cancelled. simpl. rewrite lookup_delete_eq. destruct Hph as (Hd0 & _).
           split_and!; [done | done | done | by eexists | intros Hi; by apply Hh in Hi].
        -- exists Finished. simpl. rewrite lookup_delete_eq. destruct Hph as (Hd0 & _ & Ha & _).
           split_and!; [done | done | by left | exact Ha | right; right; left; by eexists | exact Hh].
      * eapply (cell_frame c); simpl; try done; [by apply HI | by rewrite lookup_insert_ne |].
        rewrite lookup_delete_ne; [done |]. intros E. apply Hne. symmetry.
        rewrite E in Hp. by apply (pending_own c b a y).
  - assert (pending c !! Seq x = None) as Hn.
    { destruct (pending c !! Seq x) as [b |] eqn:Eb; [| done].
      pose proof (pending_own c a b x HI Hx Eb). congruence. }
    rewrite delete_id by done. eapply (return_Inv c); try done. left. eauto.
Qed.

Lemma client_step_Inv c c' : Inv c -> step c c' -> Inv c'.
Proof.
  intros HI Hs. destruct Hs.
  - by apply new_Inv.
  - by eapply send_begin_Inv.
  - by apply send_end_Inv.
  - by apply on_header_Inv.
  - apply receiver_Inv; done || congruence.
  - by apply on_body_Inv.
  - by apply terminate_Inv.
  - eapply return_Inv; eauto.
  - by apply ctx_done_Inv.
  - unfold Close. destruct (closing c); [done |]. split; simpl; apply HI.
Qed.

Definition reachable (c : Client) : Prop := rtc step newClientCodec c.

Lemma client_reachable_Inv c : reachable c -> Inv c.
Proof. apply (invariant_rtc step Inv client_step_Inv), client_New_Inv. Qed.

(** C16: However callers, the receiver, cancellations, Close and the peer
    interleave, every call is notified at most once - so a Done channel with
    one free slot never blocks the receiver or terminateCalls, which notify
    while holding locks - and no two registered calls share a number. *)
Theorem client_notifies_once c a x :
  reachable c -> heap c !! a = Some x ->
  (Done x <= 1)%nat /\
  forall b y, heap c !! b = Some y -> Seq y = Seq x -> 0 < Seq x -> b = a.
Proof.
  intros HI%client_reachable_Inv Hx. split.
  - destruct (Inv_cell c HI a x Hx) as (_ & _ & k & p & _ & Hp & _).
    destruct p; simpl in Hp; lia.
  - intros b y Hy E Hs. symmetry. by apply (Inv_unique c HI a b x y).
Qed.

(** A Call that returns nil was answered: the peer sent a response with this
    call's own number and no error, and the caller's reply is that response's
    body; a response for another call is never delivered. *)
Theorem client_result_matches c a x :
  reachable c -> heap c !! a = Some x -> callers c !! a = Some (Returned (Ok tt)) ->
  answered c x.
Proof.
  intros HI%client_reachable_Inv Hx Hk.
  destruct (Inv_cell c HI a x Hx) as (_ & _ & k & p & Hk' & Hp & _). simplify_eq.
  destruct p; simpl in Hp.
  - by destruct Hp.
  - by destruct Hp as (_ & _ & _ & [[? _] | ?]).
  - by destruct Hp as (_ & _ & _ & _ & [[? _] | [? | [? ?]]]).
  - destruct Hp as (_ & _ & Ha & [[? _] | [? | [[? ?] | [_ He]]]]); try done. by apply Ha.
  - by destruct Hp as (_ & _ & [? ?]).
Qed.

(** C17: No caller is forgotten: a call in its select has been notified, is in the
    receiver's hand, or is pending on a connection whose receiver still runs;
    and once the receiver has ended, every waiting call has been notified. *)
Theorem client_no_lost_call c a x :
  reachable c -> heap c !! a = Some x -> callers c !! a = Some Waiting ->
  (Done x = 1%nat \/ in_hand c a \/ (pending c !! Seq x = Some a /\ receiver c <> Ended)) /\
  (receiver c = Ended -> Done x = 1%nat) /\
  (forall e, receiver c = Broken e -> sending c = None ->
     exists x', heap (terminateCalls e c) !! a = Some x' /\ Done x' = 1%nat).
Proof.
  intros HI%client_reachable_Inv Hx Hk.
  assert (forall c x, Inv c -> heap c !! a = Some x -> callers c !! a = Some Waiting ->
    Done x = 1%nat \/ in_hand c a \/ (pending c !! Seq x = Some a /\ receiver c <> Ended)) as Hgen.
  { clear. intros c x HI Hx Hk.
    destruct (Inv_cell c HI a x Hx) as (_ & _ & k & p & Hk' & Hp & _). simplify_eq.
    destruct p; simpl in Hp.
    - by destruct Hp.
    - destruct Hp as (_ & Hp & Hsh & _). right. right. split; [done |].
      rewrite <- (Inv_shutdown c HI). congruence.
    - destruct Hp as (_ & _ & _ & (h & Hr & _) & _). right. left. by exists h.
    - left. apply Hp.
    - by destruct Hp as (_ & _ & [? ?]). }
  split; [by apply Hgen |]. split.
  - intros Hr. destruct (Hgen c x HI Hx Hk) as [? | [[h ?] | [_ ?]]]; [done | congruence | done].
  - intros e Hr Hs. pose proof (terminate_Inv c e HI Hr Hs) as HI'.
    destruct (Inv_callers _ HI' a) as [x' Hx']; [by eexists |]. exists x'. split; [exact Hx' |].
    destruct (Hgen _ x' HI' Hx' Hk) as [? | [[h ?] | [_ Hn]]]; [done | done |]. by destruct Hn.
Qed.

(** ** Go and goWithContext

    [done]: the capacity of the channel the caller gives, if it gives one. A nil client
    answers at once; otherwise the call starts to be sent. *)
Definition done_capacity (done : option nat) : outcome nat :=
  match done with
  | None => Ok 10%nat
  | Some O => Panic "rpc client: done channel is unbuffered"
  | Some k => Ok k
  end.
Definition goWithContext (client : option Client) (a : addr) (serviceMethod : string) (deadline : option Z)
    (done : option nat) : outcome (nat * (Call + Client)) :=
  outcome_map (fun k => (k,
    match client with
    | None => inl (mkCall 0 "" ∅ (Some "client instance is nil") None 1)
    | Some c => inr (set_caller a Sending
        (set_heap (<[a := NewCall serviceMethod (call_metadata deadline)]>) c))
    end)) (done_capacity done).
Definition Go (client : option Client) (a : addr) (serviceMethod : string) (done : option nat) :=
  goWithContext client a serviceMethod None done.

(** Go starts a call of a run, and the channel has room for all that is ever sent on it
    for this call: neither the receiver nor the sender of an error waits for the caller. *)
Lemma go_never_blocks client a sm deadline done k r :
  goWithContext client a sm deadline done = Ok (k, r) ->
  match r with
  | inl call => (Done call <= k)%nat /\ call_result call = Err "client instance is nil"
  | inr c' => exists c, client = Some c /\
      (reachable c -> heap c !! a = None -> reachable c' /\
        forall c'' x, rtc step c' c'' -> heap c'' !! a = Some x -> (Done x <= k)%nat)
  end.
Proof.
  unfold goWithContext, done_capacity. intros H.
  assert (1 <= k)%nat as Hk by (destruct done as [[| ?] |]; cbn in H; simplify_eq; lia).
  destruct (match done with None => _ | _ => _ end) as [k' | |]; [| done ..]. cbn in H. simplify_eq.
  destruct client as [c |]; [| by split]. exists c. split; [done |]. intros Hr Ha.
  assert (reachable (set_caller a Sending (set_heap (<[a := NewCall sm (call_metadata deadline)]>) c))) as Hr'
    by (eapply rtc_r; [exact Hr | by apply step_new]).
  split; [exact Hr' |]. intros c'' x Hs Hx.
  assert (reachable c'') as HI%client_reachable_Inv by (unfold reachable in *; etrans; [exact Hr' | exact Hs]).
  destruct (Inv_cell c'' HI a x Hx) as (_ & _ & ? & p & _ & Hp & _). destruct p; simpl in Hp; lia.
Qed.
End client.
End Client.

(** A run: one call is written, its response read and its caller told; a second
    call is written and the connection breaks. *)
Module Run.
Import Client.
Definition hdr : Header := mkHeader "Chat.Send" 1 "" ∅.
Definition c0 : Client (B := string) := newClientCodec.
Definition c1 := set_caller 7%nat Sending (set_heap (<[7%nat := NewCall "Chat.Send" (call_metadata (Some 99))]>) c0).
Definition c2 := send_begin 7%nat c1.
Definition c3 := send_end 7%nat 1 (Ok tt) c2.
Definition c4 := on_header hdr c3.
Definition c5 := on_body (Some 7%nat) hdr (Ok (Some "pong")) c4.
Definition c6 := set_caller 7%nat (Returned (Ok tt)) c5.
Definition x6 : Call (B := string) :=
  mkCall 1 "Chat.Send" (call_metadata (Some 99)) None (Some "pong") 1.
Definition c7 := set_caller 8%nat Sending (set_heap (<[8%nat := NewCall "Chat.Ack" (call_metadata None)]>) c6).
Definition c8 := send_begin 8%nat c7.
Definition c9 := send_end 8%nat 2 (Ok tt) c8.
Definition c10 := set_receiver (Broken "EOF") c9.
Definition c11 := set_receiver Ended (terminateCalls "EOF" c10).
Definition x11 : Call (B := string) := mkCall 2 "Chat.Ack" ∅ (Some "EOF") None 1.

Lemma c6_reachable : reachable c6.
Proof.
  eapply rtc_l; [apply (step_new c0 7%nat "Chat.Send" (Some 99)); done |].
  eapply rtc_l; [eapply (step_send_begin c1 7%nat); done |].
  eapply rtc_l; [eapply (step_send_end c2 7%nat _ (Ok tt)); done |].
  eapply rtc_l; [apply (step_header c3 hdr); done |].
  eapply rtc_l; [apply (step_body c4 (Some 7%nat) hdr (Ok (Some "pong"))); done |].
  eapply rtc_l; [eapply (step_done c5 7%nat); [done | done | vm_compute; lia] |].
  apply rtc_refl.
Qed.

Lemma c11_reachable : reachable c11.
Proof.
  eapply (transitivity (R := rtc step)); [exact c6_reachable |].
  eapply rtc_l; [apply (step_new c6 8%nat "Chat.Ack" None); done |].
  eapply rtc_l; [eapply (step_send_begin c7 8%nat); done |].
  eapply rtc_l; [eapply (step_send_end c8 8%nat _ (Ok tt)); done |].
  eapply rtc_l; [apply (step_header_error c9 "EOF"); done |].
  eapply rtc_l; [apply (step_terminate c10 "EOF"); done |].
  apply rtc_refl.
Qed.
End Run.

Lemma client_notifies_once_witness :
  (Client.Done Run.x6 <= 1)%nat /\
  forall b y, Client.heap Run.c6 !! b = Some y -> Client.Seq y = Client.Seq Run.x6 ->
    0 < Client.Seq Run.x6 -> b = 7%nat.
Proof. apply (Client.client_notifies_once Run.c6 7%nat Run.x6); [apply Run.c6_reachable | reflexivity]. Defined.

Lemma client_result_matches_witness : Client.answered Run.c6 Run.x6.
Proof.
  apply (Client.client_result_matches Run.c6 7%nat Run.x6);
    [apply Run.c6_reachable | reflexivity | reflexivity].
Defined.

Lemma client_no_lost_call_witness :
  (Client.Done Run.x11 = 1%nat \/ Client.in_hand Run.c11 8%nat \/
    (Client.pending Run.c11 !! Client.Seq Run.x11 = Some 8%nat /\ Client.receiver Run.c11 <> Client.Ended)) /\
  (Client.receiver Run.c11 = Client.Ended -> Client.Done Run.x11 = 1%nat) /\
  (forall e, Client.receiver Run.c11 = Client.Broken e -> Client.sending Run.c11 = None ->
    exists x', Client.heap (Client.terminateCalls e Run.c11) !! 8%nat = Some x' /\ Client.Done x' = 1%nat).
Proof.
  apply (Client.client_no_lost_call Run.c11 8%nat Run.x11);
    [apply Run.c11_reachable | reflexivity | reflexivity].
Defined.

(** ** Obtaining a client *)

Definition MagicNumber : Z := 0x3bef5c.

(** server.go: Option. Durations are nanoseconds. *)
Record Option := mkOption {
  oMagicNumber : Z;
  oCodecType : string;
  oConnectTimeout : Z;
  oHandleTimeout : Z;
}.

#[export] Instance Option_eq_dec : EqDecision Option.
Proof. solve_decision. Defined.

Definition DefaultOption : Option :=
  mkOption MagicNumber (type_name GobType) (10 * 10 ^ 9) 0.

Module Dial.

(** Connections are named by numbers; a client is named by its connection. *)
Inductive newClientFunc := NewClientFunc | NewHTTPClientFunc.

Inductive dial_cmd :=
| NetDial (network address : string) (timeout : Z)
| CloseConn (conn : nat)
| EncodeOption (conn : nat) (opt : Option)
| WriteString (conn : nat) (s : string)
| ReadResponse (conn : nat)
| StartClient (conn : nat) (codec : Type_)              (* newClientCodec(f(conn), opt) *)
| Spawn (f : newClientFunc) (conn : nat) (opt : Option) (* go f(conn, opt) *)
| RecvResult                                            (* <-ch *)
| RecvOrTimeout (d : Z).                                (* select with time.After *)

Definition dial_res (c : dial_cmd) : Type :=
  match c with
  | NetDial _ _ _ => outcome nat
  | CloseConn _ | Spawn _ _ _ | StartClient _ _ => unit
  | EncodeOption _ _ | WriteString _ _ => outcome unit
  | ReadResponse _ => outcome string
  | RecvResult => outcome nat
  | RecvOrTimeout _ => option (outcome nat)
  end.

Definition dialing : Sig := mkSig dial_cmd dial_res.
Definition net_dial n a t : prog dialing (outcome nat) := call (S := dialing) (NetDial n a t).
Definition close_conn c : prog dialing unit := call (S := dialing) (CloseConn c).
Definition encode_option c o : prog dialing (outcome unit) := call (S := dialing) (EncodeOption c o).
Definition write_string c s : prog dialing (outcome unit) := call (S := dialing) (WriteString c s).
Definition read_response c : prog dialing (outcome string) := call (S := dialing) (ReadResponse c).
Definition start_client c k : prog dialing unit := call (S := dialing) (StartClient c k).
Definition spawn f c o : prog dialing unit := call (S := dialing) (Spawn f c o).
Definition recv_result : prog dialing (outcome nat) := call (S := dialing) RecvResult.
Definition recv_or_timeout d : prog dialing (option (outcome nat)) := call (S := dialing) (RecvOrTimeout d).
#[local] Hint Unfold net_dial close_conn encode_option write_string read_response
  start_client spawn recv_result recv_or_timeout : prog.

Definition parseOptions (opts : list (option Option)) : outcome Option :=
  match opts with
  | [] | None :: _ => Ok DefaultOption
  | [Some opt] =>
      Ok (mkOption (oMagicNumber DefaultOption)
            (if String.eqb (oCodecType opt) "" then oCodecType DefaultOption else oCodecType opt)
            (oConnectTimeout opt) (oHandleTimeout opt))
  | _ => Err "number of options is more than 1"
  end.

Definition NewClient (conn : nat) (opt : Option) : prog dialing (outcome nat) :=
  match NewCodecFuncMap !! oCodecType opt with
  | None => Ret (Err ("invalid codec type " +:+ oCodecType opt))
  | Some f =>
      err <- encode_option conn opt ;;
      match err with
      | Ok _ => start_client conn f ;; Ret (Ok conn)
      | Err e => close_conn conn ;; Ret (Err e)
      | Panic p => Ret (Panic p)
      end
  end.

Definition defaultRPCPath : string := "/_geerpc_".
Definition connected : string := "200 Connected to Gee RPC".
Definition crlf : string := String (byte 13) (String (byte 10) "").

Definition NewHTTPClient (conn : nat) (opt : Option) : prog dialing (outcome nat) :=
  err <- write_string conn ("CONNECT " +:+ defaultRPCPath +:+ " HTTP/1.0" +:+ crlf +:+ crlf) ;;
  match err with
  | Ok _ =>
      resp <- read_response conn ;;
      match resp with
      | Ok status =>
          if String.eqb status connected then NewClient conn opt
          else Ret (Err ("unexpected HTTP response: " +:+ status))
      | Err e => Ret (Err e)
      | Panic p => Ret (Panic p)
      end
  | Err e => Ret (Err e)
  | Panic p => Ret (Panic p)
  end.

(** The constructor runs in its own goroutine and answers on a channel. *)
Definition dialTimeout (f : newClientFunc) (network address : string) (opts : list (option Option))
    : prog dialing (outcome nat) :=
  match parseOptions opts with
  | Err e => Ret (Err e)
  | Panic p => Ret (Panic p)
  | Ok opt =>
      r <- net_dial network address (oConnectTimeout opt) ;;
      match r with
      | Err e => Ret (Err e)
      | Panic p => Ret (Panic p)
      | Ok conn =>
          spawn f conn opt ;;
          result <- (if oConnectTimeout opt =? 0 then recv_result
                     else
                       r <- recv_or_timeout (oConnectTimeout opt) ;;
                       match r with
                       | None => Ret (Err "rpc client: connect timeout")
                       | Some result => Ret result
                       end) ;;
          (* the deferred function *)
          match result with
          | Ok client => Ret (Ok client)
          | Err e => close_conn conn ;; Ret (Err e)
          | Panic p => close_conn conn ;; Ret (Panic p)
          end
      end
  end.

Definition Dial network address opts := dialTimeout NewClientFunc network address opts.
Definition DialHTTP network address opts := dialTimeout NewHTTPClientFunc network address opts.

Definition XDial (rpcAddr : string) (opts : list (option Option)) : prog dialing (outcome nat) :=
  match Split rpcAddr "@"%char with
  | [protocol; addr] =>
      if String.eqb protocol "http" then DialHTTP "tcp" addr opts else Dial protocol addr opts
  | _ => Ret (Err ("rpc client err: wrong format '" +:+ rpcAddr +:+ "', expect protocol@addr"))
  end.

(** ** Properties *)

Definition closes (conn : nat) (e : event dialing) : bool :=
  match e with existT (CloseConn c) _ => (c =? conn)%nat | _ => false end.

(** Every connection opened in the trace is closed in it. *)
Fixpoint all_closed (tr : list (event dialing)) : Prop :=
  match tr with
  | [] => True
  | existT (NetDial _ _ _) (Ok conn) :: tr' => existsb (closes conn) tr' = true /\ all_closed tr'
  | _ :: tr' => all_closed tr'
  end.

Definition dials (tr : list (event dialing)) (network address : string) : Prop :=
  exists t r tr', tr = @ev dialing (NetDial network address t) r :: tr'.

(** XDial splits a "protocol@address" text and nothing else: any text without
    exactly one at-sign is refused before any network use, "http" dials tcp with
    the HTTP constructor, any other protocol dials itself; and whatever happens
    afterwards a failed dial leaves no connection open. *)
Theorem xdial_dispatch {W} (h : env dialing W) protocol address opts :
  no_byte "@"%char protocol = true -> no_byte "@"%char address = true ->
  always h (XDial (protocol +:+ String "@" address) opts) (fun r tr =>
    (tr = [] /\ parseOptions opts = Err "number of options is more than 1" \/
     dials tr (if String.eqb protocol "http" then "tcp" else protocol) address) /\
    ((forall c, r <> Ok c) -> all_closed tr)) /\
  forall bad, length (Split bad "@"%char) <> 2%nat ->
    always h (XDial bad opts) (fun r tr => tr = [] /\ exists e, r = Err e).
Proof.
  intros Hp Ha. split.
  - unfold XDial. rewrite Split_app, Split_no_byte by done.
    assert (forall f n, always h (dialTimeout f n address opts) (fun r tr =>
      (tr = [] /\ parseOptions opts = Err "number of options is more than 1" \/ dials tr n address) /\
      ((forall c, r <> Ok c) -> all_closed tr))) as Hd.
    { intros f n. unfold dialTimeout. destruct (parseOptions opts) as [opt | e | p] eqn:E.
      - walk; (split; [right; by eexists _, _, _ |]); intros Hne; simpl; rewrite ?Nat.eqb_refl;
          try done; exfalso; by eapply Hne.
      - apply always_Ret. split; [left; split; [done |] | done].
        unfold parseOptions in E. by repeat case_match; simplify_eq.
      - unfold parseOptions in E. by repeat case_match. }
    destruct (String.eqb protocol "http"); apply Hd.
  - intros bad Hbad. unfold XDial.
    destruct (Split bad "@"%char) as [| x [| y [| z l]]]; [| | done |]; apply always_Ret; eauto.
Qed.
End Dial.

(** An environment that answers every dial with connection 3 and every wait with
    a timeout. *)
Definition timeout_env : env Dial.dialing nat := fun c w =>
  match c return Dial.dial_res c * nat with
  | Dial.NetDial _ _ _ => (Ok 3%nat, S w)
  | Dial.CloseConn _ | Dial.Spawn _ _ _ | Dial.StartClient _ _ => (tt, S w)
  | Dial.EncodeOption _ _ | Dial.WriteString _ _ => (Ok tt, S w)
  | Dial.ReadResponse _ => (Ok "", S w)
  | Dial.RecvResult => (Ok 3%nat, S w)
  | Dial.RecvOrTimeout _ => (None, S w)
  end.

Lemma xdial_dispatch_witness :
  always timeout_env (Dial.XDial "http@10.0.0.1:80" []) (fun r tr =>
    (tr = [] /\ Dial.parseOptions [] = Err "number of options is more than 1" \/
     Dial.dials tr "tcp" "10.0.0.1:80") /\
    ((forall c, r <> Ok c) -> Dial.all_closed tr)) /\
  forall bad, length (Split bad "@"%char) <> 2%nat ->
    always timeout_env (Dial.XDial bad []) (fun r tr => tr = [] /\ exists e, r = Err e).
Proof. apply (Dial.xdial_dispatch timeout_env "http" "10.0.0.1:80" []); reflexivity. Defined.
