(* ===== verification/RpcServer.v ===== *)
(** * The RPC server: apps/pkg/GrowRPC/{server,service}.go, midware/interceptor.go

    [Module Handler] is registration, lookup and the interceptor chain; [Module
    Serve] the per-connection loop that reads requests; [Module Handle] the two
    goroutines that answer one request, as a step relation; [Module Conn] a connection:
    the loop with these goroutines and the wait group; [Module Accept] the handshake that precedes the loop; [Module Mount] what is served over HTTP. *)
From S2P Require Import Prelude GoStd GoText Effects Codec RpcClient.
#[local] Open Scope prog_scope.

Module Handler.
Section handler.
(** Request and response values. *)
Context {Req Resp : Type}.

(** The context a handler gets: its deadline in Unix milliseconds, if any. *)
Definition Ctx : Type := option Z.

Record CallInfo := mkCallInfo {
  ciCtx : Ctx;
  ciServiceMethod : string;
  ciHeader : Header;
  ciReqArgs : Req;
}.

(** What the closures of a call share: the response variable and the log. *)
Record Local := mkLocal { respData : option Resp; log : list string }.

(** A HandlerFunc returns an error or panics; it acts on the shared variables. *)
Definition HandlerFunc : Type := CallInfo -> Local -> outcome unit * Local.
Definition Interceptor : Type := HandlerFunc -> HandlerFunc.

(** A handler returns an error or panics, and leaves a response either way. *)
Definition MethodHandler : Type := Ctx -> Req -> outcome unit * Resp.

Record Server := mkServer {
  serviceMap : gmap string MethodHandler;
  interceptors : list Interceptor;
}.

Definition NewServer : Server := mkServer ∅ [].

Definition Use (is_ : list Interceptor) (s : Server) : Server :=
  mkServer (serviceMap s) (interceptors s ++ is_).

(** RegisterMethod: the stored closure allocates the response and calls the
    handler; a handler writes its response in place. *)
Definition RegisterMethod (serviceMethod : string) (new_resp : Resp)
    (handler : Ctx -> Req -> Resp -> outcome unit * Resp) (s : Server) : Server :=
  let entry := fun ctx req => handler ctx req new_resp in
  mkServer (<[serviceMethod := entry]> (serviceMap s)) (interceptors s).

Definition findEntry (serviceMethod : string) (s : Server) : outcome MethodHandler :=
  match serviceMap s !! serviceMethod with
  | Some e => Ok e
  | None => Err ("rpc server: can't find service method " +:+ serviceMethod)
  end.

(** The innermost handler of handleRequest: it records the response, also that of a
    handler that fails. *)
Definition base_handler (entry : MethodHandler) : HandlerFunc := fun i l =>
  match entry (ciCtx i) (ciReqArgs i) with
  | (Panic m, _) => (Panic m, l)
  | (err, resp) => (err, mkLocal (Some resp) (log l))
  end.

(** for i := len-1; i >= 0; i-- { handler = interceptors[i](handler) } *)
Definition chain (is_ : list Interceptor) (h : HandlerFunc) : HandlerFunc :=
  foldl (fun handler icpt => icpt handler) h (reverse is_).

(** The context of a request: its deadline when the metadata has a valid one. *)
Definition request_ctx (h : Header) : Ctx :=
  match Metadata h !! "deadline" with
  | Some s => match ParseInt s with Ok ms => Some ms | _ => None end
  | None => None
  end.

Definition serve_one (s : Server) (entry : MethodHandler) (h : Header) (req : Req) :
    outcome unit * Local :=
  chain (interceptors s) (base_handler entry)
    (mkCallInfo (request_ctx h) (ServiceMethod h) h req) (mkLocal None []).

(** midware/interceptor.go *)
Definition LoggerInterceptor : Interceptor := fun next i l =>
  let l1 := mkLocal (respData l) (log l ++ ["start " +:+ ciServiceMethod i]) in
  match next i l1 with
  | (Panic m, l2) => (Panic m, l2)       (* the panic skips the second line *)
  | (err, l2) => (err, mkLocal (respData l2) (log l2 ++ ["end " +:+ ciServiceMethod i]))
  end.

Definition RecoveryInterceptor : Interceptor := fun next i l =>
  match next i l with
  | (Panic m, l2) => (Err ("internal panic: " +:+ m), l2)
  | r => r
  end.

Lemma chain_cons icpt is_ h : chain (icpt :: is_) h = icpt (chain is_ h).
Proof. unfold chain. rewrite reverse_cons, foldl_app. done. Qed.

Lemma chain_app is1 is2 h : chain (is1 ++ is2) h = chain is1 (chain is2 h).
Proof.
  induction is1 as [| i is1 IH]; [done |]. cbn [app]. by rewrite !chain_cons, IH.
Qed.

(** An interceptor that adds no panic of its own. *)
Definition transparent (icpt : Interceptor) : Prop :=
  forall next i l m l', icpt next i l = (Panic m, l') ->
    exists i1 l1 m1 l1', next i1 l1 = (Panic m1, l1').

Lemma Logger_transparent : transparent LoggerInterceptor.
Proof.
  intros next i l m l'. unfold LoggerInterceptor.
  destruct (next i _) as [[] l2] eqn:E; intros; simplify_eq. eauto 6.
Qed.

Lemma chain_no_panic is_ (h0 : HandlerFunc) :
  Forall transparent is_ -> (forall i l m l', h0 i l <> (Panic m, l')) ->
  forall i l m l', chain is_ h0 i l <> (Panic m, l').
Proof.
  intros Htr H0. induction Htr as [| icpt is_ Hi Htr IH]; [exact H0 |].
  intros i l m l'. rewrite chain_cons. intros (i1 & l1 & m1 & l1' & E)%Hi. by eapply IH.
Qed.

(** C31: With RecoveryInterceptor in the chain, preceded only by interceptors that
    do not panic by themselves, no handler and no later interceptor can crash
    the server; and around it alone, the handler last registered for the method
    runs on the request and a panic becomes the error of the response. *)
Theorem recovery_contains_panics s is1 is2 sm new_resp handler h req :
  interceptors s = is1 ++ RecoveryInterceptor :: is2 -> Forall transparent is1 ->
  let s' := RegisterMethod sm new_resp handler s in
  exists entry, findEntry sm s' = Ok entry /\
    (forall m l, serve_one s' entry h req <> (Panic m, l)) /\
    (is1 = [] -> is2 = [] ->
      match handler (request_ctx h) req new_resp with
      | (Ok _, resp) => serve_one s' entry h req = (Ok tt, mkLocal (Some resp) [])
      | (Err e, resp) => serve_one s' entry h req = (Err e, mkLocal (Some resp) [])
      | (Panic m, _) => serve_one s' entry h req = (Err ("internal panic: " +:+ m), mkLocal None [])
      end).
Proof.
  intros His Htr s'. eexists. unfold findEntry. simpl. rewrite lookup_insert_eq.
  split; [done |]. unfold serve_one. simpl. rewrite His. split.
  - intros m l. rewrite chain_app. apply chain_no_panic; [done |].
    intros i' l' m' l''. rewrite chain_cons. unfold RecoveryInterceptor.
    by destruct (chain is2 _ i' l') as [[] ?].
  - intros -> ->. simpl. unfold chain, RecoveryInterceptor, base_handler. simpl.
    by destruct (handler (request_ctx h) req new_resp) as [[[] | |] resp].
Qed.

(** The deadline a client puts in the metadata is the one the handler gets. *)
Lemma deadline_roundtrip {B} sm n d :
  (forall ms, d = Some ms -> is_int64 ms) ->
  request_ctx (Client.request_header (B := B) (Client.NewCall sm (Client.call_metadata d)) n) = d.
Proof.
  intros Hd. unfold request_ctx. simpl. destruct d as [ms |]; simpl.
  - rewrite lookup_singleton_eq. by rewrite ParseInt_Itoa by auto.
  - by rewrite lookup_empty.
Qed.
End handler.
End Handler.

Lemma recovery_contains_panics_witness :
  let s := Handler.mkServer (Req := string) (Resp := string) ∅ [Handler.RecoveryInterceptor] in
  let s' := Handler.RegisterMethod "Chat.Send" "" (fun _ _ _ => (Panic "nil map", "")) s in
  exists entry, Handler.findEntry "Chat.Send" s' = Ok entry /\
    (forall m l, Handler.serve_one s' entry (demo_header 1) "hi" <> (Panic m, l)) /\
    (@nil (Handler.Interceptor (Req := string) (Resp := string)) = [] ->
     @nil (Handler.Interceptor (Req := string) (Resp := string)) = [] ->
     Handler.serve_one s' entry (demo_header 1) "hi" =
       (Err ("internal panic: " +:+ "nil map"), Handler.mkLocal None [])).
Proof.
  apply (Handler.recovery_contains_panics (Handler.mkServer ∅ [Handler.RecoveryInterceptor])
    [] [] "Chat.Send" "" (fun _ _ _ => (Panic "nil map", "")) (demo_header 1) "hi").
  - reflexivity.
  - constructor.
Defined.

(** ** One request: handleRequest *)

Module Handle.
Section handle.
Context {Resp : Type}.

(** What is written as a response body: [invalidRequest] or a response. *)
Inductive RBody := InvalidRequest | RespBody (r : option Resp).

(** The goroutine of handleRequest. *)
Inductive Main := Select | AwaitSent | TimedOut | MainDone.

(** The goroutine that runs the handler; [r] is what the chain returned. An error is put
    into the header before the response is written. *)
Inductive Worker :=
| Running
| Returned (r : outcome (option Resp))
| Writing (r : outcome (option Resp))
| Answering (r : outcome (option Resp))
| Signalling (r : outcome (option Resp))
| WorkerDone (r : outcome (option Resp))
| Crashed.

Record State := mkState {
  main : Main;
  worker : Worker;
  called : nat;              (* items in the two buffered channels *)
  sent : nat;
  hdr : Header;              (* req.h, shared by both goroutines *)
  answers : list (Header * RBody);   (* what was given to the codec to write *)
  wire : list (Header * RBody);      (* what it wrote *)
}.

Definition start (h : Header) : State := mkState Select Running 0 0 h [] [].

Definition set_error (e : string) (h : Header) : Header :=
  mkHeader (ServiceMethod h) (Seq h) e (Metadata h).

(** sendResponse: under the sending mutex, so the message is written whole; an error of
    the codec, [ok] being false, is logged and nothing more. *)
Definition sendResponse (ok : bool) (b : RBody) (s : State) : State :=
  mkState (main s) (worker s) (called s) (sent s) (hdr s) (answers s ++ [(hdr s, b)])
    (if ok then wire s ++ [(hdr s, b)] else wire s).
Definition set_hdr (h : Header) (s : State) : State :=
  mkState (main s) (worker s) (called s) (sent s) h (answers s) (wire s).
Definition set_main (m : Main) (s : State) : State :=
  mkState m (worker s) (called s) (sent s) (hdr s) (answers s) (wire s).
Definition set_worker (w : Worker) (s : State) : State :=
  mkState (main s) w (called s) (sent s) (hdr s) (answers s) (wire s).
Definition set_chans (c n : nat) (s : State) : State :=
  mkState (main s) (worker s) c n (hdr s) (answers s) (wire s).

Definition timeout_text (timeout : Z) : string :=
  "rpc server: request handle timeout: expect within " +:+ Duration_String timeout.

(** The error of a result, and the body that is written for it. *)
Definition error_of (r : outcome (option Resp)) : option string :=
  match r with Ok _ => None | Err e | Panic e => Some e end.
Definition body_of (r : outcome (option Resp)) : RBody :=
  match r with Ok resp => RespBody resp | Err _ | Panic _ => InvalidRequest end.

(** [timeout] is opt.HandleTimeout, [ran] what the chain may return; a send on a channel
    needs its one slot. *)
Inductive step (timeout : Z) (ran : outcome (option Resp) -> Prop) : State -> State -> Prop :=
| worker_returns s r :
    worker s = Running -> ran r -> (forall m, r <> Panic m) ->
    step timeout ran s (set_worker (Returned r) s)
| worker_panics s :
    worker s = Running -> step timeout ran s (set_worker Crashed s)
| worker_called s r :
    worker s = Returned r -> (called s < 1)%nat ->
    step timeout ran s (set_worker (Writing r) (set_chans (S (called s)) (sent s) s))
| worker_sets_error s r e :
    worker s = Writing r -> error_of r = Some e ->
    step timeout ran s (set_worker (Answering r) (set_hdr (set_error e (hdr s)) s))
| worker_writes s r ok :
    worker s = Answering r \/ worker s = Writing r /\ error_of r = None ->
    step timeout ran s (set_worker (Signalling r) (sendResponse ok (body_of r) s))
| worker_sent s r :
    worker s = Signalling r -> (sent s < 1)%nat ->
    step timeout ran s (set_worker (WorkerDone r) (set_chans (called s) (S (sent s)) s))
| main_called s n :
    main s = Select -> called s = S n ->
    step timeout ran s (set_main AwaitSent (set_chans n (sent s) s))
| main_sent s n :
    main s = AwaitSent -> sent s = S n ->
    step timeout ran s (set_main MainDone (set_chans (called s) n s))
| main_timeout s :
    main s = Select -> timeout <> 0 ->
    step timeout ran s (set_main TimedOut (set_hdr (set_error (timeout_text timeout) (hdr s)) s))
| main_writes_timeout s ok :
    main s = TimedOut ->
    step timeout ran s (set_main MainDone (sendResponse ok InvalidRequest s)).

Section requests.
Variable timeout : Z.
Variable ran : outcome (option Resp) -> Prop.
Variable h : Header.
Notation step := (step timeout ran).
Definition reachable (s : State) : Prop := rtc step (start h) s.

(** What the worker alone has put on the channels and given to the codec. *)
Definition w_called (w : Worker) : nat :=
  match w with Running | Returned _ | Crashed => 0 | _ => 1 end.
Definition w_wrote (w : Worker) : nat :=
  match w with Signalling _ | WorkerDone _ => 1 | _ => 0 end.
Definition w_sent (w : Worker) : nat := match w with WorkerDone _ => 1 | _ => 0 end.

(** The control states that can occur, with the channel contents and the number
    of answers. *)
Definition shape (s : State) : Prop :=
  let w := worker s in
  let k := length (answers s) in
  match main s with
  | Select => called s = w_called w /\ sent s = w_sent w /\ k = w_wrote w
  | AwaitSent => w_called w = 1 /\ called s = 0 /\ sent s = w_sent w /\ k = w_wrote w
  | TimedOut => timeout <> 0%Z /\ called s = w_called w /\ sent s = w_sent w /\ k = w_wrote w
  | MainDone =>
      timeout <> 0%Z /\ called s = w_called w /\ sent s = w_sent w /\ k = S (w_wrote w) \/
      w_sent w = 1 /\ called s = 0 /\ sent s = 0 /\ k = 1
  end%nat.

(** What the worker holds, what it has set, and what it has answered. *)
Definition holds (w : Worker) : option (outcome (option Resp)) :=
  match w with
  | Running | Crashed => None
  | Returned r | Writing r | Answering r | Signalling r | WorkerDone r => Some r
  end.
Definition errors_set (w : Worker) : option string :=
  match w with Answering r | Signalling r | WorkerDone r => error_of r | _ => None end.
Definition answered (w : Worker) : option (outcome (option Resp)) :=
  match w with Signalling r | WorkerDone r => Some r | _ => None end.

(** The header with the error that the worker has set, and that of a timeout. *)
Definition with_error (e : option string) : Header := from_option (fun e => set_error e h) h e.
Definition timed_out : Header := set_error (timeout_text timeout) h.

(** The worker's answer: its result, under a header in which a timeout may have replaced
    its error or the absence of one. *)
Definition answers_as (r : outcome (option Resp)) (m : Header * RBody) : Prop :=
  match r with
  | Ok resp => m.2 = RespBody resp /\ (m.1 = h \/ timeout <> 0 /\ m.1 = timed_out)
  | Err e | Panic e => m.2 = InvalidRequest /\ (m.1 = set_error e h \/ timeout <> 0 /\ m.1 = timed_out)
  end.
(** That of a timeout, whose error the worker may have replaced by its own. *)
Definition answers_late (m : Header * RBody) : Prop :=
  timeout <> 0 /\ m.2 = InvalidRequest /\ (m.1 = timed_out \/ exists e, ran (Err e) /\ m.1 = set_error e h).
Lemma answers_as_body r m :
  m.2 = body_of r -> m.1 = with_error (error_of r) \/ timeout <> 0 /\ m.1 = timed_out -> answers_as r m.
Proof. by destruct r. Qed.

Record Inv (s : State) : Prop := {
  Inv_shape : shape s;
  Inv_ran : forall r, holds (worker s) = Some r -> ran r /\ forall m, r <> Panic m;
  Inv_hdr : hdr s = with_error (errors_set (worker s)) \/ timeout <> 0 /\ hdr s = timed_out;
  Inv_timed : main s = TimedOut -> hdr s = timed_out \/ exists e, errors_set (worker s) = Some e /\ hdr s = set_error e h;
  Inv_answers : forall m, m ∈ answers s -> (exists r, answered (worker s) = Some r /\ answers_as r m) \/ answers_late m;
  Inv_answer : forall r, answered (worker s) = Some r -> exists m, m ∈ answers s /\ answers_as r m;
  Inv_first : timeout = 0 -> answers s =
    match answered (worker s) with Some r => [(with_error (error_of r), body_of r)] | None => [] end;
  Inv_wire : wire s `sublist_of` answers s;
}.

Lemma start_Inv : Inv (start h).
Proof.
  split; cbn; try done; first [by left | intros m Hm; by apply elem_of_nil in Hm].
Qed.

Lemma errors_set_ran s e : Inv s -> errors_set (worker s) = Some e -> ran (Err e).
Proof.
  intros HI He. pose proof (Inv_ran s HI) as Hr. unfold errors_set, holds in *.
  destruct (worker s) as [| | | r | r | r |]; try done; destruct (Hr r eq_refl) as [Hran Hp];
    (destruct r as [| e' | m]; [done | by injection He as -> | by destruct (Hp m)]).
Qed.

(** Steps that answer nothing and leave the header. *)
Lemma silent_Inv s s' :
  Inv s -> shape s' -> hdr s' = hdr s -> answers s' = answers s -> wire s' = wire s ->
  errors_set (worker s') = errors_set (worker s) -> answered (worker s') = answered (worker s) ->
  (main s' = TimedOut -> main s = TimedOut) ->
  (forall r, holds (worker s') = Some r -> ran r /\ forall m, r <> Panic m) -> Inv s'.
Proof.
  intros [H1 H2 H3 H4 H5 H6 H7 H8] Hs Eh Ea Ew Ee Ed Hm Hr. split; rewrite ?Eh, ?Ea, ?Ew, ?Ee, ?Ed; try done.
  intros Ht. by apply H4, Hm.
Qed.

Lemma handle_step_shape s s' : shape s -> step s s' -> shape s'.
Proof.
  intros Hsh Hs. unfold shape in *.
  destruct Hs as [s r E _ _ | s E | s r E Hlt | s r e E Ee | s r ok E | s r E Hlt | s n E Hn | s n E Hn | s E Hto | s ok E]; cbn.
  1-4: rewrite E in Hsh; cbn in Hsh; destruct (main s); naive_solver lia.
  - assert (w_called (worker s) = 1 /\ w_wrote (worker s) = 0 /\ w_sent (worker s) = 0)%nat as (E1 & E2 & E3)
      by (destruct E as [-> | [-> _]]; done).
    rewrite E1, E2, E3 in Hsh. rewrite length_app. cbn. destruct (main s); naive_solver lia.
  - rewrite E in Hsh; cbn in Hsh; destruct (main s); naive_solver lia.
  - rewrite E in Hsh. destruct (worker s); cbn in *; naive_solver lia.
  - rewrite E in Hsh. destruct (worker s); cbn in *; naive_solver lia.
  - rewrite E in Hsh. naive_solver.
  - rewrite E in Hsh. left. rewrite length_app. cbn. naive_solver lia.
Qed.

Lemma handle_step_Inv s s' : Inv s -> step s s' -> Inv s'.
Proof.
  intros HI Hs. pose proof (handle_step_shape s s' (Inv_shape s HI) Hs) as Hsh. pose proof (Inv_ran s HI) as Hran.
  destruct Hs as [s r E Hr Hp | s E | s r E Hlt | s r e E Ee | s r ok E | s r E Hlt | s n E Hn | s n E Hn | s E Hto | s ok E].
  - apply (silent_Inv s); try done; cbn; rewrite ?E; try done. by intros r' [= <-].
  - apply (silent_Inv s); try done; cbn; by rewrite ?E.
  - rewrite E in Hran. apply (silent_Inv s); try done; cbn; by rewrite ?E.
  - rewrite E in Hran. destruct HI as [_ _ H3 H4 H5 H6 H7 H8]. rewrite E in *. cbn in *.
    assert (set_error e (hdr s) = set_error e h) as Eh by (by destruct H3 as [-> | [_ ->]]).
    split; cbn; rewrite ?Eh, ?Ee; try done; [by left | by right; exists e].
  - assert (ran r /\ forall m, r <> Panic m) as Hr by (apply Hran; destruct E as [-> | [-> _]]; done).
    assert (with_error (errors_set (worker s)) = with_error (error_of r) /\ answered (worker s) = None) as [Ew En]
      by (by destruct E as [-> | [-> En]]; cbn; rewrite ?En).
    destruct HI as [_ _ H3 H4 H5 H6 H7 H8]. rewrite Ew in H3. rewrite En in *.
    assert (answers_as r (hdr s, body_of r)) as Hnew by (by apply answers_as_body).
    split; cbn; try done.
    + by intros r' [= <-].
    + intros Ht. destruct (H4 Ht) as [? | (e & Ee & ?)]; [by left | right]. exists e. split; [| done].
      destruct E as [E | [E E0]]; rewrite E in Ee; [done |]. done.
    + intros m [Hm | ->%list_elem_of_singleton]%elem_of_app; [| by left; exists r].
      destruct (H5 m Hm) as [(r' & ? & _) | ?]; [done | by right].
    + intros r' [= <-]. eexists. split; [apply elem_of_app; right; by left | done].
    + intros Ht. rewrite (H7 Ht). cbn. destruct H3 as [-> | [? _]]; done.
    + destruct ok; [by apply sublist_app | by apply sublist_inserts_r].
  - rewrite E in Hran. apply (silent_Inv s); try done; cbn; by rewrite ?E.
  - by apply (silent_Inv s).
  - by apply (silent_Inv s).
  - destruct HI as [_ _ H3 H4 H5 H6 H7 H8].
    assert (set_error (timeout_text timeout) (hdr s) = timed_out) as Eh by (by destruct H3 as [-> | [_ ->]]; [destruct (errors_set _) |]).
    split; cbn; rewrite ?Eh; try done; [by right | by left].
  - pose proof HI as [_ _ H3 H4 H5 H6 H7 H8]. pose proof (Inv_shape s HI) as Hsh0. unfold shape in Hsh0. rewrite E in Hsh0.
    destruct Hsh0 as [Ht _]. split; cbn; try done.
    + intros m [Hm | ->%list_elem_of_singleton]%elem_of_app; [by apply H5 |]. right. split_and!; [done | done |]. cbn.
      destruct (H4 E) as [? | (e & Ee & ?)]; [by left | right]. exists e. split; [by apply (errors_set_ran s) | done].
    + intros r Hr. destruct (H6 r Hr) as (m & ? & ?). exists m. split; [apply elem_of_app; by left | done].
    + destruct ok; [by apply sublist_app | by apply sublist_inserts_r].
Qed.

Lemma handle_reachable_Inv s : reachable s -> Inv s.
Proof. apply (invariant_rtc step Inv handle_step_Inv), start_Inv. Qed.

(** What has been answered once handleRequest has returned. *)
Definition answer_of (r : outcome (option Resp)) : Header * RBody :=
  match r with
  | Ok resp => (h, RespBody resp)
  | Err e | Panic e => (mkHeader (ServiceMethod h) (Seq h) e (Metadata h), InvalidRequest)
  end.
Lemma returned_answered s :
  Inv s -> main s = MainDone -> (1 <= length (answers s))%nat /\
  (timeout = 0 -> exists r, worker s = WorkerDone r /\ ran r /\ answers s = [answer_of r]).
Proof.
  intros HI E. pose proof (Inv_shape s HI) as Hsh. unfold shape in Hsh. rewrite E in Hsh. split; [lia |].
  intros Ht. destruct Hsh as [[? _] | (Hw & _)]; [done |].
  pose proof (Inv_first s HI Ht) as Ha. pose proof (Inv_ran s HI) as Hr.
  destruct (worker s) as [| r | r | r | r | r |]; try discriminate Hw. exists r. split_and!; [done | by apply Hr |].
  rewrite Ha. by destruct r.
Qed.

(** C21: A request is answered with the result of its handler. When handleRequest has
    returned without a handle timeout set, the chain has returned some result, and one
    answer was given to the codec, under the number and the method of the request: the
    response of a success, the error of a failure. With a timeout, every answer is this
    result or the timeout, under a header in which one of the two errors may have
    replaced the other; at least one was given once handleRequest has returned, and
    never more than two. What is on the wire is what the codec managed to write of
    that; its errors are dropped. Neither goroutine ever blocks on the other's channels
    for good, so neither leaks. *)
Theorem request_is_answered s :
  reachable s ->
  (main s = MainDone -> (1 <= length (answers s))%nat) /\ (length (answers s) <= 2)%nat /\
  (timeout = 0 -> main s = MainDone -> exists r, worker s = WorkerDone r /\ ran r /\
     answers s = [match r with
                  | Ok resp => (h, RespBody resp)
                  | Err e | Panic e => (mkHeader (ServiceMethod h) (Seq h) e (Metadata h), InvalidRequest)
                  end]) /\
  (forall m, m ∈ answers s -> Seq m.1 = Seq h /\ ServiceMethod m.1 = ServiceMethod h) /\
  (forall m, m ∈ answers s -> (exists r, ran r /\ answers_as r m) \/ answers_late m) /\
  (forall r, worker s = WorkerDone r -> ran r /\ exists m, m ∈ answers s /\ answers_as r m) /\
  wire s `sublist_of` answers s /\
  (holds (worker s) <> None -> (forall r, worker s <> WorkerDone r) ->
    exists s', step s s' /\ worker s' <> worker s) /\
  (forall r, worker s = WorkerDone r -> main s <> MainDone -> exists s', step s s' /\ main s' <> main s).
Proof.
  intros HI%handle_reachable_Inv. pose proof (Inv_shape s HI) as Hsh. unfold shape in Hsh. split_and!.
  - intros E. by apply returned_answered.
  - destruct (main s), (worker s); simpl in Hsh; lia.
  - intros Ht E. by apply returned_answered.
  - intros [hd b] Hm. destruct (Inv_answers s HI _ Hm) as [(r & _ & Ha) | (_ & _ & Ha)]; [destruct r, Ha as [_ Ha] |];
      cbn in *; [destruct Ha as [-> | [_ ->]]; done .. | destruct Ha as [-> | (e & _ & ->)]; done].
  - intros m Hm. destruct (Inv_answers s HI m Hm) as [(r & Hr & ?) | ?]; [left | by right]. exists r. split; [| done].
    apply (Inv_ran s HI). by destruct (worker s).
  - intros r E. split; [apply (Inv_ran s HI); by rewrite E | apply (Inv_answer s HI); by rewrite E].
  - apply (Inv_wire s HI).
  - intros H1 H2. destruct (worker s) as [| r | r | r | r | r |] eqn:E; try done.
    + eexists. split; [eapply worker_called; [exact E |] | done]. destruct (main s); simpl in Hsh; naive_solver lia.
    + destruct (error_of r) as [e |] eqn:Ee.
      * eexists. split; [by eapply worker_sets_error | done].
      * exists (set_worker (Signalling r) (sendResponse true (body_of r) s)). split; [apply worker_writes; by right | done].
    + exists (set_worker (Signalling r) (sendResponse true (body_of r) s)). split; [apply worker_writes; by left | done].
    + eexists. split; [eapply worker_sent; [exact E |] | done]. destruct (main s); simpl in Hsh; naive_solver lia.
    + by destruct (H2 r).
  - intros r E Hm. rewrite E in Hsh. destruct (main s) eqn:Em; simpl in Hsh; try done.
    + eexists. split; [eapply (main_called _ _ _ 0%nat); [done | tauto] | done].
    + eexists. split; [eapply (main_sent _ _ _ 0%nat); [done | tauto] | done].
    + exists (set_main MainDone (sendResponse true InvalidRequest s)). split; [by eapply main_writes_timeout | done].
Qed.

(** A handle timeout does not stop the answer: whenever a timeout is set, a
    run answers the request twice, first with the timeout error and then with
    the handler's result - a success body under a header that still says
    timeout, because both goroutines share the header. *)
Theorem timeout_answers_twice r :
  timeout <> 0 -> ran (Ok r) ->
  exists s, reachable s /\ main s = MainDone /\ worker s = WorkerDone (Ok r) /\
    wire s = [(timed_out, InvalidRequest); (timed_out, RespBody r)].
Proof.
  intros Ht Hr. eexists. split_and!.
  - unfold reachable.
    eapply rtc_l; [by apply main_timeout |]. eapply rtc_l; [by apply (main_writes_timeout _ _ _ true) |].
    eapply rtc_l; [by apply (worker_returns _ _ _ (Ok r)) |].
    eapply rtc_l; [by apply (worker_called _ _ _ (Ok r)); [| simpl; lia] |].
    eapply rtc_l; [apply (worker_writes _ _ _ (Ok r) true); by right |].
    eapply rtc_l; [by apply (worker_sent _ _ _ (Ok r)); [| simpl; lia] |]. apply rtc_refl.
  - done.
  - done.
  - done.
Qed.

(** And an error of the handler may take the place of that of the timeout. *)
Lemma error_replaces_timeout e :
  timeout <> 0 -> ran (Err e) ->
  exists s, reachable s /\ main s = MainDone /\ wire s = [(set_error e h, InvalidRequest)].
Proof.
  intros Ht Hr. eexists. split_and!.
  - unfold reachable.
    eapply rtc_l; [by apply (worker_returns _ _ _ (Err e)) |].
    eapply rtc_l; [by apply (worker_called _ _ _ (Err e)); [| simpl; lia] |].
    eapply rtc_l; [by apply main_timeout |].
    eapply rtc_l; [by apply (worker_sets_error _ _ _ (Err e) e) |].
    eapply rtc_l; [by apply (main_writes_timeout _ _ _ true) |]. apply rtc_refl.
  - done.
  - done.
Qed.
End requests.
End handle.
End Handle.

(** A handler that fails, without a handle timeout: its error is the one answer. *)
Lemma request_is_answered_witness :
  let h := demo_header 5 in
  exists s, Handle.reachable (Resp := string) 0 (fun r => r = Err "no such user") h s /\
    Handle.main s = Handle.MainDone /\ Handle.answers s = [(Handle.set_error "no such user" h, Handle.InvalidRequest)] /\
    Handle.wire s = [].
Proof.
  intros h. set (ran := fun r : outcome (option string) => r = Err "no such user").
  assert (exists s, Handle.reachable 0 ran h s /\ Handle.main s = Handle.MainDone /\ Handle.wire s = []) as (s & Hr & Hm & Hw).
  { eexists. split.
    - unfold Handle.reachable. eapply rtc_l; [by apply (Handle.worker_returns _ _ _ (Err "no such user")) |].
      eapply rtc_l; [apply (Handle.worker_called _ _ _ (Err "no such user")); [done | cbn; lia] |].
      eapply rtc_l; [by eapply (Handle.worker_sets_error _ _ _ (Err "no such user")) |].
      eapply rtc_l; [apply (Handle.worker_writes _ _ _ (Err "no such user") false); by left |].
      eapply rtc_l; [apply (Handle.worker_sent _ _ _ (Err "no such user")); [done | cbn; lia] |].
      eapply rtc_l; [by apply (Handle.main_called _ _ _ 0%nat) |]. eapply rtc_l; [by apply (Handle.main_sent _ _ _ 0%nat) |].
      apply rtc_refl.
    - done. }
  exists s. destruct (Handle.request_is_answered 0 ran h s Hr) as (_ & _ & H & _).
  destruct (H eq_refl Hm) as (r & _ & -> & Ha). by split_and!.
Defined.

Lemma timeout_answers_twice_witness :
  let h := demo_header 5 in
  exists s, Handle.reachable 5 (fun _ => True) h s /\ Handle.main s = Handle.MainDone /\
    Handle.worker s = Handle.WorkerDone (Ok (Some "hi")) /\
    Handle.wire s = [(Handle.timed_out 5 h, Handle.InvalidRequest); (Handle.timed_out 5 h, Handle.RespBody (Some "hi"))].
Proof. intros h. by apply (Handle.timeout_answers_twice 5 (fun _ => True) h (Some "hi")). Defined.

(** ** The connection: serveCodec and ServeConn *)

Module Serve.
Section serve.
Context {Req Resp : Type}.

(** [ReadBody]: what the body is decoded into, by the entry's [newReq] - the
    method names the type - or skipped. *)
Inductive serve_cmd :=
| ReadHeader
| ReadBody (into : option string)
| SendResponse (h : Header)                    (* with the invalidRequest body *)
| WgAdd                                        (* wg.Add(1) *)
| SpawnHandler (h : Header) (req : Req) (timeout : Z)
| WaitGroup                                    (* wg.Wait() *)
| CloseCodec.

Definition serve_res (c : serve_cmd) : Type :=
  match c with
  | ReadHeader => outcome Header
  | ReadBody _ => outcome Req
  | SendResponse _ | WgAdd | SpawnHandler _ _ _ | WaitGroup | CloseCodec => unit
  end.

Definition serving : Sig := mkSig serve_cmd serve_res.
Definition read_header : prog serving (outcome Header) := call (S := serving) ReadHeader.
Definition read_body into : prog serving (outcome Req) := call (S := serving) (ReadBody into).
Definition send_response h : prog serving unit := call (S := serving) (SendResponse h).
Definition wg_add : prog serving unit := call (S := serving) WgAdd.
Definition spawn_handler h r t : prog serving unit := call (S := serving) (SpawnHandler h r t).
Definition wait_group : prog serving unit := call (S := serving) WaitGroup.
Definition close_codec : prog serving unit := call (S := serving) CloseCodec.

(** readRequest: the request's header when it could be read, and its body or
    the error. *)
Definition readRequest (s : Handler.Server (Req := Req) (Resp := Resp)) :
    prog serving (option Header * outcome Req) :=
  r <- read_header ;;
  match r with
  | Ok h =>
      match Handler.findEntry (ServiceMethod h) s with
      | Ok entry =>
          b <- read_body (Some (ServiceMethod h)) ;;
          Ret (Some h, b)
      | Err e => read_body None ;; Ret (Some h, Err e)
      | Panic m => Ret (Some h, Panic m)
      end
  | Err e => Ret (None, Err e)
  | Panic m => Ret (None, Panic m)
  end.

(** The loop; [n] bounds the requests read, [false] when it would read on. *)
Fixpoint serve_loop (n : nat) (timeout : Z) (s : Handler.Server (Req := Req) (Resp := Resp)) :
    prog serving bool :=
  match n with
  | O => Ret false
  | S n' =>
      '(h, r) <- readRequest s ;;
      match h, r with
      | None, _ => Ret true
      | Some h, Ok req => wg_add ;; spawn_handler h req timeout ;; serve_loop n' timeout s
      | Some h, Err e | Some h, Panic e =>
          send_response (Handle.set_error e h) ;; serve_loop n' timeout s
      end
  end.

Definition serveCodec (n : nat) (timeout : Z) (s : Handler.Server (Req := Req) (Resp := Resp)) :
    prog serving bool :=
  over <- serve_loop n timeout s ;;
  match over with
  | true => wait_group ;; close_codec ;; Ret true
  | false => Ret false
  end.

(** The protocol of a connection, as an automaton over the trace: headers and
    bodies alternate on the stream, each request read is then either handed to a
    handler - its body read as the request type of its method - or answered at
    once with its own number and an error; a request that is handed over is counted
    first; the first header that cannot be read ends the loop, which waits for the
    group before it closes the codec. *)
Inductive pstate :=
| AtHeader
| AtBody (h : Header)
| AtReply (h : Header) (r : outcome Req)
| Counted (h : Header) (req : Req)
| AtEnd
| Waited
| Closed.

Definition known (s : Handler.Server (Req := Req) (Resp := Resp)) (m : string) : bool :=
  bool_decide (is_Some (Handler.serviceMap s !! m)).

Definition protocol (srv : Handler.Server (Req := Req) (Resp := Resp)) (timeout : Z)
    (st : pstate) (e : event serving) : option pstate :=
  match st, e with
  | AtHeader, existT ReadHeader r =>
      Some (match r with Ok h => AtBody h | _ => AtEnd end)
  | AtBody h, existT (ReadBody into) r =>
      match into with
      | Some m => if String.eqb m (ServiceMethod h) && known srv m then Some (AtReply h r) else None
      | None => if known srv (ServiceMethod h) then None else Some (AtReply h (Err ""))
      end
  | AtReply h (Ok req), existT WgAdd _ => Some (Counted h req)
  | AtReply h _, existT (SendResponse h') _ =>
      if (Seq h' =? Seq h) && String.eqb (ServiceMethod h') (ServiceMethod h) then Some AtHeader
      else None
  | Counted h _, existT (SpawnHandler h' _ t) _ =>
      if bool_decide (h' = h) && (t =? timeout) then Some AtHeader else None
  | AtEnd, existT WaitGroup _ => Some Waited
  | Waited, existT CloseCodec _ => Some Closed
  | _, _ => None
  end.

Definition accepts srv timeout (st : pstate) (tr : list (event serving)) : option pstate :=
  foldl (fun o e => o ≫= fun st => protocol srv timeout st e) (Some st) tr.

Lemma accepts_cons srv timeout st e tr st' :
  protocol srv timeout st e = Some st' ->
  accepts srv timeout st (e :: tr) = accepts srv timeout st' tr.
Proof. intros E. unfold accepts. simpl. by rewrite E. Qed.

Lemma accepts_app srv timeout st t1 t2 st' :
  accepts srv timeout st t1 = Some st' ->
  accepts srv timeout st (t1 ++ t2) = accepts srv timeout st' t2.
Proof. intros E. unfold accepts in *. by rewrite foldl_app, E. Qed.

(** Every command keeps to the protocol. The request that is handed over is the one that
    was read: of the spawned request the automaton checks the header and the timeout. *)
Definition obeys srv timeout (past : list (event serving)) (e : event serving) : Prop :=
  is_Some (accepts srv timeout AtHeader (past ++ [e])) /\
  match e with
  | existT (SpawnHandler h req _) _ => accepts srv timeout AtHeader past = Some (Counted h req)
  | _ => True
  end.

Lemma accepts_snoc srv timeout past e st st' :
  accepts srv timeout AtHeader past = Some st -> protocol srv timeout st e = Some st' ->
  accepts srv timeout AtHeader (past ++ [e]) = Some st'.
Proof. intros H E. rewrite (accepts_app _ _ _ _ _ _ H). by rewrite (accepts_cons _ _ _ _ _ _ E). Qed.
Lemma obeys_step srv timeout past e st st' :
  accepts srv timeout AtHeader past = Some st -> protocol srv timeout st e = Some st' ->
  match e with existT (SpawnHandler h req _) _ => st = Counted h req | _ => True end -> obeys srv timeout past e.
Proof.
  intros H E Hs. split; [exists st'; by eapply accepts_snoc |]. destruct e as [[] ?]; try done. by rewrite Hs in H.
Qed.

Notation at_ srv timeout st past := (accepts srv timeout AtHeader past = Some st).
Lemma serve_loop_sat n timeout srv past :
  at_ srv timeout AtHeader past ->
  sat (obeys srv timeout) past (serve_loop n timeout srv)
    (fun past' over => at_ srv timeout (if over then AtEnd else AtHeader) past').
Proof.
  revert past. induction n as [| n IH]; intros past H; cbn [serve_loop]; [done |].
  unfold readRequest, read_header, read_body, send_response, wg_add, spawn_handler, call. cbn [bind sat].
  intros r. pose proof (accepts_snoc _ _ _ (@ev serving ReadHeader r) _ _ H eq_refl) as H1.
  split; [by apply (obeys_step _ _ _ (@ev serving ReadHeader r) _ _ H eq_refl) |]. clear H.
  destruct r as [hd | e | m]; cbn [bind sat]; [| exact H1..].
  assert (forall past' e r, at_ srv timeout (AtReply hd r) past' ->
    sat (obeys srv timeout) past' (Do (S := serving) (SendResponse (Handle.set_error e hd)) (fun _ => serve_loop n timeout srv))
      (fun past' over => at_ srv timeout (if over then AtEnd else AtHeader) past')) as Hsend.
  { intros past' e r H2. cbn [sat]. intros u.
    assert (protocol srv timeout (AtReply hd r) (@ev serving (SendResponse (Handle.set_error e hd)) u) = Some AtHeader) as E.
    { cbn. rewrite Z.eqb_refl, String.eqb_refl. by destruct r. }
    split; [by apply (obeys_step _ _ _ _ _ _ H2 E) |]. apply IH. by apply (accepts_snoc _ _ _ _ _ _ H2 E). }
  unfold Handler.findEntry.
  destruct (Handler.serviceMap srv !! ServiceMethod hd) as [entry |] eqn:En; cbn [bind sat]; intros b.
  - assert (protocol srv timeout (AtBody hd) (@ev serving (ReadBody (Some (ServiceMethod hd))) b) = Some (AtReply hd b)) as E.
    { cbn. unfold known. rewrite String.eqb_refl, En. by rewrite bool_decide_true. }
    split; [by apply (obeys_step _ _ _ _ _ _ H1 E) |]. pose proof (accepts_snoc _ _ _ _ _ _ H1 E) as H2.
    destruct b as [req | e | e]; cbn [bind]; [| by eapply Hsend..].
    cbn [sat]. intros u. split; [by apply (obeys_step _ _ _ (@ev serving WgAdd u) _ _ H2 eq_refl) |].
    pose proof (accepts_snoc _ _ _ (@ev serving WgAdd u) _ _ H2 eq_refl) as H3. intros u'.
    assert (protocol srv timeout (Counted hd req) (@ev serving (SpawnHandler hd req timeout) u') = Some AtHeader) as E'
      by (cbn; by rewrite bool_decide_true, Z.eqb_refl).
    split; [by apply (obeys_step _ _ _ _ _ _ H3 E') |]. apply IH. by apply (accepts_snoc _ _ _ _ _ _ H3 E').
  - assert (protocol srv timeout (AtBody hd) (@ev serving (ReadBody None) b) = Some (AtReply hd (Err ""))) as E.
    { cbn. unfold known. rewrite En. by rewrite bool_decide_false by (by intros []). }
    split; [by apply (obeys_step _ _ _ _ _ _ H1 E) |]. eapply Hsend. by apply (accepts_snoc _ _ _ _ _ _ H1 E).
Qed.

Lemma serveCodec_sat n timeout srv :
  sat (obeys srv timeout) [] (serveCodec n timeout srv)
    (fun past over => at_ srv timeout (if over then Closed else AtHeader) past).
Proof.
  unfold serveCodec. eapply sat_bind; [by apply serve_loop_sat |]. intros past [] H; [| done].
  unfold wait_group, close_codec, call. cbn [bind sat]. intros u.
  split; [by apply (obeys_step _ _ _ (@ev serving WaitGroup u) _ _ H eq_refl) |].
  pose proof (accepts_snoc _ _ _ (@ev serving WaitGroup u) _ _ H eq_refl) as H1. intros u'.
  split; [by apply (obeys_step _ _ _ (@ev serving CloseCodec u') _ _ H1 eq_refl) |].
  by apply (accepts_snoc _ _ _ (@ev serving CloseCodec u') _ _ H1).
Qed.
End serve.
End Serve.

(** ** The goroutines of a connection and its wait group *)

Module Conn.
Import Serve.
Section conn.
Context {Req Resp : Type}.
Variable srv : Handler.Server (Req := Req) (Resp := Resp).
Variable timeout : Z.
(** What the chain may return for a request. *)
Variable ran : Header -> Req -> outcome (option Resp) -> Prop.
Notation serving := (serving (Req := Req)).

(** A call of handleRequest; [gDone] once its deferred wg.Done has run. *)
Record Goroutine := mkGoroutine {
  gHeader : Header;
  gReq : Req;
  gState : Handle.State (Resp := Resp);
  gDone : bool;
}.
(** What the loop did and what is left of it; the goroutines, in the order they were
    started; the counter of the wait group; whether the codec is closed. *)
Record State := mkState {
  past : list (event serving);
  program : prog serving bool;
  goroutines : list Goroutine;
  wg : nat;
  closed : bool;
}.
Definition init (n : nat) : State := mkState [] (serveCodec n timeout srv) [] 0 false.

(** wg.Wait returns once the counter is zero; the peer and the codec answer anything. *)
Definition answerable (s : State) (c : cmd serving) : Prop := match c with WaitGroup => wg s = 0%nat | _ => True end.
Definition effect (c : cmd serving) (s : State) : State :=
  match c with
  | WgAdd => mkState (past s) (program s) (goroutines s) (S (wg s)) (closed s)
  | SpawnHandler h req _ =>
      mkState (past s) (program s) (goroutines s ++ [mkGoroutine h req (Handle.start h) false]) (wg s) (closed s)
  | CloseCodec => mkState (past s) (program s) (goroutines s) (wg s) true
  | _ => s
  end.
Definition advance (p : list (event serving)) (k : prog serving bool) (s : State) : State :=
  mkState p k (goroutines s) (wg s) (closed s).

Inductive step : State -> State -> Prop :=
| step_loop s c k r :
    program s = Do c k -> answerable s c -> step s (advance (past s ++ [ev c r]) (k r) (effect c s))
| step_goroutine s i g st :
    goroutines s !! i = Some g -> Handle.step timeout (ran (gHeader g) (gReq g)) (gState g) st ->
    step s (mkState (past s) (program s) (<[i := mkGoroutine (gHeader g) (gReq g) st (gDone g)]> (goroutines s)) (wg s) (closed s))
| step_done s i g :
    goroutines s !! i = Some g -> Handle.main (gState g) = Handle.MainDone -> gDone g = false ->
    step s (mkState (past s) (program s) (<[i := mkGoroutine (gHeader g) (gReq g) (gState g) true]> (goroutines s))
              (wg s - 1) (closed s)).
Definition reachable (s : State) : Prop := exists n, rtc step (init n) s.

(** The requests that were handed over. *)
Definition spawned (tr : list (event serving)) : list (Header * Req) :=
  view (S := serving) (fun e => match e with existT (SpawnHandler h req _) _ => [(h, req)] | _ => [] end) tr.
Definition running (l : list Goroutine) : nat := length (filter (fun g => gDone g = false) l).

(** The request that is counted and not yet handed over. *)
Definition counted (p : pstate (Req := Req)) : nat := match p with Counted _ _ => 1 | _ => 0 end.
Definition past_wait (p : pstate (Req := Req)) : Prop := p = Waited \/ p = Closed.

Definition goroutine_ok (g : Goroutine) : Prop :=
  Handle.reachable timeout (ran (gHeader g) (gReq g)) (gHeader g) (gState g) /\
  (gDone g = true -> Handle.main (gState g) = Handle.MainDone).

Record Inv (s : State) : Prop := {
  Inv_sat : sat (obeys srv timeout) (past s) (program s)
    (fun tr over => accepts srv timeout AtHeader tr = Some (if over then Closed else AtHeader));
  Inv_past : forall before e after, past s = before ++ e :: after -> obeys srv timeout before e;
  Inv_goroutines : Forall goroutine_ok (goroutines s);
  Inv_spawned : (fun g => (gHeader g, gReq g)) <$> goroutines s = spawned (past s);
  Inv_place : exists p, accepts srv timeout AtHeader (past s) = Some p /\
    wg s = (running (goroutines s) + counted p)%nat /\ (past_wait p -> running (goroutines s) = 0%nat) /\
    (closed s = true -> p = Closed);
}.

Lemma running_app l l' : running (l ++ l') = (running l + running l')%nat.
Proof. unfold running. by rewrite filter_app, length_app. Qed.
Lemma running_cons g l : running (g :: l) = ((if gDone g then 0 else 1) + running l)%nat.
Proof. unfold running. rewrite filter_cons. by destruct (gDone g). Qed.
Lemma running_replace l i g g' :
  l !! i = Some g -> ((if gDone g' then 0 else 1) + running l)%nat = ((if gDone g then 0 else 1) + running (<[i := g']> l))%nat.
Proof.
  intros Hi. pose proof (lookup_lt_Some _ _ _ Hi). rewrite insert_take_drop by done.
  rewrite <- (take_drop_middle l i g Hi) at 1. rewrite !running_app, !running_cons. lia.
Qed.
Lemma running_none l : running l = 0%nat -> Forall (fun g => gDone g = true) l.
Proof.
  unfold running. intros H%nil_length_inv. apply Forall_forall. intros g Hg. destruct (gDone g) eqn:E; [done |].
  assert (g ∈ filter (fun g => gDone g = false) l) as Hin by (by apply list_elem_of_filter).
  rewrite H in Hin. by apply elem_of_nil in Hin.
Qed.

Lemma conn_init_Inv n : Inv (init n).
Proof. 
  split; cbn; [apply serveCodec_sat | by intros [] | constructor | done | exists AtHeader; split_and!; try done].
Qed.

(** What a command of the loop means for the automaton. *)
Lemma protocol_step (s : State) p p' (e : event serving) :
  protocol srv timeout p e = Some p' ->
  match projT1 e with
  | WgAdd => counted p = 0%nat /\ counted p' = 1%nat /\ ~ past_wait p'
  | SpawnHandler _ _ _ => counted p = 1%nat /\ counted p' = 0%nat /\ ~ past_wait p'
  | WaitGroup => counted p = 0%nat /\ counted p' = 0%nat
  | CloseCodec => counted p = 0%nat /\ counted p' = 0%nat /\ past_wait p /\ p' = Closed
  | _ => counted p = 0%nat /\ counted p' = 0%nat /\ ~ past_wait p'
  end /\ p <> Closed.
Proof.
  unfold past_wait. destruct p as [| h | h r | h req | | |], e as [[] x]; cbn; try discriminate; repeat case_match; try discriminate;
    intros [= <-]; cbn; repeat case_match; naive_solver.
Qed.

#[local] Arguments counted : simpl never.
#[local] Arguments running : simpl never.
Lemma conn_step_Inv s s' : Inv s -> step s s' -> Inv s'.
Proof.
  intros [H1 H0 H2 H3 (p & Hp & Hw & Hr & Hc)] Hs. destruct Hs as [s c k r Hk Ha | s i g st Hi Hst | s i g Hi Hm Hd].
  - rewrite Hk in H1. destruct (H1 r) as [[[p' Hp'] Hsp] Hrest].
    assert (protocol srv timeout p (ev c r) = Some p') as Hpp.
    { rewrite (accepts_app _ _ _ _ _ _ Hp) in Hp'. exact Hp'. }
    destruct (protocol_step s p p' (ev c r) Hpp) as [Hcase Hnc].
    assert (forall before e after, past s ++ [ev c r] = before ++ e :: after -> obeys srv timeout before e) as H0'.
    { intros before e after E. destruct after as [| e' after' _] using rev_ind.
      - apply app_inj_tail in E as [<- <-]. apply (H1 r).
      - rewrite app_comm_cons, app_assoc in E. apply app_inj_tail in E as [E _]. by eapply H0. }
    assert (closed s = false) as Hopen by (destruct (closed s); [by destruct Hnc; apply Hc | done]).
    assert (spawned (past s ++ [ev c r]) = spawned (past s) ++ spawned [ev c r]) as Hsp' by apply view_app.
    destruct c as [| into | h | | h req t | |]; cbn in Hcase, Ha, Hsp'; rewrite ?app_nil_r in Hsp'; cbn [effect]; unfold advance;
      (split; cbn; [exact Hrest | exact H0' | | etrans; [| symmetry; exact Hsp'] | exists p'; rewrite ?Hopen; split; [exact Hp' |]]);
      try exact H2; try exact H3.
    1-4: destruct Hcase as (? & ? & ?); split_and!; [lia | tauto | done].
    + apply Forall_app. split; [exact H2 |]. constructor; [split; [apply rtc_refl | done] | constructor].
    + by rewrite fmap_app, H3.
    + destruct Hcase as (? & ? & ?). rewrite running_app, running_cons. change (running []) with 0%nat. cbn. split_and!; [lia | tauto | done].
    + destruct Hcase as [? ?]. split_and!; [lia | intros _; lia | done].
    + destruct Hcase as (? & ? & Hpw & ->). specialize (Hr Hpw). split_and!; [lia | done | done].
  - assert (goroutine_ok g) as [Hg1 Hg2] by (rewrite Forall_forall in H2; by apply H2, (list_elem_of_lookup_2 _ i)).
    split; cbn; [exact H1 | exact H0 | | |].
    + apply Forall_insert; [exact H2 |]. split; cbn; [by eapply rtc_r |]. intros Hd.
      specialize (Hg2 Hd). inversion Hst; subst; cbn; congruence.
    + rewrite list_fmap_insert, list_insert_id; [exact H3 |]. by rewrite list_lookup_fmap, Hi.
    + exists p. pose proof (running_replace _ i g (mkGoroutine (gHeader g) (gReq g) st (gDone g)) Hi) as Hrun. cbn in Hrun.
      split_and!; [done | lia | intros Hpw; specialize (Hr Hpw); lia | done].
  - assert (goroutine_ok g) as [Hg1 Hg2] by (rewrite Forall_forall in H2; by apply H2, (list_elem_of_lookup_2 _ i)).
    split; cbn; [exact H1 | exact H0 | | |].
    + by apply Forall_insert.
    + rewrite list_fmap_insert, list_insert_id; [exact H3 |]. by rewrite list_lookup_fmap, Hi.
    + pose proof (running_replace _ i g (mkGoroutine (gHeader g) (gReq g) (gState g) true) Hi) as Hrun. rewrite Hd in Hrun. cbn in Hrun.
      exists p. split_and!; [done | lia | | done]. intros Hpw. specialize (Hr Hpw). lia.
Qed.

Lemma conn_reachable_Inv s : reachable s -> Inv s.
Proof. intros [n Hn]. exact (invariant_rtc step Inv conn_step_Inv _ _ (conn_init_Inv n) Hn). Qed.

End conn.

(** A run of the loop: its next command is answered. *)
Ltac loop c r := eapply rtc_l; [eapply (step_loop _ _ _ c _ r); [reflexivity | first [exact I | reflexivity]] | cbn].

(** One request for a method the server knows, and the end of the stream. *)
Section sample.
Variable timeout : Z.
Variable ran : Header -> string -> outcome (option string) -> Prop.
Definition echo : Handler.Server := Handler.RegisterMethod "Chat.Echo" "" (fun _ (req : string) _ => (Ok tt, req)) Handler.NewServer.
Definition echo_header : Header := mkHeader "Chat.Echo" 1 "" ∅.
Definition opened (g : Handle.State (Resp := string)) (d : bool) (n : nat) : State (Req := string) (Resp := string) :=
  mkState [@ev (serving (Req := string)) ReadHeader (Ok echo_header);
           @ev (serving (Req := string)) (ReadBody (Some "Chat.Echo")) (Ok "hi");
           @ev (serving (Req := string)) WgAdd tt; @ev (serving (Req := string)) (SpawnHandler echo_header "hi" timeout) tt]
    (serveCodec 1 timeout echo) [mkGoroutine echo_header "hi" g d] n false.

Lemma request_spawned : rtc (step timeout ran) (init echo timeout 2) (opened (Handle.start echo_header) false 1).
Proof.
  unfold init. cbn.
  loop (ReadHeader (Req := string)) (@Ok Header echo_header).
  loop (ReadBody (Req := string) (Some "Chat.Echo")) (@Ok string "hi").
  loop (WgAdd (Req := string)) tt.
  loop (SpawnHandler echo_header "hi" timeout) tt.
  apply rtc_refl.
Qed.
Lemma goroutine_runs g g' :
  rtc (Handle.step timeout (ran echo_header "hi")) g g' -> rtc (step timeout ran) (opened g false 1) (opened g' false 1).
Proof.
  induction 1 as [g | g g1 g2 Hg _ IH]; [apply rtc_refl |]. eapply rtc_l; [| exact IH].
  by apply (step_goroutine timeout ran (opened g false 1) 0%nat (mkGoroutine echo_header "hi" g false)).
Qed.
(** Once handleRequest has returned, the end of the stream closes the codec. *)
Lemma stream_ends g : Handle.main g = Handle.MainDone ->
  exists s, rtc (step timeout ran) (opened g false 1) s /\ closed s = true /\
    goroutines s = [mkGoroutine echo_header "hi" g true].
Proof.
  intros Hm. eexists. split.
  - eapply rtc_l; [by apply (step_done timeout ran (opened g false 1) 0%nat (mkGoroutine echo_header "hi" g false)) |]. cbn.
    loop (ReadHeader (Req := string)) (@Err Header "EOF").
    loop (WaitGroup (Req := string)) tt.
    loop (CloseCodec (Req := string)) tt.
    apply rtc_refl.
  - done.
Qed.
End sample.

(** With a handle timeout the codec is closed while the handler still runs: the call of
    handleRequest that gave up is all the wait group counts. *)
Lemma closed_while_running ran :
  exists s g, reachable echo 5 ran s /\ closed s = true /\ goroutines s = [g] /\
    Handle.worker (gState g) = Handle.Running /\
    Handle.wire (gState g) = [(Handle.timed_out 5 echo_header, Handle.InvalidRequest)].
Proof.
  set (g1 := Handle.set_main Handle.TimedOut (Handle.set_hdr (Handle.timed_out 5 echo_header) (Handle.start (Resp := string) echo_header))).
  set (g2 := Handle.set_main Handle.MainDone (Handle.sendResponse true Handle.InvalidRequest g1)).
  destruct (stream_ends 5 ran g2 eq_refl) as (s & Hs & Hc & Hg). exists s, (mkGoroutine echo_header "hi" g2 true).
  split_and!; [| done | exact Hg | done | done]. exists 2%nat. etrans; [apply request_spawned |].
  etrans; [| exact Hs]. apply goroutine_runs. eapply rtc_l; [by apply Handle.main_timeout |].
  eapply rtc_l; [by apply (Handle.main_writes_timeout _ _ _ true) |]. apply rtc_refl.
Qed.
End Conn.


Module Accept.
Section accept.
Context {Req Resp : Type}.
(** [encoding/json] on Option: [json.NewEncoder(conn).Encode] writes the text
    and a newline, [json.Unmarshal] ignores the newline. *)
Variable EncodeOption : Option -> string.
Variable UnmarshalOption : string -> outcome Option.
Hypothesis json_line : forall o, exists t, EncodeOption o = t +:+ String (byte 10) "" /\
  no_byte (byte 10) t = true.
Hypothesis json_law : forall o, UnmarshalOption (EncodeOption o) = Ok o.

(** [br.ReadBytes('\n')]: the line with its newline, and what follows. *)
Fixpoint ReadLine (inp : string) : outcome string * string :=
  match inp with
  | "" => (Err err_eof, "")
  | String a s =>
      if Ascii.eqb a (byte 10) then (Ok (String a ""), s)
      else match ReadLine s with
           | (Ok l, rest) => (Ok (String a l), rest)
           | r => r
           end
  end.

(** How a connection starts: refused, or served with a codec and a timeout from
    the rest of the stream. *)
Inductive Start := Refused (why : string) | Served (codec : Type_) (handle_timeout : Z) (rest : string).

Definition ServeConn (inp : string) : Start :=
  match ReadLine inp with
  | (Ok jsonLine, rest) =>
      match UnmarshalOption jsonLine with
      | Ok opt =>
          if negb (oMagicNumber opt =? MagicNumber) then Refused "invalid magic number"
          else
            match NewCodecFuncMap !! oCodecType opt with
            | None => Refused ("invalid codec type " +:+ oCodecType opt)
            | Some f => Served f (oHandleTimeout opt) rest
            end
      | Err e | Panic e => Refused ("options parse error: " +:+ e)
      end
  | (Err e, _) | (Panic e, _) => Refused ("options read error: " +:+ e)
  end.

(** ServeHTTP: only CONNECT is served, over the hijacked connection. *)
Definition ServeHTTP (method : string) (hijack : outcome string) : outcome Start * string :=
  if negb (String.eqb method "CONNECT") then (Err "405 must CONNECT", "")
  else
    match hijack with
    | Ok inp =>
        (Ok (ServeConn inp),
         "HTTP/1.0 " +:+ Dial.connected +:+ String (byte 10) (String (byte 10) ""))
    | Err e => (Err e, "")
    | Panic m => (Panic m, "")
    end.

Lemma ReadLine_spec t rest :
  no_byte (byte 10) t = true ->
  ReadLine ((t +:+ String (byte 10) "") +:+ rest) = (Ok (t +:+ String (byte 10) ""), rest).
Proof.
  induction t as [| a t IH]; intros Ht; [done |]. unfold no_byte in Ht. simpl in Ht.
  apply andb_true_iff in Ht as [Ha Ht].
  change (ReadLine (String a ((t +:+ String (byte 10) "") +:+ rest)) =
    (Ok (String a (t +:+ String (byte 10) "")), rest)).
  change (negb (Ascii.eqb a (byte 10)) = true) in Ha. apply negb_true_iff in Ha.
  cbn [ReadLine]. rewrite IH by done.
  by rewrite Ha.
Qed.

(** C33: The handshake agrees: whatever options a caller passes, if the dialled
    client starts with some codec then the server that reads the line it wrote
    serves the connection with that codec and the client's handle timeout, and
    the first byte after the line is the first byte of the first message. *)
Theorem handshake_agrees {W} (h : env Dial.dialing W) opts opt conn msgs :
  Dial.parseOptions opts = Ok opt ->
  always h (Dial.NewClient conn opt) (fun r tr =>
    forall c k, r = Ok c -> @ev Dial.dialing (Dial.StartClient conn k) tt ∈ tr ->
      @ev Dial.dialing (Dial.EncodeOption conn opt) (Ok tt) ∈ tr /\
      ServeConn (EncodeOption opt +:+ msgs) = Served k (oHandleTimeout opt) msgs).
Proof.
  intros Ho. assert (oMagicNumber opt = MagicNumber) as Hm.
  { unfold Dial.parseOptions in Ho. by repeat case_match; simplify_eq. }
  unfold Dial.NewClient.
  destruct (NewCodecFuncMap !! oCodecType opt) as [f |] eqn:Ef; [| by apply always_Ret].
  unfold Dial.encode_option, Dial.start_client, Dial.close_conn, call. cbn [bind].
  apply always_Do. intros [[] | e | p]; cbn [bind]; [| apply always_Do; intros u |]; try by apply always_Ret.
  apply always_Do. intros []. apply always_Ret. intros c k _ Hk.
  split; [by left |].
  assert (k = f) as ->.
  { apply elem_of_cons in Hk as [Hk | Hk]; [discriminate |].
    apply list_elem_of_singleton in Hk. by injection Hk. }
  unfold ServeConn. destruct (json_line opt) as (t & Et & Hn). rewrite Et, ReadLine_spec by done.
  rewrite <- Et, json_law, Hm, Z.eqb_refl, Ef. done.
Qed.
End accept.
End Accept.

(** A concrete text for Option, to run the handshake. *)
#[export] Instance Option_countable : Countable Option.
Proof.
  apply (inj_countable' (fun o => (oMagicNumber o, oCodecType o, oConnectTimeout o, oHandleTimeout o))
    (fun x => mkOption x.1.1.1 x.1.1.2 x.1.2 x.2)).
  by intros [].
Defined.

Definition option_line (o : Option) : string := bits_of (encode o) +:+ String (byte 10) "".
Definition option_of_line (s : string) : outcome Option :=
  match decode (of_bits (string_take (String.length s - 1) s)) with
  | Some o => Ok o
  | None => Err "invalid character"
  end.

Lemma bits_of_no_newline p : no_byte (byte 10) (bits_of p) = true.
Proof. induction p as [p IH | p IH |]; [exact IH | exact IH | done]. Qed.

Lemma option_line_spec o : exists t, option_line o = t +:+ String (byte 10) "" /\ no_byte (byte 10) t = true.
Proof. exists (bits_of (encode o)). split; [done | apply bits_of_no_newline]. Qed.

Lemma option_line_law o : option_of_line (option_line o) = Ok o.
Proof.
  unfold option_of_line, option_line.
  rewrite string_length_app. simpl String.length. rewrite Nat.add_sub.
  by rewrite string_take_app, of_bits_of, decode_encode.
Qed.

Lemma handshake_agrees_witness :
  always timeout_env (Dial.NewClient 3 DefaultOption) (fun r tr =>
    forall c k, r = Ok c -> @ev Dial.dialing (Dial.StartClient 3 k) tt ∈ tr ->
      @ev Dial.dialing (Dial.EncodeOption 3 DefaultOption) (Ok tt) ∈ tr /\
      Accept.ServeConn option_of_line (option_line DefaultOption +:+ "first message") =
        Accept.Served k (oHandleTimeout DefaultOption) "first message").
Proof.
  apply (Accept.handshake_agrees option_line option_of_line option_line_spec option_line_law
    timeout_env [] DefaultOption 3 "first message").
  reflexivity.
Defined.

(** ** HandleHTTP and debug.go: what a server mounts on the HTTP mux *)
Module Mount.
Section mount.
Context {Req Resp : Type}.
Inductive endpoint := RpcEndpoint | DebugEndpoint.
Definition defaultDebugPath : string := "/debug/geerpc".
Definition HandleHTTP : list (string * endpoint) :=
  [(Dial.defaultRPCPath, RpcEndpoint); (defaultDebugPath, DebugEndpoint)].

(** html/template escapes what it inserts. *)
Variable Escape : string -> string.
(** A line break of the template, followed by tabs. *)
Fixpoint tabs (n : nat) : string := match n with O => "" | S n => String (byte 9) (tabs n) end.
Definition nl (n : nat) : string := String (byte 10) (tabs n).
Definition item (m : string) : string := nl 3 +:+ "<li>" +:+ Escape m +:+ "</li>" +:+ nl 2.
Definition debugText (methods : list string) : string :=
  "<html>" +:+ nl 1 +:+ "<body>" +:+ nl 1 +:+ "<title>GrowRPC Services</title>" +:+ nl 1 +:+ "<hr>" +:+ nl 1 +:+
  "Service Methods" +:+ nl 1 +:+ "<hr>" +:+ nl 2 +:+ "<ul>" +:+ nl 2 +:+
  foldr (fun m s => item m +:+ s) "" methods +:+
  nl 2 +:+ "</ul>" +:+ nl 1 +:+ "</body>" +:+ nl 1 +:+ "</html>".

(** The methods in the order in which sync.Map ranges over them: no order. *)
Definition methods (s : Handler.Server (Req := Req) (Resp := Resp)) : list string := (map_to_list (Handler.serviceMap s)).*1.
Definition debugHTTP (s : Handler.Server) : string := debugText (methods s).

(** The page names each method once, and exactly those a request finds; the path on
    which a client that dials over HTTP connects is the one that is served. *)
Lemma debug_names_what_is_found (s : Handler.Server) m :
  NoDup (methods s) /\ (m ∈ methods s <-> is_Some (Handler.serviceMap s !! m)) /\
  (m ∈ methods s <-> exists e, Handler.findEntry m s = Ok e) /\
  (Dial.defaultRPCPath, RpcEndpoint) ∈ HandleHTTP.
Proof.
  assert (m ∈ methods s <-> is_Some (Handler.serviceMap s !! m)) as H.
  { unfold methods. rewrite list_elem_of_fmap. split.
    - intros ([k e] & -> & He%elem_of_map_to_list). by exists e.
    - intros [e He]. exists (m, e). split; [done | by apply elem_of_map_to_list]. }
  split_and!; [apply NoDup_fst_map_to_list | exact H | | set_solver].
  rewrite H. unfold Handler.findEntry. destruct (Handler.serviceMap s !! m) as [e |]; [| by split; intros []].
  split; [by exists e | done].
Qed.
End mount.
End Mount.
