(* ===== verification/Rpc.v ===== *)
(** * A connection as a whole: a call is a run of its handler

    The client of RpcClient and the server of RpcServer at the two ends of a connection:
    callers, sender and receiver on one side, the reading loop and the goroutines of its
    requests on the other, all interleaved. Messages travel whole - what the codecs make
    of them is in Codec - and may be lost from some point on; reading may fail at any
    time. What handlers do is a relation, so that they may depend on anything. *)
From S2P Require Import Prelude GoStd GoText Effects Codec RpcClient RpcServer.
#[local] Open Scope prog_scope.

Module EndToEnd.
Import Serve.
Section rpc.
Context {Req Resp : Type}.
Variable srv : Handler.Server (Req := Req) (Resp := Resp).
Variable timeout : Z.
(** What a written request is read as, for a method, and what a written body is read as
    by the caller of a method. *)
Variable DecodeReq : string -> Req -> outcome Req.
Variable DecodeReply : string -> Handle.RBody (Resp := Resp) -> outcome (option Resp).
(** What the interceptors and the handler may return for a request. *)
Variable ran : Header -> Req -> outcome (option Resp) -> Prop.

Notation serving := (serving (Req := Req)).
Notation Calls := (Client.Client (B := Resp)).
Notation Handling := (Handle.State (Resp := Resp)).
Notation RBody := (Handle.RBody (Resp := Resp)).

(** ** The state of a connection *)

(** The client and the arguments of its calls; requests written and not read, and the
    body of the one whose header was read; the loop, with what it did and what is left;
    the requests that were handed to a goroutine; responses written and not read, and
    the body of the one whose header was read. *)
Record State := mkState {
  client : Calls;
  args : gmap Client.addr Req;
  up : list (Header * Req);
  body : option Req;
  past : list (event serving);
  server : prog serving bool;
  handlers : list (Header * Req * Handling);
  down : list (Header * RBody);
  hand : option RBody;
}.
(** serveCodec, run for any number of requests. *)
Definition init (n : nat) : State :=
  mkState Client.newClientCodec ∅ [] None [] (serveCodec n timeout srv) [] [] None.

Definition set_client c s := mkState c (args s) (up s) (body s) (past s) (server s) (handlers s) (down s) (hand s).
Definition set_args f s := mkState (client s) (f (args s)) (up s) (body s) (past s) (server s) (handlers s) (down s) (hand s).
Definition set_up u b s := mkState (client s) (args s) u b (past s) (server s) (handlers s) (down s) (hand s).
Definition set_server p k s := mkState (client s) (args s) (up s) (body s) p k (handlers s) (down s) (hand s).
Definition set_handlers l s := mkState (client s) (args s) (up s) (body s) (past s) (server s) l (down s) (hand s).
Definition set_down d h s := mkState (client s) (args s) (up s) (body s) (past s) (server s) (handlers s) d h.

(** A write puts the message on the wire or loses it. *)
Definition wrote {A} (msgs wire wire' : list A) : Prop := wire' = wire ++ msgs \/ wire' = wire.

(** What a command of the loop is answered, and what it leaves. The wait group lets the
    loop go on when every call of handleRequest has returned; its counter is in
    RpcServer.Conn. A loop that read a
    header instead of a body, or a body instead of a header, would read anything. *)
Inductive serves (s : State) : forall c : serve_cmd (Req := Req), serve_res c -> State -> Prop :=
| serves_header h q rest :
    body s = None -> up s = (h, q) :: rest -> serves s ReadHeader (Ok h) (set_up rest (Some q) s)
| serves_header_error e : serves s ReadHeader (Err e) s
| serves_body m q req :
    body s = Some q -> DecodeReq m q = Ok req -> serves s (ReadBody (Some m)) (Ok req) (set_up (up s) None s)
| serves_skipped q r : body s = Some q -> serves s (ReadBody None) r (set_up (up s) None s)
| serves_body_error into e : e <> "" -> serves s (ReadBody into) (Err e) (set_up (up s) None s)
| serves_garbage h : body s <> None -> serves s ReadHeader (Ok h) s
| serves_garbage_body into r : body s = None -> serves s (ReadBody into) r s
| serves_send h d :
    wrote [(h, Handle.InvalidRequest)] (down s) d -> serves s (SendResponse h) tt (set_down d (hand s) s)
| serves_add : serves s WgAdd tt s
| serves_spawn h req t :
    serves s (SpawnHandler h req t) tt (set_handlers (handlers s ++ [(h, req, Handle.start h)]) s)
| serves_wait :
    Forall (fun x => Handle.main x.2 = Handle.MainDone) (handlers s) -> serves s WaitGroup tt s
| serves_close : serves s CloseCodec tt s.

(** The steps of the client that touch neither connection nor arguments. *)
Inductive quiet : Calls -> Calls -> Prop :=
| quiet_begin c a x :
    Client.callers c !! a = Some Client.Sending -> Client.sending c = None -> Client.heap c !! a = Some x ->
    Client.seq c < 2 ^ 64 - 1 -> quiet c (Client.send_begin a c)
| quiet_header_error c e : Client.receiver c = Client.Reading -> quiet c (Client.set_receiver (Client.Broken e) c)
| quiet_terminate c e :
    Client.receiver c = Client.Broken e -> Client.sending c = None ->
    quiet c (Client.set_receiver Client.Ended (Client.terminateCalls e c))
| quiet_done c a x :
    Client.callers c !! a = Some Client.Waiting -> Client.heap c !! a = Some x -> (0 < Client.Done x)%nat ->
    quiet c (Client.set_caller a (Client.Returned (Client.call_result x)) c)
| quiet_ctx_done c a x e :
    Client.callers c !! a = Some Client.Waiting -> Client.heap c !! a = Some x ->
    quiet c (Client.set_caller a (Client.Returned (Err ("rpc client: call failed: " +:+ e)))
              (Client.removeCall (Client.Seq x) c).2)
| quiet_close c r : quiet c (Client.Close r c).2.

(** What the receiver gets of a body: it skips those nobody waits for and those that
    come with an error, and reads the others into the reply of the call. *)
Definition reads (c : Calls) (call : option Client.addr) (h : Header) (b : RBody) (r : outcome (option Resp)) : Prop :=
  match r with
  | Ok v =>
      match call with
      | Some a =>
          if String.eqb (Error h) "" then
            exists x, Client.heap c !! a = Some x /\ DecodeReply (Client.ServiceMethod x) b = Ok v
          else v = None
      | None => v = None
      end
  | _ => True
  end.

(** A goroutine of a request moves; its handler returns what it may return. *)
Definition handles (h : Header) (req : Req) (st st' : Handling) : Prop := Handle.step timeout (ran h req) st st'.

Inductive step : State -> State -> Prop :=
| step_call s a m d q :
    Client.heap (client s) !! a = None ->
    step s (set_args <[a := q]> (set_client (Client.set_caller a Client.Sending
      (Client.set_heap (<[a := Client.NewCall m (Client.call_metadata d)]>) (client s))) s))
| step_write s a x q w u :
    Client.sending (client s) = Some a -> Client.heap (client s) !! a = Some x -> args s !! a = Some q ->
    wrote [(Client.request_header x (Client.Seq x), q)] (up s) u ->
    step s (set_up u (body s) (set_client (Client.send_end a (Client.Seq x) w (client s)) s))
| step_quiet s c : quiet (client s) c -> step s (set_client c s)
| step_header s h b rest :
    Client.receiver (client s) = Client.Reading -> down s = (h, b) :: rest ->
    step s (set_down rest (Some b) (set_client (Client.on_header h (client s)) s))
| step_body s call h b r :
    Client.receiver (client s) = Client.GotHeader call h -> hand s = Some b -> reads (client s) call h b r ->
    step s (set_down (down s) None (set_client (Client.on_body call h r (client s)) s))
| step_serve s c k r s' :
    server s = Do c k -> serves s c r s' -> step s (set_server (past s ++ [ev c r]) (k r) s')
| step_handler s i h req st st' d :
    handlers s !! i = Some (h, req, st) -> handles h req st st' ->
    wrote (drop (length (Handle.wire st)) (Handle.wire st')) (down s) d ->
    step s (set_down d (hand s) (set_handlers (<[i := (h, req, st')]> (handlers s)) s)).

(** ** How the calls of a client change *)

Definition keeps (x x' : Client.Call (B := Resp)) : Prop :=
  Client.ServiceMethod x' = Client.ServiceMethod x /\ Client.Metadata x' = Client.Metadata x /\
  (0 < Client.Seq x -> Client.Seq x' = Client.Seq x) /\
  (Client.Error x' = None ->
    Client.Error x = None /\ Client.Done x' = Client.Done x /\ Client.Reply x' = Client.Reply x).
Definition evolves (h h' : gmap Client.addr (Client.Call (B := Resp))) : Prop :=
  forall a, option_Forall2 keeps (h !! a) (h' !! a).

#[local] Instance keeps_refl : Reflexive keeps.
Proof. by intros x. Qed.
#[local] Instance keeps_trans : Transitive keeps.
Proof.
  intros x y z (A1 & A2 & A3 & A4) (B1 & B2 & B3 & B4). unfold keeps. rewrite B1, B2. split_and!; [done | done | |].
  - intros H. rewrite B3; rewrite A3 by done; done.
  - intros H. destruct (B4 H) as (HB & -> & ->). by apply A4.
Qed.
Lemma evolves_refl h : evolves h h.
Proof. intros a. destruct (h !! a); by constructor. Qed.
Lemma evolves_alter f a h h' :
  evolves h h' -> (forall x, h' !! a = Some x -> keeps x (f x)) -> evolves h (alter f a h').
Proof.
  intros He Hf b. specialize (He b). destruct (decide (a = b)) as [<- | Hne]; [| by rewrite lookup_alter_ne].
  rewrite lookup_alter_eq. destruct (h' !! a) as [y |]; [| exact He]. cbn. inversion He as [x ? Hx |]; subst. constructor.
  etrans; [exact Hx | by apply Hf].
Qed.
Lemma finish_keeps e (x : Client.Call (B := Resp)) : keeps x (Client.finish e x).
Proof. by split_and!. Qed.
Lemma evolves_Some h h' a x : evolves h h' -> h !! a = Some x -> exists x', h' !! a = Some x' /\ keeps x x'.
Proof. intros He Hx. specialize (He a). rewrite Hx in He. inversion He; eauto. Qed.
Lemma evolves_back h h' a x' : evolves h h' -> h' !! a = Some x' -> exists x, h !! a = Some x /\ keeps x x'.
Proof. intros He Hx. specialize (He a). rewrite Hx in He. inversion He; eauto. Qed.

Lemma quiet_spec c c' :
  Client.Inv c -> quiet c c' ->
  Client.step c c' /\ evolves (Client.heap c) (Client.heap c') /\ Client.seq c <= Client.seq c' /\
  (forall o h, Client.receiver c' = Client.GotHeader o h -> Client.receiver c = Client.GotHeader o h) /\
  (forall a x', Client.sending c' = Some a -> Client.heap c' !! a = Some x' ->
     Client.sending c = Some a \/ Client.Seq x' = Client.seq c).
Proof.
  intros HI Hq. destruct Hq as [c a x Hk Hs Hx Hlt | c e Hr | c e Hr Hs | c a x Hk Hx Hd | c a x e Hk Hx | c r].
  - split; [by eapply Client.step_send_begin |]. destruct (Client.fresh_cell c a x HI Hx Hk Hs) as ((_ & _ & _ & H0) & _).
    unfold Client.send_begin, Client.registerCall. destruct (Client.closing c || Client.shutdown c); cbn.
    + split_and!; [apply evolves_alter; [apply evolves_refl | intros; apply finish_keeps] | lia | done | by left].
    + rewrite uint64_id by (pose proof (Client.Inv_seq c HI); unfold is_uint64; lia).
      split_and!; [| lia | done |].
      * apply evolves_alter; [apply evolves_refl |]. intros y Hy. simplify_eq. by split_and!; cbn; [.. | lia |].
      * intros b y [= <-]. rewrite lookup_alter_eq, Hx. intros [= <-]. by right.
  - split; [by apply Client.step_header_error |]. cbn. split_and!; [apply evolves_refl | lia | done | by left].
  - split; [by apply Client.step_terminate |]. cbn. split_and!; [| lia | done | by left].
    apply (map_fold_weak_ind (fun r _ => evolves (Client.heap c) r)); [apply evolves_refl |].
    intros s b m r _ H. apply evolves_alter; [exact H | intros; apply finish_keeps].
  - split; [by eapply Client.step_done |]. cbn. split_and!; [apply evolves_refl | lia | done | by left].
  - split; [by apply Client.step_ctx_done |]. cbn. split_and!; [apply evolves_refl | lia | done | by left].
  - split; [by apply Client.step_close |]. unfold Client.Close. destruct (Client.closing c); cbn;
      (split_and!; [apply evolves_refl | lia | done | by left]).
Qed.

Lemma send_end_spec c a x w :
  Client.Inv c -> Client.sending c = Some a -> Client.heap c !! a = Some x ->
  let c' := Client.send_end a (Client.Seq x) w c in
  evolves (Client.heap c) (Client.heap c') /\ Client.seq c' = Client.seq c /\ Client.sending c' = None /\
  Client.receiver c' = Client.receiver c.
Proof.
  intros HI Hs Hx. unfold Client.send_end, Client.removeCall.
  destruct w as [u | e | e]; cbn; [split_and!; done || apply evolves_refl | | split_and!; done || apply evolves_refl].
  destruct (Client.pending c !! Client.Seq x); cbn; (split_and!; [| done ..]);
    [apply evolves_alter; [apply evolves_refl | intros; apply finish_keeps] | apply evolves_refl].
Qed.

(** A body ends the call it is for, with what was read or with an error. *)
Lemma on_body_spec c o h b :
  let c' := Client.on_body o h b c in
  Client.seq c' = Client.seq c /\ Client.sending c' = Client.sending c /\
  (forall o' h', Client.receiver c' <> Client.GotHeader o' h') /\
  (evolves (Client.heap c) (Client.heap c') \/
   exists a r, o = Some a /\ Error h = "" /\ b = Ok r /\
     Client.heap c' = alter (fun x => Client.done_ (Client.set_Reply r x)) a (Client.heap c)).
Proof.
  unfold Client.on_body. destruct o as [a |]; [| cbn; split_and!; [done | done | by destruct b | left; apply evolves_refl]].
  destruct (String.eqb_spec (Error h) "") as [He | He]; cbn.
  - destruct b as [r | e | e]; cbn; (split_and!; [done | done | done |]); [right; by exists a, r | left ..];
      (apply evolves_alter; [apply evolves_refl | intros; apply finish_keeps]).
  - split_and!; [done | done | by destruct b | left].
    apply evolves_alter; [apply evolves_refl | intros; apply finish_keeps].
Qed.

Definition reachable (s : State) : Prop := exists n, rtc step (init n) s.

(** ** Where the loop stands *)

Inductive place := AtHead | AtBody (h : Header) | Decided (h : Header) (r : outcome Req) | Over.
Definition place_step (p : place) (e : event serving) : place :=
  match p, e with
  | AtHead, existT ReadHeader (Ok h) => AtBody h
  | AtBody h, existT (ReadBody (Some _)) r => Decided h r
  | AtBody h, existT (ReadBody None) _ => Decided h (Err "unknown method")
  | Decided h r, existT WgAdd _ => Decided h r
  | Decided _ _, existT (SpawnHandler _ _ _) _ => AtHead
  | Decided _ _, existT (SendResponse _) _ => AtHead
  | _, _ => Over
  end.
Definition place_of (tr : list (event serving)) : place := foldl place_step AtHead tr.
Lemma place_snoc tr e : place_of (tr ++ [e]) = place_step (place_of tr) e.
Proof. unfold place_of. by rewrite foldl_app. Qed.

Definition text {A} (r : outcome A) (e : string) : Prop := match r with Err e' | Panic e' => e = e' | Ok _ => False end.

(** The loop reads in turn, hands over what it read, and refuses what it could not read. *)
Definition in_turn (tr : list (event serving)) (e : event serving) : Prop :=
  match e with
  | existT ReadHeader _ => place_of tr = AtHead
  | existT (ReadBody into) _ => exists h, place_of tr = AtBody h /\ (into = Some (ServiceMethod h) \/ into = None)
  | existT WgAdd _ => exists h req, place_of tr = Decided h (Ok req)
  | existT (SpawnHandler h req t) _ => place_of tr = Decided h (Ok req) /\ t = timeout
  | existT (SendResponse h') _ => exists h r e, place_of tr = Decided h r /\ h' = Handle.set_error e h /\
      (e <> "" \/ text r e)
  | _ => place_of tr = Over
  end.

Lemma loop_sat n tr :
  place_of tr = AtHead -> sat in_turn tr (serve_loop n timeout srv) (fun tr' over => over = true -> place_of tr' = Over).
Proof.
  revert tr. induction n as [| n IH]; intros tr Htr; cbn [serve_loop]; [done |].
  unfold readRequest, read_header, read_body, send_response, wg_add, spawn_handler, call. cbn [bind].
  intros r. split; [done |]. destruct r as [h | e | e]; cbn [bind]; [| by (intros _; rewrite place_snoc, Htr) ..].
  set (tr1 := tr ++ _). assert (place_of tr1 = AtBody h) as H1 by (unfold tr1; by rewrite place_snoc, Htr).
  unfold Handler.findEntry. destruct (Handler.serviceMap srv !! ServiceMethod h) as [entry |]; cbn [bind]; intros r.
  - split; [exists h; auto |]. set (tr2 := tr1 ++ _).
    assert (place_of tr2 = Decided h r) as H2 by (unfold tr2; by rewrite place_snoc, H1).
    destruct r as [req | e | e]; cbn [bind]; intros u.
    2, 3: split; [exists h; eexists; exists e; split; [done |]; split; [done | by right] |];
      apply IH; by rewrite place_snoc, H2.
    split; [by exists h, req |]. intros u'. assert (place_of (tr2 ++ [@ev serving WgAdd u]) = Decided h (Ok req)) as H3
      by (by rewrite place_snoc, H2).
    split; [done |]. apply IH. by rewrite place_snoc, H3.
  - split; [exists h; auto |]. set (tr2 := tr1 ++ _).
    assert (place_of tr2 = Decided h (Err "unknown method")) as H2 by (unfold tr2; by rewrite place_snoc, H1).
    intros u. split; [| apply IH; by rewrite place_snoc, H2].
    exists h. do 2 eexists. split; [done |]. split; [done | by left].
Qed.

Lemma serve_sat n : sat in_turn [] (serveCodec n timeout srv) (fun _ _ => True).
Proof.
  unfold serveCodec. eapply sat_bind; [by apply loop_sat |]. cbn beta. intros tr [] Hover; [| done].
  unfold wait_group, close_codec, call. cbn [bind]. specialize (Hover eq_refl).
  intros r. split; [done |]. intros r'. split; [| done]. cbn. by rewrite place_snoc, Hover.
Qed.

(** ** What every run keeps *)

(** A request is that of a call, with its arguments. *)
Definition called (s : State) (h : Header) (q : Req) : Prop :=
  exists a x, Client.heap (client s) !! a = Some x /\ args s !! a = Some q /\ 0 < Client.Seq x /\
    h = Client.request_header x (Client.Seq x).
Definition handled (s : State) (h : Header) (req : Req) : Prop := exists st, (h, req, st) ∈ handlers s.

(** The body that is written without an error for what a handler returned: for an error
    without text it is that of an error. *)
Definition answer (r : outcome (option Resp)) (b : RBody) : Prop :=
  (exists v, r = Ok v /\ b = Handle.RespBody v) \/ (r = Err "" /\ b = Handle.InvalidRequest).
Definition replied (s : State) (h' : Header) (b : RBody) : Prop :=
  exists h q, called s h q /\ Seq h' = Seq h /\
    (Error h' = "" -> exists req r, handled s h req /\ DecodeReq (ServiceMethod h) q = Ok req /\ ran h req r /\ answer r b).
Definition settled (s : State) (x : Client.Call) (q : Req) : Prop :=
  exists req r b, handled s (Client.request_header x (Client.Seq x)) req /\
    DecodeReq (Client.ServiceMethod x) q = Ok req /\ ran (Client.request_header x (Client.Seq x)) req r /\
    answer r b /\ DecodeReply (Client.ServiceMethod x) b = Ok (Client.Reply x).

Definition handling_ok (h : Header) (req : Req) (st : Handling) : Prop :=
  Seq (Handle.hdr st) = Seq h /\
  match Handle.worker st with
  | Handle.Returned r | Handle.Writing r => ran h req r /\ forall p, r <> Panic p
  | Handle.Answering r => Handle.body_of r = Handle.InvalidRequest /\ (Error (Handle.hdr st) <> "" \/ ran h req (Err ""))
  | _ => True
  end /\
  (Handle.main st = Handle.TimedOut -> Error (Handle.hdr st) <> "" \/ ran h req (Err "")).

Definition at_place (s : State) (p : place) : Prop :=
  match p with
  | AtHead => body s = None
  | AtBody h => exists q, body s = Some q /\ called s h q
  | Decided h r => body s = None /\ exists q, called s h q /\
      match r with Ok req => DecodeReq (ServiceMethod h) q = Ok req | Err e => e <> "" | Panic _ => False end
  | Over => True
  end.

(** The requests that were written: unread, being read, handed over. *)
Definition in_loop (p : place) : list Header := match p with AtBody h | Decided h _ => [h] | _ => [] end.
Definition requests (s : State) : list Header :=
  (up s).*1 ++ in_loop (place_of (past s)) ++ ((fun x => x.1.1) <$> handlers s).

Record Inv (s : State) : Prop := {
  Inv_client : Client.Inv (client s);
  Inv_args : forall a, is_Some (Client.heap (client s) !! a) -> is_Some (args s !! a);
  Inv_up : forall h q, (h, q) ∈ up s -> called s h q;
  Inv_place : at_place s (place_of (past s));
  Inv_sat : sat in_turn (past s) (server s) (fun _ _ => True);
  Inv_handlers : forall h req st, (h, req, st) ∈ handlers s ->
    handling_ok h req st /\ exists q, called s h q /\ DecodeReq (ServiceMethod h) q = Ok req;
  Inv_down : forall h b, (h, b) ∈ down s -> replied s h b;
  Inv_hand : forall o h, Client.receiver (client s) = Client.GotHeader o h -> exists b, hand s = Some b /\ replied s h b;
  Inv_settled : forall a x q, Client.heap (client s) !! a = Some x -> args s !! a = Some q ->
    Client.Done x = 1%nat -> Client.Error x = None -> settled s x q;
  Inv_once : NoDup (Seq <$> requests s);
  Inv_next : forall a x, Client.sending (client s) = Some a -> Client.heap (client s) !! a = Some x ->
    0 < Client.Seq x /\ Client.Seq x ∉ (Seq <$> requests s);
}.

Lemma rpc_init_Inv n : Inv (init n).
Proof.
  split; cbn; try done.
  - apply Client.client_New_Inv.
  - intros a [x Hx]. by rewrite lookup_empty in Hx.
  - intros h q H. by apply not_elem_of_nil in H.
  - apply serve_sat.
  - intros h req st H. by apply not_elem_of_nil in H.
  - intros h b H. by apply not_elem_of_nil in H.
  - apply NoDup_nil_2.
Qed.

Lemma replied_mono s s' h b :
  (forall h q, called s h q -> called s' h q) -> (forall h req, handled s h req -> handled s' h req) ->
  replied s h b -> replied s' h b.
Proof.
  intros Hc Hh (h0 & q & H1 & H2 & H3). exists h0, q. split_and!; [by apply Hc | done |].
  intros He. destruct (H3 He) as (req & r & ? & ? & ? & ?). exists req, r. auto.
Qed.
Lemma settled_mono s s' x q : (forall h req, handled s h req -> handled s' h req) -> settled s x q -> settled s' x q.
Proof. intros Hh (req & r & b & ? & ?). exists req, r, b. auto. Qed.

Lemma called_unique s h h' q q' :
  Inv s -> called s h q -> called s h' q' -> Seq h = Seq h' -> h = h' /\ q = q'.
Proof.
  intros HI (a & x & Hx & Hq & Hs & ->) (a' & x' & Hx' & Hq' & Hs' & ->) E. cbn in E.
  assert (a = a') as <- by by apply (Client.Inv_unique _ (Inv_client s HI) a a' x x'). by simplify_eq.
Qed.

Lemma called_before s h q : Inv s -> called s h q -> 0 < Seq h < Client.seq (client s).
Proof. intros HI (a & x & Hx & _ & Hs & ->). destruct (Client.Inv_cell _ (Inv_client s HI) a x Hx) as [? _]. cbn. lia. Qed.

Lemma requests_called s h : Inv s -> h ∈ requests s -> exists q, called s h q.
Proof.
  intros HI [H | [H | H]%elem_of_app]%elem_of_app.
  - apply list_elem_of_fmap in H as ([h' q] & -> & H). exists q. by apply (Inv_up s HI).
  - pose proof (Inv_place s HI) as Hp. unfold in_loop in H.
    destruct (place_of (past s)); cbn in Hp; try (by apply not_elem_of_nil in H); apply list_elem_of_singleton in H as ->;
      naive_solver.
  - apply list_elem_of_fmap in H as ([[h' req] st] & -> & H). destruct (Inv_handlers s HI _ _ _ H) as (_ & q & ? & _). by exists q.
Qed.

(** ** Steps of the client *)

Definition persists (h h' : gmap Client.addr (Client.Call (B := Resp))) : Prop :=
  forall a x, h !! a = Some x -> exists x', h' !! a = Some x' /\
    Client.ServiceMethod x' = Client.ServiceMethod x /\ Client.Metadata x' = Client.Metadata x /\
    (0 < Client.Seq x -> Client.Seq x' = Client.Seq x).
Lemma evolves_persists h h' : evolves h h' -> persists h h'.
Proof. intros He a x Hx. destruct (evolves_Some _ _ _ _ He Hx) as (x' & Hx' & ? & ? & ? & _). by exists x'. Qed.

Lemma called_persists s s' h q :
  persists (Client.heap (client s)) (Client.heap (client s')) -> args s' = args s -> called s h q -> called s' h q.
Proof.
  intros Hp Ha (a & x & Hx & Hq & Hs & ->). destruct (Hp a x Hx) as (x' & Hx' & E1 & E2 & E3). specialize (E3 Hs).
  exists a, x'. rewrite Ha, E3. split_and!; [done | done | done |]. unfold Client.request_header. by rewrite E1, E2.
Qed.

Lemma at_place_mono s s' p :
  body s' = body s -> (forall h q, called s h q -> called s' h q) -> at_place s p -> at_place s' p.
Proof.
  intros Hb Hc. unfold at_place. rewrite Hb. destruct p as [| h | h r |]; [done | | | done].
  - intros (q & ? & ?). exists q. auto.
  - intros (? & q & ? & ?). split; [done |]. exists q. auto.
Qed.

Lemma client_frame s c dn hd :
  Inv s -> Client.Inv c -> persists (Client.heap (client s)) (Client.heap c) ->
  (forall a, is_Some (Client.heap c !! a) -> is_Some (Client.heap (client s) !! a)) ->
  (forall a x q, Client.heap c !! a = Some x -> args s !! a = Some q ->
     Client.Done x = 1%nat -> Client.Error x = None -> settled s x q) ->
  (forall a x, Client.sending c = Some a -> Client.heap c !! a = Some x ->
     Client.sending (client s) = Some a \/ Client.seq (client s) <= Client.Seq x) ->
  (forall h b, (h, b) ∈ dn -> replied s h b) ->
  (forall o h, Client.receiver c = Client.GotHeader o h -> exists b, hd = Some b /\ replied s h b) ->
  Inv (set_down dn hd (set_client c s)).
Proof.
  intros HI Hc Hp Hback Hset Hsend Hdn Hhd.
  assert (forall h q, called s h q -> called (set_down dn hd (set_client c s)) h q) as Hcalled
    by (intros; by apply (called_persists s)).
  assert (forall h b, replied s h b -> replied (set_down dn hd (set_client c s)) h b) as Hrep
    by (intros h b; by apply replied_mono).
  split; cbn.
  - exact Hc.
  - intros a Ha. by apply (Inv_args s HI), Hback.
  - intros h q H. by apply Hcalled, (Inv_up s HI).
  - apply (at_place_mono s); [done | exact Hcalled | apply (Inv_place s HI)].
  - apply (Inv_sat s HI).
  - intros h req st H. destruct (Inv_handlers s HI _ _ _ H) as (? & q & ? & ?). split; [done | exists q; auto].
  - intros h b H. by apply Hrep, Hdn.
  - intros o h H. destruct (Hhd o h H) as (b & ? & ?). exists b. auto.
  - intros a x q Hx Hq Hd He. by apply (settled_mono s), (Hset a).
  - apply (Inv_once s HI).
  - intros a x Hs Hx. destruct (Hsend a x Hs Hx) as [H | H].
    + destruct (Hback a) as [y Hy]; [by exists x |]. destruct (Inv_next s HI a y H Hy) as [H0 Hn].
      destruct (Hp a y Hy) as (x' & Hx' & _ & _ & E). rewrite Hx in Hx'. injection Hx' as <-.
      rewrite (E H0). by split.
    + pose proof (Client.Inv_seq _ (Inv_client s HI)). split; [lia |]. intros (h & Eh & Hh)%list_elem_of_fmap.
      destruct (requests_called s h HI Hh) as [q Hq]. pose proof (called_before s h q HI Hq). lia.
Qed.

(** A call that was settled stays so, however its client goes on. *)
Lemma evolves_settled s h a x q :
  Inv s -> evolves (Client.heap (client s)) h -> h !! a = Some x -> args s !! a = Some q ->
  Client.Done x = 1%nat -> Client.Error x = None -> settled s x q.
Proof.
  intros HI He Hx Hq Hd Herr. destruct (evolves_back _ _ _ _ He Hx) as (y & Hy & E1 & E2 & E3 & E4).
  destruct (E4 Herr) as (Hy1 & Hy2 & Hy3). rewrite Hy2 in Hd. pose proof (Inv_settled s HI a y q Hy Hq Hd Hy1) as Hs.
  assert (Client.Seq x = Client.Seq y) as Eq.
  { apply E3. destruct Hs as (req & _ & _ & [st Hst] & _). destruct (Inv_handlers s HI _ _ _ Hst) as (_ & q' & Hc & _).
    by apply (called_before s _ _ HI) in Hc as [? _]. }
  revert Hs. unfold settled, Client.request_header. by rewrite E1, E2, Eq, Hy3.
Qed.

Lemma evolves_frame s c dn hd :
  Inv s -> Client.Inv c -> evolves (Client.heap (client s)) (Client.heap c) ->
  (forall a x, Client.sending c = Some a -> Client.heap c !! a = Some x ->
     Client.sending (client s) = Some a \/ Client.seq (client s) <= Client.Seq x) ->
  (forall h b, (h, b) ∈ dn -> replied s h b) ->
  (forall o h, Client.receiver c = Client.GotHeader o h -> exists b, hd = Some b /\ replied s h b) ->
  Inv (set_down dn hd (set_client c s)).
Proof.
  intros HI Hc He Hsend Hdn Hhd. apply client_frame; try done.
  - by apply evolves_persists.
  - intros a [x Hx]. destruct (evolves_back _ _ _ _ He Hx) as (y & Hy & _). by exists y.
  - intros a x q Hx Hq Hd Herr. by eapply evolves_settled.
Qed.

Lemma quiet_Inv s c : Inv s -> quiet (client s) c -> Inv (set_client c s).
Proof.
  intros HI Hq. destruct (quiet_spec _ _ (Inv_client s HI) Hq) as (Hst & He & _ & Hr & Hsd).
  change (Inv (set_down (down s) (hand s) (set_client c s))). apply evolves_frame; try done.
  - by eapply Client.client_step_Inv; [apply (Inv_client s HI) |].
  - intros a x Hs Hx. destruct (Hsd a x Hs Hx); [by left | right; lia].
  - apply (Inv_down s HI).
  - intros o h H%Hr. by eapply Inv_hand.
Qed.

Lemma up_frame s h q :
  Inv s -> called s h q -> Seq h ∉ (Seq <$> requests s) -> Client.sending (client s) = None ->
  Inv (set_up (up s ++ [(h, q)]) (body s) s).
Proof.
  intros HI Hc Hn Hs.
  assert (requests (set_up (up s ++ [(h, q)]) (body s) s) ≡ₚ h :: requests s) as Hp.
  { unfold requests. cbn. rewrite fmap_app, <- !app_assoc. cbn. by rewrite <- Permutation_middle. }
  split; cbn; try apply HI; try (rewrite Hs; done).
  - intros h' q' [H | [= -> ->]%list_elem_of_singleton]%elem_of_app; [by apply (Inv_up s HI) | exact Hc].
  - rewrite Hp. cbn. apply NoDup_cons. split; [exact Hn | apply (Inv_once s HI)].
Qed.

Lemma write_Inv s a x q w u :
  Inv s -> Client.sending (client s) = Some a -> Client.heap (client s) !! a = Some x -> args s !! a = Some q ->
  wrote [(Client.request_header x (Client.Seq x), q)] (up s) u ->
  Inv (set_up u (body s) (set_client (Client.send_end a (Client.Seq x) w (client s)) s)).
Proof.
  intros HI Hs Hx Hq Hw. destruct (send_end_spec (client s) a x w (Inv_client s HI) Hs Hx) as (He & _ & Hsn & Hr).
  set (c := Client.send_end a (Client.Seq x) w (client s)) in *. destruct (Inv_next s HI a x Hs Hx) as [H0 Hn].
  assert (Inv (set_client c s)) as HI'.
  { change (Inv (set_down (down s) (hand s) (set_client c s))). apply evolves_frame; try done.
    - by apply Client.send_end_Inv; [apply (Inv_client s HI) | ..].
    - apply (Inv_down s HI).
    - rewrite Hr. apply (Inv_hand s HI). }
  destruct Hw as [-> | ->]; [| exact HI'].
  change (Inv (set_up (up (set_client c s) ++ [(Client.request_header x (Client.Seq x), q)]) (body (set_client c s)) (set_client c s))).
  apply up_frame; [exact HI' | | exact Hn | exact Hsn].
  apply (called_persists s); [by apply evolves_persists | done |]. by exists a, x.
Qed.

Lemma call_Inv s a m d q :
  Inv s -> Client.heap (client s) !! a = None ->
  Inv (set_args <[a := q]> (set_client (Client.set_caller a Client.Sending
    (Client.set_heap (<[a := Client.NewCall m (Client.call_metadata d)]>) (client s))) s)).
Proof.
  intros HI Ha. set (s' := set_args _ _).
  assert (forall h q, called s h q -> called s' h q) as Hcalled.
  { intros h q' (b & x & Hx & Hq & Hs & ->). exists b, x. cbn. rewrite !lookup_insert_ne by congruence. done. }
  assert (forall h b, replied s h b -> replied s' h b) as Hrep by (intros h b; by apply replied_mono).
  split; cbn.
  - by apply Client.new_Inv; [apply (Inv_client s HI) |].
  - intros b. rewrite !lookup_insert_is_Some. pose proof (Inv_args s HI b). tauto.
  - intros h q' H. by apply Hcalled, (Inv_up s HI).
  - apply (at_place_mono s); [done | exact Hcalled | apply (Inv_place s HI)].
  - apply (Inv_sat s HI).
  - intros h req st H. destruct (Inv_handlers s HI _ _ _ H) as (? & q' & ? & ?). split; [done | exists q'; auto].
  - intros h b H. by apply Hrep, (Inv_down s HI).
  - intros o h H. destruct (Inv_hand s HI o h H) as (b & ? & ?). exists b. auto.
  - intros b x q' [[<- <-] | [Hne Hx]]%lookup_insert_Some; [done |]. rewrite lookup_insert_ne by done. intros Hq Hd He.
    by apply (settled_mono s), (Inv_settled s HI b).
  - apply (Inv_once s HI).
  - intros b x Hs [[<- <-] | [Hne Hx]]%lookup_insert_Some; [| by apply (Inv_next s HI b)].
    destruct (Client.Inv_sending _ (Inv_client s HI) a Hs) as [_ Hk].
    destruct (Client.Inv_callers _ (Inv_client s HI) a) as [? ?]; [by eexists | congruence].
Qed.

Lemma header_Inv s h b rest :
  Inv s -> Client.receiver (client s) = Client.Reading -> down s = (h, b) :: rest ->
  Inv (set_down rest (Some b) (set_client (Client.on_header h (client s)) s)).
Proof.
  intros HI Hr Hd. apply evolves_frame; [done | by apply Client.on_header_Inv; [apply (Inv_client s HI) |] | apply evolves_refl | by left | |].
  - intros h' b' H. apply (Inv_down s HI). rewrite Hd. by right.
  - intros o h' [= <- <-]. exists b. split; [done |]. apply (Inv_down s HI). rewrite Hd. by left.
Qed.

(** The body read for a call comes from the handler that ran its request. *)
Lemma hand_settles s a h b x q v :
  Inv s -> Client.receiver (client s) = Client.GotHeader (Some a) h -> hand s = Some b -> Error h = "" ->
  Client.heap (client s) !! a = Some x -> args s !! a = Some q ->
  DecodeReply (Client.ServiceMethod x) b = Ok v ->
  Client.Reply x = None /\ settled s (Client.done_ (Client.set_Reply v x)) q.
Proof.
  intros HI Hr Hb He Hx Hq Hv. destruct (Client.Inv_cell _ (Inv_client s HI) a x Hx) as (_ & Hd & k & p & _ & Hp & Hh).
  rewrite Hh in Hp by (by exists h). destruct Hp as (H0 & _ & Hpos & (h' & Eh & Es) & _).
  assert (h' = h) as -> by congruence. destruct (Hd H0) as [_ Hrep]. split; [done |].
  destruct (Inv_hand s HI _ _ Hr) as (b' & Hb' & h0 & q0 & Hc & Eq & Hans). simplify_eq.
  destruct (Hans He) as (req & r & Hh0 & Hdec & Hran & Ha).
  destruct (called_unique s h0 (Client.request_header x (Client.Seq x)) q0 q HI Hc) as [-> ->];
    [by exists a, x | cbn; congruence |].
  exists req, r, b. split_and!; [exact Hh0 | exact Hdec | exact Hran | exact Ha |].
  cbn. rewrite Hv. destruct v; [done | by rewrite Hrep].
Qed.

Lemma body_Inv s call h b r :
  Inv s -> Client.receiver (client s) = Client.GotHeader call h -> hand s = Some b -> reads (client s) call h b r ->
  Inv (set_down (down s) None (set_client (Client.on_body call h r (client s)) s)).
Proof.
  intros HI Hr Hb Hread. destruct (on_body_spec (client s) call h r) as (_ & Hs & Hrc & He).
  pose proof (Client.on_body_Inv _ call h r (Inv_client s HI) Hr) as Hc.
  set (c := Client.on_body call h r (client s)) in *.
  assert (forall o h', Client.receiver c = Client.GotHeader o h' -> exists b, @None RBody = Some b /\ replied s h' b) as Hhd
    by (intros o h' H; by apply Hrc in H).
  assert (forall a x, Client.sending c = Some a -> Client.heap c !! a = Some x ->
    Client.sending (client s) = Some a \/ Client.seq (client s) <= Client.Seq x) as Hsend by (rewrite Hs; by left).
  destruct He as [He | (a & v & -> & Herr & -> & Hh)]; [by apply evolves_frame; try done; apply (Inv_down s HI) |].
  cbn in Hread. rewrite (proj2 (String.eqb_eq (Error h) "") Herr) in Hread. destruct Hread as (x & Hx & Hv).
  apply client_frame; try done; rewrite ?Hh.
  - intros a' y Hy. destruct (decide (a = a')) as [<- | Hne]; [rewrite lookup_alter_eq, Hy | rewrite lookup_alter_ne by done];
      eexists; by split.
  - intros a'. by rewrite lookup_alter_is_Some.
  - intros a' y q [(<- & z & Hz & ->) | [Hne Hy]]%lookup_alter_Some Hq Hd Hne'; [| by apply (Inv_settled s HI a')].
    simplify_eq. by eapply hand_settles.
  - apply (Inv_down s HI).
Qed.

(** ** Steps of the server *)

Lemma server_frame s s' :
  Inv s -> client s' = client s -> args s' = args s -> hand s' = hand s ->
  (forall h req, handled s h req -> handled s' h req) ->
  requests s' ⊆+ requests s ->
  (forall x, x ∈ up s' -> x ∈ up s) ->
  at_place s' (place_of (past s')) ->
  sat in_turn (past s') (server s') (fun _ _ => True) ->
  (forall h req st, (h, req, st) ∈ handlers s' ->
    handling_ok h req st /\ exists q, called s h q /\ DecodeReq (ServiceMethod h) q = Ok req) ->
  (forall h b, (h, b) ∈ down s' -> replied s' h b) ->
  Inv s'.
Proof.
  intros HI Ec Ea Eh Hh Hreq Hup Hpl Hsat Hhs Hdn.
  assert (forall h q, called s h q -> called s' h q) as Hc by (intros h q; unfold called; by rewrite Ec, Ea).
  assert (forall h b, replied s h b -> replied s' h b) as Hrep by (intros h b; by apply replied_mono).
  split; rewrite ?Ec, ?Ea, ?Eh; try done.
  - apply (Inv_client s HI).
  - apply (Inv_args s HI).
  - intros h q H%Hup. by apply Hc, (Inv_up s HI).
  - intros h req st H. destruct (Hhs h req st H) as (? & q & ? & ?). split; [done | exists q; auto].
  - intros o h H. destruct (Inv_hand s HI o h H) as (b & ? & ?). exists b. auto.
  - intros a x q Hx Hq Hd He. by apply (settled_mono s), (Inv_settled s HI a).
  - destruct (submseteq_Permutation _ _ (fmap_submseteq Seq _ _ Hreq)) as [l Hl].
    pose proof (Inv_once s HI) as Hnd. rewrite Hl in Hnd. by apply NoDup_app in Hnd as (? & _).
  - intros a x Hs Hx. destruct (Inv_next s HI a x Hs Hx) as [H0 Hn]. split; [done |]. intros H. apply Hn.
    eapply elem_of_submseteq; [exact H | by apply fmap_submseteq].
Qed.

Lemma refused_replied s h q e : called s h q -> e <> "" -> replied s (Handle.set_error e h) Handle.InvalidRequest.
Proof. intros Hc He. exists h, q. by split_and!. Qed.

Lemma serve_Inv s c k r s' :
  Inv s -> server s = Do c k -> serves s c r s' -> Inv (set_server (past s ++ [ev c r]) (k r) s').
Proof.
  intros HI Hdo Hs. pose proof (Inv_sat s HI) as Hsat. rewrite Hdo in Hsat. destruct (Hsat r) as [Hturn Hrest]. clear Hsat Hdo.
  pose proof (Inv_place s HI) as Hpl.
  assert (forall h b, (h, b) ∈ down s -> replied s h b) as Hdn by apply (Inv_down s HI).
  destruct Hs as [h q rest Hb Hu | e | m q req Hb Hdec | q r Hb | into e He | h Hb | into r Hb | h d Hd | | h req t | Hw |];
    cbn in Hturn.
  - apply (server_frame s); cbn; try done; rewrite ?place_snoc, ?Hturn; cbn; try apply (Inv_handlers s HI).
    + unfold requests. cbn. rewrite ?place_snoc, ?Hturn, Hu. cbn. by rewrite Permutation_middle.
    + rewrite Hu. by right.
    + exists q. split; [done |]. apply (Inv_up s HI). rewrite Hu. by left.
  - apply (server_frame s); cbn; try done; rewrite ?place_snoc, ?Hturn; cbn; try apply (Inv_handlers s HI); [| done].
    unfold requests. cbn. by rewrite ?place_snoc, ?Hturn.
  - destruct Hturn as (h & Ht & [[= ->] | ?]); [| done]. rewrite Ht in Hpl. destruct Hpl as (q' & Hb' & Hc). simplify_eq.
    apply (server_frame s); cbn; try done; rewrite ?place_snoc, ?Ht; cbn; try apply (Inv_handlers s HI).
    + unfold requests. cbn. by rewrite ?place_snoc, ?Ht.
    + split; [done |]. by exists q.
  - destruct Hturn as (h & Ht & _). rewrite Ht in Hpl. destruct Hpl as (q' & Hb' & Hc). simplify_eq.
    apply (server_frame s); cbn; try done; rewrite ?place_snoc, ?Ht; cbn; try apply (Inv_handlers s HI).
    + unfold requests. cbn. by rewrite ?place_snoc, ?Ht.
    + split; [done |]. by exists q.
  - destruct Hturn as (h & Ht & _). rewrite Ht in Hpl. destruct Hpl as (q' & Hb' & Hc).
    apply (server_frame s); cbn; try done; rewrite ?place_snoc, ?Ht; cbn; try apply (Inv_handlers s HI).
    + unfold requests. cbn. rewrite ?place_snoc, ?Ht. by destruct into.
    + destruct into; (split; [done | by exists q']).
  - rewrite Hturn in Hpl. done.
  - destruct Hturn as (h & Ht & _). rewrite Ht in Hpl. destruct Hpl as (q' & Hb' & _). congruence.
  - destruct Hturn as (h0 & r & e & Ht & -> & He). rewrite Ht in Hpl. destruct Hpl as (Hb & q & Hc & Hr).
    assert (e <> "") as He' by (destruct He as [? | ?]; [done | destruct r; cbn in *; congruence]).
    apply (server_frame s); cbn; try done; rewrite ?place_snoc, ?Ht; cbn; try apply (Inv_handlers s HI); [| done |].
    + unfold requests. cbn. rewrite ?place_snoc, ?Ht. cbn. apply submseteq_app; [done | by apply submseteq_cons].
    + intros h b H. change (replied s h b). destruct Hd as [-> | ->]; [| by apply Hdn].
      apply elem_of_app in H as [H | [= -> ->]%list_elem_of_singleton]; [by apply Hdn | by eapply refused_replied].
  - destruct Hturn as (h & req & Ht). rewrite Ht in Hpl.
    apply (server_frame s); cbn; try done; rewrite ?place_snoc, ?Ht; cbn; try apply (Inv_handlers s HI); [| done].
    unfold requests. cbn. by rewrite ?place_snoc, ?Ht.
  - destruct Hturn as [Ht _]. rewrite Ht in Hpl. destruct Hpl as (Hb & q & Hc & Hdec).
    assert (forall h0 req0, handled s h0 req0 ->
      exists st, (h0, req0, st) ∈ handlers s ++ [(h, req, Handle.start h)]) as Hmono
      by (intros h0 req0 [st H]; exists st; apply elem_of_app; by left).
    apply (server_frame s); cbn; try done; rewrite ?place_snoc, ?Ht; cbn; try done.
    + unfold requests. cbn. rewrite ?place_snoc, ?Ht. cbn. rewrite fmap_app. cbn. by rewrite <- Permutation_cons_append.
    + intros h0 req0 st [H | [= -> -> ->]%list_elem_of_singleton]%elem_of_app; [by apply (Inv_handlers s HI) |].
      split; [by split_and! | by exists q].
    + intros h0 b H. by apply (replied_mono s), Hdn.
  - apply (server_frame s); cbn; try done; rewrite ?place_snoc, ?Hturn; cbn; try apply (Inv_handlers s HI); [| done].
    unfold requests. cbn. by rewrite ?place_snoc, ?Hturn.
  - apply (server_frame s); cbn; try done; rewrite ?place_snoc, ?Hturn; cbn; try apply (Inv_handlers s HI); [| done].
    unfold requests. cbn. by rewrite ?place_snoc, ?Hturn.
Qed.

(** What a goroutine writes is what its handler returned, or an error. *)
Lemma handles_ok h req st st' :
  handling_ok h req st -> handles h req st st' ->
  handling_ok h req st' /\
  forall h' b, (h', b) ∈ drop (length (Handle.wire st)) (Handle.wire st') ->
    Seq h' = Seq h /\ (Error h' = "" -> exists r, ran h req r /\ answer r b).
Proof.
  intros (Hseq & Hw & Hm) Hs.
  assert (forall h' b, (h', b) ∈ drop (length (Handle.wire st)) (Handle.wire st) -> False) as Hnil
    by (intros h' b H; rewrite drop_all in H; by apply not_elem_of_nil in H).
  assert (forall (ok : bool) x h' b,
    (h', b) ∈ drop (length (Handle.wire st)) (if ok then Handle.wire st ++ [x] else Handle.wire st) -> (h', b) = x) as Hone.
  { intros [] x h' b H; [rewrite drop_app_length in H; by apply list_elem_of_singleton in H | by apply Hnil in H]. }
  destruct Hs as [st r E Hr Hp | st E | st r E Hl | st r e E Ee | st r ok E | st r E Hl | st n E En | st n E En | st E Ht | st ok E];
    cbn in *.
  - split; [by split_and! | intros h' b H; by apply Hnil in H].
  - split; [by split_and! | intros h' b H; by apply Hnil in H].
  - rewrite E in Hw. split; [by split_and! | intros h' b H; by apply Hnil in H].
  - rewrite E in Hw. destruct Hw as [Hr Hp]. destruct r as [v | e' | p]; [done | | by destruct (Hp p)]. injection Ee as ->.
    assert (e <> "" \/ ran h req (Err "")) as He by (destruct (decide (e = "")) as [-> |]; auto).
    split; [by split_and! | intros h' b H; by apply Hnil in H].
  - split; [by split_and! |]. intros h' b [= -> ->]%Hone. split; [done |]. intros He. destruct E as [E | [E Ee]]; rewrite E in Hw.
    + destruct Hw as [-> [? | ?]]; [done |]. exists (Err ""). split; [done | by right].
    + destruct Hw as [Hr _]. destruct r as [v | |]; [| done..]. exists (Ok v). split; [done | left; by exists v].
  - split; [by split_and! | intros h' b H; by apply Hnil in H].
  - split; [by split_and! | intros h' b H; by apply Hnil in H].
  - split; [by split_and! | intros h' b H; by apply Hnil in H].
  - split; [split_and!; cbn; [done | | by left] | intros h' b H; by apply Hnil in H].
    destruct (Handle.worker st); try done. destruct Hw as [? _]. split; [done | by left].
  - split; [by split_and! |]. intros h' b [= -> ->]%Hone. split; [done |]. intros He. destruct (Hm E) as [? | ?]; [done |].
    exists (Err ""). split; [done | by right].
Qed.

Lemma handler_Inv s i h req st st' d :
  Inv s -> handlers s !! i = Some (h, req, st) -> handles h req st st' ->
  wrote (drop (length (Handle.wire st)) (Handle.wire st')) (down s) d ->
  Inv (set_down d (hand s) (set_handlers (<[i := (h, req, st')]> (handlers s)) s)).
Proof.
  intros HI Hi Hst Hd. pose proof (list_elem_of_lookup_2 _ _ _ Hi) as Hin.
  destruct (Inv_handlers s HI _ _ _ Hin) as (Hok & q & Hc & Hdec). destruct (handles_ok h req st st' Hok Hst) as [Hok' Hnew].
  set (s' := set_down _ _ _).
  assert (forall h0 req0, handled s h0 req0 -> handled s' h0 req0) as Hh.
  { intros h0 req0 [st0 [j Hj]%list_elem_of_lookup]. destruct (decide (i = j)) as [<- | Hne].
    - simplify_eq. exists st'. apply list_elem_of_lookup. exists i. cbn. apply list_lookup_insert_eq. by eapply lookup_lt_Some.
    - exists st0. apply list_elem_of_lookup. exists j. cbn. by rewrite list_lookup_insert_ne. }
  apply (server_frame s); cbn; try done.
  - unfold requests. cbn. rewrite list_fmap_insert, list_insert_id; [done |]. by rewrite list_lookup_fmap, Hi.
  - apply (Inv_place s HI).
  - apply (Inv_sat s HI).
  - intros h0 req0 st0 [j Hj]%list_elem_of_lookup. apply list_lookup_insert_Some in Hj as [(-> & [= -> -> ->] & _) | [_ Hj]].
    + split; [done | by exists q].
    + apply (Inv_handlers s HI). by eapply list_elem_of_lookup_2.
  - intros h0 b H. destruct Hd as [-> | ->]; [| by apply (replied_mono s), (Inv_down s HI)].
    apply elem_of_app in H as [H | H]; [by apply (replied_mono s), (Inv_down s HI) |].
    destruct (Hnew h0 b H) as [Hseq Hans]. exists h, q. split_and!; [done | done |]. intros He.
    destruct (Hans He) as (r & ? & ?). exists req, r. split_and!; try done. apply Hh. by exists st.
Qed.

Lemma rpc_step_Inv s s' : Inv s -> step s s' -> Inv s'.
Proof.
  intros HI Hs. destruct Hs.
  - by apply call_Inv.
  - by eapply write_Inv.
  - by apply quiet_Inv.
  - by apply header_Inv.
  - by eapply body_Inv.
  - by apply serve_Inv.
  - by eapply handler_Inv.
Qed.
Lemma rpc_reachable_Inv s : reachable s -> Inv s.
Proof. intros [n Hn]. exact (invariant_rtc step Inv rpc_step_Inv _ _ (rpc_init_Inv n) Hn). Qed.

(** ** A call is a run of its handler *)

Lemma returned_settled s a x q :
  Inv s -> Client.heap (client s) !! a = Some x -> args s !! a = Some q ->
  Client.callers (client s) !! a = Some (Client.Returned (Ok tt)) -> settled s x q.
Proof.
  intros HI Hx Hq Hk. destruct (Client.Inv_cell _ (Inv_client s HI) a x Hx) as (_ & _ & k & p & Hk' & Hp & _).
  assert (k = Client.Returned (Ok tt)) as -> by congruence.
  assert (Client.Done x = 1%nat /\ Client.Error x = None) as [Hd He]; [| by apply (Inv_settled s HI a)].
  destruct p; cbn in Hp.
  - by destruct Hp.
  - by destruct Hp as (_ & _ & _ & [[? _] | ?]).
  - by destruct Hp as (_ & _ & _ & _ & [[? _] | [? | [? ?]]]).
  - by destruct Hp as (Hd & _ & _ & [[? _] | [? | [[? ?] | [_ He]]]]).
  - by destruct Hp as (_ & _ & [? ?]).
Qed.

Lemma handled_once s i j h h' req req' st st' :
  Inv s -> handlers s !! i = Some (h, req, st) -> handlers s !! j = Some (h', req', st') -> Seq h' = Seq h -> j = i.
Proof.
  intros HI Hi Hj E. pose proof (Inv_once s HI) as Hnd. unfold requests in Hnd.
  rewrite !fmap_app in Hnd. apply NoDup_app in Hnd as (_ & _ & Hnd). apply NoDup_app in Hnd as (_ & _ & Hnd).
  eapply (NoDup_lookup _ _ _ (Seq h) Hnd); rewrite !list_lookup_fmap, ?Hi, ?Hj; cbn; congruence.
Qed.

(** C15: A remote call is a run of its handler: however callers, sender, receiver, the loop of
    the server and the goroutines of its requests interleave, and whatever is lost or
    times out, what the server hands to a handler is what some call asked for - its
    method, its metadata with the deadline, its arguments - and it does so at most once
    for each call; and a Call that returns nil has as its reply the body that the handler
    of this very call returned, or that of an error without text. *)
Theorem call_is_handled s :
  reachable s ->
  (forall i h req st, handlers s !! i = Some (h, req, st) ->
     (exists a x q, Client.heap (client s) !! a = Some x /\ args s !! a = Some q /\
        h = Client.request_header x (Client.Seq x) /\ DecodeReq (ServiceMethod h) q = Ok req) /\
     forall j h' req' st', handlers s !! j = Some (h', req', st') -> Seq h' = Seq h -> j = i) /\
  (forall a x q, Client.heap (client s) !! a = Some x -> args s !! a = Some q ->
     Client.callers (client s) !! a = Some (Client.Returned (Ok tt)) ->
     exists i req st r b, handlers s !! i = Some (Client.request_header x (Client.Seq x), req, st) /\
       DecodeReq (Client.ServiceMethod x) q = Ok req /\ ran (Client.request_header x (Client.Seq x)) req r /\
       answer r b /\ DecodeReply (Client.ServiceMethod x) b = Ok (Client.Reply x)).
Proof.
  intros HI%rpc_reachable_Inv. split.
  - intros i h req st Hi. split; [| intros; by eapply handled_once].
    destruct (Inv_handlers s HI _ _ _ (list_elem_of_lookup_2 _ _ _ Hi)) as (_ & q & (a & x & Hx & Hq & _ & ->) & Hdec).
    by exists a, x, q.
  - intros a x q Hx Hq Hk. destruct (returned_settled s a x q HI Hx Hq Hk) as (req & r & b & [st Hst] & ?).
    apply list_elem_of_lookup in Hst as [i Hi]. by exists i, req, st, r, b.
Qed.

(** ** A run in which a call returns *)

Definition returned (s : State) (m : string) (d : option Z) (v : option Resp) : Prop :=
  Client.callers (client s) !! 0%nat = Some (Client.Returned (Ok tt)) /\
  exists x, Client.heap (client s) !! 0%nat = Some x /\ Client.ServiceMethod x = m /\
    Client.Metadata x = Client.call_metadata d /\ Client.Reply x = v.

(** The client along that run. *)
Definition one_call (x : Client.Call) (sq : Z) (p : gmap Z Client.addr) (w : option Client.addr) (r : Client.Receiver)
    (k : Client.Caller) (i : list (Header * outcome (option Resp))) : Calls :=
  Client.mkClient {[0%nat := x]} sq p false false w r {[0%nat := k]} i.
Definition answered (v : option Resp) (x : Client.Call) : Client.Call := Client.done_ (Client.set_Reply v x).

Lemma client_calls x :
  Client.set_caller 0%nat Client.Sending (Client.set_heap (<[0%nat := x]>) Client.newClientCodec) =
  one_call x 1 ∅ None Client.Reading Client.Sending [].
Proof. reflexivity. Qed.
Lemma client_begins x :
  Client.send_begin 0%nat (one_call x 1 ∅ None Client.Reading Client.Sending []) =
  one_call (Client.set_Seq 1 x) 2 {[1 := 0%nat]} (Some 0%nat) Client.Reading Client.Sending [].
Proof. vm_compute. reflexivity. Qed.
Lemma client_writes x :
  Client.send_end 0%nat 1 (Ok tt) (one_call x 2 {[1 := 0%nat]} (Some 0%nat) Client.Reading Client.Sending []) =
  one_call x 2 {[1 := 0%nat]} None Client.Reading Client.Waiting [].
Proof. vm_compute. reflexivity. Qed.
Lemma client_reads x h : Seq h = 1 ->
  Client.on_header h (one_call x 2 {[1 := 0%nat]} None Client.Reading Client.Waiting []) =
  one_call x 2 ∅ None (Client.GotHeader (Some 0%nat) h) Client.Waiting [].
Proof. intros H. unfold Client.on_header. rewrite H. vm_compute. reflexivity. Qed.
Lemma client_answered x h v : Error h = "" ->
  Client.on_body (Some 0%nat) h (Ok v) (one_call x 2 ∅ None (Client.GotHeader (Some 0%nat) h) Client.Waiting []) =
  one_call (answered v x) 2 ∅ None Client.Reading Client.Waiting [(h, Ok v)].
Proof. intros H. unfold Client.on_body. rewrite H. vm_compute. reflexivity. Qed.
Lemma client_returns x h v :
  Client.set_caller 0%nat (Client.Returned (Ok tt)) (one_call x 2 ∅ None Client.Reading Client.Waiting [(h, Ok v)]) =
  one_call x 2 ∅ None Client.Reading (Client.Returned (Ok tt)) [(h, Ok v)].
Proof. vm_compute. reflexivity. Qed.

Ltac fields := cbn [set_client set_args set_up set_server set_handlers set_down client args up body past server handlers down hand].
Ltac serve c r := eapply rtc_l; [eapply (step_serve _ c _ r) | fields].
Ltac goroutine st d := eapply rtc_l; [eapply (step_handler _ 0%nat _ _ _ st d); [reflexivity | unfold handles | by left] | fields].

(** A goroutine that is about to write gives its answer to the wire. *)
Lemma goroutine_answers s h req st r b :
  handlers s !! 0%nat = Some (h, req, st) -> Handle.worker st = Handle.Writing r -> Handle.hdr st = h -> Error h = "" ->
  answer r b ->
  rtc step s (set_down (down s ++ [(h, b)]) (hand s)
    (set_handlers (<[0%nat := (h, req, Handle.set_worker (Handle.Signalling r) (Handle.sendResponse true b st))]> (handlers s)) s)).
Proof.
  intros Hi Hw Hh He Ha.
  assert (drop (length (Handle.wire st)) (Handle.wire st ++ [(h, b)]) = [(h, b)]) as Hd by apply drop_app_length.
  destruct Ha as [(v & -> & ->) | [-> ->]].
  - apply rtc_once. apply (step_handler s 0%nat h req st); [done | apply (Handle.worker_writes _ _ _ (Ok v) true); by right |].
    cbn. rewrite Hh, Hd. by left.
  - set (st' := Handle.set_worker (Handle.Answering (Err "")) (Handle.set_hdr (Handle.set_error "" (Handle.hdr st)) st)).
    assert (Handle.set_error "" (Handle.hdr st) = h) as Eh by (rewrite Hh; destruct h; cbn in *; by subst).
    eapply rtc_l.
    { apply (step_handler s 0%nat h req st st' (down s)); [done | by apply (Handle.worker_sets_error _ _ _ (Err "")) |].
      right. done. }
    set (s1 := set_down _ _ _). apply rtc_once. eapply eq_rect.
    { apply (step_handler s1 0%nat h req st' (Handle.set_worker (Handle.Signalling (Err "")) (Handle.sendResponse true Handle.InvalidRequest st'))
        (down s ++ [(h, Handle.InvalidRequest)])).
      - cbn. rewrite list_lookup_insert_eq; [done | by eapply lookup_lt_Some].
      - apply (Handle.worker_writes _ _ _ (Err "") true). by left.
      - cbn. rewrite Eh, Hd. by left. }
    unfold s1, set_down, set_handlers. cbn. rewrite list_insert_insert_eq. unfold st', Handle.set_worker, Handle.set_hdr, Handle.sendResponse.
    cbn. by rewrite Eh, Hh.
Qed.

Lemma call_can_return m entry d q req r b v :
  Handler.findEntry m srv = Ok entry -> DecodeReq m q = Ok req ->
  ran (mkHeader m 1 "" (Client.call_metadata d)) req r -> answer r b -> DecodeReply m b = Ok v ->
  exists s, reachable s /\ returned s m d v /\ args s !! 0%nat = Some q.
Proof.
  intros He Hdec Hran Ha Hv. set (h := mkHeader m 1 "" (Client.call_metadata d)) in *.
  set (st1 := Handle.set_worker (Handle.Returned r) (Handle.start h)).
  set (st2 := Handle.set_worker (Handle.Writing r) (Handle.set_chans 1 0 st1)).
  eexists. split.
  - exists 1%nat. unfold init. eapply rtc_l; [apply (step_call _ 0%nat m d q); reflexivity |]. fields. rewrite client_calls.
    set (x := Client.set_Seq (B := Resp) 1 (Client.NewCall m (Client.call_metadata d))).
    eapply rtc_l; [eapply step_quiet, (quiet_begin _ 0%nat); reflexivity |]. fields. rewrite client_begins. fold x.
    eapply rtc_l; [apply (step_write _ 0%nat x q (Ok tt) [(h, q)]); [reflexivity | reflexivity | reflexivity | by left] |].
    fields. rewrite client_writes.
    serve (ReadHeader (Req := Req)) (@Ok Header h); [reflexivity | by apply (serves_header _ h q []) |].
    serve (ReadBody (Req := Req) (Some m)) (Ok req); [cbn; rewrite He; reflexivity | by eapply serves_body |].
    serve (WgAdd (Req := Req)) tt; [reflexivity | apply serves_add |].
    serve (SpawnHandler h req timeout) tt; [reflexivity | apply serves_spawn |]. cbn [app].
    goroutine st1 (@nil (Header * RBody)).
    { apply Handle.worker_returns; [done | done |]. by destruct Ha as [(? & -> & _) | [-> _]]. }
    goroutine st2 (@nil (Header * RBody)).
    { by apply (Handle.worker_called timeout _ st1 r); [| cbn; lia]. }
    etrans; [apply (goroutine_answers _ h req st2 r b); first [reflexivity | done] |]. fields. cbn [app].
    eapply rtc_l; [apply (step_header _ h b []); reflexivity |]. fields. rewrite client_reads by done.
    eapply rtc_l; [apply (step_body _ (Some 0%nat) h b (Ok v)); [reflexivity | reflexivity |] |].
    { exists x. split; [reflexivity | exact Hv]. }
    fields. rewrite client_answered by done.
    eapply rtc_l; [eapply step_quiet, (quiet_done _ 0%nat (answered v x)); [reflexivity | reflexivity | cbn; lia] |].
    fields. change (Client.call_result (answered v x)) with (@Ok unit tt). rewrite client_returns.
    apply rtc_refl.
  - split; [split; [reflexivity |] | reflexivity]. eexists. split; [reflexivity |]. split; [done |]. split; [done |]. by destruct v.
Qed.

(** An error whose text is empty is taken for a success: its header says nothing, and
    its body reads as an empty reply. *)
Lemma error_without_text_succeeds m entry d q req v :
  Handler.findEntry m srv = Ok entry -> DecodeReq m q = Ok req ->
  ran (mkHeader m 1 "" (Client.call_metadata d)) req (Err "") -> DecodeReply m Handle.InvalidRequest = Ok v ->
  exists s, reachable s /\ returned s m d v.
Proof.
  intros He Hdec Hran Hv. destruct (call_can_return m entry d q req (Err "") Handle.InvalidRequest v) as (s & ? & ? & _);
    [done | done | done | by right | done | by exists s].
Qed.
End rpc.

(** The handlers of a server, when they depend on nothing else. *)
Definition returns {Req Resp} (srv : Handler.Server (Req := Req) (Resp := Resp)) (h : Header) (req : Req)
    (r : outcome (option Resp)) : Prop :=
  exists entry, Handler.findEntry (ServiceMethod h) srv = Ok entry /\
    r = let '(err, l) := Handler.serve_one srv entry h req in outcome_map (fun _ => Handler.respData l) err.
End EndToEnd.

Definition echo_server : Handler.Server :=
  Handler.RegisterMethod "Chat.Echo" "" (fun _ req _ => (Ok tt, "re: " +:+ req)) Handler.NewServer.
Definition echo_reply (m : string) (b : Handle.RBody) : outcome (option string) :=
  match b with Handle.RespBody v => Ok v | Handle.InvalidRequest => Ok (Some "") end.

Lemma call_is_handled_witness :
  exists s x, EndToEnd.reachable echo_server 0 (fun _ q => Ok q) echo_reply (EndToEnd.returns echo_server) s /\
    Client.heap (EndToEnd.client s) !! 0%nat = Some x /\ Client.Reply x = Some "re: hi" /\
    exists i req st r b,
      EndToEnd.handlers s !! i = Some (Client.request_header x (Client.Seq x), req, st) /\ Ok "hi" = Ok req /\
      EndToEnd.returns echo_server (Client.request_header x (Client.Seq x)) req r /\
      EndToEnd.answer r b /\ echo_reply (Client.ServiceMethod x) b = Ok (Client.Reply x).
Proof.
  destruct (EndToEnd.call_can_return echo_server 0 (fun _ q => Ok q) echo_reply (EndToEnd.returns echo_server) "Chat.Echo"
    (fun _ req => (Ok tt, "re: " +:+ req)) (Some 99) "hi" "hi" (Ok (Some "re: hi")) (Handle.RespBody (Some "re: hi")) (Some "re: hi"))
    as (s & Hr & (Hk & x & Hx & _ & _ & Hv) & Hq).
  - reflexivity.
  - reflexivity.
  - eexists. split; reflexivity.
  - left. by eexists.
  - reflexivity.
  - exists s, x. split; [exact Hr |]. split; [exact Hx |]. split; [exact Hv |].
    exact (proj2 (EndToEnd.call_is_handled echo_server 0 (fun _ q => Ok q) echo_reply (EndToEnd.returns echo_server) s Hr)
      0%nat x "hi" Hx Hq Hk).
Defined.
