(* ===== verification/Pool.v ===== *)
(** * The connection pool: apps/pkg/GrowRPC/pool/pool.go

    Any number of goroutines run Get and Put against the shared pool while the
    cleaner and Close run too. Each region that holds the mutex is one atomic
    operation, a Definition below; [step] interleaves them. *)
From S2P Require Import Prelude.

Module Pool.

(** Connections and goroutines are named by numbers. *)
Definition cid : Type := nat.
Definition tid : Type := nat.

(** poolConn, with what [client.IsAvailable] says. *)
Record poolConn := mkConn {
  createAt : Z;
  lastUsed : Z;
  available : bool;
}.

(** The options of New. *)
Record Config := mkConfig {
  maxIdle : Z;
  maxActive : Z;
  idleTimeout : Z;
  maxLifetime : Z;
}.

Definition default_config : Config := mkConfig 5 0 (60 * 10 ^ 9) 0.
Definition WithMaxIdle (n : Z) (c : Config) : Config :=
  mkConfig n (maxActive c) (idleTimeout c) (maxLifetime c).
Definition WithMaxActive (n : Z) (c : Config) : Config :=
  mkConfig (maxIdle c) n (idleTimeout c) (maxLifetime c).
Definition WithIdleTimeout (d : Z) (c : Config) : Config :=
  mkConfig (maxIdle c) (maxActive c) d (maxLifetime c).
Definition WithMaxLifetime (d : Z) (c : Config) : Config :=
  mkConfig (maxIdle c) (maxActive c) (idleTimeout c) d.

(** The capacity of waitCh. *)
Definition waitCap (c : Config) : nat := if maxActive c <=? 0 then 64 else Z.to_nat (maxActive c).

(** Where a goroutine stands in Get, or what it got. *)
Inductive Thread :=
| GetTop                       (* at the top of the for loop *)
| GetClose (c : cid)           (* closing a stale connection, mutex released *)
| GetScan                      (* about to relock and go on with the scan *)
| GetFactory                   (* slot reserved, calling the factory *)
| GetUndo (e : string)         (* factory failed, slot still reserved *)
| GetWait                      (* in the select *)
| Holding (c : cid)            (* Get returned c; Put not yet called *)
| Failed (e : string)          (* Get returned an error *)
| Returned                     (* Put returned *)
| Panicked.

(** Where the goroutine that closes the pool stands. *)
Inductive Closer := NotClosing | Draining (l : list cid) | PoolClosed.

Record State := mkState {
  conns : gmap cid poolConn;
  closed : bool;
  idle : list cid;             (* the top of the stack is the last element *)
  active : Z;
  waitCh : nat;
  waitCh_closed : bool;
  to_close : list cid;         (* taken out by the cleaner *)
  closer : Closer;
  threads : gmap tid Thread;
}.

Definition New : State := mkState ∅ false [] 0 0 false [] NotClosing ∅.

Definition ErrPoolClosed : string := "pool: connection pool closed".

Definition set_thread (t : tid) (k : Thread) (s : State) : State :=
  mkState (conns s) (closed s) (idle s) (active s) (waitCh s) (waitCh_closed s)
    (to_close s) (closer s) (<[t := k]> (threads s)).
Definition set_idle (l : list cid) (s : State) : State :=
  mkState (conns s) (closed s) l (active s) (waitCh s) (waitCh_closed s)
    (to_close s) (closer s) (threads s).
Definition set_active (n : Z) (s : State) : State :=
  mkState (conns s) (closed s) (idle s) n (waitCh s) (waitCh_closed s)
    (to_close s) (closer s) (threads s).
Definition set_waitCh (n : nat) (s : State) : State :=
  mkState (conns s) (closed s) (idle s) (active s) n (waitCh_closed s)
    (to_close s) (closer s) (threads s).
Definition set_conns (f : gmap cid poolConn -> gmap cid poolConn) (s : State) : State :=
  mkState (f (conns s)) (closed s) (idle s) (active s) (waitCh s) (waitCh_closed s)
    (to_close s) (closer s) (threads s).
Definition set_to_close (l : list cid) (s : State) : State :=
  mkState (conns s) (closed s) (idle s) (active s) (waitCh s) (waitCh_closed s)
    l (closer s) (threads s).

(** pc.client.Close() and pc.lastUsed = time.Now() *)
Definition close_conn (c : cid) : State -> State :=
  set_conns (alter (fun p => mkConn (createAt p) (lastUsed p) false) c).
Definition touch (c : cid) (now : Z) : State -> State :=
  set_conns (alter (fun p => mkConn (createAt p) now (available p)) c).

Section pool.
Context (cfg : Config).

Definition isExpired (now : Z) (p : poolConn) : bool :=
  ((0 <? idleTimeout cfg) && (idleTimeout cfg <? now - lastUsed p)) ||
  ((0 <? maxLifetime cfg) && (maxLifetime cfg <? now - createAt p)).

Definition stale (now : Z) (s : State) (c : cid) : bool :=
  match conns s !! c with
  | Some p => isExpired now p || negb (available p)
  | None => false
  end.

(** The locked region of Get from the scan on: reuse the top of the stack, drop
    it when stale, create, or wait. *)
Definition get_scan (now : Z) (t : tid) (s : State) : State :=
  match reverse (idle s) with
  | c :: rest =>
      let s1 := set_idle (reverse rest) s in
      if stale now s c then set_thread t (GetClose c) s1
      else set_thread t (Holding c) (set_active (active s + 1) (touch c now s1))
  | [] =>
      if (maxActive cfg =? 0) || (active s <? maxActive cfg)
      then set_thread t GetFactory (set_active (active s + 1) s)
      else set_thread t GetWait s
  end.

(** ... preceded, at the top of the loop, by the check for a closed pool. *)
Definition get_top (now : Z) (t : tid) (s : State) : State :=
  if closed s then set_thread t (Failed ErrPoolClosed) s else get_scan now t s.

(** notify: [None] is the panic of a send on the closed channel. *)
Definition notify (s : State) : option State :=
  if waitCh_closed s then None
  else if (waitCh s <? waitCap cfg)%nat then Some (set_waitCh (S (waitCh s)) s) else Some s.

(** Put: the result is the state and whether it panicked. *)
Definition put (now : Z) (c : cid) (s : State) : State * bool :=
  let s1 := set_active (active s - 1) s in
  let up := match conns s !! c with Some p => available p | None => false end in
  let s2 :=
    if closed s || negb up then close_conn c s1
    else if len (idle s) <? maxIdle cfg then set_idle (idle s ++ [c]) (touch c now s1)
    else close_conn c s1 in
  match notify s2 with
  | Some s3 => (s3, false)
  | None => (s2, true)
  end.

Definition Put (now : Z) (t : tid) (c : cid) (s : State) : State :=
  let '(s1, panics) := put now c s in set_thread t (if panics then Panicked else Returned) s1.

Definition cleanIdle (now : Z) (s : State) : State :=
  if closed s then s
  else
    set_to_close (to_close s ++ filter (fun c => stale now s c = true) (idle s))
      (set_idle (filter (fun c => stale now s c = false) (idle s)) s).

(** Close up to the unlock, and after the connections are closed. *)
Definition close_lock (s : State) : State :=
  mkState (conns s) true [] (active s) (waitCh s) (waitCh_closed s)
    (to_close s) (Draining (idle s)) (threads s).
Definition set_closer (k : Closer) (s : State) : State :=
  mkState (conns s) (closed s) (idle s) (active s) (waitCh s) (waitCh_closed s)
    (to_close s) k (threads s).
Definition close_channel (s : State) : State :=
  mkState (conns s) (closed s) (idle s) (active s) (waitCh s) true
    (to_close s) PoolClosed (threads s).

Definition Stats (s : State) : Z * Z := (len (idle s), active s).

Inductive step : State -> State -> Prop :=
| step_get s t :
    threads s !! t = None -> step s (set_thread t GetTop s)
| step_get_top s t now :
    threads s !! t = Some GetTop -> step s (get_top now t s)
| step_get_close s t c :
    threads s !! t = Some (GetClose c) -> step s (set_thread t GetScan (close_conn c s))
| step_get_scan s t now :
    threads s !! t = Some GetScan -> step s (get_scan now t s)
| step_factory_ok s t c now :
    threads s !! t = Some GetFactory -> conns s !! c = None ->
    step s (set_thread t (Holding c) (set_conns (<[c := mkConn now now true]>) s))
| step_factory_err s t e :
    threads s !! t = Some GetFactory -> step s (set_thread t (GetUndo e) s)
| step_undo s t e :
    threads s !! t = Some (GetUndo e) ->
    step s (set_thread t (Failed e) (set_active (active s - 1) s))
| step_wait_token s t n :
    threads s !! t = Some GetWait -> waitCh s = S n ->
    step s (set_thread t GetTop (set_waitCh n s))
| step_wait_closed s t :
    threads s !! t = Some GetWait -> waitCh s = O -> waitCh_closed s = true ->
    step s (set_thread t GetTop s)
| step_wait_ctx s t e :
    threads s !! t = Some GetWait -> step s (set_thread t (Failed e) s)
| step_put s t c now :
    threads s !! t = Some (Holding c) -> step s (Put now t c s)
| step_clean s now :
    closed s = false -> step s (cleanIdle now s)
| step_close_one s c l :
    to_close s = c :: l -> step s (set_to_close l (close_conn c s))
| step_close_lock s :
    closed s = false -> step s (close_lock s)
| step_drain s c l :
    closer s = Draining (c :: l) -> step s (set_closer (Draining l) (close_conn c s))
| step_close_channel s :
    closer s = Draining [] -> step s (close_channel s)
| step_break s c :
    step s (close_conn c s).      (* a connection dies by itself *)

(** ** The invariant *)

(** A goroutine that has a slot of [active]. *)
Definition slot (k : Thread) : Z :=
  match k with GetFactory | GetUndo _ | Holding _ => 1 | _ => 0 end.

Definition slots (m : gmap tid Thread) : Z := map_fold (fun _ k n => slot k + n) 0 m.

Lemma slots_insert_new m t k : m !! t = None -> slots (<[t := k]> m) = slot k + slots m.
Proof. intros Ht. unfold slots. rewrite map_fold_insert_L; [done | lia | done]. Qed.

Lemma slots_insert m t k k' :
  m !! t = Some k -> slots (<[t := k']> m) = slots m - slot k + slot k'.
Proof.
  intros Ht. rewrite <- (insert_delete_id m t k Ht) at 2.
  rewrite <- insert_delete_eq, !slots_insert_new by apply lookup_delete_eq. lia.
Qed.

(** The connection a goroutine has in its hands. *)
Definition owns (k : Thread) (c : cid) : Prop := k = Holding c \/ k = GetClose c.

Definition drain_list (k : Closer) : list cid := match k with Draining l => l | _ => [] end.

(** Connections the pool itself keeps: parked, or on their way out. *)
Definition kept (s : State) : list cid := idle s ++ to_close s ++ drain_list (closer s).

Definition elsewhere (s : State) (t : tid) (c : cid) : Prop :=
  exists t' k, t' <> t /\ threads s !! t' = Some k /\ owns k c.

(** Who may touch which connection: every known connection is kept by the pool
    at most once or in the hands of one goroutine, never both. *)
Record Own (s : State) : Prop := {
  own_kept : NoDup (kept s);
  own_owner : forall t k c, threads s !! t = Some k -> owns k c ->
    c ∉ kept s /\ is_Some (conns s !! c) /\ ~ elsewhere s t c;
  own_known : forall c, c ∈ kept s -> is_Some (conns s !! c);
}.

(** The counters. *)
Record Acct (s : State) : Prop := {
  acct_active : active s = slots (threads s);
  acct_bound : 0 < maxActive cfg -> active s + len (idle s) <= maxActive cfg;
  acct_idle : len (idle s) <= Z.max 0 (maxIdle cfg);
}.

Record Life (s : State) : Prop := {
  life_idle : closed s = true -> idle s = [];
  life_closed : closed s = false <-> closer s = NotClosing;
  life_waitCh : waitCh_closed s = true <-> closer s = PoolClosed;
}.

Record Inv (s : State) : Prop := { inv_own : Own s; inv_acct : Acct s; inv_life : Life s }.

Lemma pool_New_Inv : Inv New.
Proof.
  split; split; simpl; try done; try (intros *; by rewrite lookup_empty).
  - constructor.
  - intros c Hc. by apply elem_of_nil in Hc.
  - unfold len. simpl. lia.
  - unfold len. simpl. lia.
Qed.

(** A goroutine moves and some connections change place with it. *)
Lemma own_move s s' t k' :
  Own s -> (forall c, is_Some (conns s !! c) -> is_Some (conns s' !! c)) ->
  threads s' = <[t := k']> (threads s) -> NoDup (kept s') ->
  (forall c, c ∈ kept s' -> is_Some (conns s !! c) /\ ~ elsewhere s t c /\ ~ owns k' c) ->
  (forall c, owns k' c -> is_Some (conns s' !! c) /\ ~ elsewhere s t c) ->
  Own s'.
Proof.
  intros [Hk Ho Hn] Hdom Ht Hnd Hkept Hown. split; [done | | intros c Hc; by apply Hdom, Hkept].
  intros t0 k0 c. rewrite Ht. intros [[<- <-] | [Hne H0]]%lookup_insert_Some Hc.
  - destruct (Hown c Hc) as [H1 H2]. split_and!; [by intros Hin; apply Hkept in Hin as (_ & _ & ?) | done |].
    intros (t' & k & Hne & E & Hkc). rewrite Ht, lookup_insert_ne in E by done. apply H2. by exists t', k.
  - destruct (Ho t0 k0 c H0 Hc) as (H1 & H2 & H3). split_and!.
    + intros Hin. apply Hkept in Hin as (_ & He & _). apply He. by exists t0, k0.
    + by apply Hdom.
    + intros (t' & k & Hne' & E & Hkc). rewrite Ht in E.
      apply lookup_insert_Some in E as [[<- <-] | [Hne'' E]].
      * destruct (Hown c Hkc) as [_ He]. apply He. by exists t0, k0.
      * apply H3. by exists t', k.
Qed.

(** ... or only the pool's own connections do. *)
Lemma own_shrink s s' :
  Own s -> (forall c, is_Some (conns s !! c) -> is_Some (conns s' !! c)) ->
  threads s' = threads s -> NoDup (kept s') -> (forall c, c ∈ kept s' -> c ∈ kept s) -> Own s'.
Proof.
  intros [Hk Ho Hn] Hdom Ht Hnd Hsub. split; [done | | intros c Hc; by apply Hdom, Hn, Hsub].
  intros t k c. rewrite Ht. intros H Hc. destruct (Ho t k c H Hc) as (H1 & H2 & H3).
  split_and!; [by intros Hin; apply H1, Hsub | by apply Hdom |].
  unfold elsewhere. by rewrite Ht.
Qed.

Lemma alter_dom {A} (f : A -> A) (m : gmap cid A) c d : is_Some (m !! d) -> is_Some (alter f c m !! d).
Proof. by rewrite lookup_alter_is_Some. Qed.

(** The same connections stay where they are and [t] takes no new one. *)
Lemma own_same s s' t k k' :
  Own s -> threads s !! t = k -> (forall c, is_Some (conns s !! c) -> is_Some (conns s' !! c)) ->
  threads s' = <[t := k']> (threads s) -> kept s' = kept s ->
  (forall c, owns k' c -> exists k0, k = Some k0 /\ owns k0 c) -> Own s'.
Proof.
  intros HO Hk Hdom Ht Hkept Hown. pose proof HO as [H1 H2 H3].
  apply (own_move s s' t k'); [done | done | done | by rewrite Hkept | |].
  - intros c Hc. rewrite Hkept in Hc. split; [by apply H3 |]. split.
    + intros (t' & k0 & _ & E & Hc'). by destruct (H2 _ _ _ E Hc').
    + intros (k0 & -> & Hc')%Hown. by destruct (H2 _ _ _ Hk Hc').
  - intros c (k0 & -> & Hc')%Hown. destruct (H2 _ _ _ Hk Hc') as (_ & Hs & He). auto.
Qed.

Lemma get_scan_Inv s t k now :
  Inv s -> threads s !! t = Some k -> slot k = 0 -> (forall c, ~ owns k c) ->
  Inv (get_scan now t s).
Proof.
  intros [HO [Ha Hb Hi] HL] Ht Hs Hn. unfold get_scan.
  destruct (reverse (idle s)) as [| c rest] eqn:E.
  - assert (idle s = []) as Hnil by (apply (f_equal reverse) in E; by rewrite reverse_involutive in E).
    destruct (Z.eqb_spec (maxActive cfg) 0) as [H0 | H0]; simpl;
      [| destruct (Z.ltb_spec (active s) (maxActive cfg)) as [H1 | H1]].
    + split; [eapply own_same; try done; by intros c [|] | split; simpl; [| lia | done] | by destruct HL; split].
      rewrite (slots_insert _ _ _ _ Ht), Hs, Ha. simpl. lia.
    + split; [eapply own_same; try done; by intros c [|] | split; simpl; [| | done] | by destruct HL; split].
      * rewrite (slots_insert _ _ _ _ Ht), Hs, Ha. simpl. lia.
      * rewrite Hnil in *. unfold len in *. simpl in *. lia.
    + split; [eapply own_same; try done; by intros c [|] | split; simpl; [| done | done] | by destruct HL; split].
      rewrite (slots_insert _ _ _ _ Ht), Hs, Ha. simpl. lia.
  - assert (idle s = reverse rest ++ [c]) as Hidle
      by (rewrite <- (reverse_involutive (idle s)), E; by rewrite reverse_cons).
    assert (NoDup (c :: kept (set_idle (reverse rest) s))) as Hnd.
    { pose proof (own_kept s HO) as Hnd. unfold kept in *. rewrite Hidle in Hnd. simpl.
      rewrite <- app_assoc in Hnd. cbn [app] in Hnd. by rewrite <- Permutation_middle in Hnd. }
    assert (c ∈ kept s) as Hc.
    { unfold kept. rewrite Hidle. set_solver. }
    assert (forall d, d ∈ kept (set_idle (reverse rest) s) -> d ∈ kept s) as Hsub.
    { intros d. unfold kept. rewrite Hidle. simpl. set_solver. }
    assert (forall d, d ∈ kept s -> is_Some (conns s !! d) /\ ~ elsewhere s t d) as Hk.
    { intros d Hd. split; [by apply HO |]. intros (t' & k0 & _ & E' & Hc').
      by destruct (own_owner s HO _ _ _ E' Hc'). }
    apply NoDup_cons in Hnd as [Hcn Hnd].
    assert (len (idle s) = len (reverse rest) + 1) as Hlen.
    { rewrite Hidle, len_app. done. }
    assert (forall s' k', (k' = Holding c \/ k' = GetClose c) ->
      (forall d, is_Some (conns s !! d) -> is_Some (conns s' !! d)) ->
      kept s' = kept (set_idle (reverse rest) s) -> threads s' = <[t := k']> (threads s) -> Own s') as Hown.
    { intros s' k' Hk' Hdom Hkept Hth.
      assert (forall d, owns k' d -> d = c) as Hoc by (intros d Hd; destruct Hk' as [-> | ->], Hd; congruence).
      apply (own_move s s' t k'); [done | done | done | by rewrite Hkept | |].
      - intros d Hd. rewrite Hkept in Hd. destruct (Hk d (Hsub d Hd)). split_and!; [done | done |].
        by intros ->%Hoc.
      - intros d ->%Hoc. destruct (Hk c Hc). auto. }
    destruct (stale now s c); (split; [| | by destruct HL as [Hl1 Hl2 Hl3]; split; simpl; try done;
        intros Hcl; rewrite Hl1 in Hidle by done; by destruct (reverse rest)]).
    + eapply Hown; simpl; try done; by right.
    + split; simpl; [| lia | lia]. rewrite (slots_insert _ _ _ _ Ht), Hs, Ha. simpl. lia.
    + eapply Hown; simpl; try done; [by left |]. intros d. apply alter_dom.
    + split; simpl; [| lia | lia]. rewrite (slots_insert _ _ _ _ Ht), Hs, Ha. simpl. lia.
Qed.

(** What Put leaves behind, before and after notify. *)
Lemma Put_Inv s t c now :
  Inv s -> threads s !! t = Some (Holding c) -> Inv (Put now t c s).
Proof.
  intros [HO [Ha Hb Hi] HL] Ht.
  destruct (own_owner s HO t _ c Ht ltac:(by left)) as (Hck & Hcs & Hce).
  assert (forall s' k' l, (k' = Returned \/ k' = Panicked) ->
    (forall d, is_Some (conns s !! d) -> is_Some (conns s' !! d)) ->
    threads s' = <[t := k']> (threads s) -> active s' = active s - 1 ->
    closed s' = closed s -> waitCh_closed s' = waitCh_closed s -> closer s' = closer s ->
    to_close s' = to_close s -> idle s' = idle s ++ l ->
    (l = [] \/ l = [c] /\ closed s = false /\ len (idle s) < maxIdle cfg) -> Inv s') as Hgen.
  { intros s' k' l Hk' Hdom Hth Hact E1 E2 E3 E4 E5 Hl.
    assert (slot k' = 0 /\ forall d, ~ owns k' d) as [Hs Hn] by (destruct Hk' as [-> | ->]; split; by try intros d [|]).
    assert (kept s' ≡ₚ l ++ kept s) as Hkept.
    { unfold kept. rewrite E3, E4, E5. rewrite (Permutation_app_comm (idle s) l). by rewrite <- app_assoc. }
    split; [| split | split].
    - apply (own_move s s' t k'); [done | done | done | | | intros d Hd; by apply Hn in Hd].
      + rewrite Hkept. destruct Hl as [-> | [-> _]]; [apply HO | apply NoDup_cons; split; [done | apply HO]].
      + intros d. rewrite Hkept. intros [Hd | Hd]%elem_of_app.
        * destruct Hl as [-> | [-> _]]; [by apply elem_of_nil in Hd |].
          apply list_elem_of_singleton in Hd as ->. auto.
        * split_and!; [by apply HO | | by apply Hn]. intros (t' & k0 & _ & E' & Hc').
          by destruct (own_owner s HO _ _ _ E' Hc').
    - rewrite Hth, (slots_insert _ _ _ _ Ht), Hact, Hs, Ha. simpl. lia.
    - intros Hm. specialize (Hb Hm). rewrite Hact, E5, len_app.
      destruct Hl as [-> | [-> _]]; unfold len in *; simpl; lia.
    - rewrite E5, len_app. destruct Hl as [-> | (-> & _ & ?)]; unfold len in *; simpl; lia.
    - rewrite E1, E5. intros Hcl. rewrite (life_idle s HL Hcl).
      destruct Hl as [-> | (-> & ? & _)]; [done | congruence].
    - rewrite E1, E3. apply HL.
    - rewrite E2, E3. apply HL. }
  unfold Put, put.
  assert (forall s2 l, (forall d, is_Some (conns s !! d) -> is_Some (conns s2 !! d)) ->
    threads s2 = threads s -> active s2 = active s - 1 ->
    closed s2 = closed s -> waitCh_closed s2 = waitCh_closed s -> closer s2 = closer s ->
    to_close s2 = to_close s -> idle s2 = idle s ++ l ->
    (l = [] \/ l = [c] /\ closed s = false /\ len (idle s) < maxIdle cfg) ->
    Inv (let '(s1, panics) := match notify s2 with Some s3 => (s3, false) | None => (s2, true) end in
         set_thread t (if panics then Panicked else Returned) s1)) as Hfin.
  { intros s2 l Hdom Hth Hact E1 E2 E3 E4 E5 Hl. unfold notify.
    destruct (waitCh_closed s2) eqn:Ew; [| destruct (waitCh s2 <? waitCap cfg)%nat];
      [apply (Hgen _ Panicked l) | apply (Hgen _ Returned l) | apply (Hgen _ Returned l)]; simpl;
      try done; try (by left); try (by right); congruence. }
  destruct (closed s) eqn:Ecl; simpl.
  { apply (Hfin _ []); simpl; try done; [intros d; apply alter_dom | by rewrite app_nil_r | by left]. }
  destruct (negb _) eqn:Eup.
  { apply (Hfin _ []); simpl; try done; [intros d; apply alter_dom | by rewrite app_nil_r | by left]. }
  destruct (Z.ltb_spec (len (idle s)) (maxIdle cfg)) as [Hlt | Hge].
  - apply (Hfin _ [c]); simpl; try done; [intros d; apply alter_dom | by right].
  - apply (Hfin _ []); simpl; try done; [intros d; apply alter_dom | by rewrite app_nil_r | by left].
Qed.

(** A goroutine moves without a connection changing place. *)
Lemma thread_Inv s s' t k k' :
  Inv s -> threads s !! t = k -> threads s' = <[t := k']> (threads s) ->
  (forall c, is_Some (conns s !! c) -> is_Some (conns s' !! c)) ->
  kept s' = kept s -> idle s' = idle s -> closed s' = closed s -> closer s' = closer s ->
  waitCh_closed s' = waitCh_closed s ->
  (forall c, owns k' c -> exists k0, k = Some k0 /\ owns k0 c) ->
  active s' = active s + slot k' - match k with Some k0 => slot k0 | None => 0 end ->
  active s' <= active s -> Inv s'.
Proof.
  intros [HO [Ha Hb Hi] [L1 L2 L3]] Hk Hth Hdom Hkept E1 E2 E3 E4 Hown Hact Hle.
  split; [by eapply own_same | split | split]; rewrite ?E1, ?E2, ?E3, ?E4; try done.
  - rewrite Hth, Hact, Ha. destruct k as [k0 |].
    + rewrite (slots_insert _ _ _ _ Hk). lia.
    + rewrite slots_insert_new by done. lia.
  - intros Hm. specialize (Hb Hm). lia.
Qed.

(** The pool's own bookkeeping moves connections out of [kept] or within it. *)
Lemma pool_Inv s s' :
  Inv s -> threads s' = threads s -> active s' = active s ->
  (forall c, is_Some (conns s !! c) -> is_Some (conns s' !! c)) ->
  NoDup (kept s') -> (forall c, c ∈ kept s' -> c ∈ kept s) -> len (idle s') <= len (idle s) ->
  Life s' -> Inv s'.
Proof.
  intros [HO [Ha Hb Hi] _] Hth Hact Hdom Hnd Hsub Hlen HL.
  split; [by eapply own_shrink | split | done]; rewrite ?Hth, ?Hact; [done | lia | lia].
Qed.

Lemma cleanIdle_kept now s : closed s = false -> kept (cleanIdle now s) ≡ₚ kept s.
Proof.
  intros E. unfold cleanIdle. rewrite E. unfold kept. simpl.
  rewrite <- (filter_app_complement (fun c => stale now s c = false) (idle s)) at 3.
  rewrite (list_filter_iff (fun c => stale now s c = true) (fun c => ~ stale now s c = false))
    by (intros c; destruct (stale now s c); done).
  rewrite <- !app_assoc. f_equiv. rewrite (app_assoc (to_close s)), (Permutation_app_comm (to_close s)).
  by rewrite <- app_assoc.
Qed.

Ltac frame := eapply thread_Inv; try done; simpl; try lia; try (by intros ? [|]);
  try (intros ?; apply alter_dom).

Lemma pool_step_Inv s s' : Inv s -> step s s' -> Inv s'.
Proof.
  intros HI Hs. pose proof HI as [HO [Ha Hb Hi] [L1 L2 L3]].
  destruct Hs as [s t E | s t now E | s t c E | s t now E | s t c now E Ec | s t e E | s t e E
    | s t n E Hw | s t E H0 Hw | s t e E | s t c now E | s now E | s c l E | s E | s c l E | s E | s c].
  - frame.
  - unfold get_top. destruct (closed s); [frame |].
    eapply get_scan_Inv; try done. by intros c [|].
  - frame.
  - eapply get_scan_Inv; try done. by intros c [|].
  - assert (c ∉ kept s) as Hn.
    { intros Hin. destruct (own_known s HO c Hin). congruence. }
    split; [| split; simpl; try done | split; done].
    + apply (own_move s _ t (Holding c)); simpl; try done; [| apply HO | |].
      * intros d Hd. apply lookup_insert_is_Some. destruct (decide (c = d)); auto.
      * intros d Hd. split_and!; [by apply HO | | by intros [[= <-] | ?]].
        intros (t' & k0 & _ & E' & Hc'). by destruct (own_owner s HO _ _ _ E' Hc').
      * intros d [[= <-] | ?]; [| done]. split; [rewrite lookup_insert_eq; by eexists |].
        intros (t' & k0 & _ & E' & Hc'). destruct (own_owner s HO _ _ _ E' Hc') as (_ & [? ?] & _). congruence.
    + rewrite (slots_insert _ _ _ _ E), Ha. simpl. lia.
  - frame.
  - frame.
  - frame.
  - frame.
  - frame.
  - by apply Put_Inv.
  - pose proof (cleanIdle_kept now s E) as Hp. unfold cleanIdle in *. rewrite E in Hp |- *.
    apply (pool_Inv s); simpl; try done.
    + rewrite Hp. apply HO.
    + intros c. by rewrite Hp.
    + pose proof (length_filter (fun c => stale now s c = false) (idle s)). unfold len. lia.
    + split; simpl; [congruence | done | done].
  - assert (c :: kept (set_to_close l s) ≡ₚ kept s) as Hp.
    { unfold kept. rewrite E. simpl. by rewrite <- Permutation_middle. }
    pose proof (own_kept s HO) as Hnd. rewrite <- Hp in Hnd. apply NoDup_cons in Hnd as [_ Hnd].
    apply (pool_Inv s); simpl; try done; [intros d; apply alter_dom |].
    intros d Hd. rewrite <- Hp. by right.
  - apply (pool_Inv s); simpl; try done; [| | unfold len; simpl; lia | split; simpl; try done].
    + assert (kept (close_lock s) ≡ₚ kept s) as Hp; [| rewrite Hp; apply HO].
      unfold kept. simpl. rewrite (proj1 L2 E). simpl. by rewrite app_nil_r, Permutation_app_comm.
    + intros c. unfold kept. simpl. rewrite (proj1 L2 E). simpl. set_solver.
    + split; [| done]. intros Hw. apply L3 in Hw. rewrite (proj1 L2 E) in Hw. done.
  - assert (c :: kept (set_closer (Draining l) s) ≡ₚ kept s) as Hp.
    { unfold kept. rewrite E. simpl. rewrite !app_assoc. by rewrite <- Permutation_middle. }
    pose proof (own_kept s HO) as Hnd. rewrite <- Hp in Hnd. apply NoDup_cons in Hnd as [_ Hnd].
    apply (pool_Inv s); simpl; try done; [intros d; apply alter_dom | |].
    + intros d Hd. rewrite <- Hp. by right.
    + rewrite E in *. split; simpl; try done; split; try done.
      * intros H. by apply L2 in H.
      * intros H. by apply L3 in H.
  - assert (kept (close_channel s) = kept s) as Hp by (unfold kept; simpl; by rewrite E).
    apply (pool_Inv s); simpl; try done; [| by rewrite Hp |]; [rewrite Hp; apply HO |].
    rewrite E in *. split; simpl; try done. split; [intros H; by apply L2 in H | done].
  - apply (pool_Inv s); simpl; try done; [intros d; apply alter_dom | apply HO].
Qed.

Definition reachable (s : State) : Prop := rtc step New s.

Lemma pool_reachable_Inv s : reachable s -> Inv s.
Proof. apply (invariant_rtc step Inv pool_step_Inv), pool_New_Inv. Qed.

Lemma slots_nonneg m : 0 <= slots m.
Proof.
  unfold slots. apply (map_fold_weak_ind (fun r _ => 0 <= r)); [lia |].
  intros i k m' r _ Hr. destruct k; simpl; lia.
Qed.

(** C18: The pool's limits hold under every interleaving: [active] is exactly the
    number of goroutines that hold a connection or a reserved slot; lent and
    parked connections together never exceed maxActive (when one is set), and
    parked ones never exceed maxIdle; a closed pool parks nothing. *)
Theorem pool_limits s :
  reachable s ->
  Stats s = (len (idle s), slots (threads s)) /\ 0 <= active s /\
  (0 < maxActive cfg -> active s + len (idle s) <= maxActive cfg) /\
  len (idle s) <= Z.max 0 (maxIdle cfg) /\
  (closed s = true -> idle s = []).
Proof.
  intros [_ [Ha Hb Hi] HL]%pool_reachable_Inv. pose proof (slots_nonneg (threads s)).
  split_and!; [unfold Stats; by rewrite Ha | lia | done | done | apply HL].
Qed.

(** C19: A lent connection belongs to its borrower alone: it is neither parked,
    nor waiting to be closed by the cleaner or by Close, nor in the hands of
    another goroutine; so until Put no operation of the pool closes it. *)
Theorem pool_exclusive s t c :
  reachable s -> threads s !! t = Some (Holding c) ->
  c ∉ kept s /\ is_Some (conns s !! c) /\
  (forall t' k, t' <> t -> threads s !! t' = Some k -> ~ owns k c) /\
  NoDup (kept s).
Proof.
  intros [HO _ _]%pool_reachable_Inv Ht. destruct (own_owner s HO t _ c Ht ltac:(by left)) as (H1 & H2 & H3).
  split_and!; [done | done | | apply HO]. intros t' k Hne Hk Hc. apply H3. by exists t', k.
Qed.

(** Returning a connection after Close panics: once Close has closed the
    wait channel, every Put - the documented way for borrowers to give their
    connections back - closes the connection, releases its slot and then panics
    on the send of notify. *)
Theorem put_after_close_panics s t c now :
  reachable s -> threads s !! t = Some (Holding c) -> waitCh_closed s = true ->
  let s' := Put now t c s in
  threads s' !! t = Some Panicked /\ active s' = active s - 1 /\ idle s' = [] /\
  (exists p, conns s' !! c = Some p /\ available p = false).
Proof.
  intros [HO _ HL]%pool_reachable_Inv Ht Hw.
  assert (closed s = true) as Hc.
  { apply not_false_iff_true. intros Hf. apply (life_closed s HL) in Hf.
    apply (life_waitCh s HL) in Hw. congruence. }
  destruct (own_owner s HO t _ c Ht ltac:(by left)) as (_ & [p Hp] & _).
  unfold Put, put, notify. rewrite Hc. simpl. rewrite Hw. simpl.
  rewrite lookup_insert_eq, lookup_alter_eq, Hp. split_and!; try done; [by apply HL |].
  eexists. split; [reflexivity | done].
Qed.

End pool.

(** One lent connection at most, one parked; connections live for ever. *)
Definition race_config : Config := mkConfig 1 1 0 0.

(** Two races the pool does not exclude. A Get that is closing a stale idle
    connection goes on with its scan without looking at [closed] again: it calls
    the factory on a pool that is closed and returns the fresh connection. And
    when the factory fails its slot is released without notify: a waiting Get
    sleeps on although nothing is lent, nothing else runs and the pool is open. *)
Theorem pool_races :
  (exists s0 s c, reachable race_config s0 /\ closed s0 = true /\ conns s0 !! c = None /\
     rtc (step race_config) s0 s /\ closed s = true /\ threads s !! 2%nat = Some (Holding c)) /\
  (exists s, reachable race_config s /\ threads s !! 1%nat = Some GetWait /\ waitCh s = O /\
     closed s = false /\ active s = 0 /\ idle s = [] /\
     forall t k, t <> 1%nat -> threads s !! t = Some k -> exists e, k = Failed e).
Proof.
  split.
  - eexists _, _, 8%nat. split_and!.
    + unfold reachable.
      eapply rtc_l; [by apply (step_get _ New 1%nat) |].
      eapply rtc_l; [by apply (step_get_top _ _ 1%nat 0) |].
      eapply rtc_l; [by apply (step_factory_ok _ _ 1%nat 7%nat 0) |].
      eapply rtc_l; [by apply (step_put _ _ 1%nat 7%nat 0) |].
      eapply rtc_l; [by apply (step_break _ _ 7%nat) |].
      eapply rtc_l; [by apply (step_get _ _ 2%nat) |].
      eapply rtc_l; [by apply (step_get_top _ _ 2%nat 0) |].
      eapply rtc_l; [by apply step_close_lock |].
      apply rtc_refl.
    + reflexivity.
    + reflexivity.
    + eapply rtc_l; [by apply (step_get_close _ _ 2%nat 7%nat) |].
      eapply rtc_l; [by apply (step_get_scan _ _ 2%nat 0) |].
      eapply rtc_l; [by apply (step_factory_ok _ _ 2%nat 8%nat 0) |].
      apply rtc_refl.
    + reflexivity.
    + reflexivity.
  - eexists. split_and!.
    + unfold reachable.
      eapply rtc_l; [by apply (step_get _ New 2%nat) |].
      eapply rtc_l; [by apply (step_get_top _ _ 2%nat 0) |].
      eapply rtc_l; [by apply (step_get _ _ 1%nat) |].
      eapply rtc_l; [by apply (step_get_top _ _ 1%nat 0) |].
      eapply rtc_l; [by apply (step_factory_err _ _ 2%nat "dial tcp: connection refused") |].
      eapply rtc_l; [by apply (step_undo _ _ 2%nat "dial tcp: connection refused") |].
      apply rtc_refl.
    + reflexivity.
    + reflexivity.
    + reflexivity.
    + reflexivity.
    + reflexivity.
    + intros t k Hne Hk. simpl in Hk.
      repeat (rewrite lookup_insert in Hk; case_decide; [subst; simplify_eq; eauto |]).
      by rewrite lookup_empty in Hk.
Qed.

(** The parked pool of one connection, lent again after it was returned. *)
Definition demo_lent : State :=
  set_thread 1%nat (Holding 7%nat) (set_conns (<[7%nat := mkConn 0 0 true]>)
    (get_top race_config 0 1%nat (set_thread 1%nat GetTop New))).

Lemma demo_lent_reachable : reachable race_config demo_lent.
Proof.
  eapply rtc_l; [by apply (step_get _ New 1%nat) |].
  eapply rtc_l; [by apply (step_get_top _ _ 1%nat 0) |].
  eapply rtc_l; [by apply (step_factory_ok _ _ 1%nat 7%nat 0) |].
  apply rtc_refl.
Qed.

Definition demo_closed : State := close_channel (close_lock demo_lent).

Lemma demo_closed_reachable : reachable race_config demo_closed.
Proof.
  eapply rtc_r; [eapply rtc_r; [exact demo_lent_reachable |] |].
  - by apply step_close_lock.
  - by apply step_close_channel.
Qed.
End Pool.

Lemma pool_limits_witness :
  Pool.Stats Pool.demo_lent = (len (Pool.idle Pool.demo_lent), Pool.slots (Pool.threads Pool.demo_lent)) /\
  0 <= Pool.active Pool.demo_lent /\
  (0 < Pool.maxActive Pool.race_config ->
     Pool.active Pool.demo_lent + len (Pool.idle Pool.demo_lent) <= Pool.maxActive Pool.race_config) /\
  len (Pool.idle Pool.demo_lent) <= Z.max 0 (Pool.maxIdle Pool.race_config) /\
  (Pool.closed Pool.demo_lent = true -> Pool.idle Pool.demo_lent = []).
Proof. apply (Pool.pool_limits Pool.race_config). exact Pool.demo_lent_reachable. Defined.

Lemma pool_exclusive_witness :
  7%nat ∉ Pool.kept Pool.demo_lent /\ is_Some (Pool.conns Pool.demo_lent !! 7%nat) /\
  (forall t' k, t' <> 1%nat -> Pool.threads Pool.demo_lent !! t' = Some k -> ~ Pool.owns k 7%nat) /\
  NoDup (Pool.kept Pool.demo_lent).
Proof.
  apply (Pool.pool_exclusive Pool.race_config Pool.demo_lent 1%nat 7%nat);
    [exact Pool.demo_lent_reachable | reflexivity].
Defined.

Lemma put_after_close_panics_witness :
  let s' := Pool.Put Pool.race_config 5 1%nat 7%nat Pool.demo_closed in
  Pool.threads s' !! 1%nat = Some Pool.Panicked /\
  Pool.active s' = Pool.active Pool.demo_closed - 1 /\ Pool.idle s' = [] /\
  (exists p, Pool.conns s' !! 7%nat = Some p /\ Pool.available p = false).
Proof.
  apply (Pool.put_after_close_panics Pool.race_config Pool.demo_closed 1%nat 7%nat 5);
    [exact Pool.demo_closed_reachable | reflexivity | reflexivity].
Defined.
