(* ===== verification/XClient.v ===== *)
(** * The load-balancing client: apps/pkg/GrowRPC/xclient/xclient.go

    The client chooses a server through the [Discovery] interface and talks to it
    through one pool per address. Pools and connections are reached by commands,
    so the theorems hold whatever they answer; [gateway/rpcclient] routes a user's
    calls by the decimal text of the user id. Section gateways is about the clients of
    the gateways, whose discovery watches etcd. *)
From S2P Require Import Prelude GoStd Effects ConsistentHash Discovery.
#[local] Open Scope prog_scope.

Module XClient.
Section xclient.
(** Arguments and replies of remote calls. *)
Context {Args Reply : Type}.

Definition pool_id : Type := nat.
Definition conn_id : Type := nat.

Inductive xc_cmd :=
| PoolNew (rpcAddr : string)              (* pool.New, the factory dials rpcAddr *)
| PoolGet (p : pool_id) (timeout : Z)
| PoolPut (p : pool_id) (c : conn_id)
| PoolClose (p : pool_id)
| ClientClose (c : conn_id)
| ClientCall (c : conn_id) (serviceMethod : string) (args : Args).

Definition xc_res (c : xc_cmd) : Type :=
  match c with
  | PoolNew _ => pool_id
  | PoolGet _ _ => outcome conn_id
  | PoolPut _ _ | PoolClose _ | ClientClose _ => unit
  | ClientCall _ _ _ => outcome Reply
  end.

Definition xcs : Sig := mkSig xc_cmd xc_res.
Definition pool_new a : prog xcs pool_id := Effects.call (S := xcs) (PoolNew a).
Definition pool_get p t : prog xcs (outcome conn_id) := Effects.call (S := xcs) (PoolGet p t).
Definition pool_put p c : prog xcs unit := Effects.call (S := xcs) (PoolPut p c).
Definition pool_close p : prog xcs unit := Effects.call (S := xcs) (PoolClose p).
Definition client_close c : prog xcs unit := Effects.call (S := xcs) (ClientClose c).
Definition client_call c m a : prog xcs (outcome Reply) := Effects.call (S := xcs) (ClientCall c m a).
#[local] Hint Unfold pool_new pool_get pool_put pool_close client_close client_call : prog.

Context {D : Type} `{Discovery D}.

Record XClient := mkXClient {
  d : D;
  mode : SelectMode;
  pools : gmap string pool_id;
}.

Definition NewXClient (disc : D) (m : SelectMode) : XClient := mkXClient disc m ∅.

Definition set_pools (f : gmap string pool_id -> gmap string pool_id) (xc : XClient) : XClient :=
  mkXClient (d xc) (mode xc) (f (pools xc)).

(** Close, the map visited in some order. *)
Definition Close (order : list (string * pool_id)) (xc : XClient) : prog xcs XClient :=
  for_each order (fun kp => pool_close kp.2) ;;
  Ret (set_pools (fun m => foldr (fun kp m => delete kp.1 m) m order) xc).

Definition dial_timeout : Z := 5 * 10 ^ 9.

Definition dial (rpcAddr : string) (xc : XClient) : prog xcs (outcome conn_id * XClient) :=
  '(p, xc1) <- match pools xc !! rpcAddr with
               | Some p => Ret (p, xc)
               | None => p <- pool_new rpcAddr ;; Ret (p, set_pools <[rpcAddr := p]> xc)
               end ;;
  conn <- pool_get p dial_timeout ;;
  Ret (conn, xc1).

Definition putClient (rpcAddr : string) (conn : conn_id) (xc : XClient) : prog xcs unit :=
  match pools xc !! rpcAddr with
  | Some p => pool_put p conn
  | None => client_close conn
  end.

(** [others] is what other goroutines do to the map during the remote call. *)
Definition call_addr (rpcAddr : string) (serviceMethod : string) (args : Args)
    (others : gmap string pool_id -> gmap string pool_id) (xc : XClient) :
    prog xcs (outcome Reply * XClient) :=
  '(r, xc1) <- dial rpcAddr xc ;;
  match r with
  | Ok conn =>
      reply <- client_call conn serviceMethod args ;;
      (* the deferred putClient *)
      putClient rpcAddr conn (set_pools others xc1) ;;
      Ret (reply, set_pools others xc1)
  | Err e => Ret (Err e, xc1)
  | Panic m => Ret (Panic m, xc1)
  end.

(** [key] is the routing key of the context, if any. *)
Definition Call (key : option string) (serviceMethod : string) (args : Args)
    (others : gmap string pool_id -> gmap string pool_id) (xc : XClient) :
    prog xcs (outcome Reply * XClient) :=
  let hashKey := default "" key in
  let '(r, disc) := disc_get (mode xc) hashKey (d xc) in
  let xc1 := mkXClient disc (mode xc) (pools xc) in
  match r with
  | Ok rpcAddr => call_addr rpcAddr serviceMethod args others xc1
  | Err e => Ret (Err e, xc1)
  | Panic m => Ret (Panic m, xc1)
  end.

(** gateway/rpcclient: the routing key of a user. *)
Definition WithUserRoutingKey (userID : Z) : option string := Some (Itoa userID).

(** ** Broadcast

    The goroutines of Broadcast end in some order; under the mutex each records
    the first error or the first reply. *)
Definition record_result (st : option string * option Reply) (r : outcome Reply) :
    option string * option Reply :=
  let '(e, reply) := st in
  match r with
  | Ok v => (e, match reply with None => Some v | Some _ => reply end)
  | Err x | Panic x => (match e with None => Some x | Some _ => e end, reply)
  end.

(** [results] are the outcomes in completion order, one per server. *)
Definition Broadcast (servers : outcome (list string)) (results : list (outcome Reply)) :
    outcome (option Reply) :=
  match servers with
  | Ok l =>
      let '(e, reply) := foldl record_result (None, None) results in
      match e with Some e => Err e | None => Ok reply end
  | Err e => Err e
  | Panic m => Panic m
  end.

Lemma record_fold results e reply :
  let '(e', reply') := foldl record_result (e, reply) results in
  (e' = None <-> e = None /\ forall r, r ∈ results -> exists v, r = Ok v) /\
  (forall x, e' = Some x -> e = Some x \/ Err x ∈ results \/ Panic x ∈ results) /\
  (forall v, reply' = Some v -> reply = Some v \/ Ok v ∈ results).
Proof.
  revert e reply. induction results as [| r results IH]; intros e reply; cbn [foldl].
  { split_and!; try tauto. split; [| tauto]. intros He. split; [done |].
    intros r Hr. by apply elem_of_nil in Hr. }
  destruct (record_result (e, reply) r) as [e1 reply1] eqn:E.
  specialize (IH e1 reply1). destruct (foldl record_result (e1, reply1) results) as [e' reply'].
  destruct IH as (I1 & I2 & I3). split_and!.
  - rewrite I1. setoid_rewrite elem_of_cons. unfold record_result in E.
    destruct r as [v | x | x], e; simplify_eq; split; naive_solver.
  - intros x Hx. rewrite !elem_of_cons. destruct (I2 x Hx) as [H1 | H1]; [| tauto].
    unfold record_result in E. destruct r as [v | y | y], e; naive_solver.
  - intros v Hv. rewrite elem_of_cons. destruct (I3 v Hv) as [H1 | H1]; [| tauto].
    unfold record_result in E. destruct r as [w | y | y], reply; naive_solver.
Qed.

(** Broadcast succeeds exactly when every server's call did; its error is the
    error of one of the calls, and its reply, if any, one of their replies,
    whatever the order in which the calls end. *)
Theorem broadcast_outcome l results :
  length results = length l ->
  (forall reply, Broadcast (Ok l) results = Ok reply ->
    (forall r, r ∈ results -> exists v, r = Ok v) /\
    forall v, reply = Some v -> Ok v ∈ results) /\
  (forall x, Broadcast (Ok l) results = Err x -> Err x ∈ results \/ Panic x ∈ results) /\
  ((forall r, r ∈ results -> exists v, r = Ok v) -> exists reply, Broadcast (Ok l) results = Ok reply).
Proof.
  intros _. unfold Broadcast. pose proof (record_fold results None None) as Hf.
  destruct (foldl record_result (None, None) results) as [e reply].
  destruct Hf as (H1 & H2 & H3). split_and!.
  - intros r. destruct e; [done |]. intros [= <-]. split; [by apply H1 |].
    intros v Hv. by destruct (H3 v Hv).
  - intros x. destruct e; [| done]. intros [= <-]. by destruct (H2 _ eq_refl).
  - intros Hall. destruct e as [x |]; [| by eexists].
    by assert (Some x = None) as ? by (by apply H1).
Qed.

(** ** Connections come back *)

(** The connections a trace borrowed, and those it gave back. *)
Definition borrowed (tr : list (event xcs)) : list conn_id :=
  tr ≫= fun e : event xcs => match e with existT (PoolGet _ _) (Ok c) => [c] | _ => [] end : list conn_id.
Definition given_back (tr : list (event xcs)) : list conn_id :=
  tr ≫= fun e : event xcs =>
    match e with existT (PoolPut _ c) _ | existT (ClientClose c) _ => [c] | _ => [] end : list conn_id.
Definition opened (tr : list (event xcs)) : list string :=
  tr ≫= fun e : event xcs => match e with existT (PoolNew a) _ => [a] | _ => [] end : list string.

Context {W : Type} (h : env xcs W).

(** A call uses one connection and gives it back exactly once - to the pool
    of its address, or by closing it when the client was closed meanwhile -
    whether the remote call succeeds or fails, and returns that call's result;
    a pool is created only for an address that has none, under that address. *)
Theorem call_returns_connection rpcAddr serviceMethod args others xc :
  always h (call_addr rpcAddr serviceMethod args others xc) (fun r tr =>
    borrowed tr = given_back tr /\ (length (borrowed tr) <= 1)%nat /\
    opened tr = (if decide (is_Some (pools xc !! rpcAddr)) then [] else [rpcAddr]) /\
    (forall v, r.1 = Ok v ->
       exists c, borrowed tr = [c] /\ @ev xcs (ClientCall c serviceMethod args) (Ok v) ∈ tr) /\
    (borrowed tr = [] -> is_Some (pools r.2 !! rpcAddr))).
Proof.
  unfold call_addr, dial, putClient, set_pools.
  destruct (pools xc !! rpcAddr) as [p |] eqn:E; walk;
    unfold borrowed, given_back, opened; simpl; subst;
    rewrite ?decide_True, ?decide_False by (by eexists || by intros []);
    (split_and!; [done | lia | done | |]); simpl; intros; try done; simplify_eq;
    try (eexists; split; [done |]; rewrite !elem_of_cons; naive_solver);
    rewrite ?lookup_insert_eq; by eexists.
Qed.

Lemma call_addr_keeps a m args others xc :
  always h (call_addr a m args others xc) (fun r _ => d r.2 = d xc /\ mode r.2 = mode xc).
Proof. unfold call_addr, dial, putClient, set_pools. destruct (pools xc !! a); walk; done. Qed.

(** Through any discovery that keeps its contract, the calls under one key are all
    refused alike or all go to one listed address while the discovery does not
    change, and no call changes it; a call without a key is refused before any
    connection is used. *)
Lemma calls_follow_contract inv xc userID l :
  DiscoveryLaws D inv -> inv (d xc) -> mode xc = ConsistentHashSelect ->
  (disc_getall (d xc)).1 = Ok l ->
  let key := WithUserRoutingKey userID in
  let same := fun xc' => d xc' = d xc /\ mode xc' = mode xc in
  ((exists r, (forall v, r <> Ok v) /\
     forall xc' m args others, same xc' -> Call key m args others xc' = Ret (r, xc')) \/
   (exists a, a ∈ l /\ forall xc' m args others, same xc' ->
     Call key m args others xc' = call_addr a m args others xc')) /\
  (forall m args others, always h (Call key m args others xc) (fun r _ => same r.2)) /\
  (forall m args others, exists e, Call None m args others xc = Ret (Err e, xc)).
Proof.
  intros HL Hinv Hm Hl key same.
  assert (forall k m args others xc', same xc' -> Call k m args others xc' =
    match (disc_get ConsistentHashSelect (default "" k) (d xc)).1 with
    | Ok a => call_addr a m args others xc'
    | Err e => Ret (Err e, xc')
    | Panic p => Ret (Panic p, xc')
    end) as HC.
  { intros k m args others xc' [Ed Em]. unfold Call. rewrite Ed, Em, Hm.
    pose proof (disc_sticky (inv := inv) (default "" k) (d xc)) as Hst.
    destruct (disc_get ConsistentHashSelect (default "" k) (d xc)) as [r dd]. simpl in Hst. subst dd.
    rewrite <- Ed, <- Hm, <- Em. by destruct xc'. }
  assert (same xc) as Hsame by done.
  split_and!.
  - destruct (disc_get ConsistentHashSelect (default "" key) (d xc)).1 as [a | e | p] eqn:E.
    + right. exists a. split; [by eapply (disc_get_member (inv := inv)) |].
      intros xc' m args others Hs. by rewrite HC, E.
    + left. exists (Err e). split; [done |]. intros xc' m args others Hs. by rewrite HC, E.
    + left. exists (Panic p). split; [done |]. intros xc' m args others Hs. by rewrite HC, E.
  - intros m args others. rewrite HC by done.
    destruct (disc_get _ _ _).1; [apply call_addr_keeps | |]; by apply always_Ret.
  - intros m args others. rewrite HC by done. simpl.
    destruct (disc_keyless (inv := inv) (d xc)) as [e ->]. by exists e.
Qed.
End xclient.

(** ** The gateways: consistent hashing over etcd *)
Section gateways.
Context {Args Reply G : Type} `{Rand G}.
#[local] Notation client := (XClient (D := Etcd.EtcdDiscovery (G := G))).

(** The client of a gateway whose watcher has seen the store reach the keys [K]: a
    snapshot of any earlier time, then the events since, all below the prefix of the
    service. What it did before that snapshot does not matter. *)
Definition watching (name : string) (K : gset string) (xc : client) : Prop :=
  mode xc = ConsistentHashSelect /\
  exists d0 kvs evs,
    Etcd.serviceName d0 = name /\ NoDup kvs /\
    (forall k, k ∈ kvs ++ (Etcd.event_key <$> evs) -> Etcd.has_prefix name k) /\
    Etcd.stored kvs evs = K /\ d xc = Etcd.watched kvs evs d0.

Lemma watching_list name K xc :
  watching name K xc ->
  exists l, d xc = Etcd.set_servers l (d xc) /\ l ≡ₚ elements (Etcd.addresses name K).
Proof.
  intros (_ & d0 & kvs & evs & En & Hnd & Hk & HK & Ed). subst name.
  destruct (Etcd.watched_tracks kvs evs d0 Hk Hnd) as (E1 & (_ & H1 & H2) & H3).
  rewrite <- Ed, HK in *. exists (Etcd.servers (d xc)). split.
  - unfold Etcd.set_servers. rewrite <- H3. by destruct (d xc).
  - apply NoDup_Permutation; [done | apply NoDup_elements |].
    intros a. by rewrite H2, E1, elem_of_elements.
Qed.

(** What Call makes of the three answers of consistent hashing. *)
Lemma Call_watching name K xc key m (args : Args) others :
  watching name K xc -> collision_free (New 50 None) (elements (Etcd.addresses name K)) ->
  let l := elements (Etcd.addresses name K) in
  Call (Reply := Reply) key m args others xc =
    if decide (l = []) then Ret (Err err_no_servers, xc)
    else if String.eqb (default "" key) "" then Ret (Err err_key_required, xc)
    else call_addr (Get (ring_of l) (default "" key)) m args others xc.
Proof.
  intros Hw Hfree l. destruct (watching_list name K xc Hw) as (l' & Ed & Hp). fold l in Hp, Hfree.
  destruct Hw as [Hm _]. destruct xc as [dd md ps]. cbn [d mode] in *. subst md.
  unfold Call. cbn [disc_get Etcd.etcd_discovery d mode pools]. rewrite Ed. unfold Etcd.Get. cbn.
  assert (len l' = len l) as -> by (unfold len; by rewrite Hp).
  destruct (decide (l = [])) as [-> | Hl]; [done |].
  destruct (Z.eqb_spec (len l) 0) as [E | _]; [destruct l; [done | unfold len in E; cbn in E; lia] |].
  destruct (String.eqb (default "" key) ""); [by destruct l |].
  destruct l eqn:El; [done |]. rewrite <- El in *. unfold ring_of.
  rewrite (Get_same_set 50 None l l'); [reflexivity | lia | intros; by rewrite Hp | done].
Qed.

(** C35: Calls of one user go to one server, whichever gateway makes them. When the
    watchers of the gateways have all seen the store reach the same keys, and no two
    of the servers registered there share a virtual node, then: with no server
    registered every call is refused; otherwise there is one registered server, the
    only owner of the user's id on the ring of the registered servers, to which every
    gateway sends every call under that user's routing key, and a call without a
    routing key is refused before any pool is used. A call leaves its gateway as it
    was in this respect, so this goes on until the store changes. *)
Theorem calls_stick_to_server {W} (h : env (xcs (Args := Args) (Reply := Reply)) W) name K userID :
  let l := elements (Etcd.addresses name K) in
  let key := WithUserRoutingKey userID in
  collision_free (New 50 None) l ->
  (l = [] -> forall xc key m (args : Args) others, watching name K xc ->
     Call (Reply := Reply) key m args others xc = Ret (Err err_no_servers, xc)) /\
  (l <> [] ->
     (exists a, a ∈ l /\ (forall b, ring_owner 50 None l (Itoa userID) b <-> b = a) /\
        forall xc m (args : Args) others, watching name K xc ->
          Call (Reply := Reply) key m args others xc = call_addr a m args others xc) /\
     forall xc m (args : Args) others, watching name K xc ->
       Call (Reply := Reply) None m args others xc = Ret (Err err_key_required, xc)) /\
  (forall xc key m (args : Args) others, watching name K xc ->
     always h (Call (Reply := Reply) key m args others xc) (fun r _ => watching name K r.2)).
Proof.
  intros l key Hfree. split_and!.
  - intros Hl xc k m args others Hw. rewrite (Call_watching name K) by done. by rewrite decide_True.
  - intros Hl. split.
    + exists (Get (ring_of l) (Itoa userID)). split_and!.
      * by apply ring_of_owner.
      * intros b. split.
        -- intros Hb. by apply (ring_owner_unique 50 None l l (Itoa userID));
             [| | | apply Get_ring_owner].
        -- intros ->. by apply Get_ring_owner.
      * intros xc m args others Hw. rewrite (Call_watching name K) by done.
        rewrite decide_False by done. subst key. unfold WithUserRoutingKey, default, id.
        by rewrite (proj2 (String.eqb_neq _ _) (Itoa_nonempty userID)).
    + intros xc m args others Hw. rewrite (Call_watching name K) by done. by rewrite decide_False.
  - intros xc k m args others Hw. rewrite (Call_watching name K) by done.
    repeat case_match; try by apply always_Ret.
    eapply always_impl; [apply call_addr_keeps |]. intros r _ [Ed Em].
    unfold watching. by rewrite Ed, Em.
Qed.
End gateways.
End XClient.

(** Two gateways: one saw a server leave and another come, one started later. *)
Definition demo_client (kvs : list string) (evs : list Etcd.Event) :
    XClient.XClient (D := Etcd.EtcdDiscovery (G := Z)) :=
  XClient.NewXClient (Etcd.watched kvs evs demo_d) ConsistentHashSelect.

(** An environment whose pools give connection 4 and whose calls fail. *)
Definition failing_env : env (XClient.xcs (Args := string) (Reply := string)) nat := fun c w =>
  match c return XClient.xc_res c * nat with
  | XClient.PoolNew _ => (w, S w)
  | XClient.PoolGet _ _ => (Ok 4%nat, w)
  | XClient.PoolPut _ _ | XClient.PoolClose _ | XClient.ClientClose _ => (tt, w)
  | XClient.ClientCall _ _ _ => (Err "EOF", w)
  end.

Lemma broadcast_outcome_witness :
  (forall reply, XClient.Broadcast (Ok ["a"; "b"]) [Ok "x"; Err "EOF"] = Ok reply ->
    (forall r, r ∈ [Ok "x"; Err "EOF"] -> exists v, r = Ok v) /\
    forall v, reply = Some v -> Ok v ∈ [Ok "x"; Err "EOF"]) /\
  (forall x, XClient.Broadcast (Ok ["a"; "b"]) [Ok "x"; Err "EOF"] = Err x ->
    Err x ∈ [Ok "x"; Err "EOF"] \/ Panic x ∈ [Ok "x"; Err "EOF"]) /\
  ((forall r, r ∈ [Ok "x"; Err "EOF"] -> exists v, r = Ok v) ->
    exists reply, XClient.Broadcast (Ok ["a"; "b"]) [Ok "x"; Err "EOF"] = Ok reply).
Proof. apply (XClient.broadcast_outcome ["a"; "b"] [Ok "x"; Err "EOF"]). reflexivity. Defined.

Lemma demo_clients_watch :
  let K := Etcd.stored demo_kvs demo_evs in
  XClient.watching "chat" K (demo_client demo_kvs demo_evs) /\
  XClient.watching "chat" K (demo_client demo_kvs' []).
Proof.
  intros K. split; (split; [done |]).
  - exists demo_d, demo_kvs, demo_evs. split_and!; [done | | exact demo_prefix | done | done].
    apply (bool_decide_unpack _). vm_compute. exact I.
  - exists demo_d, demo_kvs', []. split_and!; [done | | | | done].
    + apply (bool_decide_unpack _). vm_compute. exact I.
    + apply Forall_forall. repeat constructor; (eexists; reflexivity).
    + apply (bool_decide_unpack _). vm_compute. exact I.
Qed.

(** User 42 talks to one of the two servers now registered, from either gateway. *)
Lemma calls_stick_to_server_witness :
  exists a, a ∈ ["tcp@b:2"; "tcp@c:3"] /\
    forall m (args : string) others,
      XClient.Call (Reply := string) (XClient.WithUserRoutingKey 42) m args others (demo_client demo_kvs demo_evs) =
        XClient.call_addr a m args others (demo_client demo_kvs demo_evs) /\
      XClient.Call (Reply := string) (XClient.WithUserRoutingKey 42) m args others (demo_client demo_kvs' []) =
        XClient.call_addr a m args others (demo_client demo_kvs' []).
Proof.
  destruct (XClient.calls_stick_to_server (G := Z) failing_env "chat" (Etcd.stored demo_kvs demo_evs) 42)
    as (_ & H & _).
  - apply NoDup_collision_free. apply (bool_decide_unpack _). vm_compute. exact I.
  - destruct H as [(a & Ha & _ & H) _]; [vm_compute; discriminate |]. exists a. split.
    + apply (proj1 (Forall_forall (.∈ ["tcp@b:2"; "tcp@c:3"]) _)) in Ha; [done |].
      apply (bool_decide_unpack _). vm_compute. exact I.
    + intros m args others. destruct demo_clients_watch. by split; apply H.
Defined.
