(* ===== verification/Mq.v ===== *)
(** * The message broker client: apps/pkg/mq/rabbitmq.go

    The payloads that travel between gateway and logic, the topology each side
    declares, and publishing with broker confirmation. The AMQP library is
    reached by commands. *)
From S2P Require Import Prelude GoStd Effects.
#[local] Open Scope prog_scope.

Definition downExchangeName : string := "gateway.exchange".
Definition uploadExchangeName : string := "message.upload".
Definition deadExchangeName : string := "dead.letter.exchange".
Definition vectorExchangeName : string := "im.vector.index".

Inductive ChatType :=
| ChatTypeSingle
| ChatTypeGroup
| ChatTypeAI
| ChatTypeFriendRequest
| ChatTypeFriendResolved
| ChatTypeFriendDeleted
| ChatTypeGroupCreated
| ChatTypeGroupDissolved
| ChatTypeGroupJoinRequest
| ChatTypeGroupJoinApproved
| ChatTypeGroupMemberChanged
| ChatTypeOther (s : string).

#[export] Instance ChatType_eq_dec : EqDecision ChatType.
Proof. solve_decision. Defined.

Definition chat_type_text (t : ChatType) : string :=
  match t with
  | ChatTypeSingle => "single_chat"
  | ChatTypeGroup => "group_chat"
  | ChatTypeAI => "ai_chat"
  | ChatTypeFriendRequest => "friend_request"
  | ChatTypeFriendResolved => "friend_request_resolved"
  | ChatTypeFriendDeleted => "friend_deleted"
  | ChatTypeGroupCreated => "group_created"
  | ChatTypeGroupDissolved => "group_dissolved"
  | ChatTypeGroupJoinRequest => "group_join_request"
  | ChatTypeGroupJoinApproved => "group_join_approved"
  | ChatTypeGroupMemberChanged => "group_member_changed"
  | ChatTypeOther s => s
  end.

Record DownPayload := mkDown {
  dMsgID : Z;
  dSeqID : Z;
  dGroupID : Z;
  dSenderID : Z;
  dReceiverID : Z;
  dContent : string;
  dChatType : ChatType;
}.

Record UploadPayload := mkUpload {
  uMsgID : Z;
  uSeqID : Z;
  uChatType : ChatType;
  uGroupID : Z;
  uConvID : string;
  uSenderID : Z;
  uReceiverID : Z;
  uContent : string;
}.

Record VectorPayload := mkVector {
  vMsgID : Z;
  vConvID : string;
  vSenderID : Z;
  vSendTime : Z;
  vContent : string;
}.

#[export] Instance UploadPayload_eq_dec : EqDecision UploadPayload.
Proof. solve_decision. Defined.
#[export] Instance DownPayload_eq_dec : EqDecision DownPayload.
Proof. solve_decision. Defined.

Module Rabbit.

Definition chan_id : Type := nat.

Inductive amqp_cmd :=
| Dial (url : string)
| OpenChannel
| ExchangeDeclare (ch : chan_id) (name : string)
| QueueDeclare (ch : chan_id) (name : string) (dead_letter : bool)
| QueueBind (ch : chan_id) (queue key exchange : string)
| Qos (ch : chan_id) (prefetch : Z)
| Consume (ch : chan_id) (queue : string)
| Confirm (ch : chan_id)
| CloseChannel (ch : chan_id)
| CloseConnection
| PublishDeferred (ch : chan_id) (exchange key body : string)   (* persistent *)
| WaitConfirm (confirmation : nat).

Definition amqp_res (c : amqp_cmd) : Type :=
  match c with
  | Dial _ | ExchangeDeclare _ _ | QueueBind _ _ _ _ | Qos _ _ | Confirm _ => outcome unit
  | OpenChannel => outcome chan_id
  | QueueDeclare _ _ _ => outcome string
  | Consume _ _ => outcome nat
  | CloseChannel _ | CloseConnection => unit
  | PublishDeferred _ _ _ _ => outcome (option nat)
  | WaitConfirm _ => outcome bool
  end.

Definition amqp : Sig := mkSig amqp_cmd amqp_res.
Definition dial u : prog amqp (outcome unit) := call (S := amqp) (Dial u).
Definition open_channel : prog amqp (outcome chan_id) := call (S := amqp) OpenChannel.
Definition exchange_declare c n : prog amqp (outcome unit) := call (S := amqp) (ExchangeDeclare c n).
Definition queue_declare c n d : prog amqp (outcome string) := call (S := amqp) (QueueDeclare c n d).
Definition queue_bind c q k e : prog amqp (outcome unit) := call (S := amqp) (QueueBind c q k e).
Definition qos c n : prog amqp (outcome unit) := call (S := amqp) (Qos c n).
Definition consume c q : prog amqp (outcome nat) := call (S := amqp) (Consume c q).
Definition confirm c : prog amqp (outcome unit) := call (S := amqp) (Confirm c).
Definition close_channel c : prog amqp unit := call (S := amqp) (CloseChannel c).
Definition close_connection : prog amqp unit := call (S := amqp) CloseConnection.
Definition publish_deferred c e k b : prog amqp (outcome (option nat)) :=
  call (S := amqp) (PublishDeferred c e k b).
Definition wait_confirm n : prog amqp (outcome bool) := call (S := amqp) (WaitConfirm n).
#[export] Hint Unfold dial open_channel exchange_declare queue_declare queue_bind qos consume
  confirm close_channel close_connection publish_deferred wait_confirm : prog.

(** A sequence of steps that stops at the first error, with the error wrapped. *)
Definition try {A B} (p : prog amqp (outcome A)) (wrap : string -> string)
    (k : A -> prog amqp (outcome B)) : prog amqp (outcome B) :=
  r <- p ;;
  match r with
  | Ok a => k a
  | Err e => Ret (Err (wrap e))
  | Panic m => Ret (Panic m)
  end.

(** The package variables. *)
Record Mq := mkMq {
  connected : bool;
  channel : option chan_id;
  publishChs : list (option chan_id);     (* nil where not yet created *)
  publishIdx : Z;                          (* uint64 *)
}.

Definition publishPoolSize : nat := 20.

(** InitRabbitMQ from the exchanges to the dead-letter queue. *)
Definition init_topology (ch : chan_id) : prog amqp (outcome unit) :=
  let failed what e := what +:+ " 失败: " +:+ e in
  try (exchange_declare ch uploadExchangeName)
    (failed ("声明上行 Exchange [" +:+ uploadExchangeName +:+ "]")) (fun _ =>
  try (exchange_declare ch downExchangeName)
    (failed ("声明下行 Exchange [" +:+ downExchangeName +:+ "]")) (fun _ =>
  try (exchange_declare ch vectorExchangeName)
    (failed ("声明向量 Exchange [" +:+ vectorExchangeName +:+ "]")) (fun _ =>
  try (exchange_declare ch deadExchangeName) (failed "声明死信 Exchange") (fun _ =>
  try (queue_declare ch "dead.letter.queue" false) (failed "声明 死信 Queue") (fun _ =>
  try (queue_bind ch "dead.letter.queue" "dead.letter" deadExchangeName)
    (failed "绑定 Queue 到 Exchange") (fun _ =>
  Ret (Ok tt))))))).

(** The loop that fills the publish pool: [n] channels are missing, and their slots
    stay nil when it ends early. *)
Fixpoint fill_pool (n : nat) (done_ : list (option chan_id)) :
    prog amqp (outcome unit * list (option chan_id)) :=
  match n with
  | O => Ret (Ok tt, done_)
  | S n' =>
      r <- open_channel ;;
      match r with
      | Err e => Ret (Err ("创建 Publish 通道 [" +:+ Itoa (len done_) +:+ "] 失败: " +:+ e), done_ ++ replicate n None)
      | Panic m => Ret (Panic m, done_ ++ replicate n None)
      | Ok ch =>
          c <- confirm ch ;;
          match c with
          | Err e => close_channel ch ;;
              Ret (Err ("启用 Publish Confirm [" +:+ Itoa (len done_) +:+ "] 失败: " +:+ e), done_ ++ replicate n None)
          | Panic m => Ret (Panic m, done_ ++ replicate n None)
          | Ok _ => fill_pool n' (done_ ++ [Some ch])
          end
      end
  end.

(** Each step leaves its result in the globals, also when it or a later one fails:
    the connection and the channel are nil after their own error. *)
Definition InitRabbitMQ (url : string) (m : Mq) : prog amqp (outcome unit * Mq) :=
  c <- dial url ;;
  match c with
  | Err e => Ret (Err ("RabbitMQ 连接失败: " +:+ e), mkMq false (channel m) (publishChs m) (publishIdx m))
  | Panic p => Ret (Panic p, m)
  | Ok _ =>
      c <- open_channel ;;
      match c with
      | Err e => Ret (Err ("创建 Channel 失败: " +:+ e), mkMq true None (publishChs m) (publishIdx m))
      | Panic p => Ret (Panic p, mkMq true (channel m) (publishChs m) (publishIdx m))
      | Ok ch =>
          r <- init_topology ch ;;
          match r with
          | Ok _ =>
              '(r, chs) <- fill_pool publishPoolSize [] ;;
              Ret (r, mkMq true (Some ch) chs (publishIdx m))
          | _ => Ret (r, mkMq true (Some ch) (publishChs m) (publishIdx m))
          end
      end
  end.

(** getPublishCh: the incremented counter picks the channel. *)
Definition getPublishCh (m : Mq) : outcome (option chan_id) * Mq :=
  let i := uint64 (publishIdx m + 1) in
  let m' := mkMq (connected m) (channel m) (publishChs m) i in
  (if len (publishChs m) =? 0 then Panic "integer divide by zero"
   else slice_at (publishChs m) (i mod len (publishChs m)), m').

(** publish: under the channel's mutex, one message and its own confirmation. *)
Definition publish (ch : option chan_id) (exchange routingKey body : string) :
    prog amqp (outcome unit) :=
  match ch with
  | None => Ret (Panic "invalid memory address or nil pointer dereference")
  | Some ch =>
      try (publish_deferred ch exchange routingKey body) (String.append "发布消息失败: ")
        (fun confirmation =>
          match confirmation with
          | None => Ret (Err "发布通道未启用 Publisher Confirm")
          | Some n =>
              try (wait_confirm n) (String.append "等待 Publisher Confirm 超时或失败: ") (fun acked =>
                if acked then Ret (Ok tt) else Ret (Err "RabbitMQ 拒绝消息发布"))
          end)
  end.

Definition publish_to (exchange routingKey body : string) (m : Mq) :
    prog amqp (outcome unit * Mq) :=
  let '(ch, m') := getPublishCh m in
  match ch with
  | Ok ch => r <- publish ch exchange routingKey body ;; Ret (r, m')
  | Err e => Ret (Err e, m')
  | Panic p => Ret (Panic p, m')
  end.

Definition PublishUpload := publish_to uploadExchangeName.
Definition PublishDown := publish_to downExchangeName.
Definition PublishVector := publish_to vectorExchangeName.

(** The three consumers differ in exchange, its name in an error, prefetch and
    dead-letter table. *)
Definition consume_queue (exchange called : string) (prefetch : Z) (dead_letter : bool)
    (queueName routingKey : string) (m : Mq) : prog amqp (outcome nat) :=
  match channel m with
  | None => Ret (Panic "invalid memory address or nil pointer dereference")
  | Some ch =>
      try (queue_declare ch queueName dead_letter) (String.append ("声明 Queue [" +:+ queueName +:+ "] 失败: ")) (fun q =>
      try (queue_bind ch q routingKey exchange) (String.append ("绑定 Queue 到 " +:+ called +:+ " 失败: ")) (fun _ =>
      try (qos ch prefetch) (String.append "设置 QoS 失败: ") (fun _ =>
      try (consume ch q) (String.append "注册消费者失败: ") (fun msgs => Ret (Ok msgs)))))
  end.

Definition ConsumeUploadQueue := consume_queue uploadExchangeName "Exchange" 2000 true.
Definition ConsumeDownQueue := consume_queue downExchangeName "Exchange" 2000 false.
Definition ConsumeVectorQueue := consume_queue vectorExchangeName "vectorExchange" 50 true.

Definition Close (m : Mq) : prog amqp unit :=
  for_each (publishChs m) (fun ch => match ch with Some c => close_channel c | None => Ret tt end) ;;
  (match channel m with Some c => close_channel c | None => Ret tt end) ;;
  (if connected m then close_connection else Ret tt).

(** ** Properties *)

(** Ready to publish: the pool InitRabbitMQ builds when it succeeds. *)
Definition ready (m : Mq) : Prop :=
  connected m = true /\ is_Some (channel m) /\ length (publishChs m) = publishPoolSize /\
  Forall is_Some (publishChs m) /\ is_uint64 (publishIdx m).

Section properties.
Context {W : Type} (h : env amqp W).

Lemma fill_pool_ready n acc :
  Forall is_Some acc ->
  ends (fill_pool n acc) (fun r => length r.2 = (length acc + n)%nat /\ (r.1 = Ok tt -> Forall is_Some r.2)).
Proof.
  revert acc. induction n as [| n IH]; intros acc Hacc; cbn [fill_pool].
  { cbn. split; [lia | done]. }
  unfold open_channel, confirm, close_channel, call. cbn [bind ends].
  intros [ch | e | p]; cbn [bind ends fst snd]; [| rewrite length_app, length_replicate; by split..].
  intros [u | e | p]; cbn [bind ends fst snd]; try intros _; rewrite ?length_app, ?length_replicate; try by split.
  specialize (IH (acc ++ [Some ch])). rewrite length_app, <- Nat.add_assoc in IH. apply IH.
  apply Forall_app. split; [done |]. by constructor.
Qed.

Lemma InitRabbitMQ_ready url m : is_uint64 (publishIdx m) -> ends (InitRabbitMQ url m) (fun x => x.1 = Ok tt -> ready x.2).
Proof.
  intros Hidx. unfold InitRabbitMQ, dial, open_channel, call. cbn [bind ends].
  intros [[] | e | p]; [| done..]. intros [ch | e | p]; [| done..]. cbn [bind].
  eapply ends_bind; [apply ends_True |]. intros [[] | e | p] _; [| done..].
  eapply ends_bind; [by apply (fill_pool_ready publishPoolSize []) |].
  intros [r chs] [Hl Hr]. cbn in *. intros ->. split_and!; cbn; [done | by eexists | done | by apply Hr | done].
Qed.

(** A confirmation of exactly this message. *)
Definition confirmed (exchange key body : string) (tr : list (event amqp)) : Prop :=
  exists ch n, tr = [@ev amqp (PublishDeferred ch exchange key body) (Ok (Some n));
                     @ev amqp (WaitConfirm n) (Ok true)].

Lemma publish_confirmed ch exchange key body :
  always h (publish ch exchange key body) (fun r tr => r = Ok tt -> confirmed exchange key body tr).
Proof.
  destruct ch as [c |]; cbn [publish]; [| by apply always_Ret].
  unfold try. walk; subst; intros; try done. by eexists _, _.
Qed.

(** C11: A nil from a publish means the broker confirmed this very message: after
    InitRabbitMQ has succeeded, PublishUpload, PublishDown and PublishVector
    never run on a missing channel, and when they return nil exactly one
    persistent message - this body, to the right exchange, under the given key -
    was handed over and its own confirmation came back positive. *)
Theorem publish_nil_means_confirmed url m exchange key body :
  is_uint64 (publishIdx m) ->
  always h
    ('(r, m1) <- InitRabbitMQ url m ;;
     match r with
     | Ok _ => '(r2, m2) <- publish_to exchange key body m1 ;; Ret (Some (m1, r2, m2))
     | _ => Ret None
     end)
    (fun x tr => forall m1 r2 m2, x = Some (m1, r2, m2) ->
      ready m1 /\ ready m2 /\ channel m2 = channel m1 /\ publishChs m2 = publishChs m1 /\
      (r2 = Ok tt -> exists tr0 tr1, tr = tr0 ++ tr1 /\ confirmed exchange key body tr1)).
Proof.
  intros Hidx. eapply always_bind; [by apply ends_always, InitRabbitMQ_ready |].
  intros [r m1] tr Hr. simpl in Hr. destruct r as [[] | e | p]; [| by apply always_Ret..].
  specialize (Hr eq_refl). unfold publish_to, getPublishCh.
  destruct Hr as (Hc & Hch & Hlen & Hall & Hi).
  assert (len (publishChs m1) = 20) as Hl by (unfold len; by rewrite Hlen).
  rewrite Hl. simpl.
  destruct (slice_at_ok (publishChs m1) (uint64 (publishIdx m1 + 1) mod 20)) as (c & -> & Hlk).
  { rewrite Hl. apply Z.mod_pos_bound. lia. }
  eapply always_bind; [eapply always_bind; [apply publish_confirmed |] |].
  - intros r2 tr1 H1. apply always_Ret. rewrite app_nil_r.
    instantiate (1 := fun x tr => x = (x.1, mkMq (connected m1) (channel m1) (publishChs m1)
      (uint64 (publishIdx m1 + 1))) /\ (x.1 = Ok tt -> confirmed exchange key body tr)). simpl.
    split; [done | exact H1].
  - intros [r2 m2] tr1 [Heq Hconf]. simpl in *. injection Heq as ->. apply always_Ret.
    intros ? ? ? [= <- <- <-]. unfold ready. simpl.
    pose proof (uint64_range (publishIdx m1 + 1)).
    split_and!; try done. intros Hok. exists tr, tr1. rewrite app_nil_r. auto.
Qed.
End properties.
End Rabbit.

(** A broker that accepts everything, numbering channels and confirmations. *)
Definition broker_env : env Rabbit.amqp nat := fun c w =>
  match c return Rabbit.amqp_res c * nat with
  | Rabbit.Dial _ | Rabbit.ExchangeDeclare _ _ | Rabbit.QueueBind _ _ _ _
  | Rabbit.Qos _ _ | Rabbit.Confirm _ => (Ok tt, w)
  | Rabbit.OpenChannel | Rabbit.Consume _ _ => (Ok w, S w)
  | Rabbit.QueueDeclare _ n _ => (Ok n, w)
  | Rabbit.CloseChannel _ | Rabbit.CloseConnection => (tt, w)
  | Rabbit.PublishDeferred _ _ _ _ => (Ok (Some w), S w)
  | Rabbit.WaitConfirm _ => (Ok true, w)
  end.

Definition fresh_mq : Rabbit.Mq := Rabbit.mkMq false None [] 0.

Lemma publish_nil_means_confirmed_witness :
  always broker_env
    (bind (Rabbit.InitRabbitMQ "amqp://localhost" fresh_mq) (fun x =>
     match x.1 with
     | Ok _ => bind (Rabbit.publish_to uploadExchangeName "upload.all" "{}" x.2)
                 (fun y => Ret (Some (x.2, y.1, y.2)))
     | _ => Ret None
     end))
    (fun x tr => forall m1 r2 m2, x = Some (m1, r2, m2) ->
      Rabbit.ready m1 /\ Rabbit.ready m2 /\ Rabbit.channel m2 = Rabbit.channel m1 /\
      Rabbit.publishChs m2 = Rabbit.publishChs m1 /\
      (r2 = Ok tt -> exists tr0 tr1, tr = tr0 ++ tr1 /\
         Rabbit.confirmed uploadExchangeName "upload.all" "{}" tr1)).
Proof.
  eapply (always_impl broker_env _ _ _
    (Rabbit.publish_nil_means_confirmed broker_env "amqp://localhost" fresh_mq
       uploadExchangeName "upload.all" "{}" ltac:(unfold is_uint64; simpl; lia))).
  auto.
Defined.
