(* ===== verification/Ws.v ===== *)
(** * The websocket gateway: apps/gateway/ws/*.go

    [Module Client] is one connection's send queue and pumps (client.go),
    [Module Routing] the connection map of every gateway with the shared Redis
    route table (manager.go, handler.go), and [Module Gateway] the handlers of
    chat.go, handler.go, mq_consumer.go and reliability.go as programs over what
    they call: Redis, the broker, the logic service and the connections. *)
From S2P Require Import Prelude GoStd Ids Effects Mq.
#[local] Open Scope prog_scope.

(** ** One connection *)

Module Client.

Definition capacity : nat := 1024.

(** Where the WritePump goroutine stands; [Writing m] holds a message. *)
Inductive Pump := Selecting | Writing (m : string) | Stopped.

Record Client := mkClient {
  sendChan : list string;
  closed : bool;               (* the closed channel and the socket *)
  pump : Pump;
  wire : list string;          (* messages written to the socket *)
  accepted : list string;      (* messages SendMessage put in the channel *)
}.

Definition NewClient : Client := mkClient [] false Selecting [] [].

(** Close: once. *)
Definition Close (c : Client) : Client :=
  mkClient (sendChan c) true (pump c) (wire c) (accepted c).

Definition enqueue (m : string) (c : Client) : Client :=
  mkClient (sendChan c ++ [m]) (closed c) (pump c) (wire c) (accepted c ++ [m]).

(** The three-way select: [pick_send] is Go's choice when both cases are ready. *)
Definition SendMessage (pick_send : bool) (m : string) (c : Client) : Client :=
  let can_send := (length (sendChan c) <? capacity)%nat in
  if can_send && (negb (closed c) || pick_send) then enqueue m c
  else if closed c then c
  else Close c.

Definition set_pump (p : Pump) (c : Client) : Client :=
  mkClient (sendChan c) (closed c) p (wire c) (accepted c).

(** WritePump: take a message or see the close signal, write, stop on error. *)
Inductive step : Client -> Client -> Prop :=
| step_send c m pick : step c (SendMessage pick m c)
| step_close c : step c (Close c)
| step_take c m l :
    pump c = Selecting -> sendChan c = m :: l ->
    step c (mkClient l (closed c) (Writing m) (wire c) (accepted c))
| step_write c m :
    pump c = Writing m -> closed c = false ->
    step c (mkClient (sendChan c) (closed c) Selecting (wire c ++ [m]) (accepted c))
| step_write_error c m :
    pump c = Writing m -> step c (Close (set_pump Stopped c))
| step_see_closed c :
    pump c = Selecting -> closed c = true -> step c (Close (set_pump Stopped c)).

Definition in_hand (c : Client) : list string := match pump c with Writing m => [m] | _ => [] end.

Definition Inv (c : Client) : Prop :=
  (length (sendChan c) <= capacity)%nat /\
  (pump c = Stopped -> closed c = true) /\
  exists lost, accepted c = wire c ++ lost ++ in_hand c ++ sendChan c /\
    (pump c <> Stopped -> lost = []).

Lemma Close_Inv c : Inv c -> Inv (Close c).
Proof. intros (Hlen & Hst & lost & Hacc). split_and!; [exact Hlen | done |]. by exists lost. Qed.

Lemma queue_step_Inv c c' : Inv c -> step c c' -> Inv c'.
Proof.
  intros HI Hs. pose proof (Close_Inv c HI) as HC.
  assert (Inv (if closed c then c else Close c)) as HD by (destruct (closed c); assumption).
  pose proof HI as (Hlen & Hst & lost & Hacc & Hlost).
  unfold Inv in *.
  destruct Hs as [c m pick | c | c m l Hp Hc | c m Hp Hcl | c m Hp | c Hp Hcl]; simpl.
  - unfold SendMessage.
    destruct (Nat.ltb_spec (length (sendChan c)) capacity); simpl;
      [destruct (negb (closed c) || pick); simpl | ].
    + split_and!; [rewrite length_app; simpl; lia | done |]. exists lost.
      change (in_hand (enqueue m c)) with (in_hand c).
      split; [| exact Hlost]. by rewrite Hacc, <- !app_assoc.
    + exact HD.
    + exact HD.
  - exact HC.
  - rewrite Hc in Hlen. simpl in Hlen. split_and!; [lia | done |]. exists lost.
    unfold in_hand in *. simpl. rewrite Hp in *. rewrite Hc in Hacc. split; [exact Hacc |].
    intros _. by apply Hlost.
  - split_and!; [done | done |]. exists []. unfold in_hand in *. simpl. rewrite Hp in *.
    rewrite Hlost in Hacc by done. simpl in *. by rewrite Hacc, <- app_assoc.
  - split_and!; [done | done |]. exists (lost ++ [m]). unfold in_hand in *. simpl. rewrite Hp in *.
    split; [| done]. by rewrite Hacc, <- app_assoc.
  - split_and!; [done | done |]. exists lost. unfold in_hand in *. simpl. by rewrite Hp in Hacc.
Qed.

Definition reachable (c : Client) : Prop := rtc step NewClient c.

Lemma queue_reachable_Inv c : reachable c -> Inv c.
Proof.
  apply (invariant_rtc step Inv queue_step_Inv). split_and!; simpl; [lia | done |]. by exists [].
Qed.

(** C40: The send queue delivers in order without blocking: SendMessage never
    blocks or exceeds the buffer; while the write pump runs, the messages written
    to the socket, the one being written and the queued ones are exactly the
    accepted messages, in order, none lost or repeated; SendMessage refuses a
    message only on a closed connection, or closes the connection because the
    buffer is full. *)
Theorem send_queue_fifo c :
  reachable c ->
  (length (sendChan c) <= capacity)%nat /\ wire c `prefix_of` accepted c /\
  (pump c <> Stopped -> accepted c = wire c ++ in_hand c ++ sendChan c) /\
  (forall pick m, let c' := SendMessage pick m c in
    sendChan c' = sendChan c ++ [m] /\ closed c' = closed c \/
    sendChan c' = sendChan c /\ closed c' = true /\
      (closed c = true \/ length (sendChan c) = capacity)).
Proof.
  intros (Hlen & Hst & lost & Hacc & Hlost)%queue_reachable_Inv. split_and!; [done | | |].
  - rewrite Hacc. by eexists.
  - intros Hp. by rewrite Hacc, Hlost.
  - intros pick m. unfold SendMessage.
    destruct (Nat.ltb_spec (length (sendChan c)) capacity) as [Hlt | Hge]; simpl.
    + destruct (closed c) eqn:E; simpl; [destruct pick; simpl; rewrite ?E; auto 6 | by left].
    + right. destruct (closed c) eqn:E; [by auto |]. simpl. split_and!; [done | done |]. right. lia.
Qed.
End Client.

Lemma send_queue_fifo_witness :
  let c := Client.SendMessage true "b" (Client.SendMessage true "a" Client.NewClient) in
  (length (Client.sendChan c) <= Client.capacity)%nat /\ Client.wire c `prefix_of` Client.accepted c /\
  (Client.pump c <> Client.Stopped ->
     Client.accepted c = Client.wire c ++ Client.in_hand c ++ Client.sendChan c) /\
  (forall pick m, let c' := Client.SendMessage pick m c in
    Client.sendChan c' = Client.sendChan c ++ [m] /\ Client.closed c' = Client.closed c \/
    Client.sendChan c' = Client.sendChan c /\ Client.closed c' = true /\
      (Client.closed c = true \/ length (Client.sendChan c) = Client.capacity)).
Proof.
  apply Client.send_queue_fifo. eapply rtc_r; [eapply rtc_r; [apply rtc_refl |] |]; apply Client.step_send.
Defined.

(** ** Connections and routes of all gateways *)

Definition dq : string := String (byte 34) "".
Definition quoted (s : string) : string := dq +:+ s +:+ dq.
Definition field (k v : string) : string := quoted k +:+ ":" +:+ v.

Module Routing.

#[local] Arguments Itoa : simpl never.

(** Connections are numbered; a user is known by the decimal text of its id. *)
Definition conn : Type := nat.

Record World := mkWorld {
  clients : gmap string (gmap string conn);  (* per gateway address: CliMap.Clients *)
  routes : gmap string string;               (* Redis: route:user:<id> *)
  routed : gset conn;                        (* connections whose Handler has set the route *)
  owner : gmap conn (string * string);       (* connection -> user, gateway *)
}.

Definition NewWorld : World := mkWorld ∅ ∅ ∅ ∅.

Definition CliMap_of (w : World) (gw : string) : gmap string conn := default ∅ (clients w !! gw).

(** CliMap.Get, Len *)
Definition Get (w : World) (gw key : string) : option conn := CliMap_of w gw !! key.
Definition Len (w : World) (gw : string) : nat := size (CliMap_of w gw).

(** CliMap.Register: the old connection, if any, is sent a notice and closed, under the
    lock of the map. *)
Inductive call :=
| Tell (c : conn) (text : string)   (* SendMessage *)
| Shut (c : conn).                  (* Close *)
Definition kickMsg : string :=
  "{" +:+ quoted "action" +:+ ": " +:+ quoted "kick" +:+ ", " +:+ quoted "reason" +:+ ": "
      +:+ quoted "logged_in_elsewhere" +:+ "}".
Definition Register (gw : string) (uid : Z) (c : conn) (w : World) : list call * World :=
  let IdStr := Itoa uid in
  (match CliMap_of w gw !! IdStr with Some oldClient => [Tell oldClient kickMsg; Shut oldClient] | None => [] end,
   mkWorld (<[gw := <[IdStr := c]> (CliMap_of w gw)]> (clients w)) (routes w) (routed w)
     (<[c := (IdStr, gw)]> (owner w))).

(** Handler: the route is written after the registration. *)
Definition SetRoute (gw : string) (uid : Z) (c : conn) (w : World) : World :=
  mkWorld (clients w) (<[Itoa uid := gw]> (routes w)) ({[c]} ∪ routed w) (owner w).

(** CliMap.Remove: only the same instance is removed, and its route with it. *)
Definition Remove (gw key : string) (c : conn) (w : World) : World :=
  if bool_decide (CliMap_of w gw !! key = Some c) then
    mkWorld (<[gw := delete key (CliMap_of w gw)]> (clients w)) (delete key (routes w)) (routed w) (owner w)
  else w.

(** The moves of the gateways in [gws]; a connection's ReadPump, and so its
    Remove, starts only after its route was set. *)
Inductive step (gws : gset string) : World -> World -> Prop :=
| step_register w gw uid c :
    gw ∈ gws -> owner w !! c = None -> step gws w (Register gw uid c w).2
| step_set_route w gw uid c :
    owner w !! c = Some (Itoa uid, gw) -> step gws w (SetRoute gw uid c w)
| step_remove w gw key c :
    owner w !! c = Some (key, gw) -> c ∈ routed w -> step gws w (Remove gw key c w).

Definition reachable (gws : gset string) (w : World) : Prop := rtc (step gws) NewWorld w.

(** A connection that is current at its gateway and whose Handler has finished. *)
Definition online (w : World) (gw key : string) (c : conn) : Prop :=
  Get w gw key = Some c /\ c ∈ routed w.

Definition Inv (gw0 : string) (w : World) : Prop :=
  (forall gw key c, Get w gw key = Some c -> owner w !! c = Some (key, gw)) /\
  (forall c key gw, owner w !! c = Some (key, gw) -> gw = gw0) /\
  (forall c, c ∈ routed w -> is_Some (owner w !! c)) /\
  (forall gw key c, online w gw key c -> routes w !! key = Some gw).

Lemma CliMap_of_insert w gw gw' m r s o :
  CliMap_of (mkWorld (<[gw := m]> (clients w)) r s o) gw' =
  if decide (gw = gw') then m else CliMap_of w gw'.
Proof. unfold CliMap_of. simpl. rewrite lookup_insert. by case_decide. Qed.

Lemma routing_step_Inv gw0 w w' : Inv gw0 w -> step {[gw0]} w w' -> Inv gw0 w'.
Proof.
  intros (I1 & I2 & I3 & I4) Hs. unfold Inv, online, Get in *.
  destruct Hs as [w gw uid c Hgw Hc | w gw uid c Hc | w gw key c Hc Hr].
  - apply elem_of_singleton in Hgw as ->. unfold Register. simpl.
    assert (forall c' x, owner w !! c' = Some x -> <[c := (Itoa uid, gw0)]> (owner w) !! c' = Some x) as Ho.
    { intros c' x Hx. rewrite lookup_insert_ne; [done | congruence]. }
    split_and!.
    + intros gw key c'. rewrite CliMap_of_insert. case_decide as Hd; [subst | by intros ?%I1%Ho].
      intros [[<- <-] | [Hne Hk]]%lookup_insert_Some; [by rewrite lookup_insert_eq | by apply Ho, I1].
    + intros c' key gw [[<- [= <- <-]] | [_ H]]%lookup_insert_Some; [done | by eapply I2].
    + intros c' H%I3. apply lookup_insert_is_Some. destruct (decide (c = c')); auto.
    + intros gw key c'. rewrite CliMap_of_insert. intros [Hg Hrt].
      case_decide as Hd; [subst | by eapply I4].
      apply lookup_insert_Some in Hg as [[<- <-] | [Hne Hk]]; [| by eapply I4].
      destruct (I3 c Hrt). congruence.
  - unfold SetRoute. simpl. split_and!; [exact I1 | exact I2 | |].
    + intros c' [->%elem_of_singleton | H]%elem_of_union; [by eexists | by apply I3].
    + intros gw' key c' [Hg Hrt].
      pose proof (I2 _ _ _ Hc) as ->. pose proof (I2 _ _ _ (I1 _ _ _ Hg)) as ->.
      destruct (decide (Itoa uid = key)) as [<- | Hne]; [by rewrite lookup_insert_eq |].
      rewrite lookup_insert_ne by done. apply (I4 _ _ c'). split; [done |].
      apply elem_of_union in Hrt as [->%elem_of_singleton | ?]; [| done].
      apply I1 in Hg. congruence.
  - unfold Remove. case_bool_decide as Hb; [| by split_and!]. simpl. split_and!.
    + intros gw' key' c'. rewrite CliMap_of_insert. case_decide as Hd; [subst | by apply I1].
      intros [_ Hk]%lookup_delete_Some. by apply I1.
    + exact I2.
    + exact I3.
    + intros gw' key' c'. rewrite CliMap_of_insert. pose proof (I2 _ _ _ Hc) as ->.
      intros [Hg Hrt]. case_decide as Hd.
      * subst. apply lookup_delete_Some in Hg as [Hne Hk]. rewrite lookup_delete_ne by done. by eapply I4.
      * pose proof (I2 _ _ _ (I1 gw' key' c' Hg)). congruence.
Qed.

(** Routes and reconnections. With a single gateway, a user who is online -
    registered, Handler finished - always has its route, also when an old
    connection of the same user ends later, because only the current instance is
    removed. With two gateways this fails: a user who reconnects on another
    gateway loses the new route when the old connection ends. *)
Theorem route_of_online_user gw0 w :
  reachable {[gw0]} w ->
  (forall gw key c, online w gw key c -> routes w !! key = Some gw) /\
  (forall c key, Get w gw0 key <> Some c -> Remove gw0 key c w = w) /\
  (forall gw1, gw1 <> gw0 -> exists w' key c, reachable {[gw0; gw1]} w' /\
     online w' gw1 key c /\ routes w' !! key = None).
Proof.
  intros Hr. assert (Inv gw0 w) as (_ & _ & _ & I4).
  { apply (invariant_rtc (step {[gw0]}) (Inv gw0) (routing_step_Inv gw0) NewWorld w); [| exact Hr].
    unfold Inv, online, Get, CliMap_of. simpl.
    split_and!; intros *; rewrite ?lookup_empty; simpl; rewrite ?lookup_empty; try done; set_solver. }
  split_and!; [exact I4 | |].
  - intros c key Hne. unfold Remove. by rewrite bool_decide_false.
  - intros gw1 Hne.
    exists (Remove gw0 "7" 1%nat (SetRoute gw1 7 2%nat (Register gw1 7 2%nat
      (SetRoute gw0 7 1%nat (Register gw0 7 1%nat NewWorld).2)).2)), "7", 2%nat.
    assert (Itoa 7 = "7") as E7 by reflexivity.
    split_and!.
    + unfold reachable.
      eapply rtc_l; [apply (step_register _ _ gw0 7 1%nat); [set_solver | done] |].
      eapply rtc_l; [apply (step_set_route _ _ gw0 7 1%nat); simpl; by rewrite lookup_insert_eq |].
      eapply rtc_l; [apply (step_register _ _ gw1 7 2%nat); [set_solver |] |].
      { simpl. by rewrite lookup_insert_ne. }
      eapply rtc_l; [apply (step_set_route _ _ gw1 7 2%nat); simpl; by rewrite lookup_insert_eq |].
      eapply rtc_l; [apply (step_remove _ _ gw0 "7" 1%nat); simpl |].
      * rewrite lookup_insert_ne by done. rewrite E7. by rewrite lookup_insert_eq.
      * set_solver.
      * apply rtc_refl.
    + unfold online, Get, Remove, CliMap_of. simpl. rewrite E7.
      rewrite lookup_insert_ne, lookup_insert_eq by done. simpl.
      rewrite lookup_insert_eq, bool_decide_true by done. simpl.
      rewrite lookup_insert_ne, lookup_insert_eq by done. simpl.
      rewrite lookup_insert_eq. split; [done | set_solver].
    + unfold Remove, CliMap_of. simpl. rewrite E7.
      rewrite lookup_insert_ne, lookup_insert_eq by done. simpl.
      rewrite lookup_insert_eq, bool_decide_true by done. simpl. by rewrite lookup_delete_eq.
Qed.
End Routing.

Lemma route_of_online_user_witness :
  let w := Routing.SetRoute "g0" 7 1%nat (Routing.Register "g0" 7 1%nat Routing.NewWorld).2 in
  (forall gw key c, Routing.online w gw key c -> Routing.routes w !! key = Some gw) /\
  (forall c key, Routing.Get w "g0" key <> Some c -> Routing.Remove "g0" key c w = w) /\
  (forall gw1, gw1 <> "g0" -> exists w' key c, Routing.reachable {["g0"; gw1]} w' /\
     Routing.online w' gw1 key c /\ Routing.routes w' !! key = None).
Proof.
  apply (Routing.route_of_online_user "g0").
  eapply rtc_l; [apply (Routing.step_register _ _ "g0" 7 1%nat); [set_solver | done] |].
  eapply rtc_l; [apply (Routing.step_set_route _ _ "g0" 7 1%nat); reflexivity |].
  apply rtc_refl.
Defined.

(** ** The handlers *)

Module Gateway.

(** A value of a JSON object built with [map[string]interface{}]. *)
Inductive jv := JInt (z : Z) | JStr (s : string).

(** ClientRequest *)
Record ClientRequest := mkRequest {
  ChatType : string;
  Receiver : Z;
  GroupID : Z;
  Message : string;
}.

(** An unread message as the logic service returns it. *)
Record UnreadMessage := mkUnread {
  mSenderId : Z;
  mContent : string;
  mGroupId : Z;
  mMsgId : Z;
  mSeqId : Z;
  mSendStatus : Z;
}.

Definition client_id : Type := nat.

(** Goroutines a handler starts. *)
Inductive task :=
| TaskSingleChat (uid : Z) (data : string)
| TaskAIChat (uid : Z) (data : string)
| TaskGroupChat (uid : Z) (data : string)
| TaskAIUpload (uid mid sid : Z) (convID message : string)
| TaskDelivered (sender msg : Z)
| TaskWritePump (c : client_id)
| TaskReadPump (c : client_id).

Inductive ws_cmd :=
| RedisIncr (key : string)
| RedisExpire (key : string) (d : Z)
| RedisSet (key value : string) (d : Z)
| SnowflakeGenerate
| PublishUpload (routingKey body : string)
| CliGet (key : string)
| CliRegister (uid : Z) (c : client_id)
| CliRemove (key : string) (c : client_id)
| SendMessage (c : client_id) (msg : string)
| CloseClient (c : client_id)
| ReadMessage (c : client_id)
| HttpGet (url : string)                      (* the lines of the SSE stream *)
| RpcSyncUnread (routingKey : string) (receiver : Z)
| RpcReadMessages (routingKey : string) (receiver : Z)
| RpcAckMessage (routingKey : string) (msg : Z)
| RpcNotifyDelivered (routingKey : string) (msg : Z)
| DeliveryAck
| DeliveryNack (requeue : bool)
| ParseToken (token : string)
| Upgrade
| HttpError (status : Z)
| Go (t : task).

Definition ws_res (c : ws_cmd) : Type :=
  match c with
  | RedisIncr _ | ParseToken _ => outcome Z
  | SnowflakeGenerate => Z
  | RedisSet _ _ _ | PublishUpload _ _ | RpcAckMessage _ _ | RpcNotifyDelivered _ _ => outcome unit
  | CliGet _ => option client_id
  | ReadMessage _ => outcome string
  | HttpGet _ => outcome (list string)
  | RpcSyncUnread _ _ => outcome (list UnreadMessage)
  | RpcReadMessages _ _ => outcome bool
  | Upgrade => outcome client_id
  | RedisExpire _ _ | CliRegister _ _ | CliRemove _ _ | SendMessage _ _ | CloseClient _
  | DeliveryAck | DeliveryNack _ | HttpError _ | Go _ => unit
  end.

Definition ws : Sig := mkSig ws_cmd ws_res.
Definition ask (c : ws_cmd) : prog ws (ws_res c) := call (S := ws) c.
#[local] Hint Unfold ask : prog.

Section gateway.
(** encoding/json on the values the gateway reads and writes. *)
Variable UnmarshalRequest : string -> outcome ClientRequest.
Variable UnmarshalChatType : string -> outcome string.
Variable UnmarshalAck : string -> outcome (Z * Z).
Variable UnmarshalDown : string -> outcome DownPayload.
Variable MarshalUpload : UploadPayload -> outcome string.
Variable MarshalMap : gmap string jv -> outcome string.
(** url.QueryEscape, and the configuration. *)
Variable QueryEscape : string -> string.
Variable AgentAddr GatewayAddr : string.
(** [DefaultReliability != nil] and [onTransportDelivered != nil]. *)
Variable reliable notify : bool.

(** body, _ := json.Marshal(...): an error leaves an empty body. *)
Definition body_of (p : UploadPayload) : string :=
  match MarshalUpload p with Ok b => b | _ => "" end.

Definition route_key (uid : string) : string := "route:user:" +:+ uid.

(** reliability.go *)
Definition GetNextSeqID (conversationID : string) (participantID : Z) : prog ws (outcome Z) :=
  ask (RedisIncr ("seq:" +:+ conversationID +:+ ":" +:+ Itoa participantID)).
Definition GenerateMsgID : prog ws Z := ask SnowflakeGenerate.

(** The numbers of an upward message: [Err] when Redis fails, zeros without a
    reliability manager. *)
Definition number (convID : string) (sender : Z) : prog ws (outcome (Z * Z)) :=
  if reliable then
    seq <- GetNextSeqID convID sender ;;
    match seq with
    | Ok s => m <- GenerateMsgID ;; Ret (Ok (m, s))
    | Err e => Ret (Err e)
    | Panic p => Ret (Panic p)
    end
  else Ret (Ok (0, 0)).

Definition ackMsg (msgID seqID : Z) : string :=
  "{" +:+ field "chat_type" (quoted "server_ack") +:+ "," +:+ field "msg_id" (Itoa msgID) +:+ ","
      +:+ field "seq_id" (Itoa seqID) +:+ "}".

Definition send_to (uid : Z) (msg : string) : prog ws unit :=
  c <- ask (CliGet (Itoa uid)) ;;
  match c with
  | Some c => ask (SendMessage c msg)
  | None => Ret tt
  end.

(** The common tail: publish, and acknowledge to the sender once confirmed. *)
Definition upload (p : UploadPayload) : prog ws unit :=
  r <- ask (PublishUpload "upload.all" (body_of p)) ;;
  match r with
  | Ok _ => send_to (uSenderID p) (ackMsg (uMsgID p) (uSeqID p))
  | _ => Ret tt
  end.

Definition handleSingleChat (senderId : Z) (msgData : string) : prog ws unit :=
  match UnmarshalRequest msgData with
  | Ok req =>
      let convID := if reliable then ConvID.SingleChatConvID senderId (Receiver req) else "" in
      r <- number convID senderId ;;
      match r with
      | Ok (msgID, seqID) =>
          upload (mkUpload msgID seqID ChatTypeSingle 0 convID senderId (Receiver req) (Message req))
      | _ => Ret tt
      end
  | _ => Ret tt
  end.

Definition handleGroupChat (senderId : Z) (msgData : string) : prog ws unit :=
  match UnmarshalRequest msgData with
  | Ok req =>
      let convID := "group_" +:+ Itoa (GroupID req) in
      r <- number convID senderId ;;
      match r with
      | Ok (msgID, seqID) =>
          upload (mkUpload msgID seqID ChatTypeGroup (GroupID req) convID senderId (Receiver req) (Message req))
      | _ => Ret tt
      end
  | _ => Ret tt
  end.

(** The stream of the agent: chunks go out as they come, until [DONE]. *)
Definition chunkMsg (chunk : string) : string :=
  "{" +:+ field "chat_type" (quoted "ai_chunk") +:+ "," +:+ field "from" (quoted "-1") +:+ ","
      +:+ field "content" (quoted chunk) +:+ "}".
Definition endMsg : string :=
  "{" +:+ field "chat_type" (quoted "ai_end") +:+ "," +:+ field "from" (quoted "-1") +:+ "}".

Fixpoint scan (c : client_id) (lines : list string) : prog ws unit :=
  match lines with
  | [] => Ret tt
  | line :: rest =>
      if String.eqb line "data: [DONE]" then ask (SendMessage c endMsg)
      else if HasPrefix line "data: " then
        ask (SendMessage c (chunkMsg (TrimPrefix line "data: "))) ;; scan c rest
      else scan c rest
  end.

(** The upload of an AI message, in its own goroutine. *)
Definition ai_upload (senderId mid sid : Z) (convID message : string) : prog ws unit :=
  upload (mkUpload mid sid ChatTypeAI 0 convID senderId (-1) message).

Definition handlerAIChat (senderId : Z) (msgData : string) : prog ws unit :=
  match UnmarshalRequest msgData with
  | Ok req =>
      resp <- ask (HttpGet (AgentAddr +:+ "/agent/chat/sse?user_id=" +:+ Itoa senderId +:+
                            "&message=" +:+ QueryEscape (Message req))) ;;
      match resp with
      | Ok lines =>
          let convID := "ai_" +:+ Itoa senderId in
          r <- number convID senderId ;;
          let '(msgID, seqID) := match r with Ok x => x | _ => (0, 0) end in
          ask (Go (TaskAIUpload senderId msgID seqID convID (Message req))) ;;
          c <- ask (CliGet (Itoa senderId)) ;;
          match c with
          | Some c => scan c lines
          | None => Ret tt
          end
      | _ => Ret tt
      end
  | _ => Ret tt
  end.

Definition readReceipt (userId msgId : Z) : string :=
  "{" +:+ quoted "chat_type" +:+ ": " +:+ quoted "ack" +:+ ", " +:+ quoted "read_receipt" +:+ ": "
      +:+ Itoa userId +:+ ", " +:+ quoted "msg_id" +:+ ": " +:+ Itoa msgId +:+ "}".

Definition handleAck (userId : Z) (msgData : string) : prog ws unit :=
  match UnmarshalAck msgData with
  | Ok (msgId, senderId) =>
      r <- ask (RpcAckMessage (Itoa userId) msgId) ;;
      match r with
      | Ok _ => send_to senderId (readReceipt userId msgId)
      | _ => Ret tt
      end
  | _ => Ret tt
  end.

Definition NotifyDeliveredRPC (senderID msgID : Z) : prog ws unit :=
  ask (RpcNotifyDelivered (Itoa senderID) msgID) ;; Ret tt.

(** ** From the broker to the connection: mq_consumer.go *)

Definition marshalChatPush (msgID seqID groupID from : Z) (content : string) : outcome string :=
  MarshalMap {[ "chat_type" := JStr "chat_push"; "msg_id" := JInt msgID; "seq_id" := JInt seqID;
    "from" := JInt from; "group_id" := JInt groupID; "content" := JStr content;
    "session_type" := JInt (if 0 <? groupID then 2 else 1) ]}.
Definition marshalFriendRequestPush (from : Z) (content : string) : outcome string :=
  MarshalMap {[ "chat_type" := JStr "friend_request"; "from" := JInt from; "apply_msg" := JStr content ]}.
Definition marshalFriendResolvedPush (from : Z) (action : string) : outcome string :=
  MarshalMap {[ "chat_type" := JStr "friend_request_resolved"; "from" := JInt from; "action" := JStr action ]}.
Definition marshalFriendDeletedPush (from : Z) : outcome string :=
  MarshalMap {[ "chat_type" := JStr "friend_deleted"; "from" := JInt from ]}.
Definition marshalGroupCreatedPush (from groupID : Z) (groupName : string) : outcome string :=
  MarshalMap {[ "chat_type" := JStr "group_created"; "from" := JInt from; "group_id" := JInt groupID;
    "group_name" := JStr groupName ]}.
Definition marshalGroupDissolvedPush (groupID : Z) : outcome string :=
  MarshalMap {[ "chat_type" := JStr "group_dissolved"; "group_id" := JInt groupID ]}.
Definition marshalGroupJoinRequestPush (from groupID : Z) : outcome string :=
  MarshalMap {[ "chat_type" := JStr "group_join_request"; "from" := JInt from; "group_id" := JInt groupID ]}.
Definition marshalGroupJoinApprovedPush (groupID : Z) : outcome string :=
  MarshalMap {[ "chat_type" := JStr "group_join_approved"; "group_id" := JInt groupID ]}.
Definition marshalGroupMemberChangedPush (groupID : Z) : outcome string :=
  MarshalMap {[ "chat_type" := JStr "group_member_changed"; "group_id" := JInt groupID ]}.

Definition push_of (p : DownPayload) : outcome string :=
  let t := dChatType p in
  if decide (t = ChatTypeFriendRequest) then marshalFriendRequestPush (dSenderID p) (dContent p)
  else if decide (t = ChatTypeFriendResolved) then marshalFriendResolvedPush (dSenderID p) (dContent p)
  else if decide (t = ChatTypeFriendDeleted) then marshalFriendDeletedPush (dSenderID p)
  else if decide (t = ChatTypeGroupCreated) then
    marshalGroupCreatedPush (dSenderID p) (dGroupID p) (dContent p)
  else if decide (t = ChatTypeGroupDissolved) then marshalGroupDissolvedPush (dGroupID p)
  else if decide (t = ChatTypeGroupJoinRequest) then
    marshalGroupJoinRequestPush (dSenderID p) (dGroupID p)
  else if decide (t = ChatTypeGroupJoinApproved) then marshalGroupJoinApprovedPush (dGroupID p)
  else if decide (t = ChatTypeGroupMemberChanged) then marshalGroupMemberChangedPush (dGroupID p)
  else marshalChatPush (dMsgID p) (dSeqID p) (dGroupID p) (dSenderID p) (dContent p).

Definition handleMQDelivery (body : string) : prog ws unit :=
  match UnmarshalDown body with
  | Ok payload =>
      client <- ask (CliGet (Itoa (dReceiverID payload))) ;;
      match client with
      | None => ask DeliveryAck
      | Some client =>
          match push_of payload with
          | Ok pushMsg =>
              ask (SendMessage client pushMsg) ;;
              ask DeliveryAck ;;
              if notify then ask (Go (TaskDelivered (dSenderID payload) (dMsgID payload)))
              else Ret tt
          | _ => ask (DeliveryNack false)
          end
      end
  | _ => ask (DeliveryNack false)
  end.

(** consumeLoop over the deliveries of a channel. *)
Definition consumeLoop (msgs : list string) : prog ws unit := for_each msgs handleMQDelivery.

(** ** The life of a connection: handler.go and client.go *)

Definition unread_json (m : UnreadMessage) : outcome string :=
  MarshalMap {[ "chat_type" := JStr "sync_unread"; "sender_id" := JInt (mSenderId m);
    "content" := JStr (mContent m); "group_id" := JInt (mGroupId m); "msg_id" := JInt (mMsgId m);
    "seq_id" := JInt (mSeqId m); "send_status" := JInt (mSendStatus m) ]}.

Definition syncMessage (userID : Z) (c : client_id) : prog ws (outcome unit) :=
  let routingKey := Itoa userID in
  r <- ask (RpcSyncUnread routingKey userID) ;;
  match r with
  | Ok [] => Ret (Ok tt)
  | Ok messages =>
      for_each messages (fun m =>
        match unread_json m with
        | Ok text => ask (SendMessage c text)
        | _ => Ret tt
        end) ;;
      ask (RpcReadMessages routingKey userID) ;;
      Ret (Ok tt)             (* the inner err shadows the one returned *)
  | Err e => Ret (Err e)
  | Panic p => Ret (Panic p)
  end.

Definition StatusUnauthorized : Z := 401.

Definition Handler (token : string) : prog ws unit :=
  if String.eqb token "" then ask (HttpError StatusUnauthorized)
  else
    u <- ask (ParseToken token) ;;
    match u with
    | Ok userID =>
        conn <- ask Upgrade ;;
        match conn with
        | Ok c =>
            ask (CliRegister userID c) ;;
            ask (RedisSet (route_key (Itoa userID)) GatewayAddr (24 * 3600 * 10 ^ 9)) ;;
            ask (Go (TaskWritePump c)) ;;
            err <- syncMessage userID c ;;
            match err with
            | Ok _ => ask (Go (TaskReadPump c))
            | _ => Ret tt
            end
        | _ => Ret tt
        end
    | _ => ask (HttpError StatusUnauthorized)
    end.

Definition pongMsg : string := "{" +:+ field "action" (quoted "pong") +:+ "}".

(** One message of the client; [false] ends the read loop. *)
Definition dispatch (uid : Z) (c : client_id) (msgData : string) : prog ws bool :=
  match UnmarshalChatType msgData with
  | Ok t =>
      (if String.eqb t "ping" then
         ask (RedisExpire (route_key (Itoa uid)) (30 * 10 ^ 9)) ;; ask (SendMessage c pongMsg)
       else if String.eqb t "single_chat" then ask (Go (TaskSingleChat uid msgData))
       else if String.eqb t "ai_chat" then ask (Go (TaskAIChat uid msgData))
       else if String.eqb t "group_chat" then ask (Go (TaskGroupChat uid msgData))
       else if String.eqb t "ack" then handleAck uid msgData
       else Ret tt) ;;
      Ret true
  | _ => Ret false
  end.

(** [n] bounds the messages read; [false] when the loop would read on. *)
Fixpoint read_loop (n : nat) (uid : Z) (c : client_id) : prog ws bool :=
  match n with
  | O => Ret false
  | S n' =>
      m <- ask (ReadMessage c) ;;
      match m with
      | Ok msgData =>
          go_on <- dispatch uid c msgData ;;
          (if go_on : bool then read_loop n' uid c else Ret true)
      | _ => Ret true
      end
  end.

Definition ReadPump (n : nat) (uid : Z) (c : client_id) : prog ws bool :=
  over <- read_loop n uid c ;;
  (if over : bool then
     (* the deferred function *)
     ask (CliRemove (Itoa uid) c) ;; ask (CloseClient c) ;; Ret true
   else Ret false).

(** ** What a trace did *)

Definition sends : list (event ws) -> list (client_id * string) :=
  view (S := ws) (fun e => match e with existT (SendMessage c m) _ => [(c, m)] | _ => [] end).
Definition publishes : list (event ws) -> list string :=
  view (S := ws) (fun e => match e with existT (PublishUpload _ b) _ => [b] | _ => [] end).
Definition seqs : list (event ws) -> list Z :=
  view (S := ws) (fun e => match e with existT (RedisIncr _) (Ok s) => [s] | _ => [] end).
Definition ids : list (event ws) -> list Z :=
  view (S := ws) (fun e => match e with existT SnowflakeGenerate m => [m] | _ => [] end).
(** The acknowledgements of deliveries: [None] an ack, [Some requeue] a nack. *)
Definition acks : list (event ws) -> list (option bool) :=
  view (S := ws) (fun e => match e with existT DeliveryAck _ => [None]
                            | existT (DeliveryNack r) _ => [Some r] | _ => [] end).
Definition spawned : list (event ws) -> list task :=
  view (S := ws) (fun e => match e with existT (Go t) _ => [t] | _ => [] end).

(** Every message sent follows a confirmed publish, and fits it. *)
Fixpoint acks_follow (fits : string -> string -> Prop) (confirmed : option string)
    (tr : list (event ws)) : Prop :=
  match tr with
  | [] => True
  | existT (PublishUpload _ b) (Ok _) :: tr' => acks_follow fits (Some b) tr'
  | existT (SendMessage _ m) _ :: tr' =>
      match confirmed with Some b => fits b m | None => False end /\ acks_follow fits confirmed tr'
  | _ :: tr' => acks_follow fits confirmed tr'
  end.

(** What the agent answered, what was synchronised, registered, routed, removed. *)
Definition fetched : list (event ws) -> list (outcome (list string)) :=
  view (S := ws) (fun e => match e with existT (HttpGet _) r => [r] | _ => [] end).
Definition synced : list (event ws) -> list (list UnreadMessage) :=
  view (S := ws) (fun e => match e with existT (RpcSyncUnread _ _) (Ok l) => [l] | _ => [] end).
Definition registered : list (event ws) -> list (Z * client_id) :=
  view (S := ws) (fun e => match e with existT (CliRegister u c) _ => [(u, c)] | _ => [] end).
Definition routed_to : list (event ws) -> list string :=
  view (S := ws) (fun e => match e with existT (RedisSet k _ _) _ => [k] | _ => [] end).
Definition removed : list (event ws) -> list (string * client_id) :=
  view (S := ws) (fun e => match e with existT (CliRemove k c) _ => [(k, c)]
                            | existT (CloseClient c) _ => [("", c)] | _ => [] end).

Context {W : Type} (h : env ws W).

(** The body published and the acknowledgement sent carry the same numbers: the
    answers of Redis and of the snowflake generator in this very run. *)
Definition same_message (mk : Z -> Z -> UploadPayload) (tr : list (event ws)) (body ack : string) : Prop :=
  exists m q, body = body_of (mk m q) /\ ack = ackMsg m q /\
    (reliable = true -> ids tr = [m] /\ seqs tr = [q]).

Lemma number_upload conv sender (mk : Z -> Z -> UploadPayload) :
  (forall m q, uMsgID (mk m q) = m /\ uSeqID (mk m q) = q) ->
  always h (r <- number conv sender ;;
            match r with Ok (m, q) => upload (mk m q) | _ => Ret tt end)
    (fun _ tr => acks_follow (same_message mk tr) None tr /\ (length (publishes tr) <= 1)%nat).
Proof.
  intros Hmk. unfold number, upload, send_to, GetNextSeqID, GenerateMsgID.
  destruct reliable eqn:Hr; walk; subst; simpl; (split; [| lia]); try done;
    repeat match goal with |- _ /\ True => split; [| done] end; try done;
    match goal with |- context [mk ?m ?q] => destruct (Hmk m q) as [E1 E2]; exists m, q end;
    rewrite E1, E2; split_and!; try done; intros; congruence.
Qed.

Definition single_payload (sender : Z) (req : ClientRequest) (m q : Z) : UploadPayload :=
  mkUpload m q ChatTypeSingle 0
    (if reliable then ConvID.SingleChatConvID sender (Receiver req) else "")
    sender (Receiver req) (Message req).
Definition group_payload (sender : Z) (req : ClientRequest) (m q : Z) : UploadPayload :=
  mkUpload m q ChatTypeGroup (GroupID req) ("group_" +:+ Itoa (GroupID req))
    sender (Receiver req) (Message req).

(** C8: The gateway acknowledges a message only after the broker has confirmed
    it: whatever Redis, the broker and the connections answer, a single or group
    chat message is published at most once; the sender gets a server_ack only
    after that publish returned nil; and the ack carries the message id and the
    sequence number under which the message was published - those the snowflake
    generator and Redis gave in this run. A failed INCR publishes nothing. *)
Theorem server_ack_after_confirm sender data :
  let good := fun payload tr => forall req, UnmarshalRequest data = Ok req ->
    acks_follow (same_message (payload sender req) tr) None tr /\ (length (publishes tr) <= 1)%nat in
  always h (handleSingleChat sender data) (fun _ tr => good single_payload tr) /\
  always h (handleGroupChat sender data) (fun _ tr => good group_payload tr) /\
  (forall e, UnmarshalRequest data = Err e ->
    always h (handleSingleChat sender data) (fun _ tr => tr = []) /\
    always h (handleGroupChat sender data) (fun _ tr => tr = [])).
Proof.
  intros good. unfold handleSingleChat, handleGroupChat.
  destruct (UnmarshalRequest data) as [req | e | p].
  - split_and!; [| | done].
    + eapply always_impl; [by apply (number_upload _ sender (single_payload sender req)) |].
      intros ? tr H r Er. simplify_eq. exact H.
    + eapply always_impl; [by apply (number_upload _ sender (group_payload sender req)) |].
      intros ? tr H r Er. simplify_eq. exact H.
  - split_and!; [by apply always_Ret | by apply always_Ret |]. intros e' _. split; by apply always_Ret.
  - split_and!; [by apply always_Ret | by apply always_Ret | done].
Qed.

(** C9: Every delivery from the broker is settled exactly once and never requeued:
    a batch gets one acknowledgement per delivery; a delivery is rejected only
    when its body or its push cannot be encoded; a message goes at most once, to
    the connection of its receiver, before its ack; and the delivered
    notification starts only when the message went out - a receiver who is not
    connected here is acknowledged without any push. *)
Theorem delivery_settled_once :
  (forall msgs, always h (consumeLoop msgs) (fun _ tr => length (acks tr) = length msgs)) /\
  (forall body, always h (handleMQDelivery body) (fun _ tr =>
    match UnmarshalDown body with
    | Ok p =>
        (acks tr = [None] \/ acks tr = [Some false] /\ (forall t, push_of p <> Ok t)) /\
        (sends tr = [] \/ exists c t, sends tr = [(c, t)] /\ push_of p = Ok t /\
           (exists r1 r2 tl, tr = @ev ws (CliGet (Itoa (dReceiverID p))) (Some c) ::
             @ev ws (SendMessage c t) r1 :: @ev ws DeliveryAck r2 :: tl)) /\
        (sends tr = [] -> spawned tr = []) /\
        (sends tr <> [] -> notify = true -> spawned tr = [TaskDelivered (dSenderID p) (dMsgID p)])
    | _ => acks tr = [Some false] /\ sends tr = [] /\ spawned tr = []
    end)).
Proof.
  assert (forall body, always h (handleMQDelivery body) (fun _ tr => length (acks tr) = 1%nat)) as H1.
  { intros body. unfold handleMQDelivery. destruct (UnmarshalDown body); walk; done. }
  split.
  - unfold consumeLoop. induction msgs as [| m msgs IH]; simpl; [by apply always_Ret |].
    eapply always_bind; [apply H1 |]. simpl. intros _ tr Htr.
    eapply always_impl; [apply IH |]. simpl. intros ? tr' Htr'.
    unfold acks in *. rewrite view_app, length_app. lia.
  - intros body. unfold handleMQDelivery. destruct (UnmarshalDown body) as [p | e | e]; [| walk; done..].
    unfold ask, call. cbn [bind]. apply always_Do. intros [c |]; cbn [bind].
    + destruct (push_of p) as [t | e | e] eqn:E; cbn [bind].
      * walk; (split_and!; [by left | | done | congruence || done]); right; exists c, t;
          (split_and!; [done | done |]); by eexists _, _, _.
      * walk. split_and!; [by right | by left | done | done].
      * walk. split_and!; [by right | by left | done | done].
    + walk. split_and!; [by left | by left | done | done].
Qed.

(** The messages the lines of a stream become. *)
Fixpoint stream_messages (lines : list string) : list string :=
  match lines with
  | [] => []
  | line :: rest =>
      if String.eqb line "data: [DONE]" then [endMsg]
      else if HasPrefix line "data: " then
        chunkMsg (TrimPrefix line "data: ") :: stream_messages rest
      else stream_messages rest
  end.

Lemma scan_sends c lines :
  always h (scan c lines) (fun _ tr => sends tr = (fun m => (c, m)) <$> stream_messages lines /\
    publishes tr = [] /\ spawned tr = [] /\ fetched tr = []).
Proof.
  induction lines as [| line rest IH]; simpl; [by apply always_Ret |].
  destruct (String.eqb line "data: [DONE]"); [walk; done |].
  destruct (HasPrefix line "data: "); [| exact IH].
  unfold ask, call. cbn [bind]. apply always_Do. intros u. cbn [bind].
  eapply always_impl; [exact IH |]. intros ? tr (H1 & H2 & H3 & H4).
  unfold sends, publishes, spawned, fetched, view in *. rewrite !bind_cons, H1, H2, H3, H4. done.
Qed.

(** The stream of the agent reaches the user in order: when the agent answers
    and the user is connected, the pushed messages are exactly the data lines of
    the stream, in order, each once, ended by ai_end at [DONE] and nothing after
    it; the message is stored by one background upload, also when numbering fails
    or the user is gone; that upload acknowledges only after the confirm. *)
Theorem ai_stream_in_order sender data :
  always h (handlerAIChat sender data) (fun _ tr =>
    match UnmarshalRequest data with
    | Ok req =>
        exists resp, fetched tr = [resp] /\
        match resp with
        | Ok lines =>
            (exists m q, spawned tr = [TaskAIUpload sender m q ("ai_" +:+ Itoa sender) (Message req)]) /\
            (sends tr = [] \/ exists c, sends tr = (fun m => (c, m)) <$> stream_messages lines)
        | _ => spawned tr = [] /\ sends tr = []
        end
    | _ => tr = []
    end) /\
  (forall m q conv message, always h (ai_upload sender m q conv message) (fun _ tr =>
    acks_follow (fun b a => b = body_of (mkUpload m q ChatTypeAI 0 conv sender (-1) message) /\
                            a = ackMsg m q) None tr)).
Proof.
  split; [| intros; unfold ai_upload, upload, send_to; walk; simpl; try done; by split].
  unfold handlerAIChat. destruct (UnmarshalRequest data) as [req | e | p]; [| by apply always_Ret..].
  unfold ask, call. cbn [bind]. apply always_Do.
  intros [lines | e | p]; cbn [bind]; [| apply always_Ret; by eexists..].
  eapply always_bind.
  { instantiate (1 := fun _ tr => fetched tr = [] /\ spawned tr = [] /\ sends tr = []).
    unfold number, GetNextSeqID, GenerateMsgID. destruct reliable; walk; done. }
  intros r tr (F1 & F2 & F3). destruct (match r with Ok x => x | _ => (0, 0) end) as [m q]. cbn [bind].
  apply always_Do. intros u. cbn [bind]. apply always_Do. intros [c |]; cbn [bind].
  - eapply always_impl; [apply scan_sends |]. intros ? tr' (S1 & S2 & S3 & S4).
    exists (Ok lines). unfold sends, fetched, spawned, view in *.
    rewrite !bind_cons, !bind_app, !bind_cons, F1, F2, F3, S1, S3, S4. simpl.
    split_and!; [done | by exists m, q | right; by exists c].
  - apply always_Ret. exists (Ok lines). unfold sends, fetched, spawned, view in *.
    rewrite !bind_cons, !bind_app, !bind_cons, F1, F2, F3. simpl.
    split_and!; [done | by exists m, q | by left].
Qed.

(** A trace that only talks: no connection is registered, routed or removed and
    no goroutine starts. *)
Definition quiet (tr : list (event ws)) : Prop :=
  registered tr = [] /\ routed_to tr = [] /\ removed tr = [] /\ spawned tr = [].

Lemma quiet_app t t' : quiet t -> quiet t' -> quiet (t ++ t').
Proof.
  intros (H1 & H2 & H3 & H4) (H1' & H2' & H3' & H4').
  unfold quiet, registered, routed_to, removed, spawned in *.
  by rewrite !view_app, H1, H2, H3, H4, H1', H2', H3', H4'.
Qed.

Definition unread_sends (c : client_id) (messages : list UnreadMessage) : list (client_id * string) :=
  omap (fun m => match unread_json m with Ok t => Some (c, t) | _ => None end) messages.

Lemma unread_loop c messages :
  always h (for_each messages (fun m =>
      match unread_json m with Ok text => ask (SendMessage c text) | _ => Ret tt end))
    (fun _ tr => sends tr = unread_sends c messages /\ synced tr = [] /\ quiet tr).
Proof.
  induction messages as [| m messages IH]; cbn [for_each]; [by apply always_Ret |].
  unfold unread_sends in *. cbn [omap list_omap].
  destruct (unread_json m) as [t | e | p]; cbn [bind]; try exact IH.
  unfold ask, call. cbn [bind]. apply always_Do. intros u. cbn [bind].
  eapply always_impl; [exact IH |]. intros ? tr (H1 & H2 & H3). split_and!.
  - unfold sends, view in *. rewrite bind_cons, H1. done.
  - unfold synced, view in *. rewrite bind_cons, H2. done.
  - by apply (quiet_app [_]).
Qed.

Lemma syncMessage_spec uid c :
  always h (syncMessage uid c) (fun r tr => quiet tr /\
    forall messages, synced tr = [messages] -> messages <> [] ->
      sends tr = unread_sends c messages /\
      exists tr0 x, tr = tr0 ++ [@ev ws (RpcReadMessages (Itoa uid) uid) x]).
Proof.
  unfold syncMessage, ask, call. cbn [bind]. apply always_Do.
  intros [[| m ms] | e | p]; cbn [bind];
    [apply always_Ret; split; [done | by intros ? [= <-]] | |
     apply always_Ret; by split | apply always_Ret; by split].
  eapply always_bind; [apply unread_loop |]. intros ? tr (H1 & H2 & H3). cbn [bind].
  apply always_Do. intros r. apply always_Ret. split.
  - apply (quiet_app [_]); [done |]. by apply quiet_app.
  - unfold synced, sends, view in *. intros messages Hs _.
    rewrite bind_cons, bind_app, H2 in Hs. simpl in Hs. injection Hs as <-. split.
    + rewrite bind_cons, bind_app, H1. simpl. by rewrite app_nil_r.
    + eexists (_ :: tr), r. reflexivity.
Qed.

Lemma dispatch_quiet uid c data :
  always h (dispatch uid c data) (fun _ tr => removed tr = []).
Proof. unfold dispatch, handleAck, send_to. walk; done. Qed.

Lemma read_loop_quiet n uid c : always h (read_loop n uid c) (fun _ tr => removed tr = []).
Proof.
  induction n as [| n IH]; cbn [read_loop]; [by apply always_Ret |].
  unfold ask, call. cbn [bind]. apply always_Do. intros [data | e | p]; cbn [bind]; [| by apply always_Ret..].
  eapply always_bind; [apply dispatch_quiet |]. intros go_on tr Htr.
  destruct go_on.
  - eapply always_impl; [exact IH |]. intros ? tr' Htr'. unfold removed, view in *.
    by rewrite bind_cons, bind_app, Htr, Htr'.
  - apply always_Ret. unfold removed, view in *. by rewrite bind_cons, bind_app, Htr.
Qed.

(** The life of a connection: an unauthenticated request reaches neither the
    connection map nor Redis; a connection is registered and routed before its
    pumps start; unread messages are handed to the connection before they are
    marked read - and they are marked read even if the connection dropped them;
    when the synchronisation fails no reader starts, so nothing ever removes or
    closes the registered connection; a reader that ends removes and closes it. *)
Theorem connection_lifecycle token n uid c :
  always h (Handler token) (fun _ tr =>
    (registered tr = [] -> routed_to tr = [] /\ spawned tr = [] /\ sends tr = []) /\
    (forall u c', registered tr = [(u, c')] ->
      routed_to tr = [route_key (Itoa u)] /\
      (spawned tr = [TaskWritePump c'; TaskReadPump c'] \/
       spawned tr = [TaskWritePump c'] /\ removed tr = [])) /\
    (length (registered tr) <= 1)%nat) /\
  always h (syncMessage uid c) (fun r tr =>
    forall messages, synced tr = [messages] -> messages <> [] ->
      sends tr = unread_sends c messages /\
      exists tr0 x, tr = tr0 ++ [@ev ws (RpcReadMessages (Itoa uid) uid) x]) /\
  always h (ReadPump n uid c) (fun over tr =>
    removed tr = if over : bool then [(Itoa uid, c); ("", c)] else []).
Proof.
  split_and!.
  - unfold Handler. destruct (String.eqb token ""); [walk; simpl; split_and!; done || lia |].
    unfold ask, call. cbn [bind]. apply always_Do.
    intros [u | e | p]; cbn [bind]; [| walk; simpl; split_and!; done || lia..].
    apply always_Do. intros [c' | e | p]; cbn [bind]; [| apply always_Ret; simpl; split_and!; done || lia..].
    do 3 (apply always_Do; intros ?; cbn [bind]).
    eapply always_bind; [apply syncMessage_spec |]. intros err tr [(Q1 & Q2 & Q3 & Q4) _].
    unfold registered, routed_to, removed, spawned, view in *.
    destruct err as [[] | e | p]; [apply always_Do; intros ? | |]; apply always_Ret;
      rewrite !bind_cons, !bind_app, Q1, Q2, Q3, Q4; simpl; (split_and!; [done | | lia]);
      intros ? ? [= <- <-]; auto.
  - eapply always_impl; [apply syncMessage_spec |]. intros ? tr [_ H]. exact H.
  - unfold ReadPump. eapply always_bind; [apply read_loop_quiet |]. intros [|] tr Htr; cbn beta iota.
    + walk. unfold removed in *. by rewrite view_app, Htr.
    + apply always_Ret. by rewrite app_nil_r.
Qed.
End gateway.
End Gateway.
