(* ===== verification/Dao.v ===== *)
(** * The tables of the logic service: apps/logic/models and apps/logic/dao

    The rows, and every statement the dao package sends to the database as an
    operation on the tables: the WHERE clause is the predicate, the update the
    function on the row, the unique index of the model the key of the table.
    Surrogate auto-increment columns that no statement reads are left out. *)
From S2P Require Import Prelude GoStd.

(** ** models/messages.go, models/friends_conversations.go, ... *)

Definition SendStatusUnsent : Z := 0.
Definition SendStatusSentUnconfirmed : Z := 1.
Definition SendStatusSentConfirmed : Z := 2.

Record Messages := mkMessages {
  mMsgId : Z;
  mSeqId : Z;
  mSenderId : Z;
  mReceiverId : Z;
  mGroupId : Z;
  mIsRead : bool;
  mContent : string;
  mSendStatus : Z;
  mCreateTime : Z;
}.

Record Conversation := mkConversation {
  cOwnerID : Z;
  cTargetID : Z;
  cSessionType : Z;
  cUnreadCount : Z;
  cLastMessageID : Z;
  cIsTop : bool;
  cUpdateTime : Z;
}.

Record Friend := mkFriend {
  fUserID : Z;
  fFriendID : Z;
  fStatus : Z;            (* 0 pending, 1 accepted, 2 refused *)
  fRemark : string;
  fCreateTime : Z;
  fUpdateTime : Z;
}.

Record Group := mkGroup {
  gGroupID : Z;
  gGroupName : string;
  gOwnerID : Z;
  gCreatorID : Z;
  gCreateTime : Z;
}.

Record GroupMember := mkGroupMember {
  gmGroupID : Z;
  gmUserID : Z;
  gmRole : Z;
  gmJoinTime : Z;
}.

Record User := mkUser {
  usUserId : Z;
  usUsername : string;
  usPassword : string;
  usNickname : string;
  usAvatar : string;
}.

Record PendingFriendRequest := mkPending {
  pUserID : Z;
  pUsername : string;
  pNickname : string;
  pAvatar : string;
  pRemark : string;
  pCreatedAt : Z;
}.

#[export] Instance Messages_eq_dec : EqDecision Messages.
Proof. solve_decision. Defined.
#[export] Instance Conversation_eq_dec : EqDecision Conversation.
Proof. solve_decision. Defined.
#[export] Instance Friend_eq_dec : EqDecision Friend.
Proof. solve_decision. Defined.

(** The tables, each keyed by its primary key or unique index. *)
Record Store := mkStore {
  messages : gmap Z Messages;                    (* primary key msg_id *)
  conversations : gmap (Z * Z * Z) Conversation; (* uk_owner_target *)
  friends : gmap (Z * Z) Friend;                 (* uk_user_friend *)
  groups : gmap Z Group;                         (* primary key group_id *)
  group_members : gmap (Z * Z) GroupMember;      (* uk_group_user *)
  users : gmap Z User;                           (* primary key user_id *)
  group_seq : Z;                                 (* the auto-increment counter of groups *)
}.

Definition empty_store : Store := mkStore ∅ ∅ ∅ ∅ ∅ ∅ 0.

Definition set_messages (t : gmap Z Messages) (s : Store) : Store :=
  mkStore t (conversations s) (friends s) (groups s) (group_members s) (users s) (group_seq s).
Definition set_conversations (t : gmap (Z * Z * Z) Conversation) (s : Store) : Store :=
  mkStore (messages s) t (friends s) (groups s) (group_members s) (users s) (group_seq s).
Definition set_friends (t : gmap (Z * Z) Friend) (s : Store) : Store :=
  mkStore (messages s) (conversations s) t (groups s) (group_members s) (users s) (group_seq s).
Definition set_groups (t : gmap Z Group) (s : Store) : Store :=
  mkStore (messages s) (conversations s) (friends s) t (group_members s) (users s) (group_seq s).
Definition set_group_members (t : gmap (Z * Z) GroupMember) (s : Store) : Store :=
  mkStore (messages s) (conversations s) (friends s) (groups s) t (users s) (group_seq s).
Definition next_group (s : Store) : Store :=
  mkStore (messages s) (conversations s) (friends s) (groups s) (group_members s) (users s) (group_seq s + 1).

(** ** Statements: SELECT, UPDATE and DELETE with a WHERE clause *)

Definition select {K V} `{Countable K} (p : V -> bool) (t : gmap K V) : list V :=
  List.filter p (map_to_list t).*2.
Definition update {K V} `{Countable K} (p : V -> bool) (f : V -> V) (t : gmap K V) : gmap K V :=
  (fun v => if p v then f v else v) <$> t.
Definition delete_rows {K V} `{Countable K} (p : V -> bool) (t : gmap K V) : gmap K V :=
  filter (fun kv => p kv.2 = false) t.

Section statements.
Context {K V : Type} `{Countable K}.
Implicit Types (t : gmap K V) (p : V -> bool).

Lemma elem_of_select p t v : v ∈ select p t <-> p v = true /\ exists k, t !! k = Some v.
Proof.
  unfold select. rewrite list_elem_of_In, filter_In, <- list_elem_of_In, list_elem_of_fmap. split.
  - intros [((k & w) & -> & Hin%elem_of_map_to_list) Hp]. split; [done | by exists k].
  - intros [Hp [k Hk]]. split; [| done]. exists (k, v). split; [done |]. by apply elem_of_map_to_list.
Qed.

Lemma lookup_update p f t k :
  update p f t !! k = (fun v => if p v then f v else v) <$> t !! k.
Proof. apply lookup_fmap. Qed.

Lemma lookup_delete_rows p t k v :
  delete_rows p t !! k = Some v <-> t !! k = Some v /\ p v = false.
Proof. unfold delete_rows. by rewrite map_lookup_filter_Some. Qed.
End statements.

(** What a statement returns: its rows, or an error with its text. *)
Inductive answer (A : Type) : Type :=
| Success (a : A)
| Failure (e : string).
Arguments Success {A} _.
Arguments Failure {A} _.

(** MySQL's text for error 1062. *)
Definition duplicate_entry : string := "Error 1062 (23000): Duplicate entry".

(** ** dao/messages.go *)

(** autoCreateTime: a zero create_time becomes the time of the INSERT. *)
Definition stamp (now : Z) (m : Messages) : Messages :=
  mkMessages (mMsgId m) (mSeqId m) (mSenderId m) (mReceiverId m) (mGroupId m) (mIsRead m) (mContent m)
    (mSendStatus m) (if mCreateTime m =? 0 then now else mCreateTime m).

Definition InsertMessage (now : Z) (m : Messages) (s : Store) : answer unit * Store :=
  match messages s !! mMsgId m with
  | Some _ => (Failure duplicate_entry, s)
  | None => (Success tt, set_messages (<[mMsgId m := stamp now m]> (messages s)) s)
  end.

(** One INSERT of several rows: all of them or none. *)
Fixpoint insert_all (now : Z) (ms : list Messages) (t : gmap Z Messages) : option (gmap Z Messages) :=
  match ms with
  | [] => Some t
  | m :: ms' =>
      match t !! mMsgId m with
      | Some _ => None
      | None => insert_all now ms' (<[mMsgId m := stamp now m]> t)
      end
  end.

Definition BatchInsertMessages (now : Z) (ms : list Messages) (s : Store) : answer unit * Store :=
  match ms with
  | [] => (Success tt, s)
  | _ =>
      match insert_all now ms (messages s) with
      | Some t => (Success tt, set_messages t s)
      | None => (Failure duplicate_entry, s)
      end
  end.

Definition unread_of (receiverId : Z) (m : Messages) : bool :=
  (mReceiverId m =? receiverId) && negb (mIsRead m).

Definition GetUnreadMessages (receiverId : Z) (s : Store) : answer (list Messages) :=
  Success (select (unread_of receiverId) (messages s)).

Definition mark_read (m : Messages) : Messages :=
  mkMessages (mMsgId m) (mSeqId m) (mSenderId m) (mReceiverId m) (mGroupId m) true (mContent m)
    SendStatusSentConfirmed (mCreateTime m).
Definition mark_transported (m : Messages) : Messages :=
  mkMessages (mMsgId m) (mSeqId m) (mSenderId m) (mReceiverId m) (mGroupId m) (mIsRead m) (mContent m)
    SendStatusSentUnconfirmed (mCreateTime m).

Definition MarkMessagesAsRead (receiverId : Z) (s : Store) : Store :=
  set_messages (update (unread_of receiverId) mark_read (messages s)) s.
Definition MarkMessageAsRead (msgId : Z) (s : Store) : Store :=
  set_messages (update (fun m => (mMsgId m =? msgId) && negb (mIsRead m)) mark_read (messages s)) s.
Definition MarkSendTransportDelivered (msgId : Z) (s : Store) : Store :=
  set_messages (update (fun m => (mMsgId m =? msgId) && (mSendStatus m =? SendStatusUnsent))
    mark_transported (messages s)) s.

Definition maxChatLimit : Z := 200.
Definition normalize_limit (limit : Z) : Z :=
  if (limit <=? 0) || (maxChatLimit <? limit) then 20 else limit.

(** ORDER BY msg_id DESC *)
Definition newer (m m' : Messages) : Prop := mMsgId m' <= mMsgId m.
#[export] Instance newer_dec m m' : Decision (newer m m').
Proof. unfold newer. apply _. Defined.

Definition order_desc (ms : list Messages) : list Messages := merge_sort newer ms.

Definition between (userID targetID : Z) (m : Messages) : bool :=
  (mGroupId m =? 0) &&
  (((mSenderId m =? userID) && (mReceiverId m =? targetID)) ||
   ((mSenderId m =? targetID) && (mReceiverId m =? userID))).
Definition before (cursor : Z) (m : Messages) : bool :=
  if 0 <? cursor then mMsgId m <? cursor else true.

Definition page (p : Messages -> bool) (cursor limit : Z) (s : Store) : list Messages :=
  take (Z.to_nat (normalize_limit limit))
    (order_desc (select (fun m => p m && before cursor m) (messages s))).

Definition GetChatHistory (userID targetID cursor limit : Z) (s : Store) : answer (list Messages) :=
  Success (page (between userID targetID) cursor limit s).
Definition of_group (groupID userID : Z) (m : Messages) : bool :=
  (mGroupId m =? groupID) && (mReceiverId m =? userID).
Definition GetGroupHistory (groupID userID cursor limit : Z) (s : Store) : answer (list Messages) :=
  Success (page (of_group groupID userID) cursor limit s).

Definition DeleteMessagesBetween (userA userB : Z) (s : Store) : Store :=
  set_messages (delete_rows (between userA userB) (messages s)) s.
Definition DeleteGroupMessages (groupID : Z) (s : Store) : Store :=
  set_messages (delete_rows (fun m => mGroupId m =? groupID) (messages s)) s.

(** ** dao/conversations.go *)

Definition later (c c' : Conversation) : Prop := cUpdateTime c' <= cUpdateTime c.
#[export] Instance later_dec c c' : Decision (later c c').
Proof. unfold later. apply _. Defined.

Definition GetConversations (ownerID : Z) (s : Store) : answer (list Conversation) :=
  Success (merge_sort later (select (fun c => cOwnerID c =? ownerID) (conversations s))).

(** INSERT ... ON DUPLICATE KEY UPDATE *)
Definition UpsertConversation (now ownerID targetID sessionType unreadDelta lastMsgID : Z) (s : Store) : Store :=
  let key := (ownerID, targetID, sessionType) in
  let row :=
    match conversations s !! key with
    | None => mkConversation ownerID targetID sessionType unreadDelta lastMsgID false now
    | Some c =>
        mkConversation ownerID targetID sessionType (cUnreadCount c + unreadDelta)
          (if 0 <? lastMsgID then lastMsgID else cLastMessageID c) (cIsTop c) now
    end in
  set_conversations (<[key := row]> (conversations s)) s.

Definition is_conversation (ownerID targetID sessionType : Z) (c : Conversation) : bool :=
  (cOwnerID c =? ownerID) && (cTargetID c =? targetID) && (cSessionType c =? sessionType).

Definition ClearUnread (now ownerID targetID sessionType : Z) (s : Store) : Store :=
  set_conversations (update (is_conversation ownerID targetID sessionType)
    (fun c => mkConversation (cOwnerID c) (cTargetID c) (cSessionType c) 0 (cLastMessageID c) (cIsTop c) now)
    (conversations s)) s.

Definition DeleteConversation (userID friendID sessionType : Z) (s : Store) : Store :=
  set_conversations (delete_rows (fun c =>
    is_conversation userID friendID sessionType c || is_conversation friendID userID sessionType c)
    (conversations s)) s.

Definition DeleteGroupConversations (groupID : Z) (s : Store) : Store :=
  set_conversations (delete_rows (fun c => (cTargetID c =? groupID) && (cSessionType c =? 2))
    (conversations s)) s.

(** ** dao/friends.go *)

Definition ApplyFriend (now userID friendID : Z) (remark : string) (s : Store) : answer unit * Store :=
  match friends s !! (userID, friendID) with
  | Some _ => (Failure duplicate_entry, s)
  | None =>
      (Success tt, set_friends (<[(userID, friendID) := mkFriend userID friendID 0 remark now now]> (friends s)) s)
  end.

Definition either_way (userID friendID : Z) (f : Friend) : bool :=
  ((fUserID f =? userID) && (fFriendID f =? friendID)) ||
  ((fUserID f =? friendID) && (fFriendID f =? userID)).

Definition ResolveFriend (now userID friendID status : Z) (s : Store) : Store :=
  set_friends (update (fun f => either_way userID friendID f && (fStatus f =? 0))
    (fun f => mkFriend (fUserID f) (fFriendID f) status (fRemark f) (fCreateTime f) now) (friends s)) s.

Definition GetFriendList (userID : Z) (s : Store) : answer (list Friend) :=
  Success (select (fun f => (fUserID f =? userID) || (fFriendID f =? userID)) (friends s)).

Definition DeleteFriend (userID friendID : Z) (s : Store) : Store :=
  set_friends (delete_rows (either_way userID friendID) (friends s)) s.

Definition recent (r r' : PendingFriendRequest) : Prop := pCreatedAt r' <= pCreatedAt r.
#[export] Instance recent_dec r r' : Decision (recent r r').
Proof. unfold recent. apply _. Defined.

(** SELECT ... FROM friends f JOIN users u ON u.user_id = f.user_id *)
Definition GetPendingFriendRequests (userID : Z) (s : Store) : answer (list PendingFriendRequest) :=
  Success (merge_sort recent (omap (fun f =>
    (fun u => mkPending (fUserID f) (usUsername u) (usNickname u) (usAvatar u) (fRemark f) (fCreateTime f))
      <$> users s !! fUserID f)
    (select (fun f => (fFriendID f =? userID) && (fStatus f =? 0)) (friends s)))).

(** ** dao/group_members.go, dao/groups.go, dao/users.go *)

Definition GetGroupMemberModels (groupID : Z) (s : Store) : answer (list GroupMember) :=
  Success (select (fun m => gmGroupID m =? groupID) (group_members s)).
Definition GetGroupMembers (groupID : Z) (s : Store) : answer (list Z) :=
  Success (gmUserID <$> select (fun m => gmGroupID m =? groupID) (group_members s)).
Definition GetUserGroups (userID : Z) (s : Store) : answer (list GroupMember) :=
  Success (select (fun m => gmUserID m =? userID) (group_members s)).

Definition InsertGroupMember (now : Z) (groupID userID : Z) (s : Store) : answer unit * Store :=
  match group_members s !! (groupID, userID) with
  | Some _ => (Failure duplicate_entry, s)
  | None =>
      (Success tt, set_group_members
        (<[(groupID, userID) := mkGroupMember groupID userID 0 now]> (group_members s)) s)
  end.
Definition DeleteGroupMember (groupID userID : Z) (s : Store) : Store :=
  set_group_members (delete_rows (fun m => (gmGroupID m =? groupID) && (gmUserID m =? userID))
    (group_members s)) s.
Definition DeleteAllGroupMembers (groupID : Z) (s : Store) : Store :=
  set_group_members (delete_rows (fun m => gmGroupID m =? groupID) (group_members s)) s.

(** tx.Create(&members): one INSERT. *)
Fixpoint insert_members (now groupID : Z) (ids : list Z) (t : gmap (Z * Z) GroupMember)
    : option (gmap (Z * Z) GroupMember) :=
  match ids with
  | [] => Some t
  | uid :: ids' =>
      match t !! (groupID, uid) with
      | Some _ => None
      | None => insert_members now groupID ids' (<[(groupID, uid) := mkGroupMember groupID uid 0 now]> t)
      end
  end.

(** The transaction: the group and its members, or neither; the counter is not
    rolled back. *)
Definition CreateGroup (now : Z) (groupName : string) (ownerID creatorID : Z) (memberIDs : list Z)
    (s : Store) : answer Z * Store :=
  let s0 := next_group s in
  let gid := group_seq s0 in
  match memberIDs with
  | [] => (Failure "empty slice found", s0)
  | _ =>
      match insert_members now gid memberIDs (group_members s) with
      | Some t =>
          (Success gid, set_group_members t
             (set_groups (<[gid := mkGroup gid groupName ownerID creatorID now]> (groups s)) s0))
      | None => (Failure duplicate_entry, s0)
      end
  end.

Definition GetGroupByID (groupID : Z) (s : Store) : answer Group :=
  match groups s !! groupID with
  | Some g => Success g
  | None => Failure "record not found"
  end.
Definition GetGroupsByIDs (groupIDs : list Z) (s : Store) : answer (list Group) :=
  Success (select (fun g => bool_decide (gGroupID g ∈ groupIDs)) (groups s)).
(** [like]: LIKE, pattern first, under the collation of the column. *)
Definition SearchGroups (like : string -> string -> bool) (keyword : string) (s : Store) : answer (list Group) :=
  Success (select (fun g => like ("%" +:+ keyword +:+ "%") (gGroupName g)) (groups s)).
Definition DeleteGroup (groupID : Z) (s : Store) : Store :=
  set_groups (delete_rows (fun g => gGroupID g =? groupID) (groups s)) s.

Definition GetUsersByIDs (userIDs : list Z) (s : Store) : answer (gmap Z User) :=
  match userIDs with
  | [] => Success ∅
  | _ => Success (list_to_map ((fun u => (usUserId u, u)) <$>
           select (fun u => bool_decide (usUserId u ∈ userIDs)) (users s)))
  end.

(** ** Statements as commands *)

Inductive dao_cmd :=
| DInsertMessage (m : Messages)
| DBatchInsertMessages (ms : list Messages)
| DGetUnreadMessages (receiverId : Z)
| DMarkMessagesAsRead (receiverId : Z)
| DMarkMessageAsRead (msgId : Z)
| DMarkSendTransportDelivered (msgId : Z)
| DGetChatHistory (userID targetID cursor limit : Z)
| DGetGroupHistory (groupID userID cursor limit : Z)
| DDeleteMessagesBetween (userA userB : Z)
| DDeleteGroupMessages (groupID : Z)
| DGetConversations (ownerID : Z)
| DUpsertConversation (ownerID targetID sessionType unreadDelta lastMsgID : Z)
| DClearUnread (ownerID targetID sessionType : Z)
| DDeleteConversation (userID friendID sessionType : Z)
| DDeleteGroupConversations (groupID : Z)
| DApplyFriend (userID friendID : Z) (remark : string)
| DResolveFriend (userID friendID status : Z)
| DGetFriendList (userID : Z)
| DDeleteFriend (userID friendID : Z)
| DGetPendingFriendRequests (userID : Z)
| DGetGroupMembers (groupID : Z)
| DGetGroupMemberModels (groupID : Z)
| DGetUserGroups (userID : Z)
| DInsertGroupMember (groupID userID : Z)
| DDeleteGroupMember (groupID userID : Z)
| DDeleteAllGroupMembers (groupID : Z)
| DCreateGroup (groupName : string) (ownerID creatorID : Z) (memberIDs : list Z)
| DGetGroupByID (groupID : Z)
| DGetGroupsByIDs (groupIDs : list Z)
| DSearchGroups (like : string -> string -> bool) (keyword : string)
| DDeleteGroup (groupID : Z)
| DGetUsersByIDs (userIDs : list Z).

Definition dao_answer (c : dao_cmd) : Type :=
  match c with
  | DGetUnreadMessages _ | DGetChatHistory _ _ _ _ | DGetGroupHistory _ _ _ _ => list Messages
  | DGetConversations _ => list Conversation
  | DGetFriendList _ => list Friend
  | DGetPendingFriendRequests _ => list PendingFriendRequest
  | DGetGroupMembers _ => list Z
  | DGetGroupMemberModels _ | DGetUserGroups _ => list GroupMember
  | DCreateGroup _ _ _ _ => Z
  | DGetGroupByID _ => Group
  | DGetGroupsByIDs _ | DSearchGroups _ _ => list Group
  | DGetUsersByIDs _ => gmap Z User
  | _ => unit
  end.
Definition dao_res (c : dao_cmd) : Type := answer (dao_answer c).

(** What the statement does when the database executes it. *)
Definition exec (now : Z) (c : dao_cmd) (s : Store) : dao_res c * Store :=
  match c with
  | DInsertMessage m => InsertMessage now m s
  | DBatchInsertMessages ms => BatchInsertMessages now ms s
  | DGetUnreadMessages r => (GetUnreadMessages r s, s)
  | DMarkMessagesAsRead r => (Success tt, MarkMessagesAsRead r s)
  | DMarkMessageAsRead i => (Success tt, MarkMessageAsRead i s)
  | DMarkSendTransportDelivered i => (Success tt, MarkSendTransportDelivered i s)
  | DGetChatHistory u t c l => (GetChatHistory u t c l s, s)
  | DGetGroupHistory g u c l => (GetGroupHistory g u c l s, s)
  | DDeleteMessagesBetween a b => (Success tt, DeleteMessagesBetween a b s)
  | DDeleteGroupMessages g => (Success tt, DeleteGroupMessages g s)
  | DGetConversations o => (GetConversations o s, s)
  | DUpsertConversation o t ty d l => (Success tt, UpsertConversation now o t ty d l s)
  | DClearUnread o t ty => (Success tt, ClearUnread now o t ty s)
  | DDeleteConversation u f ty => (Success tt, DeleteConversation u f ty s)
  | DDeleteGroupConversations g => (Success tt, DeleteGroupConversations g s)
  | DApplyFriend u f r => ApplyFriend now u f r s
  | DResolveFriend u f st => (Success tt, ResolveFriend now u f st s)
  | DGetFriendList u => (GetFriendList u s, s)
  | DDeleteFriend u f => (Success tt, DeleteFriend u f s)
  | DGetPendingFriendRequests u => (GetPendingFriendRequests u s, s)
  | DGetGroupMembers g => (GetGroupMembers g s, s)
  | DGetGroupMemberModels g => (GetGroupMemberModels g s, s)
  | DGetUserGroups u => (GetUserGroups u s, s)
  | DInsertGroupMember g u => InsertGroupMember now g u s
  | DDeleteGroupMember g u => (Success tt, DeleteGroupMember g u s)
  | DDeleteAllGroupMembers g => (Success tt, DeleteAllGroupMembers g s)
  | DCreateGroup n o c ms => CreateGroup now n o c ms s
  | DGetGroupByID g => (GetGroupByID g s, s)
  | DGetGroupsByIDs gs => (GetGroupsByIDs gs s, s)
  | DSearchGroups like k => (SearchGroups like k s, s)
  | DDeleteGroup g => (Success tt, DeleteGroup g s)
  | DGetUsersByIDs us => (GetUsersByIDs us s, s)
  end.

(** ** What the statements keep *)

Definition row_ok (m : Messages) : Prop :=
  0 <= mSendStatus m <= 2 /\ (mSendStatus m = SendStatusSentConfirmed -> mIsRead m = true).

(** Every row sits under its primary key and has a legal state. *)
Definition store_ok (s : Store) : Prop :=
  forall k m, messages s !! k = Some m -> mMsgId m = k /\ row_ok m.

(** The service inserts only legal rows and resolves with accept or refuse. *)
Definition cmd_ok (c : dao_cmd) : Prop :=
  match c with
  | DInsertMessage m => row_ok m
  | DBatchInsertMessages ms => Forall row_ok ms
  | DResolveFriend _ _ status => status = 1 \/ status = 2
  | _ => True
  end.

Definition db_step (s s' : Store) : Prop :=
  exists now c, cmd_ok c /\ s' = (exec now c s).2.

(** A step that does not delete the row [id]. *)
Definition keeps (id : Z) (s s' : Store) : Prop := db_step s s' /\ is_Some (messages s' !! id).

(** The same message, later: only the state columns change, and only forward. *)
Definition progress (m m' : Messages) : Prop :=
  mMsgId m' = mMsgId m /\ mSeqId m' = mSeqId m /\ mSenderId m' = mSenderId m /\
  mReceiverId m' = mReceiverId m /\ mGroupId m' = mGroupId m /\ mContent m' = mContent m /\
  mCreateTime m' = mCreateTime m /\
  (mIsRead m = true -> mIsRead m' = true) /\ mSendStatus m <= mSendStatus m'.

#[export] Instance progress_preorder : PreOrder progress.
Proof.
  split; [intros m; unfold progress; split_and!; auto; lia |].
  unfold progress. intros a b c H1 H2. destruct_and!. split_and!; try congruence; auto; lia.
Qed.

Lemma stamp_ok now m : row_ok m -> row_ok (stamp now m).
Proof. done. Qed.

Lemma insert_all_lookup now ms t t' k m :
  insert_all now ms t = Some t' -> t' !! k = Some m ->
  t !! k = Some m \/ exists m0, m0 ∈ ms /\ m = stamp now m0 /\ k = mMsgId m0.
Proof.
  revert t. induction ms as [| m0 ms IH]; intros t; simpl; [intros [= ->]; by left |].
  destruct (t !! mMsgId m0); [done |]. intros H Hk.
  destruct (IH _ H Hk) as [Hi | (m1 & Hm & -> & ->)].
  - apply lookup_insert_Some in Hi as [[<- <-] | [_ Hi]]; [| by left].
    right. exists m0. split_and!; [by left | done..].
  - right. exists m1. split_and!; [by right | done..].
Qed.

Lemma insert_all_keeps now ms t t' k m :
  insert_all now ms t = Some t' -> t !! k = Some m -> t' !! k = Some m.
Proof.
  revert t. induction ms as [| m0 ms IH]; intros t; simpl; [by intros [= ->] |].
  destruct (t !! mMsgId m0) eqn:E; [done |]. intros H Hk. apply (IH _ H).
  rewrite lookup_insert_ne by congruence. done.
Qed.

Lemma insert_all_stores now ms t t' m :
  insert_all now ms t = Some t' -> m ∈ ms -> t' !! mMsgId m = Some (stamp now m).
Proof.
  revert t. induction ms as [| m0 ms IH]; intros t; simpl; [intros _ Hm; by apply not_elem_of_nil in Hm |].
  destruct (t !! mMsgId m0) eqn:E; [done |]. intros H [-> | Hm]%elem_of_cons; [| by eapply IH].
  eapply insert_all_keeps; [exact H |]. apply lookup_insert_eq.
Qed.

(** Every statement, seen from one row of messages. *)
Lemma exec_row now c s k m' :
  store_ok s -> cmd_ok c -> messages (exec now c s).2 !! k = Some m' ->
  (exists m, messages s !! k = Some m /\ progress m m' /\ (row_ok m -> row_ok m')) \/
  (messages s !! k = None /\ mMsgId m' = k /\ row_ok m').
Proof.
  intros Hs Hc Hk.
  assert (forall p f, (forall m, p m = true -> row_ok m -> progress m (f m) /\ row_ok (f m)) ->
    update p f (messages s) !! k = Some m' ->
    exists m, messages s !! k = Some m /\ progress m m' /\ (row_ok m -> row_ok m')) as Hup.
  { intros p f Hf H. rewrite lookup_update in H. apply fmap_Some in H as (m & Hm & ->).
    destruct (Hs _ _ Hm) as [_ Hok]. exists m. split; [done |].
    destruct (p m) eqn:E; [destruct (Hf m E Hok); by split | by split]. }
  destruct c; simpl in *; try (left; exists m'; split_and!; [exact Hk | reflexivity | done]).
  - unfold InsertMessage in Hk. destruct (messages s !! mMsgId m) eqn:E; simpl in Hk;
      [left; exists m'; by split_and! |].
    apply lookup_insert_Some in Hk as [[<- <-] | [_ Hk]]; [| left; exists m'; by split_and!].
    right. split_and!; [done | done | by apply stamp_ok].
  - unfold BatchInsertMessages in Hk.
    destruct ms as [| m0 ms]; [left; exists m'; by split_and! |].
    destruct (insert_all now (m0 :: ms) (messages s)) as [t |] eqn:E; cbn [snd messages set_messages] in Hk;
      [| left; exists m'; by split_and!].
    destruct (messages s !! k) as [m |] eqn:Ek.
    + rewrite (insert_all_keeps _ _ _ _ _ _ E Ek) in Hk. injection Hk as <-. left. by exists m.
    + right. destruct (insert_all_lookup _ _ _ _ _ _ E Hk) as [? | (m1 & Hm & -> & ->)]; [congruence |].
      split_and!; [done | done |]. apply stamp_ok. by apply (proj1 (Forall_forall _ _) Hc).
  - left. eapply Hup; [| exact Hk]. intros m [_ Hr%negb_true_iff]%andb_true_iff [H1 H2].
    unfold progress, row_ok, mark_read, SendStatusSentConfirmed. simpl. split_and!; auto; lia.
  - left. eapply Hup; [| exact Hk]. intros m [_ Hr%negb_true_iff]%andb_true_iff [H1 H2].
    unfold progress, row_ok, mark_read, SendStatusSentConfirmed. simpl. split_and!; auto; lia.
  - left. eapply Hup; [| exact Hk]. intros m [_ Hr%Z.eqb_eq]%andb_true_iff [H1 H2].
    unfold progress, row_ok, mark_transported, SendStatusSentUnconfirmed, SendStatusSentConfirmed,
      SendStatusUnsent in *. simpl. split_and!; auto; lia.
  - apply lookup_delete_rows in Hk as [Hk _]. left. exists m'. by split_and!.
  - apply lookup_delete_rows in Hk as [Hk _]. left. exists m'. by split_and!.
  - unfold ApplyFriend in Hk. left. exists m'. case_match; by split_and!.
  - unfold InsertGroupMember in Hk. left. exists m'. case_match; by split_and!.
  - unfold CreateGroup in Hk. left. exists m'. repeat case_match; by split_and!.
Qed.

Lemma db_step_ok s s' : store_ok s -> db_step s s' -> store_ok s'.
Proof.
  intros Hs (now & c & Hc & ->) k m Hk.
  destruct (exec_row now c s k m Hs Hc Hk) as [(m0 & H0 & Hp & Hr) | (_ & ? & ?)]; [| done].
  destruct (Hs _ _ H0) as [H1 H2]. split; [| by apply Hr]. destruct Hp as [-> _]. done.
Qed.

Lemma keeps_progress id s s' m :
  store_ok s -> rtc (keeps id) s s' -> messages s !! id = Some m ->
  exists m', messages s' !! id = Some m' /\ progress m m'.
Proof.
  intros Hs H. revert m Hs. induction H as [s | s s1 s2 [Hstep [m1 Hm1]] _ IH]; intros m Hs Hm.
  - by exists m.
  - pose proof (db_step_ok _ _ Hs Hstep) as Hs1. destruct Hstep as (now & c & Hc & ->).
    destruct (exec_row now c s id m1 Hs Hc Hm1) as [(m0 & H0 & Hp & _) | (Hn & _)]; [| congruence].
    rewrite Hm in H0. injection H0 as <-. destruct (IH m1 Hs1 Hm1) as (m2 & H2 & Hp2).
    exists m2. split; [done |]. by etrans.
Qed.

(** ** Pages of a history *)

#[export] Instance newer_trans : Transitive newer.
Proof. unfold newer. intros a b c. lia. Qed.
#[export] Instance newer_total : Total newer.
Proof. unfold newer. intros a b. lia. Qed.

Section pages.
Variable s : Store.
Hypothesis Hs : store_ok s.

Lemma select_same_id (p : Messages -> bool) m m' :
  m ∈ select p (messages s) -> m' ∈ select p (messages s) -> mMsgId m = mMsgId m' -> m = m'.
Proof.
  rewrite !elem_of_select. intros [_ [k Hk]] [_ [k' Hk']] E.
  destruct (Hs _ _ Hk) as [<- _], (Hs _ _ Hk') as [<- _]. rewrite E in Hk. congruence.
Qed.

Lemma NoDup_select (p : Messages -> bool) : NoDup (select p (messages s)).
Proof.
  unfold select. apply NoDup_ListNoDup, List.NoDup_filter, NoDup_ListNoDup.
  apply (NoDup_fmap_1 mMsgId).
  assert (mMsgId <$> (map_to_list (messages s)).*2 = (map_to_list (messages s)).*1) as ->;
    [| apply NoDup_fst_map_to_list].
  rewrite <- list_fmap_compose. apply list_fmap_ext. intros i [k m] H%list_elem_of_lookup_2.
  apply elem_of_map_to_list, Hs in H as [H _]. exact H.
Qed.

Lemma order_desc_perm ms : order_desc ms ≡ₚ ms.
Proof. apply merge_sort_Permutation. Qed.
Lemma order_desc_in ms m : m ∈ order_desc ms -> m ∈ ms.
Proof. by rewrite order_desc_perm. Qed.
Lemma order_desc_sorted ms : StronglySorted newer (order_desc ms).
Proof. apply StronglySorted_merge_sort; apply _. Qed.

(** The whole history that the pages cut. *)
Definition history (p : Messages -> bool) : list Messages := order_desc (select p (messages s)).

Lemma elem_of_history p m : m ∈ history p <-> m ∈ select p (messages s).
Proof. unfold history. by rewrite order_desc_perm. Qed.
Lemma history_NoDup p : NoDup (history p).
Proof. unfold history. rewrite order_desc_perm. apply NoDup_select. Qed.

Lemma history_split_order p pre x post m :
  history p = pre ++ x :: post ->
  (m ∈ pre -> mMsgId x < mMsgId m) /\ (m ∈ post -> mMsgId m < mMsgId x).
Proof.
  intros E. pose proof (order_desc_sorted (select p (messages s))) as Hso. fold (history p) in Hso.
  pose proof (history_NoDup p) as Hnd.
  assert (forall a b, a ∈ history p -> b ∈ history p -> mMsgId a = mMsgId b -> a = b) as Hid.
  { intros a b. rewrite !elem_of_history. apply select_same_id. }
  rewrite E in Hso, Hnd, Hid. clear E.
  apply NoDup_app in Hnd as (_ & Hd & [Hx _]%NoDup_cons).
  apply StronglySorted_app in Hso as (Hpre & _ & [_ Hpost]%StronglySorted_inv).
  rewrite Forall_forall in Hpost. split; intros Hm.
  - assert (newer m x) as Hn by (apply Hpre; set_solver). unfold newer in Hn.
    assert (mMsgId m <> mMsgId x); [| lia].
    intros E. apply Hid in E as ->; [| set_solver..]. apply (Hd x Hm). set_solver.
  - assert (newer x m) as Hn by (by apply Hpost). unfold newer in Hn.
    assert (mMsgId m <> mMsgId x); [| lia].
    intros E. apply Hid in E as ->; [| set_solver..]. done.
Qed.

Lemma page_first p limit : page p 0 limit s = take (Z.to_nat (normalize_limit limit)) (history p).
Proof.
  unfold page, history. f_equal. f_equal. unfold select. apply List.filter_ext.
  intros m. unfold before. simpl. by rewrite andb_true_r.
Qed.

(** A page that starts at a cursor is what follows it in the history. *)
Lemma page_cursor p pre x post limit :
  0 < mMsgId x -> history p = pre ++ x :: post ->
  page p (mMsgId x) limit s = take (Z.to_nat (normalize_limit limit)) post.
Proof.
  intros H0 E. unfold page. f_equal.
  assert (forall m, m ∈ select (fun m => p m && before (mMsgId x) m) (messages s) <->
                    m ∈ select p (messages s) /\ mMsgId m < mMsgId x) as Hsel.
  { intros m. rewrite !elem_of_select, andb_true_iff. unfold before.
    rewrite (proj2 (Z.ltb_lt 0 (mMsgId x))) by done. rewrite Z.ltb_lt. naive_solver. }
  assert (forall m, m ∈ post <-> m ∈ select p (messages s) /\ mMsgId m < mMsgId x) as Hpost.
  { intros m. rewrite <- elem_of_history, E.
    pose proof (history_split_order p pre x post m E) as [H1 H2]. split.
    - intros H. split; [set_solver | by apply H2].
    - intros [[H | [-> | H]%elem_of_cons]%elem_of_app Hlt]; [apply H1 in H; lia | lia | done]. }
  eapply StronglySorted_unique_strong; [| apply order_desc_sorted | |].
  - intros m m' [Hm _]%order_desc_in%Hsel [Hm' _]%Hpost H1 H2.
    unfold newer in *. apply (select_same_id p); [done | done | lia].
  - pose proof (order_desc_sorted (select p (messages s))) as Hso. fold (history p) in Hso.
    rewrite E in Hso. apply StronglySorted_app in Hso as (_ & _ & [Hso _]%StronglySorted_inv). exact Hso.
  - rewrite order_desc_perm. apply NoDup_Permutation; [apply NoDup_select | |].
    + pose proof (history_NoDup p) as Hnd. rewrite E in Hnd.
      apply NoDup_app in Hnd as (_ & _ & [_ H]%NoDup_cons). exact H.
    + intros m. by rewrite Hsel, Hpost.
Qed.
End pages.

(** C38: The life of a stored message: whatever statements the service issues, in
    whatever order, every row stays under its key with a legal state (confirmed
    implies read); as long as the row is not deleted its content is untouched,
    reading is never undone and the send status only moves forward; and marking a
    user's messages read empties that user's inbox and nobody else's. *)
Theorem message_lifecycle s :
  store_ok s ->
  (forall s', rtc db_step s s' -> store_ok s') /\
  (forall id m s', rtc (keeps id) s s' -> messages s !! id = Some m ->
     exists m', messages s' !! id = Some m' /\ progress m m') /\
  (forall r, GetUnreadMessages r (MarkMessagesAsRead r s) = Success [] /\
     forall r' m, r' <> r ->
       (m ∈ select (unread_of r') (messages (MarkMessagesAsRead r s)) <->
        m ∈ select (unread_of r') (messages s))).
Proof.
  intros Hs. split_and!.
  - intros s' H. exact (invariant_rtc db_step store_ok db_step_ok s s' Hs H).
  - intros id m s' H Hm. by eapply keeps_progress.
  - intros r. split.
    + unfold GetUnreadMessages. f_equal. apply elem_of_nil_inv. intros m.
      rewrite elem_of_select. intros [Hp [k Hk]]. simpl in Hk. rewrite lookup_update in Hk.
      apply fmap_Some in Hk as (m0 & _ & ->). destruct (unread_of r m0) eqn:E; [| congruence].
      unfold unread_of in Hp. simpl in Hp. by rewrite andb_false_r in Hp.
    + intros r' m Hne. rewrite !elem_of_select. simpl. split; intros [Hp [k Hk]].
      * split; [done |]. exists k. rewrite lookup_update in Hk. apply fmap_Some in Hk as (m0 & Hk & ->).
        destruct (unread_of r m0); [| done]. unfold unread_of in Hp. simpl in Hp.
        by rewrite andb_false_r in Hp.
      * split; [done |]. exists k. rewrite lookup_update, Hk. simpl.
        destruct (unread_of r m) eqn:E; [| done]. unfold unread_of in *.
        apply andb_true_iff in E as [E%Z.eqb_eq _], Hp as [Hp%Z.eqb_eq _]. congruence.
Qed.

Definition sample_message : Messages := mkMessages 11 1 1 2 0 false "hi" SendStatusUnsent 0.

Lemma message_lifecycle_witness :
  let s := (exec 5 (DInsertMessage sample_message) empty_store).2 in
  let s' := (exec 6 (DMarkMessageAsRead 11) s).2 in
  (exists m', messages s' !! 11 = Some m' /\ progress (stamp 5 sample_message) m') /\
  mSendStatus (mark_read sample_message) = 2.
Proof.
  assert (store_ok (exec 5 (DInsertMessage sample_message) empty_store).2) as H.
  { intros k m H. apply (lookup_insert_Some (∅ : gmap Z Messages)) in H as [[<- <-] | [_ Hk]]; [| by destruct (lookup_empty_Some (M := gmap Z) k m)].
    split; [done |]. unfold row_ok. simpl. unfold SendStatusUnsent, SendStatusSentConfirmed. lia. }
  split; [| reflexivity].
  apply (proj1 (proj2 (message_lifecycle _ H)) 11 (stamp 5 sample_message));
    [| apply lookup_insert_eq].
  eapply rtc_l; [| apply rtc_refl]. split; [by exists 6, (DMarkMessageAsRead 11) |].
  exists (mark_read (stamp 5 sample_message)). vm_compute. reflexivity.
Defined.

(** ** Friend requests *)

(** A step that keeps the request from [u] to [v]. *)
Definition keeps_friend (k : Z * Z) (s s' : Store) : Prop :=
  db_step s s' /\ is_Some (friends s' !! k).

(** The two ends and the remark stay; a settled request stays settled. *)
Definition settles (f f' : Friend) : Prop :=
  fUserID f' = fUserID f /\ fFriendID f' = fFriendID f /\ fRemark f' = fRemark f /\
  (fStatus f <> 0 -> fStatus f' = fStatus f) /\ (fStatus f' <> fStatus f -> fStatus f' = 1 \/ fStatus f' = 2).

#[export] Instance settles_preorder : PreOrder settles.
Proof.
  split; [intros f; unfold settles; split_and!; auto; congruence |].
  unfold settles. intros a b c (A1&A2&A3&H1&H2) (B1&B2&B3&H3&H4). split_and!; try congruence.
  - intros H. rewrite H3; [by apply H1 |]. by rewrite (H1 H).
  - intros H. destruct (decide (fStatus c = fStatus b)) as [E | E]; [| by apply H4].
    rewrite E in *. by apply H2.
Qed.

Lemma exec_friend now c s k f' :
  cmd_ok c -> friends (exec now c s).2 !! k = Some f' ->
  (exists f, friends s !! k = Some f /\ settles f f') \/ friends s !! k = None.
Proof.
  intros Hc Hk. destruct (friends s !! k) as [f |] eqn:E; [left | by right]. exists f. split; [done |].
  assert (friends s !! k = Some f' -> settles f f') as Hsame.
  { rewrite E. by intros [= ->]. }
  destruct c; simpl in *; auto.
  - unfold InsertMessage in Hk. case_match; auto.
  - unfold BatchInsertMessages in Hk. destruct ms; [auto |]. case_match; auto.
  - unfold ApplyFriend in Hk. case_match; auto. simpl in Hk.
    apply lookup_insert_Some in Hk as [[<- _] | [_ Hk]]; [congruence | auto].
  - rewrite lookup_update, E in Hk. simpl in Hk. injection Hk as <-.
    destruct (either_way userID friendID f && (fStatus f =? 0)) eqn:Ep; [| done].
    apply andb_true_iff in Ep as [_ Ep%Z.eqb_eq].
    unfold settles. simpl. split_and!; auto; congruence.
  - apply lookup_delete_rows in Hk as [Hk _]. auto.
  - unfold InsertGroupMember in Hk. case_match; auto.
  - unfold CreateGroup in Hk. repeat case_match; auto.
Qed.

(** Friend requests: applying creates a pending request unless one from the same
    user to the same friend exists - pending, accepted or refused alike, which is
    an error and changes nothing; whatever statements follow, as long as the row is
    not deleted a request once accepted or refused never changes again; resolving
    settles exactly the pending requests between the two users, in both directions;
    so nothing stops the applicant from accepting the request it sent itself. *)
Theorem friend_request_machine now u v remark s :
  (friends s !! (u, v) = None ->
     ApplyFriend now u v remark s =
       (Success tt, set_friends (<[(u, v) := mkFriend u v 0 remark now now]> (friends s)) s)) /\
  (forall f, friends s !! (u, v) = Some f ->
     ApplyFriend now u v remark s = (Failure duplicate_entry, s)) /\
  (forall k f s', rtc (keeps_friend k) s s' -> friends s !! k = Some f ->
     exists f', friends s' !! k = Some f' /\ settles f f') /\
  (forall st k, friends (ResolveFriend now u v st s) !! k =
     (fun f => if either_way u v f && (fStatus f =? 0)
               then mkFriend (fUserID f) (fFriendID f) st (fRemark f) (fCreateTime f) now else f)
       <$> friends s !! k) /\
  (friends s !! (u, v) = None ->
     friends (ResolveFriend now u v 1 (ApplyFriend now u v remark s).2) !! (u, v) =
       Some (mkFriend u v 1 remark now now)).
Proof.
  split_and!.
  - intros H. unfold ApplyFriend. by rewrite H.
  - intros f H. unfold ApplyFriend. by rewrite H.
  - intros k f s' H. revert f. induction H as [s | s s1 s2 [Hstep [f1 Hf1]] _ IH]; intros f Hf.
    + by exists f.
    + destruct Hstep as (n & c & Hc & ->).
      destruct (exec_friend n c s k f1 Hc Hf1) as [(f0 & H0 & Hp) | Hn]; [| congruence].
      rewrite Hf in H0. injection H0 as <-. destruct (IH f1 Hf1) as (f2 & H2 & Hp2).
      exists f2. split; [done |]. by etrans.
  - intros st k. simpl. by rewrite lookup_update.
  - intros H. unfold ApplyFriend. rewrite H. simpl. rewrite lookup_update, lookup_insert_eq. simpl.
    unfold either_way. simpl. by rewrite !Z.eqb_refl.
Qed.

Lemma friend_request_machine_witness :
  let s1 := (ApplyFriend 5 1 2 "hi" empty_store).2 in
  let s2 := (exec 6 (DResolveFriend 2 1 2) s1).2 in
  ApplyFriend 7 1 2 "again" s2 = (Failure duplicate_entry, s2) /\
  exists f', friends s2 !! (1, 2) = Some f' /\ settles (mkFriend 1 2 0 "hi" 5 5) f'.
Proof.
  set (s1 := (ApplyFriend 5 1 2 "hi" empty_store).2).
  set (s2 := (exec 6 (DResolveFriend 2 1 2) s1).2). split.
  - apply (proj1 (proj2 (friend_request_machine 7 1 2 "again" s2)) (mkFriend 1 2 2 "hi" 5 6)).
    vm_compute. reflexivity.
  - apply (proj1 (proj2 (proj2 (friend_request_machine 7 1 2 "again" s1))) (1, 2)
             (mkFriend 1 2 0 "hi" 5 5) s2); [| vm_compute; reflexivity].
    eapply rtc_l; [| apply rtc_refl]. split; [exists 6, (DResolveFriend 2 1 2); simpl; auto |].
    exists (mkFriend 1 2 2 "hi" 5 6). vm_compute. reflexivity.
Defined.
