(* ===== verification/Logic.v ===== *)
(** * The upward consumer: apps/logic/service/upload_consumer.go

    Decoding a delivery, batching, storing, updating the conversations, pushing
    down and acknowledging; the group fan-out. The database statements, Redis, the
    broker and the goroutines started are commands; [store_env] answers the
    statements from the tables of Dao, with faults injected anywhere. *)
From S2P Require Import Prelude GoStd Effects Mq Dao.
#[local] Open Scope prog_scope.

Definition batchSize : Z := 50.

(** strings.Contains *)
Fixpoint Contains (s sub : string) : bool :=
  String.prefix sub s || match s with EmptyString => false | String _ s' => Contains s' sub end.

Definition delivery : Type := nat.

(** batchItem *)
Record batchItem := mkItem {
  bMsg : Messages;
  bPayload : UploadPayload;
  bD : delivery;
}.

Inductive lg_cmd :=
| Dao (c : dao_cmd)
| RedisGet (key : string)                    (* Ok None: redis.Nil *)
| RedisMGet (keys : list string)
| RedisSet (key value : string) (ttl : Z)
| RedisDel (keys : list string)
| PublishDown (gateway body : string)
| PublishVector (key body : string)
| SnowflakeGenerate
| TimeNow
| DeliveryAck (d : delivery)
| DeliveryNack (d : delivery) (requeue : bool)
| Enqueue (it : batchItem)                   (* batchCh <- it *)
| GoPush (it : batchItem) (gatewayAddr : string).

Definition lg_res (c : lg_cmd) : Type :=
  match c with
  | Dao c => dao_res c
  | RedisGet _ => outcome (option string)
  | RedisMGet _ => outcome (list (option string))
  | PublishDown _ _ | PublishVector _ _ => outcome unit
  | SnowflakeGenerate | TimeNow => Z
  | _ => unit
  end.

Definition lg : Sig := mkSig lg_cmd lg_res.
Definition ask (c : lg_cmd) : prog lg (lg_res c) := call (S := lg) c.
Definition query (c : dao_cmd) : prog lg (dao_res c) := ask (Dao c).
#[export] Hint Unfold ask query : prog.

Definition route_key (uid : Z) : string := "route:user:" +:+ Itoa uid.

(** "chat:history:%d:%d:%d:%d" and "chat:history:group:%d:%d:%d" *)
Definition chat_key (userID targetID cursor limit : Z) : string :=
  "chat:history:" +:+ Itoa userID +:+ ":" +:+ Itoa targetID +:+ ":" +:+ Itoa cursor +:+ ":" +:+ Itoa limit.
Definition group_key (groupID cursor limit : Z) : string :=
  "chat:history:group:" +:+ Itoa groupID +:+ ":" +:+ Itoa cursor +:+ ":" +:+ Itoa limit.

Definition cached_limits : list Z := [20; 50; 100].
Definition historyTTL : Z := 300 * 10 ^ 9.

(** models.NewMessages *)
Definition NewMessages (senderId receiverId groupId : Z) (content : string) (isRead : bool)
    : prog lg Messages :=
  id <- ask SnowflakeGenerate ;;
  Ret (mkMessages id 0 senderId receiverId groupId isRead content SendStatusUnsent 0).

Definition with_ids (msgId seqId : Z) (m : Messages) : Messages :=
  mkMessages msgId seqId (mSenderId m) (mReceiverId m) (mGroupId m) (mIsRead m) (mContent m)
    (mSendStatus m) (mCreateTime m).

(** Duplicates are recognised in the text of the error. *)
Definition isDuplicateKey (err : string) : bool :=
  Contains err "1062" || Contains err "Duplicate entry".

Section logic.
(** encoding/json on the values this service reads and writes. *)
Variable UnmarshalUpload : string -> outcome UploadPayload.
Variable MarshalDown : DownPayload -> outcome string.
Variable MarshalVector : VectorPayload -> outcome string.

(** body, _ := json.Marshal(p): an error leaves an empty body. *)
Definition body_of (p : DownPayload) : string :=
  match MarshalDown p with Ok b => b | _ => "" end.

(** ** upload_consumer.go *)

Definition invalidateChatCache (userA userB : Z) : prog lg unit :=
  for_each cached_limits (fun limit =>
    ask (RedisDel [chat_key userA userB 0 limit; chat_key userB userA 0 limit])).

Definition down_of (p : UploadPayload) : DownPayload :=
  mkDown (uMsgID p) (uSeqID p) 0 (uSenderID p) (uReceiverID p) (uContent p) (uChatType p).

Definition pushDownWithAddr (p : UploadPayload) (gatewayAddr : string) : prog lg (outcome unit) :=
  if String.eqb gatewayAddr "" then Ret (Ok tt)
  else ask (PublishDown gatewayAddr (body_of (down_of p))).

Definition pushDownAndAckWithAddr (it : batchItem) (gatewayAddr : string) : prog lg unit :=
  r <- pushDownWithAddr (bPayload it) gatewayAddr ;;
  match r with
  | Ok _ =>
      ask (DeliveryAck (bD it)) ;;
      now <- ask TimeNow ;;
      match MarshalVector (mkVector (mMsgId (bMsg it)) (uConvID (bPayload it)) (uSenderID (bPayload it))
                             now (uContent (bPayload it))) with
      | Ok body =>
          if String.eqb body "" then Ret tt
          else ask (PublishVector "vector.all" body) ;; Ret tt
      | _ => Ret tt
      end
  | _ => ask (DeliveryNack (bD it) true)
  end.

(** The session type and the two targets of the conversation rows. *)
Definition session_of (it : batchItem) : Z * Z * Z :=
  if mGroupId (bMsg it) =? 0
  then (1, uSenderID (bPayload it), uReceiverID (bPayload it))
  else (2, mGroupId (bMsg it), mGroupId (bMsg it)).

Definition updateConversationAndPush (it : batchItem) (gatewayAddr : string) : prog lg unit :=
  let '(sessionType, targetID, senderTarget) := session_of it in
  let p := bPayload it in
  query (DUpsertConversation (uReceiverID p) targetID sessionType 1 (mMsgId (bMsg it))) ;;
  query (DUpsertConversation (uSenderID p) senderTarget sessionType 0 (mMsgId (bMsg it))) ;;
  (if mGroupId (bMsg it) =? 0 then invalidateChatCache (uSenderID p) (uReceiverID p) else Ret tt) ;;
  pushDownAndAckWithAddr it gatewayAddr.

(** The distinct receivers of a batch, in order of first occurrence. *)
Fixpoint receivers (seen : list Z) (items : list batchItem) : list Z :=
  match items with
  | [] => []
  | it :: rest =>
      let r := uReceiverID (bPayload it) in
      if decide (r ∈ seen) then receivers seen rest else r :: receivers (r :: seen) rest
  end.

(** The addresses MGET found; a receiver without a route keeps the empty one. *)
Definition receiverMap (ids : list Z) (r : outcome (list (option string))) : gmap Z string :=
  match r with
  | Ok vals => list_to_map (omap (fun x => (fun v => (x.1, v)) <$> x.2) (zip ids vals))
  | _ => ∅
  end.

Definition addr_of (addrs : gmap Z string) (it : batchItem) : string :=
  default "" (addrs !! uReceiverID (bPayload it)).

(** One message of a batch that could not be stored as a whole. *)
Definition insertSingly (addrs : gmap Z string) (it : batchItem) : prog lg unit :=
  r <- query (DInsertMessage (bMsg it)) ;;
  match r with
  | Success _ => ask (GoPush it (addr_of addrs it))
  | Failure e =>
      if isDuplicateKey e then ask (GoPush it (addr_of addrs it))
      else ask (DeliveryNack (bD it) false)
  end.

Definition flush (items : list batchItem) : prog lg unit :=
  match items with
  | [] => Ret tt
  | _ =>
      let ids := receivers [] items in
      vals <- ask (RedisMGet (route_key <$> ids)) ;;
      let addrs := receiverMap ids vals in
      r <- query (DBatchInsertMessages (bMsg <$> items)) ;;
      match r with
      | Success _ => for_each items (fun it => ask (GoPush it (addr_of addrs it)))
      | Failure _ => for_each items (insertSingly addrs)
      end
  end.

(** What the worker's select can see: an item, the closed channel, the ticker. *)
Inductive worker_event :=
| Received (it : batchItem)
| Closed
| Tick.

(** batchInsertWorker: the events as they arrive; the buffer that is left. *)
Fixpoint batchInsertWorker (buf : list batchItem) (events : list worker_event)
    : prog lg (list batchItem) :=
  match events with
  | [] => Ret buf
  | Received it :: rest =>
      let buf' := buf ++ [it] in
      if batchSize <=? len buf' then flush buf' ;; batchInsertWorker [] rest
      else batchInsertWorker buf' rest
  | Tick :: rest => flush buf ;; batchInsertWorker [] rest
  | Closed :: _ => flush buf ;; Ret []
  end.

(** The copy of a group message one member gets. *)
Definition memberCopy (p : UploadPayload) (memberID : Z) : prog lg Messages :=
  msg <- NewMessages (uSenderID p) memberID (uGroupID p) (uContent p) false ;;
  if memberID =? uSenderID p then
    Ret (mkMessages (uMsgID p) (uSeqID p) (mSenderId msg) (mReceiverId msg) (mGroupId msg) true
           (mContent msg) SendStatusSentConfirmed (mCreateTime msg))
  else
    id <- ask SnowflakeGenerate ;;
    Ret (with_ids id (uSeqID p) msg).

Definition group_down (p : UploadPayload) (memberID msgId : Z) : DownPayload :=
  mkDown msgId (uSeqID p) (uGroupID p) (uSenderID p) memberID (uContent p) (uChatType p).

Definition deliverToMember (p : UploadPayload) (memberID : Z) : prog lg unit :=
  msg <- memberCopy p memberID ;;
  r <- query (DInsertMessage msg) ;;
  match r with
  | Success _ =>
      let unreadDelta := if memberID =? uSenderID p then 0 else 1 in
      query (DUpsertConversation memberID (uGroupID p) 2 unreadDelta (mMsgId msg)) ;;
      if memberID =? uSenderID p then Ret tt
      else
        addr <- ask (RedisGet (route_key memberID)) ;;
        match addr with
        | Ok (Some gatewayAddr) =>
            ask (PublishDown gatewayAddr (body_of (group_down p memberID (mMsgId msg)))) ;; Ret tt
        | _ => Ret tt
        end
  | Failure _ => Ret tt
  end.

Definition handleGroupChat (p : UploadPayload) : prog lg (outcome unit) :=
  members <- query (DGetGroupMembers (uGroupID p)) ;;
  match members with
  | Success members =>
      for_each members (deliverToMember p) ;;
      for_each cached_limits (fun limit => ask (RedisDel [group_key (uGroupID p) 0 limit])) ;;
      Ret (Ok tt)
  | Failure e => Ret (Err ("[Upload] 查询群成员失败: " +:+ e))
  end.

Definition handleAIChat (p : UploadPayload) : prog lg (outcome unit) :=
  message <- NewMessages (uSenderID p) (uReceiverID p) (uGroupID p) (uContent p) true ;;
  r <- query (DInsertMessage (with_ids (uMsgID p) (uSeqID p) message)) ;;
  match r with
  | Success _ => Ret (Ok tt)
  | Failure e => Ret (Err ("[Upload] AI消息落库失败: " +:+ e))
  end.

(** A handled message is acknowledged, a failed one goes back to the queue. *)
Definition settle (d : delivery) (r : outcome unit) : prog lg unit :=
  match r with
  | Ok _ => ask (DeliveryAck d)
  | _ => ask (DeliveryNack d true)
  end.

Definition enqueueSingle (p : UploadPayload) (d : delivery) : prog lg unit :=
  msg <- NewMessages (uSenderID p) (uReceiverID p) (uGroupID p) (uContent p) false ;;
  ask (Enqueue (mkItem (with_ids (uMsgID p) (uSeqID p) msg) p d)).

Definition handleUploadDelivery (d : delivery) (body : string) : prog lg unit :=
  match UnmarshalUpload body with
  | Ok p =>
      match uChatType p with
      | ChatTypeSingle => enqueueSingle p d
      | ChatTypeGroup => r <- handleGroupChat p ;; settle d r
      | ChatTypeAI => r <- handleAIChat p ;; settle d r
      | _ => enqueueSingle p d
      end
  | _ => ask (DeliveryNack d false)
  end.

Definition consumeUploadLoop (msgs : list (delivery * string)) : prog lg unit :=
  for_each msgs (fun x => handleUploadDelivery x.1 x.2).

(** ** What a trace did *)

Definition settled : list (event lg) -> list (delivery * option bool) :=
  view (S := lg) (fun e => match e with
    | existT (DeliveryAck d) _ => [(d, None)]
    | existT (DeliveryNack d requeue) _ => [(d, Some requeue)]
    | _ => [] end).
Definition spawned : list (event lg) -> list (batchItem * string) :=
  view (S := lg) (fun e => match e with existT (GoPush it a) _ => [(it, a)] | _ => [] end).
Definition enqueued : list (event lg) -> list batchItem :=
  view (S := lg) (fun e => match e with existT (Enqueue it) _ => [it] | _ => [] end).
Definition pushed : list (event lg) -> list (string * string * outcome unit) :=
  view (S := lg) (B := string * string * outcome unit) (fun e => match e with existT (PublishDown g b) r => [(g, b, r)] | _ => [] end).
Definition batches : list (event lg) -> list (list Messages) :=
  view (S := lg) (fun e => match e with existT (Dao (DBatchInsertMessages ms)) _ => [ms] | _ => [] end).

(** The deliveries that are settled, handed to a goroutine or queued, in order. *)
Definition handled : list (event lg) -> list delivery :=
  view (S := lg) (fun e => match e with
    | existT (DeliveryAck d) _ => [d]
    | existT (DeliveryNack d _) _ => [d]
    | existT (GoPush it _) _ => [bD it]
    | existT (Enqueue it) _ => [bD it]
    | _ => [] end).

Lemma handled_split tr :
  handled tr ≡ₚ (settled tr).*1 ++ (bD <$> (spawned tr).*1) ++ (bD <$> enqueued tr).
Proof.
  induction tr as [| e tr IH]; [done |].
  unfold handled, settled, spawned, enqueued in *. rewrite !view_cons, IH, !fmap_app.
  destruct e as [[] r]; simpl; try done; solve_Permutation.
Qed.

(** The items a worker receives before its channel is closed. *)
Fixpoint received (events : list worker_event) : list batchItem :=
  match events with
  | [] | Closed :: _ => []
  | Received it :: rest => it :: received rest
  | Tick :: rest => received rest
  end.

Definition closed (events : list worker_event) : Prop := Closed ∈ events.

Context {W : Type} (h : env lg W).

Lemma bind_singleton {A B} (f : A -> B) l : l ≫= (fun a => [f a]) = f <$> l.
Proof. induction l as [| a l IH]; [done |]. cbn. by rewrite <- IH. Qed.

(** A flush hands over every item once, settles only by dead-lettering, and
    sends one INSERT with the whole batch. *)
Lemma flush_handled items :
  always h (flush items) (fun _ tr =>
    handled tr = bD <$> items /\ enqueued tr = [] /\
    Forall (fun x => x.2 = Some false) (settled tr) /\
    batches tr = (if items is [] then [] else [bMsg <$> items])).
Proof.
  destruct items as [| i0 items]; [by apply always_Ret |].
  unfold flush, query, ask, call. cbn [bind]. apply always_Do. intros vals. cbn [bind].
  set (addrs := receiverMap _ _). clearbody addrs.
  assert (forall r, always h (match r : answer unit with
      | Success _ => for_each (i0 :: items) (fun it => ask (GoPush it (addr_of addrs it)))
      | Failure _ => for_each (i0 :: items) (insertSingly addrs) end)
    (fun _ tr => handled tr = bD <$> i0 :: items /\ enqueued tr = [] /\
       Forall (fun x => x.2 = Some false) (settled tr) /\ batches tr = [])) as H.
  { intros r. repeat apply always_and.
    - rewrite <- bind_singleton. destruct r; apply always_for_each_view; intros it _;
        unfold insertSingly; walk; done.
    - destruct r; (apply always_for_each; [done | |]);
        try (intros t t' H H'; unfold enqueued in *; by rewrite view_app, H, H');
        intros it _; unfold insertSingly; walk; done.
    - destruct r; (apply always_for_each; [constructor | |]);
        try (intros t t' H H'; unfold settled in *; rewrite view_app; by apply Forall_app);
        intros it _; unfold insertSingly; walk; repeat constructor.
    - destruct r; (apply always_for_each; [done | |]);
        try (intros t t' H H'; unfold batches in *; by rewrite view_app, H, H');
        intros it _; unfold insertSingly; walk; done. }
  apply always_Do. intros r. cbn [bind]. eapply always_impl; [apply H |].
  intros ? tr (H1 & H2 & H3 & H4).
  unfold handled, enqueued, settled, batches in *. rewrite !view_cons, H1, H2, H4. by split_and!.
Qed.

Definition batch_size_ok (ms : list Messages) : Prop := 1 <= len ms <= batchSize.

(** A worker that has to account for the deliveries [ds]. *)
Definition accounts (ds : list delivery) (P : list batchItem -> Prop)
    (left : list batchItem) (tr : list (event lg)) : Prop :=
  handled tr ++ (bD <$> left) = ds /\ enqueued tr = [] /\
  Forall (fun x => x.2 = Some false) (settled tr) /\ Forall batch_size_ok (batches tr) /\
  len left < batchSize /\ P left.

Lemma flush_then b (p : prog lg (list batchItem)) P ds :
  len b <= batchSize -> always h p (accounts ds P) ->
  always h (flush b ;; p) (accounts ((bD <$> b) ++ ds) P).
Proof.
  intros Hlen Hp. eapply always_bind; [apply flush_handled |].
  intros _ tr (F1 & F2 & F3 & F4). eapply always_impl; [exact Hp |].
  intros left tr' (P1 & P2 & P3 & P4 & P5 & P6). unfold accounts.
  unfold handled, enqueued, settled, batches in *. rewrite !view_app, F1, F2, F4, P2, <- P1.
  split_and!; try done; [by rewrite <- !app_assoc | by apply Forall_app |].
  apply Forall_app. split; [| done]. destruct b as [| i b]; [done |]. constructor; [| done].
  unfold batch_size_ok, len, batchSize in *. rewrite length_fmap. simpl in *. lia.
Qed.

(** The worker: everything received is handled, in order, but for the buffer. *)
Lemma worker_handled buf events :
  len buf < batchSize ->
  always h (batchInsertWorker buf events)
    (accounts ((bD <$> buf) ++ (bD <$> received events)) (fun left => closed events -> left = [])).
Proof.
  assert (forall ev evs (left : list batchItem), ev <> Closed ->
    (closed evs -> left = []) -> closed (ev :: evs) -> left = []) as Hc.
  { intros ev evs left Hne H [? | ?]%elem_of_cons; [congruence | by apply H]. }
  revert buf. induction events as [| ev events IH]; intros buf Hb; cbn [batchInsertWorker].
  { apply always_Ret. unfold accounts. split_and!; try done; [by rewrite app_nil_r |].
    by intros ?%not_elem_of_nil. }
  destruct ev as [it | |]; cbn [received].
  - destruct (batchSize <=? len (buf ++ [it])) eqn:E.
    + eapply always_impl; [apply flush_then; [| apply (IH []); done] |].
      * rewrite len_app. unfold len, batchSize in *. simpl. lia.
      * intros left tr (H1 & H2 & H3 & H4 & H5 & H6). unfold accounts.
        split_and!; try done; [| by apply (Hc (Received it) events)].
        rewrite H1, fmap_app, <- app_assoc. done.
    + apply Z.leb_gt in E. eapply always_impl; [by apply IH |].
      intros left tr (H1 & H2 & H3 & H4 & H5 & H6). unfold accounts.
      split_and!; try done; [| by apply (Hc (Received it) events)].
      rewrite H1, fmap_app, <- app_assoc. done.
  - eapply always_impl; [apply (flush_then buf (Ret []) (fun l => l = []) []); [lia | by apply always_Ret] |].
    intros left tr (H1 & H2 & H3 & H4 & H5 & H6). unfold accounts. by split_and!.
  - eapply always_impl; [apply flush_then; [lia | by apply (IH [])] |].
    intros left tr (H1 & H2 & H3 & H4 & H5 & H6). unfold accounts.
    split_and!; try done. by apply (Hc Tick events).
Qed.

(** The goroutine of one item settles its delivery: acknowledged when the
    receiver has no route or the broker confirmed the push, else requeued. *)
Definition task_outcome (it : batchItem) (addr : string) (tr : list (event lg)) : Prop :=
  if String.eqb addr "" then settled tr = [(bD it, None)] /\ pushed tr = []
  else exists r, pushed tr = [(addr, body_of (down_of (bPayload it)), r)] /\
    settled tr = [(bD it, match r with Ok _ => None | _ => Some true end)].

Lemma task_settles it addr :
  always h (updateConversationAndPush it addr) (fun _ tr => task_outcome it addr tr).
Proof.
  unfold updateConversationAndPush. destruct (session_of it) as [[sessionType targetID] senderTarget].
  unfold query at 1, ask at 1, call at 1. cbn [bind]. apply always_Do. intros r1. cbn [bind].
  unfold query, ask at 1, call at 1. cbn [bind]. apply always_Do. intros r2. cbn [bind].
  eapply always_bind with (P := fun _ tr => settled tr = [] /\ pushed tr = []).
  { unfold invalidateChatCache, cached_limits. destruct (mGroupId (bMsg it) =? 0); cbn [for_each]; walk; done. }
  intros _ tr [T1 T2]. unfold pushDownAndAckWithAddr, pushDownWithAddr, task_outcome.
  destruct (String.eqb addr "");
    walk; unfold settled, pushed in *; rewrite !view_cons, !view_app, T1, T2; simpl; eauto.
Qed.

(** One delivery: dropped when its body cannot be read, queued once for the batch
    workers, or handled and settled on the spot. *)
Definition delivery_outcome (d : delivery) (body : string) (tr : list (event lg)) : Prop :=
  match UnmarshalUpload body with
  | Ok p =>
      match uChatType p with
      | ChatTypeGroup | ChatTypeAI =>
          enqueued tr = [] /\ (settled tr = [(d, None)] \/ settled tr = [(d, Some true)])
      | _ =>
          settled tr = [] /\ exists m, enqueued tr = [mkItem m p d] /\
            mMsgId m = uMsgID p /\ mSeqId m = uSeqID p /\ mReceiverId m = uReceiverID p /\
            mContent m = uContent p /\ mIsRead m = false
      end
  | _ => enqueued tr = [] /\ settled tr = [(d, Some false)]
  end.

Definition silent (tr : list (event lg)) : Prop :=
  settled tr = [] /\ enqueued tr = [] /\ spawned tr = [].

Lemma silent_app t t' : silent t -> silent t' -> silent (t ++ t').
Proof.
  intros (H1 & H2 & H3) (H1' & H2' & H3'). unfold silent, settled, enqueued, spawned in *.
  by rewrite !view_app, H1, H2, H3, H1', H2', H3'.
Qed.

Lemma deliverToMember_silent p m : always h (deliverToMember p m) (fun _ tr => silent tr).
Proof.
  unfold deliverToMember, memberCopy, NewMessages. walk; try done.
Qed.

Lemma handleGroupChat_silent p : always h (handleGroupChat p) (fun _ tr => silent tr).
Proof.
  unfold handleGroupChat, query, ask at 1, call at 1. cbn [bind]. apply always_Do.
  intros [members | e]; cbn [bind]; [| by apply always_Ret].
  eapply always_bind with (P := fun _ tr => silent tr).
  { apply always_for_each; [done | apply silent_app |]. intros; apply deliverToMember_silent. }
  intros _ tr Htr. eapply always_bind with (P := fun _ tr => silent tr).
  { unfold cached_limits. cbn [for_each]. walk. done. }
  intros _ tr' Htr'. apply always_Ret. rewrite app_nil_r. by apply (silent_app [_]), silent_app.
Qed.

Lemma handleAIChat_silent p : always h (handleAIChat p) (fun _ tr => silent tr).
Proof. unfold handleAIChat, NewMessages. walk; done. Qed.

Lemma settle_after d (q : prog lg (outcome unit)) :
  always h q (fun _ tr => silent tr) ->
  always h (r <- q ;; settle d r) (fun _ tr =>
    enqueued tr = [] /\ (settled tr = [(d, None)] \/ settled tr = [(d, Some true)])).
Proof.
  intros Hq. eapply always_bind; [exact Hq |]. intros r tr (H1 & H2 & _).
  unfold settle. walk; unfold settled, enqueued in *; rewrite !view_app, H1, H2; simpl; auto.
Qed.

Lemma handleUploadDelivery_outcome d body :
  always h (handleUploadDelivery d body) (fun _ tr => delivery_outcome d body tr).
Proof.
  unfold handleUploadDelivery, delivery_outcome. destruct (UnmarshalUpload body) as [p | e | e];
    [| walk; done..].
  destruct (uChatType p) eqn:Et;
    try (apply settle_after; first [apply handleGroupChat_silent | apply handleAIChat_silent]);
    unfold enqueueSingle, NewMessages; walk; (split; [done |]); eexists; by split_and!.
Qed.

(** Every goroutine of [ts] run to its end, one after the other. *)
Definition run_tasks (ts : list (batchItem * string)) : prog lg unit :=
  for_each ts (fun x => updateConversationAndPush x.1 x.2).

Lemma run_tasks_settle ts :
  always h (run_tasks ts) (fun _ tr => (settled tr).*1 = (fun x => bD x.1) <$> ts).
Proof.
  induction ts as [| [it a] ts IH]; unfold run_tasks in *; cbn [for_each]; [by apply always_Ret |].
  eapply always_bind; [apply task_settles |]. intros ? tr Htr.
  eapply always_impl; [exact IH |]. intros ? tr' Htr'.
  unfold task_outcome in Htr. simpl in Htr. unfold settled in *. rewrite view_app, fmap_app, Htr'.
  destruct (String.eqb a ""); [destruct Htr as [-> _]; done |].
  by destruct Htr as (r & _ & ->).
Qed.

(** C4: Every upward delivery is settled exactly once, whatever the database,
    Redis and the broker answer. A delivery is dropped when unreadable, queued
    once with the ids of its payload, or (group, AI) handled and then acknowledged
    or requeued. A batch worker hands over everything it received, in order, in
    INSERTs of 1 to 50 rows, acknowledging nothing itself, and leaves nothing
    behind when its channel closes. Each goroutine acknowledges iff its receiver
    has no route or the broker confirmed the push, and requeues otherwise. So
    once the worker and the goroutines it started have run, in any order, the
    settled deliveries are the received ones, each once. *)
Theorem upload_settled_once :
  (forall d body, always h (handleUploadDelivery d body) (fun _ tr => delivery_outcome d body tr)) /\
  (forall events, always h (batchInsertWorker [] events)
     (accounts (bD <$> received events) (fun left => closed events -> left = []))) /\
  (forall it addr, always h (updateConversationAndPush it addr) (fun _ tr => task_outcome it addr tr)) /\
  (forall events w w', closed events ->
     let tr := trace (run h (batchInsertWorker [] events) w) in
     forall ts, ts ≡ₚ spawned tr ->
       (settled tr ++ settled (trace (run h (run_tasks ts) w'))).*1 ≡ₚ bD <$> received events).
Proof.
  split_and!; [exact handleUploadDelivery_outcome | | exact task_settles |].
  - intros events. by apply (worker_handled []).
  - intros events w w' Hc tr ts Hts.
    pose proof (worker_handled [] events ltac:(done) w) as (H1 & H2 & _ & _ & _ & H6).
    fold tr in H1, H2. rewrite (H6 Hc), app_nil_r in H1. simpl in H1.
    rewrite fmap_app, (run_tasks_settle ts w'), <- H1, handled_split, H2, Hts.
    rewrite app_nil_r. by rewrite <- list_fmap_compose.
Qed.

(** ** The group fan-out *)

Definition inserts : list (event lg) -> list (Messages * answer unit) :=
  view (S := lg) (B := Messages * answer unit) (fun e =>
    match e with existT (Dao (DInsertMessage m)) r => [(m, r)] | _ => [] end).
Definition upserts : list (event lg) -> list (Z * Z * Z * Z * Z) :=
  view (S := lg) (fun e =>
    match e with existT (Dao (DUpsertConversation o t ty d l)) _ => [(o, t, ty, d, l)] | _ => [] end).
Definition listed : list (event lg) -> list (answer (list Z)) :=
  view (S := lg) (B := answer (list Z)) (fun e =>
    match e with existT (Dao (DGetGroupMembers _)) r => [r] | _ => [] end).

(** The row a member gets. *)
Definition copy_for (p : UploadPayload) (member : Z) (m : Messages) : Prop :=
  mReceiverId m = member /\ mSenderId m = uSenderID p /\ mGroupId m = uGroupID p /\
  mContent m = uContent p /\ mSeqId m = uSeqID p /\
  if member =? uSenderID p
  then mMsgId m = uMsgID p /\ mIsRead m = true /\ mSendStatus m = SendStatusSentConfirmed
  else mIsRead m = false /\ mSendStatus m = SendStatusUnsent.

(** The conversation row and the push that follow an insertion. *)
Definition upsert_after (p : UploadPayload) (x : Messages * answer unit) : list (Z * Z * Z * Z * Z) :=
  match x.2 with
  | Success _ => [(mReceiverId x.1, uGroupID p, 2, (if mReceiverId x.1 =? uSenderID p then 0 else 1),
                   mMsgId x.1)]
  | Failure _ => []
  end.
Definition push_after (p : UploadPayload) (x : Messages * answer unit) : list string :=
  match x.2 with
  | Success _ => if mReceiverId x.1 =? uSenderID p then []
                 else [body_of (group_down p (mReceiverId x.1) (mMsgId x.1))]
  | Failure _ => []
  end.

Definition fanned_out (p : UploadPayload) (ms : list Z) (tr : list (event lg)) : Prop :=
  Forall2 (copy_for p) ms (inserts tr).*1 /\
  upserts tr = inserts tr ≫= upsert_after p /\
  ((fun x => x.1.2) <$> pushed tr) `sublist_of` (inserts tr ≫= push_after p) /\
  listed tr = [].

Lemma fanned_out_app p ms ms' t t' :
  fanned_out p ms t -> fanned_out p ms' t' -> fanned_out p (ms ++ ms') (t ++ t').
Proof.
  intros (H1 & H2 & H3 & H4) (H1' & H2' & H3' & H4'). unfold fanned_out.
  unfold inserts, upserts, pushed, listed in *. rewrite !view_app, H2, H2', H4, H4', !fmap_app, !bind_app.
  split_and!; try done; [by apply Forall2_app | by apply sublist_app].
Qed.

Lemma deliverToMember_fans_out p m :
  always h (deliverToMember p m) (fun _ tr => fanned_out p [m] tr).
Proof.
  assert (forall id id', copy_for p m
    (if m =? uSenderID p
     then mkMessages (uMsgID p) (uSeqID p) (uSenderID p) m (uGroupID p) true (uContent p)
            SendStatusSentConfirmed 0
     else with_ids id' (uSeqID p) (mkMessages id 0 (uSenderID p) m (uGroupID p) false (uContent p)
            SendStatusUnsent 0))) as Hc.
  { intros id id'. unfold copy_for. destruct (m =? uSenderID p); by split_and!. }
  unfold deliverToMember, memberCopy, NewMessages.
  destruct (m =? uSenderID p) eqn:E; walk; unfold fanned_out, upsert_after, push_after;
    simpl; rewrite ?E; (split_and!; [constructor; [| done] | done | | done]);
    first [apply (Hc 0 0) | apply Hc | done | apply sublist_nil_l | reflexivity].
Qed.

(** The fan-out of a group message: if the members cannot be listed nothing
    is written or pushed and the delivery fails; otherwise it succeeds whatever
    fails later, and every member, in order, gets exactly one row of its own -
    the sender's read and confirmed under the id of the payload, the others
    unread; exactly the rows that were stored update their member's conversation,
    adding one unread except for the sender; and each push is for a stored row of
    another member, at most one each, in the same order. *)
Theorem group_fanout p :
  always h (handleGroupChat p) (fun r tr =>
    exists members, listed tr = [members] /\
    match members with
    | Success ms =>
        r = Ok tt /\
        Forall2 (copy_for p) ms (inserts tr).*1 /\
        upserts tr = inserts tr ≫= upsert_after p /\
        ((fun x => x.1.2) <$> pushed tr) `sublist_of` (inserts tr ≫= push_after p)
    | Failure _ => (exists e, r = Err e) /\ inserts tr = [] /\ upserts tr = [] /\ pushed tr = []
    end).
Proof.
  unfold handleGroupChat, query, ask at 1, call at 1. cbn [bind]. apply always_Do.
  intros [ms | e]; cbn [bind]; [| apply always_Ret; exists (Failure e); split_and!; by eauto].
  eapply always_bind with (P := fun _ tr => fanned_out p ms tr).
  { induction ms as [| m ms IH]; cbn [for_each]; [apply always_Ret; by split_and! |].
    eapply always_bind; [apply deliverToMember_fans_out |]. intros ? tr Htr.
    eapply always_impl; [exact IH |]. intros ? tr' Htr'. by apply (fanned_out_app p [m]). }
  intros _ tr (H1 & H2 & H3 & H4).
  eapply always_bind with (P := fun _ tr => inserts tr = [] /\ upserts tr = [] /\ pushed tr = [] /\ listed tr = []).
  { unfold cached_limits. cbn [for_each]. walk. done. }
  intros _ tr' (C1 & C2 & C3 & C4). apply always_Ret. exists (Success ms).
  unfold inserts, upserts, pushed, listed in *.
  rewrite !view_cons, !view_app, !view_nil, C1, C2, C3, C4, H4. simpl. rewrite !app_nil_r. by split_and!.
Qed.
End logic.

(** ** The service over its tables *)

(** The tables, Redis, the clock, the snowflake counter, and the faults to come:
    a statement that fails with a text, executed all the same or not. *)
Record World := mkWorld {
  db : Store;
  redis : gmap string string;
  now : Z;
  next_id : Z;
  faults : list (option (string * bool));
}.

Definition set_db (s : Store) (w : World) : World := mkWorld s (redis w) (now w) (next_id w) (faults w).
Definition set_redis (r : gmap string string) (w : World) : World :=
  mkWorld (db w) r (now w) (next_id w) (faults w).

Definition next_fault (w : World) : option (string * bool) * World :=
  match faults w with
  | [] => (None, w)
  | f :: fs => (f, mkWorld (db w) (redis w) (now w) (next_id w) fs)
  end.

(** The answer of a call that can fail. *)
Definition unless {A} (f : option (string * bool)) (a : A) : outcome A :=
  match f with None => Ok a | Some (e, _) => Err e end.

Definition exec_dao (f : option (string * bool)) (q : dao_cmd) (w : World) : dao_res q * World :=
  let '(r, s) := exec (now w) q (db w) in
  match f with
  | None => (r, set_db s w)
  | Some (e, executed) => (Failure e, if executed then set_db s w else w)
  end.

Definition store_env : env lg World := fun c w0 =>
  let '(f, w) := next_fault w0 in
  match c return lg_res c * World with
  | Dao q => exec_dao f q w
  | RedisGet k => (unless f (redis w !! k), w)
  | RedisMGet ks => (unless f ((fun k => redis w !! k) <$> ks), w)
  | RedisSet k v _ => (tt, match f with None => set_redis (<[k := v]> (redis w)) w | _ => w end)
  | RedisDel ks =>
      (tt, match f with None => set_redis (foldr (fun k r => delete k r) (redis w) ks) w | _ => w end)
  | PublishDown _ _ | PublishVector _ _ => (unless f tt, w)
  | SnowflakeGenerate => (next_id w, mkWorld (db w) (redis w) (now w) (next_id w + 1) (faults w))
  | TimeNow => (now w, w)
  | DeliveryAck _ | DeliveryNack _ _ | Enqueue _ | GoPush _ _ => (tt, w)
  end.

(** No fault announces itself as a duplicate key. *)
Definition calm (w : World) : Prop :=
  Forall (fun f => match f with Some (e, _) => isDuplicateKey e = false | None => True end) (faults w).

Lemma duplicate_entry_is_duplicate : isDuplicateKey duplicate_entry = true.
Proof. reflexivity. Qed.

Lemma next_fault_db w : db (next_fault w).2 = db w /\ now (next_fault w).2 = now w /\
  (calm w -> calm (next_fault w).2 /\
     match (next_fault w).1 with Some (e, _) => isDuplicateKey e = false | None => True end).
Proof.
  unfold next_fault, calm. destruct (faults w) as [| f fs] eqn:E; simpl.
  - split_and!; [done..|]. by rewrite E.
  - split_and!; [done..|]. by intros [? ?]%Forall_cons.
Qed.

(** The message is in the table: its own row, or one that was there before. *)
Definition stored_from (s0 : Store) (rows : list Messages) (s : Store) (id : Z) : Prop :=
  exists row, messages s !! id = Some row /\
    (messages s0 !! id = Some row \/ exists m t, m ∈ rows /\ mMsgId m = id /\ row = stamp t m).

(** From [s0], only rows of [rows] were added. *)
Definition grown (s0 : Store) (rows : list Messages) (s : Store) : Prop :=
  (forall k m, messages s0 !! k = Some m -> messages s !! k = Some m) /\
  (forall k, is_Some (messages s !! k) -> stored_from s0 rows s k).

Lemma grown_refl s0 rows : grown s0 rows s0.
Proof. split; [done |]. intros k [m Hm]. exists m. auto. Qed.

Lemma grown_insert s0 rows s t m :
  grown s0 rows s -> m ∈ rows -> grown s0 rows (InsertMessage t m s).2.
Proof.
  intros [G1 G2] Hin. unfold InsertMessage. destruct (messages s !! mMsgId m) eqn:E; [by split |].
  simpl. split; simpl.
  - intros k m' Hk%G1. rewrite lookup_insert_ne by congruence. done.
  - intros k Hk. destruct (decide (mMsgId m = k)) as [<- | Hne].
    + exists (stamp t m). simpl. rewrite lookup_insert_eq. split; [done |]. right. by exists m, t.
    + rewrite lookup_insert_ne in Hk by done. destruct (G2 k Hk) as (row & Hrow & H).
      exists row. simpl. by rewrite lookup_insert_ne.
Qed.

Lemma grown_trans s0 rows s s' : grown s0 rows s -> grown s rows s' -> grown s0 rows s'.
Proof.
  intros [A1 A2] [B1 B2]. split; [auto |]. intros k Hk.
  destruct (B2 k Hk) as (row & Hrow & [H | H]); [| by exists row; auto].
  destruct (A2 k) as (row' & Hrow' & H'); [by eexists |]. assert (row' = row) as -> by congruence.
  by exists row.
Qed.

Lemma grown_keeps s0 rows s k : grown s0 rows s -> is_Some (messages s0 !! k) -> is_Some (messages s !! k).
Proof. intros [G _] [m Hm]. exists m. by apply G. Qed.

Lemma grown_batch s rows t :
  let r := BatchInsertMessages t rows s in
  grown s rows r.2 /\ (r.1 = Success tt -> forall m, m ∈ rows -> is_Some (messages r.2 !! mMsgId m)).
Proof.
  unfold BatchInsertMessages. destruct rows as [| m0 rows].
  { split; [apply grown_refl |]. by intros _ m ?%not_elem_of_nil. }
  destruct (insert_all t (m0 :: rows) (messages s)) as [t' |] eqn:E; [| by split; [apply grown_refl |]].
  cbn [fst snd messages set_messages]. split; [split |]; cbn [messages set_messages].
  - intros k m Hk. by eapply insert_all_keeps.
  - intros k [m Hk]. exists m. cbn [messages set_messages]. split; [done |].
    destruct (insert_all_lookup _ _ _ _ _ _ E Hk) as [H | (m1 & H1 & -> & ->)]; [by left | right].
    by exists m1, t.
  - intros _ m Hm. rewrite (insert_all_stores _ _ _ _ _ E Hm). by eexists.
Qed.

Lemma exec_InsertMessage t m s :
  let r := InsertMessage t m s in
  is_Some (messages r.2 !! mMsgId m) /\ forall e, r.1 = Failure e -> e = duplicate_entry.
Proof.
  unfold InsertMessage. destruct (messages s !! mMsgId m) eqn:E; simpl.
  - split; [by rewrite E | congruence].
  - rewrite lookup_insert_eq. split; [by eexists | done].
Qed.

(** The state a flush keeps while it stores its batch. *)
Definition storing (s0 : Store) (rows : list Messages) (w : World) (tr : list (event lg)) : Prop :=
  calm w /\ grown s0 rows (db w) /\
  forall it a, (it, a) ∈ spawned tr -> is_Some (messages (db w) !! mMsgId (bMsg it)).

(** One INSERT: what reports success, or a duplicate, is in the table. *)
Lemma insert_step s0 rows m w :
  calm w -> grown s0 rows (db w) -> m ∈ rows ->
  let '(r, w') := store_env (Dao (DInsertMessage m)) w in
  calm w' /\ grown s0 rows (db w') /\
  (forall k, is_Some (messages (db w) !! k) -> is_Some (messages (db w') !! k)) /\
  match r with
  | Success _ => is_Some (messages (db w') !! mMsgId m)
  | Failure e => isDuplicateKey e = true -> is_Some (messages (db w') !! mMsgId m)
  end.
Proof.
  intros Hc Hg Hm. unfold store_env. destruct (next_fault_db w) as (D1 & D2 & D3).
  destruct (next_fault w) as [f w1]. simpl in D1, D2, D3. destruct (D3 Hc) as [Hc1 Hf]. clear D3.
  unfold exec_dao. simpl. rewrite D1, D2.
  pose proof (grown_insert _ _ _ (now w) m Hg Hm) as Hg'.
  pose proof (exec_InsertMessage (now w) m (db w)) as [Hs He].
  assert (forall k, is_Some (messages (db w) !! k) ->
                    is_Some (messages (InsertMessage (now w) m (db w)).2 !! k)) as Hk.
  { intros k [x Hx]. destruct (grown_insert (db w) [m] (db w) (now w) m (grown_refl _ _)) as [G _]; [by left |].
    exists x. by apply G. }
  destruct (InsertMessage (now w) m (db w)) as [r s]. simpl in *.
  destruct f as [[e [|]] |]; simpl; rewrite ?D1; split_and!; try done; try congruence.
  by destruct r.
Qed.

(** A successful INSERT has written its row. *)
Lemma insert_writes m w :
  let '(r, w') := store_env (Dao (DInsertMessage m)) w in
  r = Success tt -> exists t, messages (db w') !! mMsgId m = Some (stamp t m).
Proof.
  unfold store_env. destruct (next_fault_db w) as (D1 & D2 & _). destruct (next_fault w) as [f w1]. simpl in D1, D2.
  unfold exec_dao. simpl. rewrite D1, D2. unfold InsertMessage.
  destruct (messages (db w) !! mMsgId m); simpl; destruct f as [[e [|]] |]; simpl; try done.
  intros _. exists (now w). apply lookup_insert_eq.
Qed.

Lemma storing_silent s0 rows w w' tr tr' :
  storing s0 rows w tr -> spawned tr' = [] ->
  calm w' -> grown s0 rows (db w') ->
  (forall k, is_Some (messages (db w) !! k) -> is_Some (messages (db w') !! k)) ->
  storing s0 rows w' (tr ++ tr').
Proof.
  intros (_ & _ & H) Ht Hc Hg Hk. split_and!; [done | done |].
  intros it a. unfold storing, spawned in *. rewrite view_app, Ht, app_nil_r. intros Hin. by eapply Hk, H.
Qed.

Lemma push_stores s0 rows it a w tr :
  storing s0 rows w tr -> is_Some (messages (db w) !! mMsgId (bMsg it)) ->
  from store_env w (ask (GoPush it a)) (fun _ w' tr' => storing s0 rows w' (tr ++ tr') /\ db w' = db w).
Proof.
  intros (Hc & Hg & Hsp) Hs. apply from_Do, from_Ret.
  pose proof (next_fault_db w) as (D1 & _ & D3). unfold store_env.
  destruct (next_fault w) as [f w2]. cbn [fst snd] in *. destruct (D3 Hc) as [Hc2 _].
  split; [| done]. split_and!; [done | by rewrite D1 |]. rewrite D1. intros it' a'.
  unfold spawned in *. rewrite view_app. simpl. intros [Hi | Hi]%elem_of_app; [by eapply Hsp |].
  apply list_elem_of_singleton in Hi. by simplify_eq.
Qed.

Lemma insertSingly_stores s0 rows addrs it w tr :
  storing s0 rows w tr -> bMsg it ∈ rows ->
  from store_env w (insertSingly addrs it) (fun _ w' tr' => storing s0 rows w' (tr ++ tr')).
Proof.
  intros H Hin. pose proof H as (Hc & Hg & Hsp).
  unfold insertSingly, query, ask, call. cbn [bind]. apply from_Do. cbn [bind].
  pose proof (insert_step s0 rows (bMsg it) w Hc Hg Hin) as Hstep.
  destruct (store_env (Dao (DInsertMessage (bMsg it))) w) as [r w1]. cbn [fst snd].
  destruct Hstep as (Hc1 & Hg1 & Hk1 & Hr).
  pose proof (storing_silent _ _ w w1 tr [@ev lg (Dao (DInsertMessage (bMsg it))) r] H
                eq_refl Hc1 Hg1 Hk1) as H1.
  assert (is_Some (messages (db w1) !! mMsgId (bMsg it)) ->
    from store_env w1 (ask (GoPush it (addr_of addrs it)))
      (fun _ w' tr' => storing s0 rows w' (tr ++ @ev lg (Dao (DInsertMessage (bMsg it))) r :: tr'))) as Hpush.
  { intros Hs. eapply from_impl; [by apply (push_stores _ _ it _ _ _ H1) |].
    intros ? w' tr' [H2 _]. by rewrite <- app_assoc in H2. }
  destruct r as [[] | e]; cbn [bind]; [by apply Hpush |].
  destruct (isDuplicateKey e); [by apply Hpush, Hr |].
  apply from_Do, from_Ret. pose proof (next_fault_db w1) as (D1 & _ & D3). unfold store_env.
  destruct (next_fault w1) as [f w2]. cbn [fst snd] in *. destruct (D3 Hc1) as [Hc2 _].
  eapply storing_silent; [exact H | done | done | by rewrite D1 |]. rewrite D1. exact Hk1.
Qed.

Lemma silent_step s0 rows c w tr :
  storing s0 rows w tr ->
  (forall it a, c <> GoPush it a) ->
  (forall q, c <> Dao q) ->
  storing s0 rows (store_env c w).2 (tr ++ [@ev lg c (store_env c w).1]).
Proof.
  intros H Hgo Hdao. pose proof H as (Hc & Hg & Hsp).
  pose proof (next_fault_db w) as (D1 & _ & D3).
  assert (db (store_env c w).2 = db w /\ calm (store_env c w).2) as [E1 E2].
  { unfold store_env. destruct (next_fault w) as [f w1]. cbn [fst snd] in *. destruct (D3 Hc) as [Hc1 _].
    destruct c; simpl; try (by destruct f); try done. by destruct (Hdao c). }
  eapply storing_silent; [exact H | | done | by rewrite E1 | by rewrite E1].
  destruct c; try done. by destruct (Hgo it gatewayAddr).
Qed.

Lemma batch_step s0 rows w :
  calm w -> grown s0 rows (db w) ->
  let '(r, w') := store_env (Dao (DBatchInsertMessages rows)) w in
  calm w' /\ grown s0 rows (db w') /\
  (forall k, is_Some (messages (db w) !! k) -> is_Some (messages (db w') !! k)) /\
  (r = Success tt -> forall m, m ∈ rows -> is_Some (messages (db w') !! mMsgId m)).
Proof.
  intros Hc Hg. unfold store_env. destruct (next_fault_db w) as (D1 & D2 & D3).
  destruct (next_fault w) as [f w1]. simpl in D1, D2, D3. destruct (D3 Hc) as [Hc1 Hf]. clear D3.
  unfold exec_dao. cbn [exec]. rewrite D1, D2.
  destruct (grown_batch (db w) rows (now w)) as [Hb Hs].
  destruct (BatchInsertMessages (now w) rows (db w)) as [r s]. cbn [fst snd] in *.
  pose proof (grown_trans _ _ _ _ Hg Hb) as Hg'.
  pose proof (fun k => grown_keeps _ _ _ k Hb) as Hk.
  destruct f as [[e [|]] |]; cbn; rewrite ?D1; split_and!; try done.
Qed.

Lemma flush_stores items w :
  calm w ->
  from store_env w (flush items) (fun _ w' tr => storing (db w) (bMsg <$> items) w' tr).
Proof.
  intros Hc. set (rows := bMsg <$> items).
  assert (storing (db w) rows w []) as H0.
  { split_and!; [done | apply grown_refl | by intros it a ?%not_elem_of_nil]. }
  destruct items as [| i0 items]; [exact H0 |]. unfold flush, query, ask, call. cbn [bind].
  apply from_Do. cbn [bind].
  pose proof (silent_step _ _ (RedisMGet (route_key <$> receivers [] (i0 :: items))) w [] H0
                ltac:(done) ltac:(done)) as H1.
  destruct (store_env (RedisMGet _) w) as [vals w1]. cbn [fst snd app] in *.
  set (addrs := receiverMap _ vals). clearbody addrs. fold rows.
  apply from_Do. pose proof H1 as (Hc1 & Hg1 & _). pose proof (batch_step _ _ _ Hc1 Hg1) as Hb.
  destruct (store_env (Dao (DBatchInsertMessages rows)) w1) as [r w2]. cbn [fst snd].
  destruct Hb as (Hc2 & Hg2 & Hk2 & Hr).
  assert (storing (db w) rows w2 [@ev lg (RedisMGet (route_key <$> receivers [] (i0 :: items))) vals;
                                  @ev lg (Dao (DBatchInsertMessages rows)) r]) as H2.
  { by apply (storing_silent _ _ w1 w2 [_] [_] H1). }
  assert (forall it, it ∈ i0 :: items -> bMsg it ∈ rows) as Hin.
  { intros it Hit. unfold rows. by apply list_elem_of_fmap_2. }
  set (pre := [_; _]) in H2.
  eapply from_impl with (P := fun _ w' tr => storing (db w) rows w' (pre ++ tr)); [| done].
  clearbody pre. destruct r as [[] | e].
  - eapply from_impl; [apply (from_for_each _ w2 _ _ (fun _ w' tr =>
      storing (db w) rows w' (pre ++ tr) /\ forall m, m ∈ rows -> is_Some (messages (db w') !! mMsgId m))) |].
    + rewrite app_nil_r. split; [exact H2 | by apply Hr].
    + intros before it w3 tr [H3 Hall] Hit. eapply from_impl; [apply (push_stores _ _ it _ _ _ H3); auto |].
      intros ? w4 tr' [H4 ->]. by rewrite app_assoc.
    + by intros ? w' tr [? _].
  - apply (from_for_each _ w2 _ _ (fun _ w' tr => storing (db w) rows w' (pre ++ tr)));
      [by rewrite app_nil_r |].
    intros before it w3 tr H3 Hit. eapply from_impl; [apply (insertSingly_stores _ _ addrs it w3 _ H3); auto |].
    intros ? w4 tr' H4. by rewrite app_assoc.
Qed.

(** Commands that leave the messages table alone. *)
Definition leaves_messages (c : cmd lg) : Prop :=
  match c with
  | Dao (DUpsertConversation _ _ _ _ _) => True
  | Dao _ => False
  | _ => True
  end.

Lemma leaves_messages_step c w :
  leaves_messages c -> messages (db (store_env c w).2) = messages (db w).
Proof.
  intros Hc. pose proof (next_fault_db w) as (D1 & _). unfold store_env.
  destruct (next_fault w) as [f w1]. cbn [fst snd] in *.
  destruct c as [c | | | | | | | | | | | |]; try (by destruct f; simpl; rewrite D1); try (by simpl; rewrite D1).
  unfold exec_dao. destruct c; try done. rewrite D1. destruct f as [[e [|]] |]; simpl; by rewrite ?D1.
Qed.

Section tasks.
Variable MarshalDown : DownPayload -> outcome string.
Variable MarshalVector : VectorPayload -> outcome string.

Lemma task_leaves_messages it a :
  only leaves_messages (updateConversationAndPush MarshalDown MarshalVector it a).
Proof.
  unfold updateConversationAndPush. destruct (session_of it) as [[sessionType targetID] senderTarget].
  apply only_bind; [by split |]. intros _. apply only_bind; [by split |]. intros _.
  apply only_bind; [destruct (mGroupId (bMsg it) =? 0); [| done]; apply only_for_each; by split |].
  intros _. unfold pushDownAndAckWithAddr, pushDownWithAddr. apply only_bind.
  - destruct (String.eqb a ""); [done | by split].
  - intros [u | e | e]; [| by split..]. apply only_bind; [by split |]. intros _.
    apply only_bind; [by split |]. intros n.
    destruct (MarshalVector _) as [b | e | e]; [| done..]. destruct (String.eqb b ""); [done | by split].
Qed.

(** C5: An acknowledged message is stored: with faults injected anywhere - a
    statement may fail whether or not it was executed - every item a flush hands
    over for delivery has its row in the messages table, its own or one that was
    there before, no other row has changed or appeared, and the goroutine that
    acknowledges it does not touch the table. But duplicates are recognised by
    the text of the error: an error that merely contains the digits 1062 gets a
    message delivered and acknowledged that is nowhere stored. *)
Theorem acked_is_stored :
  (forall items w, calm w ->
     from store_env w (flush items) (fun _ w' tr =>
       grown (db w) (bMsg <$> items) (db w') /\
       forall it a, (it, a) ∈ spawned tr ->
         stored_from (db w) (bMsg <$> items) (db w') (mMsgId (bMsg it)))) /\
  (forall it a w,
     from store_env w (updateConversationAndPush MarshalDown MarshalVector it a)
       (fun _ w' _ => messages (db w') = messages (db w))) /\
  (exists it w, ~ calm w /\
     from store_env w (flush [it]) (fun _ w' tr =>
       spawned tr = [(it, "")] /\ messages (db w') !! mMsgId (bMsg it) = None)).
Proof.
  split_and!.
  - intros items w Hc. eapply from_impl; [by apply flush_stores |].
    intros x w' tr (_ & Hg & Hs). split; [done |]. intros it a' Hin. apply Hg. by eapply Hs.
  - intros it a w. apply (only_invariant leaves_messages store_env (fun w' => messages (db w') = messages (db w)));
      [apply task_leaves_messages | | done].
    intros c w1 Hc <-. by apply leaves_messages_step.
  - pose (fault := Some ("dial tcp 10.0.0.7:31062: connect: connection refused", false)).
    exists (mkItem sample_message (mkUpload 11 1 ChatTypeSingle 0 "" 1 2 "hi") 0%nat).
    exists (mkWorld empty_store ∅ 0 100 [None; fault; fault]). split.
    + unfold calm. cbn [faults]. intros [_ [Hf _]%Forall_cons]%Forall_cons.
      vm_compute in Hf. discriminate Hf.
    + split; vm_compute; reflexivity.
Qed.

(** ** Redelivery *)

(** One delivery of an item from beginning to end: a flush of its own and the
    goroutine it starts. *)
Definition deliver (it : batchItem) (w : World) : World :=
  let r := run store_env (flush [it]) w in
  final (run store_env (run_tasks MarshalDown MarshalVector (spawned (trace r))) (final r)).

Definition unread (w : World) (owner target : Z) : Z :=
  match conversations (db w) !! (owner, target, 1) with
  | Some c => cUnreadCount c
  | None => 0
  end.

Lemma flush_one it w :
  faults w = [] ->
  from store_env w (flush [it]) (fun _ w' tr =>
    db w' = (InsertMessage (now w) (bMsg it) (db w)).2 /\ faults w' = [] /\
    exists a, spawned tr = [(it, a)]).
Proof.
  intros Hf. unfold flush, query, ask, call. cbn [bind].
  apply from_Do. unfold store_env, next_fault. rewrite Hf. cbn [fst snd bind].
  apply from_Do. cbn [fst snd fmap list_fmap]. rewrite Hf. cbn [fst snd].
  unfold exec_dao, exec, BatchInsertMessages, insert_all, InsertMessage.
  destruct (messages (db w) !! mMsgId (bMsg it)) eqn:E; cbn [fst snd for_each].
  - unfold insertSingly, query, ask, call. cbn [bind]. apply from_Do. cbn [faults set_db]. rewrite Hf.
    unfold exec_dao, exec, InsertMessage. cbn [db set_db fst snd]. rewrite E. cbn [fst snd bind].
    rewrite duplicate_entry_is_duplicate. cbn [bind].
    apply from_Do. cbn [faults set_db]. rewrite Hf. cbn [fst snd]. apply from_Ret.
    split_and!; [done | done | by eexists].
  - cbn [bind ask call]. apply from_Do. cbn [faults set_db]. rewrite Hf. apply from_Ret.
    split_and!; [done | done | by eexists].
Qed.

Lemma store_env_dao q w :
  faults w = [] ->
  store_env (Dao q) w = ((exec (now w) q (db w)).1, set_db (exec (now w) q (db w)).2 w).
Proof.
  intros H. unfold store_env, next_fault. rewrite H. unfold exec_dao.
  by destruct (exec (now w) q (db w)).
Qed.

Definition no_dao (c : cmd lg) : Prop := match c with Dao _ => False | _ => True end.
(** Commands that write neither the tables nor the cache. *)
Definition no_store (c : cmd lg) : Prop :=
  match c with Dao _ | RedisSet _ _ _ | RedisDel _ => False | _ => True end.

Lemma push_no_store it a : only no_store (pushDownAndAckWithAddr MarshalDown MarshalVector it a).
Proof.
  unfold pushDownAndAckWithAddr, pushDownWithAddr. apply only_bind.
  - destruct (String.eqb a ""); [done | by split].
  - intros [u | e | e]; [| by split..]. apply only_bind; [by split |]. intros _.
    apply only_bind; [by split |]. intros n.
    destruct (MarshalVector _) as [b | e | e]; [| done..]. destruct (String.eqb b ""); [done | by split].
Qed.

Definition conversations_after (it : batchItem) (t : Z) (s : Store) : Store :=
  let p := bPayload it in
  UpsertConversation t (uSenderID p) (uReceiverID p) 1 0 (mMsgId (bMsg it))
    (UpsertConversation t (uReceiverID p) (uSenderID p) 1 1 (mMsgId (bMsg it)) s).

Lemma task_one it a w :
  faults w = [] -> mGroupId (bMsg it) = 0 ->
  from store_env w (updateConversationAndPush MarshalDown MarshalVector it a) (fun _ w' _ =>
    db w' = conversations_after it (now w) (db w) /\ faults w' = []).
Proof.
  intros Hf Hg. unfold updateConversationAndPush, session_of. rewrite Hg. cbn [Z.eqb].
  unfold query, ask, call. cbn [bind].
  apply from_Do. rewrite store_env_dao by done. cbn [fst snd exec bind].
  apply from_Do. rewrite store_env_dao by done. cbn [fst snd exec bind].
  apply (only_invariant no_dao store_env (fun w' =>
    db w' = conversations_after it (now w) (db w) /\ faults w' = [])).
  - apply only_bind; [by apply only_for_each |]. intros _.
    eapply only_impl; [apply push_no_store |]. by intros [].
  - intros c w1 Hc [E1 E2]. unfold store_env, next_fault. rewrite E2. by destruct c.
  - done.
Qed.

Lemma unread_upsert w w' t o g d l owner target :
  db w' = UpsertConversation t o g 1 d l (db w) ->
  unread w' owner target = unread w owner target + (if decide ((o, g) = (owner, target)) then d else 0).
Proof.
  intros E. unfold unread. rewrite E. unfold UpsertConversation. cbn [conversations set_conversations].
  destruct (decide ((o, g) = (owner, target))) as [[= -> ->] | Hne].
  - rewrite lookup_insert_eq. destruct (conversations (db w) !! (owner, target, 1)); simpl; lia.
  - rewrite lookup_insert_ne by congruence. lia.
Qed.

Lemma deliver_once it w :
  faults w = [] -> mGroupId (bMsg it) = 0 ->
  let w' := deliver it w in
  faults w' = [] /\ messages (db w') = messages (InsertMessage (now w) (bMsg it) (db w)).2 /\
  unread w' (uReceiverID (bPayload it)) (uSenderID (bPayload it)) =
    unread w (uReceiverID (bPayload it)) (uSenderID (bPayload it)) + 1.
Proof.
  intros Hf Hg. unfold deliver.
  destruct (flush_one it w Hf) as (E1 & E2 & a & E3). cbn zeta. rewrite E3.
  set (w1 := final (run store_env (flush [it]) w)) in *.
  assert (from store_env w1 (run_tasks MarshalDown MarshalVector [(it, a)])
    (fun _ w' _ => db w' = conversations_after it (now w1) (db w1) /\ faults w' = [])) as [F1 F2].
  { unfold run_tasks. cbn [for_each fst snd]. eapply from_bind; [by apply task_one |].
    intros ? w' tr [H1 H2]. apply from_Ret. done. }
  split_and!; [exact F2 | by rewrite F1; simpl; rewrite E1 |].
  set (w2 := set_db (UpsertConversation (now w1) (uReceiverID (bPayload it)) (uSenderID (bPayload it)) 1 1
                       (mMsgId (bMsg it)) (db w1)) w1).
  rewrite (unread_upsert w2 _ _ _ _ _ _ _ _ F1), (unread_upsert w1 w2 _ _ _ _ _ _ _ eq_refl).
  rewrite decide_True by done.
  assert (unread w1 (uReceiverID (bPayload it)) (uSenderID (bPayload it)) =
          unread w (uReceiverID (bPayload it)) (uSenderID (bPayload it))) as ->.
  { unfold unread. rewrite E1. unfold InsertMessage. by destruct (messages (db w) !! mMsgId (bMsg it)). }
  destruct (decide _); lia.
Qed.

(** At-least-once delivery of a private message, without faults: the first
    delivery stores its row and every redelivery finds it as a duplicate and
    leaves the table as it is, so the message exists once however often it comes;
    but each delivery, duplicate or not, adds one to the receiver's unread count. *)
Theorem redelivery_counts_again it w n :
  faults w = [] -> mGroupId (bMsg it) = 0 -> messages (db w) !! mMsgId (bMsg it) = None ->
  let w' := Nat.iter (S n) (deliver it) w in
  messages (db w') = <[mMsgId (bMsg it) := stamp (now w) (bMsg it)]> (messages (db w)) /\
  unread w' (uReceiverID (bPayload it)) (uSenderID (bPayload it)) =
    unread w (uReceiverID (bPayload it)) (uSenderID (bPayload it)) + Z.of_nat (S n).
Proof.
  intros Hf Hg Hnew.
  assert (faults (Nat.iter (S n) (deliver it) w) = [] /\
    messages (db (Nat.iter (S n) (deliver it) w)) =
      <[mMsgId (bMsg it) := stamp (now w) (bMsg it)]> (messages (db w)) /\
    unread (Nat.iter (S n) (deliver it) w) (uReceiverID (bPayload it)) (uSenderID (bPayload it)) =
      unread w (uReceiverID (bPayload it)) (uSenderID (bPayload it)) + Z.of_nat (S n)) as (_ & ? & ?);
    [| done].
  induction n as [| n (I1 & I2 & I3)].
  - destruct (deliver_once it w Hf Hg) as (D1 & D2 & D3). simpl Nat.iter.
    split_and!; [exact D1 | | rewrite D3; lia].
    rewrite D2. unfold InsertMessage. by rewrite Hnew.
  - destruct (deliver_once it _ I1 Hg) as (D1 & D2 & D3).
    change (Nat.iter (S (S n)) (deliver it) w) with (deliver it (Nat.iter (S n) (deliver it) w)).
    split_and!; [exact D1 | | rewrite D3, I3; lia].
    rewrite D2. unfold InsertMessage. rewrite I2, lookup_insert_eq. exact I2.
Qed.
End tasks.

Definition sample_item : batchItem :=
  mkItem sample_message (mkUpload 11 1 ChatTypeSingle 0 "single_1_2" 1 2 "hi") 7%nat.
Definition sample_world : World := mkWorld empty_store {[ "route:user:2" := "gw-1" ]} 1000 500 [].

Lemma redelivery_counts_again_witness :
  let w' := Nat.iter 3 (deliver (fun _ => Ok "{}") (fun _ => Ok "{}") sample_item) sample_world in
  messages (db w') = <[11 := stamp 1000 sample_message]> ∅ /\ unread w' 2 1 = 3.
Proof.
  apply (redelivery_counts_again (fun _ => Ok "{}") (fun _ => Ok "{}") sample_item sample_world 2);
    reflexivity.
Defined.
