(* ===== verification/Services.v ===== *)
(** * The RPC services of the logic server: apps/logic/service

    chat_service.go, friend_service.go and group_service.go over the commands of
    the upward consumer: each handler returns its reply or its error. *)
From S2P Require Import Prelude GoStd Effects Mq Dao Logic.
#[local] Open Scope prog_scope.

(** The reply of an RPC that lists messages. *)
Record MessageItem := mkMessageItem {
  iMsgId : Z;
  iSenderId : Z;
  iGroupId : Z;
  iContent : string;
  iSeqId : Z;
  iSendStatus : Z;
  iCreateTime : string;
}.

Record HistoryReply := mkHistory {
  hTargetId : Z;
  hMessages : list MessageItem;
  hHasMore : bool;
  hNextCursor : Z;
}.

Record ConversationItem := mkConversationItem {
  ciTargetId : Z;
  ciSessionType : Z;
  ciUnreadCount : Z;
  ciOwnerId : Z;
}.

Record FriendItem := mkFriendItem {
  fiFriendId : Z;
  fiNickname : string;
  fiAvatar : string;
  fiStatus : Z;
}.

(** replies of the group service *)
Record GroupItem := mkGroupItem {
  giGroupId : Z;
  giGroupName : string;
  giOwnerId : Z;
}.

Record GroupMemberItem := mkGroupMemberItem {
  gmiUserId : Z;
  gmiRole : Z;
  gmiNickname : string;
}.

Record PendingRequestItem := mkPendingItem {
  priUserId : Z;
  priUsername : string;
  priNickname : string;
  priAvatar : string;
  priApplyMsg : string;
  priCreatedAt : string;
}.

(** A query whose error the handler returns. *)
Definition fetch (c : dao_cmd) : prog lg (outcome (dao_answer c)) :=
  r <- query c ;;
  match r with
  | Success a => Ret (Ok a)
  | Failure e => Ret (Err e)
  end.
#[export] Hint Unfold fetch : prog.

(** if err != nil { return err } *)
Definition try {A B} (p : prog lg (outcome A)) (k : A -> prog lg (outcome B)) : prog lg (outcome B) :=
  r <- p ;;
  match r with
  | Ok a => k a
  | Err e => Ret (Err e)
  | Panic m => Ret (Panic m)
  end.

Section services.
Variable MarshalDown : DownPayload -> outcome string.
Variable MarshalHistory : HistoryReply -> outcome string.
Variable UnmarshalHistory : string -> outcome HistoryReply.
Variable FormatTime : Z -> string.

(** Push to a user if Redis knows its gateway; errors are ignored. *)
Definition notify (p : DownPayload) : prog lg unit :=
  addr <- ask (RedisGet (route_key (dReceiverID p))) ;;
  match addr with
  | Ok (Some gatewayAddr) =>
      if String.eqb gatewayAddr "" then Ret tt
      else match MarshalDown p with
           | Ok body => ask (PublishDown gatewayAddr body) ;; Ret tt
           | _ => Ret tt
           end
  | _ => Ret tt
  end.

(** ** chat_service.go *)

Definition item_of (m : Messages) : MessageItem :=
  mkMessageItem (mMsgId m) (mSenderId m) (mGroupId m) (mContent m) (mSeqId m) (mSendStatus m) "".
Definition timed_item (m : Messages) : MessageItem :=
  mkMessageItem (mMsgId m) (mSenderId m) (mGroupId m) (mContent m) (mSeqId m) (mSendStatus m)
    (FormatTime (mCreateTime m)).
Definition group_item (m : Messages) : MessageItem :=
  mkMessageItem (mMsgId m) (mSenderId m) 0 (mContent m) 0 0 (FormatTime (mCreateTime m)).

Definition SyncUnread (receiverId : Z) : prog lg (outcome (list MessageItem)) :=
  try (fetch (DGetUnreadMessages receiverId)) (fun messages => Ret (Ok (item_of <$> messages))).

Definition NotifyDelivered (msgId : Z) : prog lg (outcome bool) :=
  try (fetch (DMarkSendTransportDelivered msgId)) (fun _ => Ret (Ok true)).
Definition AckMessage (msgId : Z) : prog lg (outcome bool) :=
  try (fetch (DMarkMessageAsRead msgId)) (fun _ => Ret (Ok true)).
Definition ReadMessages (receiverId : Z) : prog lg (outcome bool) :=
  try (fetch (DMarkMessagesAsRead receiverId)) (fun _ => Ret (Ok true)).

Definition GetConversations (userId : Z) : prog lg (outcome (list ConversationItem)) :=
  try (fetch (DGetConversations userId)) (fun convs =>
    Ret (Ok ((fun c => mkConversationItem (cTargetID c) (cSessionType c) (cUnreadCount c) (cOwnerID c))
               <$> convs))).

(** The first page of a history, from the cache or from the database. *)
Definition with_cache (key : string) (cursor : Z) (load : prog lg (outcome HistoryReply))
    : prog lg (outcome HistoryReply) :=
  cached <- (if cursor =? 0 then ask (RedisGet key) else Ret (Ok None)) ;;
  match cached with
  | Ok (Some text) => if String.eqb text "" then load else Ret (UnmarshalHistory text)
  | _ => load
  end.

(** if len(msgs) == int(req.Limit) { HasMore; NextCursor = msgs[len(msgs)-1].MsgId } *)
Definition has_more (target limit : Z) (items : list MessageItem) (msgs : list Messages)
    : outcome HistoryReply :=
  if len msgs =? limit then
    outcome_map (fun m => mkHistory target items true (mMsgId m)) (slice_at msgs (len msgs - 1))
  else Ok (mkHistory target items false 0).

(** The reply of a page; a non-empty first page is cached for five minutes. *)
Definition reply_of (key : string) (cursor limit target : Z) (items : list MessageItem)
    (msgs : list Messages) : prog lg (outcome HistoryReply) :=
  match has_more target limit items msgs with
  | Ok resp =>
      (if (cursor =? 0) && (0 <? len msgs) then
         match MarshalHistory resp with
         | Ok data => ask (RedisSet key data historyTTL)
         | _ => Ret tt
         end
       else Ret tt) ;;
      Ret (Ok resp)
  | r => Ret r
  end.

Definition GetChatHistory (userId targetId cursor limit : Z) : prog lg (outcome HistoryReply) :=
  let key := chat_key userId targetId 0 limit in
  with_cache key cursor
    (try (fetch (DGetChatHistory userId targetId cursor limit)) (fun msgs =>
       reply_of key cursor limit targetId (timed_item <$> msgs) msgs)).

Definition MarkMessageRead (userId targetId sessionType : Z) : prog lg (outcome bool) :=
  try (fetch (DClearUnread userId targetId sessionType)) (fun _ => Ret (Ok true)).

(** ** friend_service.go *)

Definition ApplyFriend (userId friendId : Z) (applyMsg : string) : prog lg (outcome bool) :=
  try (fetch (DApplyFriend userId friendId applyMsg)) (fun _ =>
    notify (mkDown 0 0 0 userId friendId applyMsg ChatTypeFriendRequest) ;; Ret (Ok true)).

Definition ResolveFriend (userId friendId : Z) (action : string) : prog lg (outcome bool) :=
  let status := if String.eqb action "accept" then 1 else 2 in
  try (fetch (DResolveFriend userId friendId status)) (fun _ =>
    notify (mkDown 0 0 0 userId friendId action ChatTypeFriendResolved) ;; Ret (Ok true)).

(** The other side of a friendship row. *)
Definition other_side (userId : Z) (f : Friend) : Z :=
  if fFriendID f =? userId then fUserID f else fFriendID f.

Definition no_user : User := mkUser 0 "" "" "" "".

Definition GetFriendList (userId : Z) : prog lg (outcome (list FriendItem)) :=
  try (fetch (DGetFriendList userId)) (fun friends =>
    try (fetch (DGetUsersByIDs (other_side userId <$> friends))) (fun userMap =>
      Ret (Ok ((fun f =>
        let u := default no_user (userMap !! other_side userId f) in
        mkFriendItem (other_side userId f) (usNickname u) (usAvatar u) (fStatus f)) <$> friends)))).

Definition DeleteFriend (userId friendId : Z) : prog lg (outcome bool) :=
  try (fetch (DDeleteFriend userId friendId)) (fun _ =>
    query (DDeleteConversation userId friendId 1) ;;
    query (DDeleteMessagesBetween userId friendId) ;;
    invalidateChatCache userId friendId ;;
    notify (mkDown 0 0 0 userId friendId "" ChatTypeFriendDeleted) ;;
    Ret (Ok true)).

Definition GetPendingRequests (userId : Z) : prog lg (outcome (list PendingRequestItem)) :=
  try (fetch (DGetPendingFriendRequests userId)) (fun requests =>
    Ret (Ok ((fun r => mkPendingItem (pUserID r) (pUsername r) (pNickname r) (pAvatar r) (pRemark r)
                         (FormatTime (pCreatedAt r))) <$> requests))).

(** ** group_service.go *)

(** The creator joins its group unless the request already lists it. *)
Definition with_creator (userId : Z) (memberIds : list Z) : list Z :=
  if bool_decide (userId ∈ memberIds) then memberIds else memberIds ++ [userId].

(** The loop that pushes to every member but one. *)
Definition notify_members (members : list Z) (exclude : Z) (mk : Z -> DownPayload) : prog lg unit :=
  for_each members (fun memberID => if memberID =? exclude then Ret tt else notify (mk memberID)).

Definition CreateGroup (userId : Z) (groupName : string) (memberIds : list Z) : prog lg (outcome Z) :=
  let members := with_creator userId memberIds in
  try (fetch (DCreateGroup groupName userId userId members)) (fun groupId =>
    for_each members (fun memberID => query (DUpsertConversation memberID groupId 2 0 0) ;; Ret tt) ;;
    notify_members members userId (fun memberID =>
      mkDown 0 0 groupId userId memberID groupName ChatTypeGroupCreated) ;;
    Ret (Ok groupId)).

Definition group_info (g : Group) : GroupItem := mkGroupItem (gGroupID g) (gGroupName g) (gOwnerID g).

Definition GetGroupList (userId : Z) : prog lg (outcome (list GroupItem)) :=
  try (fetch (DGetUserGroups userId)) (fun members =>
    try (fetch (DGetGroupsByIDs (gmGroupID <$> members))) (fun groups =>
      Ret (Ok (group_info <$> groups)))).

Definition SearchGroup (like : string -> string -> bool) (keyword : string) : prog lg (outcome (list GroupItem)) :=
  try (fetch (DSearchGroups like keyword)) (fun groups => Ret (Ok (group_info <$> groups))).

Definition GetGroupInfo (groupId : Z) : prog lg (outcome GroupItem) :=
  try (fetch (DGetGroupByID groupId)) (fun g => Ret (Ok (group_info g))).

Definition GetGroupMembers (groupId : Z) : prog lg (outcome (list GroupMemberItem)) :=
  try (fetch (DGetGroupMemberModels groupId)) (fun members =>
    try (fetch (DGetUsersByIDs (gmUserID <$> members))) (fun userMap =>
      Ret (Ok ((fun m => mkGroupMemberItem (gmUserID m) (gmRole m)
                 (usNickname (default no_user (userMap !! gmUserID m)))) <$> members)))).

Definition broadcastMemberChanged (groupID excludeUserID : Z) : prog lg unit :=
  members <- query (DGetGroupMembers groupID) ;;
  match members with
  | Success members =>
      notify_members members excludeUserID (fun memberID =>
        mkDown 0 0 groupID excludeUserID memberID (Itoa groupID) ChatTypeGroupMemberChanged)
  | Failure _ => Ret tt
  end.

Definition JoinGroup (userId groupId : Z) : prog lg (outcome bool) :=
  try (fetch (DInsertGroupMember groupId userId)) (fun _ =>
    query (DUpsertConversation userId groupId 2 0 0) ;;
    broadcastMemberChanged groupId userId ;;
    Ret (Ok true)).

Definition LeaveGroup (userId groupId : Z) : prog lg (outcome bool) :=
  try (fetch (DDeleteGroupMember groupId userId)) (fun _ =>
    query (DDeleteConversation userId groupId 2) ;;
    broadcastMemberChanged groupId userId ;;
    Ret (Ok true)).

Definition DissolveGroup (userId groupId : Z) : prog lg (outcome bool) :=
  try (fetch (DGetGroupMembers groupId)) (fun members =>
    notify_members members userId (fun memberID =>
      mkDown 0 0 groupId userId memberID "" ChatTypeGroupDissolved) ;;
    query (DDeleteAllGroupMembers groupId) ;;
    query (DDeleteGroupMessages groupId) ;;
    query (DDeleteGroupConversations groupId) ;;
    query (DDeleteGroup groupId) ;;
    Ret (Ok true)).

Definition GetGroupHistory (groupId userId cursor limit : Z) : prog lg (outcome HistoryReply) :=
  let key := group_key groupId 0 limit in
  with_cache key cursor
    (try (fetch (DGetGroupHistory groupId userId cursor limit)) (fun msgs =>
       reply_of key cursor limit 0 (group_item <$> msgs) msgs)).

(** ** Scrolling through a history *)

(** A reader that follows the cursors until there is no more, and the pages it saw. *)
Fixpoint scroll (fuel : nat) (userId targetId cursor limit : Z) : prog lg (outcome (list MessageItem)) :=
  match fuel with
  | O => Ret (Err "too many pages")
  | S fuel' =>
      try (GetChatHistory userId targetId cursor limit) (fun resp =>
        if hHasMore resp
        then try (scroll fuel' userId targetId (hNextCursor resp) limit) (fun rest =>
               Ret (Ok (hMessages resp ++ rest)))
        else Ret (Ok (hMessages resp)))
  end.

Lemma has_more_full target limit items pre y :
  len (pre ++ [y]) = limit ->
  has_more target limit items (pre ++ [y]) = Ok (mkHistory target items true (mMsgId y)).
Proof.
  intros E. unfold has_more. rewrite (proj2 (Z.eqb_eq _ _) E).
  assert (slice_at (pre ++ [y]) (len (pre ++ [y]) - 1) = Ok y) as ->; [| done].
  rewrite len_app. unfold slice_at, len. simpl. rewrite decide_True by lia.
  replace (Z.to_nat _) with (length pre) by lia. by rewrite list_lookup_middle.
Qed.

Lemma has_more_short target limit items msgs :
  len msgs <> limit -> has_more target limit items msgs = Ok (mkHistory target items false 0).
Proof. intros E. unfold has_more. by rewrite (proj2 (Z.eqb_neq _ _) E). Qed.

(** The reply to a request for a page that reads the table as it is. *)
Definition page_reply (u t cursor limit : Z) (s : Store) : outcome HistoryReply :=
  let msgs := page (between u t) cursor limit s in has_more t limit (timed_item <$> msgs) msgs.

(** Whatever first page is cached, it is what the table has. *)
Definition current (u t limit : Z) (w : World) : Prop :=
  forall text, redis w !! chat_key u t 0 limit = Some text -> text <> "" ->
    UnmarshalHistory text = page_reply u t 0 limit (db w).

Lemma GetChatHistory_page u t cursor limit w :
  faults w = [] -> (cursor = 0 -> current u t limit w) ->
  let msgs := page (between u t) cursor limit (db w) in
  from store_env w (GetChatHistory u t cursor limit) (fun r w' _ =>
    r = has_more t limit (timed_item <$> msgs) msgs /\ db w' = db w /\ faults w' = []).
Proof.
  intros Hf Hcold msgs.
  assert (forall w1, db w1 = db w -> faults w1 = [] ->
    from store_env w1 (try (fetch (DGetChatHistory u t cursor limit)) (fun msgs =>
       reply_of (chat_key u t 0 limit) cursor limit t (timed_item <$> msgs) msgs))
      (fun r w' _ => r = has_more t limit (timed_item <$> msgs) msgs /\ db w' = db w /\ faults w' = []))
    as Hload.
  { intros w1 E1 E2. unfold try, fetch, query, ask, call. cbn [bind].
    apply from_Do. rewrite store_env_dao by done. cbn [exec fst snd bind GetChatHistory]. rewrite E1. fold msgs.
    unfold Dao.GetChatHistory. fold msgs. cbn [bind]. unfold reply_of.
    destruct (has_more t limit (timed_item <$> msgs) msgs) as [resp | e | e]; cbn [bind];
      [| by apply from_Ret..].
    destruct ((cursor =? 0) && (0 <? len msgs)); cbn [bind]; [| by apply from_Ret].
    destruct (MarshalHistory resp); cbn [bind]; [| by apply from_Ret..].
    unfold ask, call. cbn [bind]. apply from_Do. unfold store_env, next_fault. cbn [faults set_db].
    rewrite E2. by apply from_Ret. }
  unfold GetChatHistory, with_cache. destruct (cursor =? 0) eqn:Ec; cbn [bind]; [| by apply Hload].
  apply Z.eqb_eq in Ec. unfold ask, call. cbn [bind]. apply from_Do.
  assert (store_env (RedisGet (chat_key u t 0 limit)) w = (Ok (redis w !! chat_key u t 0 limit), w)) as ->.
  { unfold store_env, next_fault. by rewrite Hf. }
  cbn [fst snd]. destruct (redis w !! chat_key u t 0 limit) as [text |] eqn:Et; [| by apply Hload].
  destruct (String.eqb_spec text "") as [| Hne]; [by apply Hload |].
  apply from_Ret. rewrite (Hcold Ec text Et Hne), <- Ec. done.
Qed.

Lemma scroll_rest u t limit s fuel :
  store_ok s -> (forall k, is_Some (messages s !! k) -> 0 < k) -> 1 <= limit <= maxChatLimit ->
  forall cursor pre post w,
    db w = s -> faults w = [] -> (cursor = 0 -> current u t limit w) ->
    history s (between u t) = pre ++ post ->
    page (between u t) cursor limit s = take (Z.to_nat limit) post -> (length post < fuel)%nat ->
    from store_env w (scroll fuel u t cursor limit) (fun r _ _ => r = Ok (timed_item <$> post)).
Proof.
  intros Hok Hpos Hl. induction fuel as [| fuel IH]; intros cursor pre post w Hdb Hf Hcold Hall Hpage Hfuel; [lia |].
  cbn [scroll]. unfold try. eapply from_bind; [by apply GetChatHistory_page |].
  intros r w1 tr (-> & E1 & E2). rewrite Hdb, Hpage. clear tr.
  destruct (decide (Z.to_nat limit <= length post)%nat) as [Hlong | Hshort].
  - assert (len (take (Z.to_nat limit) post) = limit) as Hlen.
    { unfold len. rewrite length_take. lia. }
    destruct (exists_last (l := take (Z.to_nat limit) post)) as (pre' & y & Ey).
    { intros E. rewrite E in Hlen. unfold len in Hlen. simpl in Hlen. lia. }
    rewrite Ey in Hlen. rewrite Ey, has_more_full by done. cbn [hHasMore hNextCursor hMessages].
    pose proof (take_drop (Z.to_nat limit) post) as Hcut. rewrite Ey in Hcut.
    set (rest := drop (Z.to_nat limit) post) in *.
    assert (history s (between u t) = (pre ++ pre') ++ y :: rest) as Hsplit.
    { rewrite Hall, <- Hcut, <- !app_assoc. done. }
    assert (0 < mMsgId y) as Hy.
    { apply Hpos. assert (y ∈ history s (between u t)) as Hin by (rewrite Hsplit; set_solver).
      apply elem_of_history, elem_of_select in Hin as [_ [k Hk]].
      destruct (Hok _ _ Hk) as [<- _]. by eexists. }
    assert (from store_env w1 (scroll fuel u t (mMsgId y) limit)
              (fun r _ _ => r = Ok (timed_item <$> rest))) as Hrest.
    { apply (IH _ (pre ++ pre' ++ [y])); [congruence | done | lia | by rewrite Hsplit, <- !app_assoc | |].
      - rewrite (page_cursor s Hok _ _ _ _ _ Hy Hsplit). unfold normalize_limit.
        rewrite (proj2 (Z.leb_gt _ _)), (proj2 (Z.ltb_ge _ _)) by lia. done.
      - subst rest. rewrite length_drop. lia. }
    eapply from_bind; [exact Hrest |]. intros ? w2 tr ->. apply from_Ret.
    by rewrite <- fmap_app, Hcut.
  - rewrite take_ge by lia. rewrite has_more_short by (unfold len; lia). by apply from_Ret.
Qed.

(** C39: Scrolling through a private conversation whose messages nobody adds to
    meanwhile, with the table and Redis answering: where the first page is not cached,
    or cached as the table has it, a reader with a limit from 1 to 200 that follows the
    cursors until there is no more receives every message of the two users exactly
    once, newest first, in finitely many pages. But the dao replaces any other limit by
    20 and the service compares with the limit that was asked: with such a limit a
    reader gets the newest 20 messages and is told that there are no more, and with a
    limit of 0 on an empty conversation the service indexes the empty page and
    panics. *)
Theorem history_pages u t w :
  store_ok (db w) -> faults w = [] -> (forall k, is_Some (messages (db w) !! k) -> 0 < k) ->
  (forall limit, current u t limit w) ->
  let all := history (db w) (between u t) in
  (forall limit, 1 <= limit <= maxChatLimit ->
     from store_env w (scroll (S (length all)) u t 0 limit) (fun r _ _ => r = Ok (timed_item <$> all))) /\
  NoDup all /\ (forall m, m ∈ all <-> m ∈ select (between u t) (messages (db w))) /\
  (forall limit, ~ 1 <= limit <= maxChatLimit ->
     from store_env w (GetChatHistory u t 0 limit) (fun r _ _ =>
       r = if bool_decide (limit = 0 /\ all = []) then Panic "index out of range"
           else Ok (mkHistory t (timed_item <$> take 20 all) false 0))).
Proof.
  intros Hok Hf Hpos Hcold all.
  assert (forall limit, page (between u t) 0 limit (db w) = take (Z.to_nat (normalize_limit limit)) all) as Hp.
  { intros limit. apply page_first. }
  split_and!.
  - intros limit Hl. apply (scroll_rest u t limit (db w) _ Hok Hpos Hl 0 []); [done.. | | lia].
    rewrite Hp. unfold normalize_limit. by rewrite (proj2 (Z.leb_gt _ _)), (proj2 (Z.ltb_ge _ _)) by lia.
  - by apply history_NoDup.
  - intros m. apply elem_of_history.
  - intros limit Hl. eapply from_impl; [by apply GetChatHistory_page |]. intros r ? ? [-> _].
    assert (normalize_limit limit = 20) as En.
    { unfold normalize_limit. destruct (Z.leb_spec limit 0); [done |].
      rewrite (proj2 (Z.ltb_lt _ _)) by lia. done. }
    rewrite Hp, En. change (Z.to_nat 20) with 20%nat. case_bool_decide as Hcase.
    + destruct Hcase as [-> ->]. done.
    + apply has_more_short. unfold len. rewrite length_take. unfold maxChatLimit in Hl.
      destruct (decide (limit = 0)) as [-> |]; [| lia]. destruct all; [by destruct Hcase | cbn; lia].
Qed.

(** ** The cached first page *)

Lemma chat_key_inj u t c l u' t' c' l' :
  chat_key u t c l = chat_key u' t' c' l' -> u = u' /\ t = t' /\ c = c' /\ l = l'.
Proof.
  unfold chat_key. intros H%(inj _).
  do 3 (apply (sep_inj is_digit_or_minus) in H as [?%(inj Itoa) H]; [| done | apply Itoa_digits..]).
  apply (inj Itoa) in H. done.
Qed.

(** The keys a private message clears. *)
Definition cleared (userA userB : Z) (limits : list Z) : list string :=
  limits ≫= (fun limit => [chat_key userA userB 0 limit; chat_key userB userA 0 limit]).

Lemma cleared_limit a b u t limit limits :
  chat_key u t 0 limit ∈ cleared a b limits -> limit ∈ limits.
Proof.
  unfold cleared. rewrite list_elem_of_bind. intros (l & Hk & Hl).
  repeat apply elem_of_cons in Hk as [Hk | Hk]; try (by apply chat_key_inj in Hk as (_ & _ & _ & ->)).
  by apply not_elem_of_nil in Hk.
Qed.

(** The keys are gone, every other one is as it was. *)
Definition emptied (keys : list string) (w w' : World) : Prop :=
  forall k, (k ∈ keys -> redis w' !! k = None) /\ (k ∉ keys -> redis w' !! k = redis w !! k).

Lemma invalidate_clears a b w :
  faults w = [] ->
  from store_env w (invalidateChatCache a b) (fun _ w' _ =>
    db w' = db w /\ faults w' = [] /\
    emptied (cleared a b cached_limits) w w').
Proof.
  intros Hf. apply (from_for_each store_env w _ _ (fun before w' _ =>
    db w' = db w /\ faults w' = [] /\
    emptied (cleared a b before) w w')).
  - split_and!; [done | done |]. intros k. split; [by intros ?%not_elem_of_nil | done].
  - intros before limit w1 tr (E1 & E2 & E3) _. unfold ask, call. apply from_Do, from_Ret.
    unfold store_env, next_fault. rewrite E2. cbn [fst snd db faults set_redis redis foldr].
    split_and!; [done | done |]. intros k. unfold cleared in *. rewrite bind_app. cbn.
    destruct (E3 k) as [F1 F2]. rewrite !lookup_delete. split; intros Hk; repeat case_decide; set_solver.
Qed.

Variable MarshalVector : VectorPayload -> outcome string.

(** What the goroutine of a stored private message leaves in the cache. *)
Lemma task_clears it a w :
  faults w = [] -> mGroupId (bMsg it) = 0 ->
  let p := bPayload it in
  from store_env w (updateConversationAndPush MarshalDown MarshalVector it a) (fun _ w' _ =>
    messages (db w') = messages (db w) /\ faults w' = [] /\
    emptied (cleared (uSenderID p) (uReceiverID p) cached_limits) w w').
Proof.
  intros Hf Hg. unfold updateConversationAndPush, session_of. rewrite Hg. cbn [Z.eqb].
  unfold query, ask, call. cbn [bind].
  apply from_Do. rewrite store_env_dao by done. cbn [fst snd exec bind].
  apply from_Do. rewrite store_env_dao by done. cbn [fst snd exec bind].
  eapply from_bind; [by apply invalidate_clears |]. intros ? w1 tr (E1 & E2 & E3).
  eapply from_impl; [apply (only_invariant no_store store_env (fun w' =>
    db w' = db w1 /\ faults w' = [] /\ redis w' = redis w1)) |].
  - apply push_no_store.
  - intros c w2 Hc (D1 & D2 & D3). unfold store_env, next_fault. rewrite D2. by destruct c.
  - done.
  - intros ? w' ? (D1 & D2 & D3). unfold emptied in *. rewrite D1, E1. split_and!; [done.. |].
    intros k. rewrite D3. apply E3.
Qed.

Lemma with_cache_hit key load text w :
  faults w = [] -> redis w !! key = Some text -> text <> "" ->
  from store_env w (with_cache key 0 load) (fun r _ _ => r = UnmarshalHistory text).
Proof.
  intros Hf Hk Hne. unfold with_cache, ask, call. cbn [Z.eqb bind]. apply from_Do.
  unfold store_env, next_fault. rewrite Hf. cbn [fst snd unless]. rewrite Hk.
  rewrite (proj2 (String.eqb_neq _ _) Hne). by apply from_Ret.
Qed.

(** How fresh a first page is: once the goroutine of a stored private message
    has run, a first page of 20, 50 or 100 messages of either user is read from
    the database as it is now; for any other limit a page that was cached before
    the message is still what both see, for as long as Redis keeps it. And the
    cached page of a group does not depend on who reads it: every user, member or
    not, gets the rows that were cached for the first one. *)
Theorem history_cache_freshness it a u t limit w :
  faults w = [] -> mGroupId (bMsg it) = 0 ->
  let p := bPayload it in
  (u = uSenderID p /\ t = uReceiverID p) \/ (u = uReceiverID p /\ t = uSenderID p) ->
  from store_env w (updateConversationAndPush MarshalDown MarshalVector it a) (fun _ w' _ =>
    (limit ∈ cached_limits ->
       from store_env w' (GetChatHistory u t 0 limit) (fun r _ _ =>
         let msgs := page (between u t) 0 limit (db w) in
         r = has_more t limit (timed_item <$> msgs) msgs)) /\
    (limit ∉ cached_limits -> forall text, redis w !! chat_key u t 0 limit = Some text -> text <> "" ->
       from store_env w' (GetChatHistory u t 0 limit) (fun r _ _ => r = UnmarshalHistory text))) /\
  (forall g text, redis w !! group_key g 0 limit = Some text -> text <> "" ->
     forall v, from store_env w (GetGroupHistory g v 0 limit) (fun r _ _ => r = UnmarshalHistory text)).
Proof.
  intros Hf Hg p Hut. split.
  - eapply from_impl; [by apply task_clears |]. intros ? w' ? (E1 & E2 & E3). split.
    + intros Hl. eapply from_impl; [apply GetChatHistory_page; [done |] |].
      * intros _ text Ht. exfalso. enough (redis w' !! chat_key u t 0 limit = None) by congruence.
        apply E3. unfold cleared. apply list_elem_of_bind. exists limit. split; [| done].
        destruct Hut as [[-> ->] | [-> ->]]; set_solver.
      * intros r ? ? [-> _]. unfold page. by rewrite E1.
    + intros Hl text Hk Hne. apply with_cache_hit; [done | | done].
      destruct (E3 (chat_key u t 0 limit)) as [_ ->]; [done |]. by intros ?%cleared_limit.
  - intros g text Hk Hne v. by apply with_cache_hit.
Qed.
End services.

Definition one_message_world : World :=
  set_db (set_messages {[ 11 := sample_message ]} empty_store) sample_world.

Lemma history_pages_witness :
  let w := one_message_world in
  from store_env w (scroll (fun _ => Err "") (fun _ => Err "") Itoa 2 1 2 0 1)
    (fun r _ _ => r = Ok [timed_item Itoa sample_message]).
Proof.
  assert (forall k m, messages (db one_message_world) !! k = Some m -> k = 11 /\ m = sample_message) as Hone.
  { intros k m H. apply (lookup_insert_Some (∅ : gmap Z Messages)) in H as [[<- <-] | [_ H]]; [done |].
    by destruct (lookup_empty_Some (M := gmap Z) k m). }
  refine (proj1 (history_pages (fun _ => Err "") (fun _ => Err "") Itoa 1 2 one_message_world _ _ _ _) 1 _).
  - intros k m [-> ->]%Hone. split; [reflexivity |]. unfold row_ok. simpl.
    unfold SendStatusUnsent, SendStatusSentConfirmed. lia.
  - reflexivity.
  - intros k [m [-> _]%Hone]. lia.
  - intros limit text Ht. exfalso. revert Ht. unfold one_message_world, sample_world. simpl. intros Ht.
    assert (None = Some text); [| done]. rewrite <- Ht. symmetry.
    refine (eq_trans (lookup_insert_ne (∅ : gmap string string) _ _ _ _) _); [discriminate | reflexivity].
  - unfold maxChatLimit. lia.
Defined.

Lemma history_cache_freshness_witness :
  let w := set_redis {[ chat_key 1 2 0 30 := "old page" ]} sample_world in
  from store_env w (updateConversationAndPush (fun _ => Ok "{}") (fun _ => Ok "{}") sample_item "gw-1")
    (fun _ w' _ => 30 ∉ cached_limits ->
       forall text, redis w !! chat_key 1 2 0 30 = Some text -> text <> "" ->
         from store_env w' (GetChatHistory (fun _ => Err "") (fun text => Err text) Itoa 1 2 0 30)
           (fun r _ _ => r = Err text)).
Proof.
  refine (from_impl _ _ _ _ _ (proj1 (history_cache_freshness (fun _ => Ok "{}") (fun _ => Err "")
    (fun text => Err text) Itoa (fun _ => Ok "{}") sample_item "gw-1" 1 2 30 _ _ _ _)) _).
  - reflexivity.
  - reflexivity.
  - left. split; reflexivity.
  - intros x w' tr [_ H]. exact H.
Defined.
