(* ===== verification/System.v ===== *)
(** * The way up: gateways, broker and logic servers together

    The handlers of Ws.Gateway publish through Mq.Rabbit, the broker keeps the
    messages, and the goroutines of Logic take them to the tables of Dao: consumers,
    batch workers and push goroutines of any number of logic processes, which run
    interleaved, command by command, and may die at any point. Module Threads: what
    one goroutine of Logic may do with the deliveries it holds. Module Upload: the
    system as a step relation and what it keeps. *)
From S2P Require Import Prelude GoStd Effects Ids Mq Codec Dao Logic Ws.
#[local] Open Scope prog_scope.

(** ** What a logic server can know of a message *)
(** A row as the members of a group get it: its number, sender, receiver, group and
    text. *)
Notation copy := (Z * Z * Z * Z * string)%type.
Definition copy_of (m : Messages) : copy := (mSeqId m, mSenderId m, mReceiverId m, mGroupId m, mContent m).

Inductive fact :=
| Stored (id : Z)        (* a row with the id has been in the table *)
| Refused (id : Z)       (* its INSERT failed, and not as a duplicate *)
| Listed (group : Z) (members : list Z)   (* the members of the group were read *)
| Copied (c : copy)      (* a row with these columns has been in the table *)
| Missed (c : copy).     (* the INSERT of such a row failed *)
#[export] Instance fact_eq_dec : EqDecision fact.
Proof. solve_decision. Defined.
#[export] Instance fact_countable : Countable fact.
Proof.
  apply (inj_countable' (fun f => match f with
      | Stored i => inl (true, i) | Refused i => inl (false, i)
      | Listed g l => inr (inl (g, l)) | Copied c => inr (inr (true, c)) | Missed c => inr (inr (false, c)) end)
    (fun x => match x with
      | inl (true, i) => Stored i | inl (false, i) => Refused i
      | inr (inl (g, l)) => Listed g l | inr (inr (true, c)) => Copied c | inr (inr (false, c)) => Missed c end)).
  by intros [].
Defined.

Module Threads.
Section threads.
Variable UnmarshalUpload : string -> outcome UploadPayload.
Variable MarshalDown : DownPayload -> outcome string.
Variable MarshalVector : VectorPayload -> outcome string.

(** The copy of a group message for a member was inserted, or its INSERT failed, which
    is logged and nothing more; the sender's copy has the id of the message, and may be
    a duplicate. *)
Definition copied_for (p : UploadPayload) (member : Z) : copy :=
  (uSeqID p, uSenderID p, member, uGroupID p, uContent p).
Definition tried (known : gset fact) (p : UploadPayload) (member : Z) : Prop :=
  (Copied (copied_for p member) ∈ known \/ Missed (copied_for p member) ∈ known) /\
  (member = uSenderID p -> Stored (uMsgID p) ∈ known \/ Refused (uMsgID p) ∈ known).

(** When a body may be acknowledged, and when it may be dead-lettered. *)
Definition settled_as (known : gset fact) (p : UploadPayload) : Prop :=
  match uChatType p with
  | ChatTypeGroup => exists members, Listed (uGroupID p) members ∈ known /\ forall m, m ∈ members -> tried known p m
  | _ => Stored (uMsgID p) ∈ known
  end.
Definition done_with (known : gset fact) (body : string) : Prop :=
  exists p, UnmarshalUpload body = Ok p /\ settled_as known p.
Definition given_up (known : gset fact) (body : string) : Prop :=
  forall p, UnmarshalUpload body = Ok p -> Refused (uMsgID p) ∈ known.

(** The item made of a body: it is stored under the id of its payload. *)
Definition fits (it : batchItem) (body : string) : Prop :=
  UnmarshalUpload body = Ok (bPayload it) /\ mMsgId (bMsg it) = uMsgID (bPayload it) /\
  uChatType (bPayload it) <> ChatTypeGroup.

(** The deliveries of [items], each once, are those held. *)
Fixpoint carries (own : gmap delivery string) (items : list batchItem) : Prop :=
  match items with
  | [] => own = ∅
  | it :: items => exists body, own !! bD it = Some body /\ fits it body /\ carries (delete (bD it) own) items
  end.

(** What the answer of a command tells. *)
Definition insert_tells (m : Messages) (r : answer unit) (known : gset fact) : gset fact :=
  match r with
  | Success _ => {[Stored (mMsgId m); Copied (copy_of m)]} ∪ known
  | Failure e =>
      {[if isDuplicateKey e then Stored (mMsgId m) else Refused (mMsgId m); Missed (copy_of m)]} ∪ known
  end.
Definition dao_tells (q : dao_cmd) : dao_res q -> gset fact -> gset fact :=
  match q return dao_res q -> gset fact -> gset fact with
  | DInsertMessage m => insert_tells m
  | DBatchInsertMessages ms => fun r known =>
      match r with Success _ => list_to_set ((fun m => Stored (mMsgId m)) <$> ms) ∪ known | Failure _ => known end
  | DGetGroupMembers g => fun r known =>
      match r with Success l => {[Listed g l]} ∪ known | Failure _ => known end
  | _ => fun _ known => known
  end.
Definition tells (c : cmd lg) : res lg c -> gset fact -> gset fact :=
  match c return res lg c -> gset fact -> gset fact with
  | Dao q => dao_tells q
  | _ => fun _ known => known
  end.

(** What a command needs, and which delivery it takes away. *)
Definition needs (c : cmd lg) (own : gmap delivery string) (known : gset fact) : Prop :=
  match c with
  | DeliveryAck d => exists body, own !! d = Some body /\ done_with known body
  | DeliveryNack d requeue =>
      exists body, own !! d = Some body /\ (requeue = false -> given_up known body)
  | Enqueue it => exists body, own !! bD it = Some body /\ fits it body
  | GoPush it _ => exists body, own !! bD it = Some body /\ fits it body /\ Stored (mMsgId (bMsg it)) ∈ known
  | _ => True
  end.
Definition after (c : cmd lg) (own : gmap delivery string) : gmap delivery string :=
  match c with
  | DeliveryAck d | DeliveryNack d _ => delete d own
  | Enqueue it | GoPush it _ => delete (bD it) own
  | _ => own
  end.

(** Whatever is answered, the goroutine takes only what it may, and ends as [Q] says
    of what it still holds, what it knows and its result. *)
Fixpoint wp {A} (own : gmap delivery string) (known : gset fact) (p : prog lg A)
    (Q : gmap delivery string -> gset fact -> A -> Prop) : Prop :=
  match p with
  | Ret a => Q own known a
  | Do c k => needs c own known /\ forall r, wp (after c own) (tells c r known) (k r) Q
  end.

Lemma tried_mono known known' p m : known ⊆ known' -> tried known p m -> tried known' p m.
Proof. intros Hk [H1 H2]. split; [| intros Hm; specialize (H2 Hm)]; set_solver. Qed.
Lemma done_with_mono known known' body : known ⊆ known' -> done_with known body -> done_with known' body.
Proof.
  intros Hk (p & Hp & H). exists p. split; [done |]. unfold settled_as in *.
  destruct (uChatType p); try by apply Hk. destruct H as (ms & Hms & H). exists ms. split; [by apply Hk |].
  intros m Hm. by eapply tried_mono, H.
Qed.
Lemma given_up_mono known known' body : known ⊆ known' -> given_up known body -> given_up known' body.
Proof. intros Hk H p Hp. specialize (H p Hp). set_solver. Qed.

Lemma needs_mono c own known known' : known ⊆ known' -> needs c own known -> needs c own known'.
Proof.
  intros Hk. destruct c; cbn; try done.
  - intros (b & ? & ?). eauto using done_with_mono.
  - intros (b & ? & ?). eauto using given_up_mono.
  - intros (b & ? & ? & ?). eexists. split_and!; eauto.
Qed.

Lemma tells_mono c r known known' : known ⊆ known' -> tells c r known ⊆ tells c r known'.
Proof.
  intros Hk. destruct c as [q | | | | | | | | | | | |]; cbn; try done.
  destruct q; cbn; try done; destruct r; unfold insert_tells; try destruct (isDuplicateKey _); set_solver.
Qed.
Lemma tells_more c r known : known ⊆ tells c r known.
Proof.
  destruct c as [q | | | | | | | | | | | |]; cbn; try done.
  destruct q; cbn; try done; destruct r; unfold insert_tells; try destruct (isDuplicateKey _); set_solver.
Qed.

(** A goroutine that is safe stays so when more is known. *)
Lemma wp_mono {A} own known known' (p : prog lg A) (Q Q' : gmap delivery string -> gset fact -> A -> Prop) :
  known ⊆ known' -> (forall o k k' a, known ⊆ k -> k ⊆ k' -> Q o k a -> Q' o k' a) ->
  wp own known p Q -> wp own known' p Q'.
Proof.
  revert own known known'. induction p as [a | c k IH]; intros own known known' Hk HQ; cbn [wp].
  - apply HQ; [done | exact Hk].
  - intros [Hn Hw]. split; [by eapply needs_mono |]. intros r. eapply IH; [by apply tells_mono | | exact (Hw r)].
    intros o k1 k2 a H1. apply HQ. etrans; [apply tells_more | exact H1].
Qed.

Lemma wp_bind {A B} own known (p : prog lg A) (f : A -> prog lg B) Q :
  wp own known p (fun own known a => wp own known (f a) Q) -> wp own known (bind p f) Q.
Proof.
  revert own known. induction p as [a | c k IH]; intros own known; cbn [bind wp]; [done |].
  intros [Hn Hw]. split; [done |]. intros r. apply IH, Hw.
Qed.

(** Commands that neither take deliveries nor have to know anything. *)
Definition plain (c : cmd lg) : Prop :=
  match c with DeliveryAck _ | DeliveryNack _ _ | Enqueue _ | GoPush _ _ => False | _ => True end.

Lemma wp_plain {A} own known (p : prog lg A) (Q : gmap delivery string -> gset fact -> A -> Prop) :
  only plain p -> (forall known' a, known ⊆ known' -> Q own known' a) -> wp own known p Q.
Proof.
  revert known. induction p as [a | c k IH]; intros known Hp HQ; cbn [wp]; [by apply HQ |].
  destruct Hp as [Hc Hk]. split; [by destruct c |]. intros r.
  replace (after c own) with own by by destruct c. apply IH; [done |].
  intros known' a Hk'. apply HQ. etrans; [apply tells_more | exact Hk'].
Qed.

(** ** The goroutines of Logic *)

(** A member's copy is tried, whatever is answered. *)
Lemma member_wp own known p m :
  wp own known (deliverToMember MarshalDown p m) (fun own' known' _ =>
    own' = own /\ known ⊆ known' /\ tried known' p m).
Proof.
  unfold deliverToMember, memberCopy, NewMessages, query, ask at 1, call at 1. cbn [bind]. split; [done |]. intros id.
  cbn [bind tells after].
  assert (forall known1 msg (k : answer unit -> prog lg unit),
    known ⊆ known1 -> copy_of msg = copied_for p m -> (m = uSenderID p -> mMsgId msg = uMsgID p) ->
    (forall r, only plain (k r)) ->
    wp own known1 (r <- ask (Dao (DInsertMessage msg)) ;; k r) (fun own' known' _ =>
      own' = own /\ known ⊆ known' /\ tried known' p m)) as Hins.
  { intros known1 msg k Hk Hc Hid Hp. unfold ask, call. cbn [bind]. split; [done |]. intros r.
    apply wp_plain; [apply Hp |]. intros known' [] Hk'. cbn [tells dao_tells] in Hk'.
    assert (known1 ⊆ known' /\ tried known' p m) as [? ?]; [| split_and!; [done | set_solver | done]].
    unfold tried. rewrite <- Hc. destruct r as [[] | e]; cbn in Hk'; (split; [set_solver |]);
      (split; [set_solver | intros <-%Hid]); [set_solver |].
    destruct (isDuplicateKey e); set_solver. }
  destruct (Z.eqb_spec m (uSenderID p)) as [Hm | Hm]; cbn [bind].
  - apply Hins; [done | by unfold copy_of, copied_for | done |].
    intros [[] | e]; cbn; [by repeat split | done].
  - split; [done |]. intros id'. cbn [bind]. apply Hins; [done | by unfold copy_of, copied_for | done |].
    intros [[] | e]; cbn; [| done]; repeat (split; [done |]; intros ?; cbn); repeat case_match; try done; by repeat split.
Qed.

Lemma members_wp own known p members :
  wp own known (for_each members (deliverToMember MarshalDown p)) (fun own' known' _ =>
    own' = own /\ known ⊆ known' /\ forall m, m ∈ members -> tried known' p m).
Proof.
  revert known. induction members as [| m members IH]; intros known; cbn [for_each].
  { split_and!; [done | done |]. by intros m ?%not_elem_of_nil. }
  apply wp_bind. eapply wp_mono; [reflexivity | | apply member_wp].
  intros o k k' [] _ Hk (-> & Hk1 & Hm). eapply wp_mono; [reflexivity | | apply IH].
  intros o k2 k3 [] _ Hk2 (-> & Hk3 & Hms). split_and!; [done | set_solver |].
  intros m' [-> | Hin]%elem_of_cons; [eapply tried_mono; [| exact Hm] | eapply tried_mono; [| by apply Hms]]; set_solver.
Qed.

Lemma group_wp own known p d body :
  own !! d = Some body -> UnmarshalUpload body = Ok p -> uChatType p = ChatTypeGroup ->
  wp own known (r <- handleGroupChat MarshalDown p ;; settle d r) (fun own' _ _ => own' = delete d own).
Proof.
  intros Ho Hp Ht. unfold handleGroupChat, query, ask at 1, call at 1. cbn [bind]. split; [done |].
  intros [ms | e]; cbn [bind].
  - do 2 apply wp_bind. eapply wp_mono; [reflexivity | | apply members_wp].
    intros o k k1 [] _ Hk1 (-> & Hk & Hms). apply wp_bind, wp_plain; [apply only_for_each; by split |].
    intros k2 _ H2. cbn. split; [| done]. exists body. split; [done |]. exists p. split; [done |].
    unfold settled_as. rewrite Ht. exists ms. cbn in Hk. split; [set_solver |].
    intros m Hm. eapply tried_mono; [| by apply Hms]. set_solver.
  - split; [| done]. exists body. done.
Qed.

Lemma ai_wp own known p d body :
  own !! d = Some body -> UnmarshalUpload body = Ok p -> uChatType p = ChatTypeAI ->
  wp own known (r <- handleAIChat p ;; settle d r) (fun own' _ _ => own' = delete d own).
Proof.
  intros Ho Hp Ht. unfold handleAIChat, NewMessages. cbn. split; [done |]. intros id. split; [done |].
  intros [[] | e]; cbn; (split; [| done]); exists body; (split; [done |]); [| done].
  exists p. split; [done |]. unfold settled_as. rewrite Ht. set_solver.
Qed.

Lemma single_wp own known p d body :
  own !! d = Some body -> UnmarshalUpload body = Ok p -> uChatType p <> ChatTypeGroup ->
  wp own known (enqueueSingle p d) (fun own' _ _ => own' = delete d own).
Proof. intros Ho Hp Ht. cbn. split; [done |]. intros id. split; [| done]. by exists body. Qed.

(** A consumer hands its delivery on, or settles it. *)
Lemma delivery_wp own known d body :
  own !! d = Some body ->
  wp own known (handleUploadDelivery UnmarshalUpload MarshalDown d body) (fun own' _ _ => own' = delete d own).
Proof.
  intros Ho. unfold handleUploadDelivery. destruct (UnmarshalUpload body) as [p | e | e] eqn:Hp.
  - destruct (uChatType p) eqn:Ht;
      solve [by eapply group_wp | by eapply ai_wp | eapply single_wp; [exact Ho | exact Hp | congruence]].
  - split; [| done]. exists body. split; [done |]. intros _ p. congruence.
  - split; [| done]. exists body. split; [done |]. intros _ p. congruence.
Qed.

(** Starting the goroutines of items that are stored. *)
Lemma push_all_wp own known items (addr : batchItem -> string) :
  carries own items -> (forall it, it ∈ items -> Stored (mMsgId (bMsg it)) ∈ known) ->
  wp own known (for_each items (fun it => ask (GoPush it (addr it)))) (fun own' _ _ => own' = ∅).
Proof.
  revert own. induction items as [| it items IH]; intros own Hc Hk; cbn [for_each]; [exact Hc |].
  destruct Hc as (body & Ho & Hf & Hc). split.
  - exists body. split_and!; [done | done |]. apply Hk. by left.
  - intros r. apply IH; [exact Hc |]. intros it' Hin. apply Hk. by right.
Qed.

Lemma insert_all_wp own known items addrs :
  carries own items -> wp own known (for_each items (insertSingly addrs)) (fun own' _ _ => own' = ∅).
Proof.
  revert own known. induction items as [| it items IH]; intros own known Hc; cbn [for_each]; [exact Hc |].
  destruct Hc as (body & Ho & Hf & Hc). apply wp_bind. unfold insertSingly. cbn. split; [done |].
  destruct Hf as (Hp & Hid & Ht). intros [[] | e]; cbn.
  - split; [| intros _; by apply IH]. exists body. split_and!; [done | by split_and! | set_solver].
  - destruct (isDuplicateKey e); cbn; (split; [| intros _; by apply IH]); exists body.
    + split_and!; [done | by split_and! | set_solver].
    + split; [done |]. intros _ p Hp'. assert (p = bPayload it) as -> by congruence. rewrite <- Hid. set_solver.
Qed.

(** A flush hands on or dead-letters every item of its batch. *)
Lemma flush_wp own known items :
  carries own items -> wp own known (flush items) (fun own' _ _ => own' = ∅).
Proof.
  destruct items as [| i0 items]; [done |]. intros Hc. unfold flush, query, ask at 1, call at 1. cbn [bind].
  split; [done |]. intros vals. cbn [bind]. split; [done |]. intros [[] | e].
  - apply push_all_wp; [exact Hc |]. intros it Hin. cbn [tells dao_tells].
    apply elem_of_union_l, elem_of_list_to_set, list_elem_of_fmap. exists (bMsg it). split; [done |].
    by apply list_elem_of_fmap_2.
  - by apply insert_all_wp.
Qed.

Lemma carries_snoc own items it d body :
  carries own items -> own !! d = None -> bD it = d -> fits it body -> carries (<[d := body]> own) (items ++ [it]).
Proof.
  revert own. induction items as [| i items IH]; intros own Hc Hd Hit Hf; cbn [carries app] in *.
  - subst. exists body. rewrite lookup_insert_eq, delete_insert_eq. split_and!; [done | done | apply delete_empty].
  - destruct Hc as (b & Ho & Hb & Hc). assert (bD i <> d) as Hne by congruence. exists b.
    rewrite lookup_insert_ne by done. split_and!; [done | done |].
    rewrite delete_insert_ne by done. apply IH; [exact Hc | by rewrite lookup_delete_ne | done | done].
Qed.

(** One event of a batch worker: the buffer that is left is what it holds. *)
Lemma worker_wp own known buf ev :
  carries own (buf ++ match ev with Received it => [it] | _ => [] end) ->
  wp own known (batchInsertWorker buf [ev]) (fun own' _ buf' => carries own' buf').
Proof.
  intros Hc. destruct ev as [it | |]; cbn [batchInsertWorker] in *; rewrite ?app_nil_r in Hc.
  - destruct (batchSize <=? len (buf ++ [it])); [| exact Hc].
    apply wp_bind. eapply wp_mono; [reflexivity | | by apply flush_wp]. by intros ? ? ? ? ? ? ->.
  - apply wp_bind. eapply wp_mono; [reflexivity | | by apply flush_wp]. by intros ? ? ? ? ? ? ->.
  - apply wp_bind. eapply wp_mono; [reflexivity | | by apply flush_wp]. by intros ? ? ? ? ? ? ->.
Qed.

(** A push goroutine settles the delivery of its stored item. *)
Lemma push_wp own known it addr body :
  own !! bD it = Some body -> fits it body -> Stored (mMsgId (bMsg it)) ∈ known ->
  wp own known (updateConversationAndPush MarshalDown MarshalVector it addr) (fun own' _ _ => own' = delete (bD it) own).
Proof.
  intros Ho (Hp & Hid & Ht) Hs. unfold updateConversationAndPush.
  destruct (session_of it) as [[sessionType targetID] senderTarget]. unfold query, ask at 1 2, call at 1 2. cbn [bind].
  split; [done |]. intros r1. cbn [bind]. split; [done |]. intros r2. cbn [bind after tells dao_tells].
  apply wp_bind, wp_plain.
  { destruct (mGroupId (bMsg it) =? 0); [| done]. apply only_for_each. by split. }
  intros k1 _ H1. unfold pushDownAndAckWithAddr.
  apply wp_bind, wp_plain. { unfold pushDownWithAddr. destruct (String.eqb addr ""); by repeat split. }
  intros k2 [[] | e | e] H2; cbn.
  - split.
    + exists body. split; [done |]. exists (bPayload it). split; [done |].
      unfold settled_as. destruct (uChatType (bPayload it)); try done; rewrite <- Hid; set_solver.
    + intros _. split; [done |]. intros now. destruct (MarshalVector _) as [b | |]; try done.
      by destruct (String.eqb b "").
  - split; [by exists body | done].
  - split; [by exists body | done].
Qed.
End threads.
End Threads.

Module Upload.
Import Threads.

(** Goroutines of a logic process, by process and number: StartUploadConsumer starts
    the consumers and the batch workers, a flush the push goroutines. *)
Inductive role := Consumer (i : nat) | BatchWorker (i : nat) | Push (i : nat).
Notation goroutine := (nat * role)%type.
#[export] Instance role_eq_dec : EqDecision role.
Proof. solve_decision. Defined.
#[export] Instance role_countable : Countable role.
Proof.
  apply (inj_countable' (fun r => match r with Consumer i => (0%nat, i) | BatchWorker i => (1%nat, i) | Push i => (2%nat, i) end)
           (fun p => match p with (O, i) => Consumer i | (1%nat, i) => BatchWorker i | (_, i) => Push i end)).
  by intros [].
Defined.

Definition uploadWorkers : nat := 50.
Definition numBatchWorkers : nat := 4.
(** batchSize*uploadWorkers*2 *)
Definition chanCap : nat := 5000.

(** Who has an unsettled delivery: a goroutine, or the channel of a process. *)
Inductive holder := Held (g : goroutine) | InChannel (pid : nat).
#[export] Instance holder_eq_dec : EqDecision holder.
Proof. solve_decision. Defined.
Definition process_of (h : holder) : nat := match h with Held g => g.1 | InChannel pid => pid end.

(** The upward queue of the broker: whether it is declared and bound; the bodies
    that wait, that are delivered and not settled, dead-lettered, acknowledged;
    those it took, and those it confirmed and dropped as no queue was bound. *)
Record Broker := mkBroker {
  bound : bool;
  ready : list string;
  unacked : gmap delivery (string * holder);
  dead : list string;
  acked : list string;
  accepted : list string;
  dropped : list string;
}.

(** The logic processes that live with their channel, their goroutines, and what
    they share: the tables (with Redis) and what was ever found out about them. *)
Record Servers := mkServers {
  chans : gmap nat (list batchItem);
  code : gmap goroutine (prog lg (list batchItem));
  world : World;
  facts : gset fact;
}.

(** The goroutines of the gateways that handle an upward message, the publishes
    they gave up waiting for, and what they have handed to connections. *)
Record Gateways := mkGateways {
  handlers : gmap nat (prog Gateway.ws unit);
  wire : list (string * string);
  told : list (Gateway.client_id * string);
}.

Record State := mkState { broker : Broker; servers : Servers; gateways : Gateways }.

(** ** The broker *)

(** mq.ConsumeUploadQueue("logic.upload.queue", "upload.all"), and its QoS. *)
Definition bindingKey : string := "upload.all".
Definition prefetch : nat := 2000.

Definition held_by (pid : nat) (u : gmap delivery (string * holder)) : nat :=
  size (filter (fun x => process_of x.2.2 = pid) u).

Definition declare (b : Broker) : Broker :=
  mkBroker true (ready b) (unacked b) (dead b) (acked b) (accepted b) (dropped b).
Definition receive (d : delivery) (body : string) (h : holder) (rest : list string) (b : Broker) : Broker :=
  mkBroker (bound b) rest (<[d := (body, h)]> (unacked b)) (dead b) (acked b) (accepted b) (dropped b).
Definition settle_ack (d : delivery) (b : Broker) : Broker :=
  match unacked b !! d with
  | Some (body, _) =>
      mkBroker (bound b) (ready b) (delete d (unacked b)) (dead b) (body :: acked b) (accepted b) (dropped b)
  | None => b
  end.
Definition settle_nack (d : delivery) (requeue : bool) (b : Broker) : Broker :=
  match unacked b !! d with
  | Some (body, _) =>
      if requeue then mkBroker (bound b) (body :: ready b) (delete d (unacked b)) (dead b) (acked b) (accepted b) (dropped b)
      else mkBroker (bound b) (ready b) (delete d (unacked b)) (body :: dead b) (acked b) (accepted b) (dropped b)
  | None => b
  end.
(** A delivery passes from one holder to another. *)
Definition pass (d : delivery) (h : holder) (b : Broker) : Broker :=
  mkBroker (bound b) (ready b) (alter (fun x => (x.1, h)) d (unacked b)) (dead b) (acked b) (accepted b) (dropped b).
(** A message that reached the direct exchange goes to the queue bound under its
    key, if any: it is not published as mandatory. *)
Definition take (key body : string) (b : Broker) : Broker :=
  if bound b && String.eqb key bindingKey
  then mkBroker (bound b) (body :: ready b) (unacked b) (dead b) (acked b) (body :: accepted b) (dropped b)
  else mkBroker (bound b) (ready b) (unacked b) (dead b) (acked b) (accepted b) (body :: dropped b).

(** ** What a command of a logic goroutine does *)
Definition rows_of (w : World) : gset fact :=
  set_map Stored (dom (messages (db w))) ∪ map_to_set (fun _ m => Copied (copy_of m)) (messages (db w)).
Definition is_row (f : fact) : bool := match f with Stored _ | Copied _ => true | _ => false end.

(** What an answer shows besides the rows of the table. *)
Definition observed (c : cmd lg) (r : res lg c) : gset fact :=
  filter (fun f => is_row f = false) (tells c r ∅).

(** A call: whether it fails (and was executed all the same), and what the clock and
    the id generator of its process say. *)
Record luck := mkLuck { fault : option (string * bool); clock : Z; fresh : Z }.
Definition next_call (l : luck) (w : World) : World := mkWorld (db w) (redis w) (clock l) (fresh l) [fault l].

(** The answer, and what is shared after it. What is in the table now has been there. *)
Definition answer_of (l : luck) (c : cmd lg) (s : Servers) : res lg c * Servers :=
  let '(r, w) := store_env c (next_call l (world s)) in
  (r, mkServers (chans s) (code s) w (facts s ∪ rows_of w ∪ observed c r)).

Definition set_code (g : goroutine) (p : prog lg (list batchItem)) (s : Servers) : Servers :=
  mkServers (chans s) (<[g := p]> (code s)) (world s) (facts s).
Definition set_chan (pid : nat) (items : list batchItem) (s : Servers) : Servers :=
  mkServers (<[pid := items]> (chans s)) (code s) (world s) (facts s).

Definition quietly (p : prog lg unit) : prog lg (list batchItem) := _ <- p ;; Ret [].

(** StartUploadConsumer, once its queue is bound: the channel and the goroutines. *)
Definition started (pid : nat) : list (goroutine * prog lg (list batchItem)) :=
  ((fun i => ((pid, BatchWorker i), Ret [])) <$> seq 0 numBatchWorkers) ++
  ((fun i => ((pid, Consumer i), Ret [])) <$> seq 0 uploadWorkers).
#[global] Arguments started : simpl never.
Definition StartUploadConsumer (pid : nat) (s : Servers) : Servers :=
  mkServers (<[pid := []]> (chans s)) (list_to_map (started pid) ∪ code s) (world s) (facts s).
(** A process ends. *)
Definition kill (pid : nat) (s : Servers) : Servers :=
  mkServers (delete pid (chans s)) (filter (fun x => x.1.1 <> pid) (code s)) (world s) (facts s).
(** Another service executes a statement. *)
Definition other_statement (now : Z) (q : dao_cmd) (s : Servers) : Servers :=
  let w := set_db (exec now q (db (world s))).2 (world s) in
  mkServers (chans s) (code s) w (facts s ∪ rows_of w).

Section upload.
Variable UnmarshalUpload : string -> outcome UploadPayload.
Variable MarshalDown : DownPayload -> outcome string.
Variable MarshalVector : VectorPayload -> outcome string.

Definition pushing (it : batchItem) (addr : string) : prog lg (list batchItem) :=
  quietly (updateConversationAndPush MarshalDown MarshalVector it addr).

(** What a command of goroutine [g] does besides its answer: it settles a delivery,
    sends its item into the channel of the process, or starts a push goroutine. *)
Inductive effect (g : goroutine) : cmd lg -> Broker * Servers -> Broker * Servers -> Prop :=
| effect_ack d b s : effect g (DeliveryAck d) (b, s) (settle_ack d b, s)
| effect_nack d requeue b s : effect g (DeliveryNack d requeue) (b, s) (settle_nack d requeue b, s)
| effect_enqueue it items b s :
    chans s !! g.1 = Some items -> (length items < chanCap)%nat ->
    effect g (Enqueue it) (b, s) (pass (bD it) (InChannel g.1) b, set_chan g.1 (items ++ [it]) s)
| effect_go it addr i b s :
    code s !! (g.1, Push i) = None ->
    effect g (GoPush it addr) (b, s) (pass (bD it) (Held (g.1, Push i)) b, set_code (g.1, Push i) (pushing it addr) s)
| effect_plain c b s : plain c -> effect g c (b, s) (b, s).

(** No fault announces itself as a duplicate key. *)
Definition calm_fault (f : option (string * bool)) : Prop :=
  match f with Some (e, _) => isDuplicateKey e = false | None => True end.

Inductive logic_step : Broker * Servers -> Broker * Servers -> Prop :=
| step_start pid b s :
    chans s !! pid = None -> held_by pid (unacked b) = 0%nat ->
    logic_step (b, s) (declare b, StartUploadConsumer pid s)
(** A process ends, at any point. *)
| step_crash pid b s : logic_step (b, s) (b, kill pid s)
(** The broker notices and puts back what the process had. *)
| step_lost d body h b s :
    unacked b !! d = Some (body, h) -> chans s !! process_of h = None ->
    logic_step (b, s) (settle_nack d true b, s)
(** An idle consumer gets a delivery. *)
| step_receive pid i d body l1 l2 b s :
    code s !! (pid, Consumer i) = Some (Ret []) -> ready b = l1 ++ body :: l2 -> unacked b !! d = None ->
    (held_by pid (unacked b) < prefetch)%nat ->
    logic_step (b, s)
      (receive d body (Held (pid, Consumer i)) (l1 ++ l2) b,
       set_code (pid, Consumer i) (quietly (handleUploadDelivery UnmarshalUpload MarshalDown d body)) s)
(** A batch worker between two events takes an item from the channel, or its ticker
    fires; nothing closes the channel. *)
| step_item pid i buf it items b s :
    code s !! (pid, BatchWorker i) = Some (Ret buf) -> chans s !! pid = Some (it :: items) ->
    logic_step (b, s)
      (pass (bD it) (Held (pid, BatchWorker i)) b,
       set_code (pid, BatchWorker i) (batchInsertWorker buf [Received it]) (set_chan pid items s))
| step_tick pid i buf b s :
    code s !! (pid, BatchWorker i) = Some (Ret buf) ->
    logic_step (b, s) (b, set_code (pid, BatchWorker i) (batchInsertWorker buf [Tick]) s)
(** A goroutine runs to its next command. *)
| step_command g c k l b s b' s' :
    code s !! g = Some (Do c k) -> calm_fault (fault l) ->
    effect g c (b, (answer_of l c s).2) (b', s') ->
    logic_step (b, s) (b', set_code g (k (answer_of l c s).1) s')
| step_other now q b s : logic_step (b, s) (b, other_statement now q s).

(** ** Deliveries and their holders *)
Definition own_by (h : holder) (u : gmap delivery (string * holder)) : gmap delivery string :=
  omap (fun x => if decide (x.2 = h) then Some x.1 else None) u.
Definition bodies (u : gmap delivery (string * holder)) : list string := (fun x => x.2.1) <$> map_to_list u.

Lemma own_by_lookup h u d : own_by h u !! d = (u !! d ≫= fun x => if decide (x.2 = h) then Some x.1 else None).
Proof. apply lookup_omap. Qed.
Lemma own_by_Some h u d b : own_by h u !! d = Some b <-> u !! d = Some (b, h).
Proof.
  rewrite own_by_lookup. destruct (u !! d) as [[b' h'] |]; cbn; [| done].
  case_decide; split; intros; simplify_eq; done.
Qed.
Lemma own_by_delete h u d : own_by h (delete d u) = delete d (own_by h u).
Proof. apply omap_delete. Qed.
Lemma own_by_insert h u d b : own_by h (<[d := (b, h)]> u) = <[d := b]> (own_by h u).
Proof. apply omap_insert_Some. cbn. by rewrite decide_True. Qed.
Lemma own_by_insert_ne h h' u d b : h <> h' -> own_by h' (<[d := (b, h)]> u) = delete d (own_by h' u).
Proof. intros Hne. apply omap_insert_None. cbn. by rewrite decide_False. Qed.
(** Who does not hold a delivery keeps what it has when the delivery goes. *)
Lemma own_by_frame h u d : (forall b, u !! d <> Some (b, h)) -> delete d (own_by h u) = own_by h u.
Proof.
  intros H. apply delete_id. destruct (own_by h u !! d) as [b |] eqn:E; [| done]. by apply own_by_Some, H in E.
Qed.

Lemma bodies_insert u d b h : u !! d = None -> bodies (<[d := (b, h)]> u) ≡ₚ b :: bodies u.
Proof. intros Hd. unfold bodies. by rewrite map_to_list_insert. Qed.
Lemma bodies_delete u d b h : u !! d = Some (b, h) -> bodies u ≡ₚ b :: bodies (delete d u).
Proof. intros Hd. unfold bodies. by rewrite <- (map_to_list_delete u d (b, h)). Qed.

Lemma held_by_delete pid u d : (held_by pid (delete d u) <= held_by pid u)%nat.
Proof. unfold held_by. rewrite map_filter_delete, map_size_delete. destruct (_ !! d); cbn; lia. Qed.
Lemma held_by_insert pid u d b h :
  u !! d = None -> held_by pid (<[d := (b, h)]> u) = ((if decide (process_of h = pid) then 1 else 0) + held_by pid u)%nat.
Proof.
  intros Hd. unfold held_by. case_decide as Hh.
  - rewrite map_filter_insert_True by done. rewrite map_size_insert_None; [done |].
    apply map_lookup_filter_None. by left.
  - rewrite map_filter_insert_False by done. by rewrite delete_id.
Qed.
Lemma pass_insert d b h0 h (u : gmap delivery (string * holder)) :
  u !! d = Some (b, h0) -> alter (fun x : string * holder => (x.1, h)) d u = <[d := (b, h)]> (delete d u).
Proof.
  intros Hd. rewrite insert_delete_eq. apply map_eq. intros d'. destruct (decide (d = d')) as [<- |].
  - by rewrite lookup_alter_eq, lookup_insert_eq, Hd.
  - by rewrite lookup_alter_ne, lookup_insert_ne.
Qed.

(** ** What the lists of the broker say *)
Record Books (b : Broker) (known : gset fact) : Prop := {
  books_kept : accepted b ≡ₚ ready b ++ bodies (unacked b) ++ dead b ++ acked b;
  books_acked : Forall (done_with UnmarshalUpload known) (acked b);
  books_dead : Forall (given_up UnmarshalUpload known) (dead b);
  books_prefetch : forall pid, (held_by pid (unacked b) <= prefetch)%nat;
}.

Lemma Books_mono b known known' : known ⊆ known' -> Books b known -> Books b known'.
Proof.
  intros Hk [H1 H2 H3 H4]. split; [done | | | done].
  - eapply Forall_impl; [exact H2 |]. eauto using done_with_mono.
  - eapply Forall_impl; [exact H3 |]. eauto using given_up_mono.
Qed.
Lemma Books_declare b known : Books b known -> Books (declare b) known.
Proof. by intros []. Qed.
Lemma Books_ack d b known :
  (exists body h, unacked b !! d = Some (body, h) /\ done_with UnmarshalUpload known body) ->
  Books b known -> Books (settle_ack d b) known.
Proof.
  intros (body & h & Hd & Hdone) [H1 H2 H3 H4]. unfold settle_ack. rewrite Hd. split; cbn.
  - rewrite H1, (bodies_delete _ _ _ _ Hd). solve_Permutation.
  - by constructor.
  - done.
  - intros pid. etrans; [apply held_by_delete | done].
Qed.
Lemma Books_nack d requeue b known :
  (forall body h, unacked b !! d = Some (body, h) -> requeue = false -> given_up UnmarshalUpload known body) ->
  Books b known -> Books (settle_nack d requeue b) known.
Proof.
  intros Hgive [H1 H2 H3 H4]. unfold settle_nack. destruct (unacked b !! d) as [[body h] |] eqn:Hd; [| done].
  destruct requeue; split; cbn; try done.
  all: try (rewrite H1, (bodies_delete _ _ _ _ Hd); solve_Permutation).
  all: try (intros pid; etrans; [apply held_by_delete | done]).
  constructor; eauto.
Qed.
Lemma Books_receive d body h l1 l2 b known :
  ready b = l1 ++ body :: l2 -> unacked b !! d = None -> (held_by (process_of h) (unacked b) < prefetch)%nat ->
  Books b known -> Books (receive d body h (l1 ++ l2) b) known.
Proof.
  intros Hr Hd Hp [H1 H2 H3 H4]. split; cbn; try done.
  - rewrite H1, Hr, bodies_insert by done. solve_Permutation.
  - intros pid. rewrite held_by_insert by done. specialize (H4 pid). case_decide; subst; lia.
Qed.
Lemma Books_pass d body h0 h b known :
  unacked b !! d = Some (body, h0) -> process_of h0 = process_of h ->
  Books b known -> Books (pass d h b) known.
Proof.
  intros Hd Hp [H1 H2 H3 H4]. split; cbn; try done.
  - rewrite H1, (pass_insert _ _ _ h _ Hd), bodies_insert by apply lookup_delete_eq.
    by rewrite (bodies_delete _ _ _ _ Hd).
  - intros pid. rewrite (pass_insert _ _ _ h _ Hd), held_by_insert by apply lookup_delete_eq.
    specialize (H4 pid). rewrite <- (insert_delete_id _ _ _ Hd), held_by_insert in H4 by apply lookup_delete_eq.
    by rewrite <- Hp.
Qed.
Lemma Books_take key body b known : Books b known -> Books (take key body b) known.
Proof. intros [H1 H2 H3 H4]. unfold take. destruct (_ && _); split; cbn; try done. by rewrite H1. Qed.

(** ** Who holds what *)

(** A goroutine may go on with what it holds, and at rest holds the items it returned. *)
Definition safe (u : gmap delivery (string * holder)) (known : gset fact) (g : goroutine)
    (p : prog lg (list batchItem)) : Prop :=
  wp UnmarshalUpload (own_by (Held g) u) known p (fun own _ buf => carries UnmarshalUpload own buf).

Record Owned (u : gmap delivery (string * holder)) (s : Servers) : Prop := {
  owned_code : forall g p, code s !! g = Some p -> is_Some (chans s !! g.1) /\ safe u (facts s) g p;
  owned_none : forall g, is_Some (chans s !! g.1) -> code s !! g = None -> own_by (Held g) u = ∅;
  owned_chan : forall pid items, chans s !! pid = Some items -> carries UnmarshalUpload (own_by (InChannel pid) u) items;
}.

Lemma safe_frame u u' known known' g p :
  known ⊆ known' -> own_by (Held g) u' = own_by (Held g) u -> safe u known g p -> safe u' known' g p.
Proof. intros Hk Ho Hs. unfold safe. rewrite Ho. by eapply wp_mono; [exact Hk | | exact Hs]. Qed.

(** What is shared changes, and more is known. *)
Lemma Owned_facts u s w known :
  facts s ⊆ known -> Owned u s -> Owned u (mkServers (chans s) (code s) w known).
Proof.
  intros Hk [H1 H2 H3]. split; cbn; [| done | done]. intros g p Hg. destruct (H1 g p Hg) as [Hl Hs].
  split; [done |]. by eapply safe_frame.
Qed.

(** One goroutine moves, and what it held goes nowhere else. *)
Lemma Owned_code u u' s g p :
  is_Some (chans s !! g.1) -> safe u' (facts s) g p ->
  (forall h, h <> Held g -> own_by h u' = own_by h u) ->
  Owned u s -> Owned u' (set_code g p s).
Proof.
  intros Hl Hs Hf [H1 H2 H3]. split; cbn.
  - intros g' p'. destruct (decide (g = g')) as [<- | Hne].
    + rewrite lookup_insert_eq. intros [= <-]. done.
    + rewrite lookup_insert_ne by done. intros Hg. destruct (H1 _ _ Hg) as [Hl' Hs']. split; [done |].
      eapply safe_frame; [reflexivity | apply Hf | exact Hs']. congruence.
  - intros g' Hl' Hg'. apply lookup_insert_None in Hg' as [Hg' Hne]. rewrite Hf by congruence. by apply H2.
  - intros pid items Hc. rewrite Hf by done. by apply H3.
Qed.

(** What a command of goroutine [g] takes away. *)
Lemma own_by_gone h g u d body :
  u !! d = Some (body, Held g) -> h <> Held g -> own_by h (delete d u) = own_by h u.
Proof. intros Hd Hh. rewrite own_by_delete. apply own_by_frame. intros b Hb. congruence. Qed.

(** A delivery passes into the channel of a live process. *)
Lemma Owned_send u s it d body g items :
  u !! d = Some (body, Held g) -> chans s !! g.1 = Some items -> bD it = d -> fits UnmarshalUpload it body ->
  Owned (delete d u) s -> Owned (<[d := (body, InChannel g.1)]> (delete d u)) (set_chan g.1 (items ++ [it]) s).
Proof.
  intros Hd Hc Hit Hf [H1 H2 H3]. set (u0 := delete d u) in *.
  assert (forall h, h <> InChannel g.1 -> own_by h (<[d := (body, InChannel g.1)]> u0) = own_by h u0) as Ho.
  { intros h Hh. rewrite own_by_insert_ne by done. apply own_by_frame. intros b. unfold u0. by rewrite lookup_delete_eq. }
  split; cbn.
  - intros g' p Hg. destruct (H1 _ _ Hg) as [Hl Hs]. split.
    + destruct (decide (g.1 = g'.1)) as [<- |]; [rewrite lookup_insert_eq; eauto | by rewrite lookup_insert_ne].
    + by eapply safe_frame; [reflexivity | by apply Ho |].
  - intros g' Hl Hg. rewrite Ho by done. apply H2; [| done].
    destruct (decide (g.1 = g'.1)) as [<- |]; [rewrite Hc; eauto | by rewrite lookup_insert_ne in Hl].
  - intros pid items'. destruct (decide (g.1 = pid)) as [<- | Hne].
    + rewrite lookup_insert_eq. intros [= <-]. rewrite own_by_insert.
      apply carries_snoc; [by apply H3 | | done | done].
      unfold u0. rewrite own_by_delete. apply lookup_delete_eq.
    + rewrite lookup_insert_ne by done. intros Hc'. rewrite Ho by congruence. by apply H3.
Qed.

(** A batch worker takes the first item of the channel of its process. *)
Lemma Owned_item u s pid i buf it items :
  code s !! (pid, BatchWorker i) = Some (Ret buf) -> chans s !! pid = Some (it :: items) ->
  Owned u s ->
  exists body, u !! bD it = Some (body, InChannel pid) /\
    Owned (<[bD it := (body, Held (pid, BatchWorker i))]> (delete (bD it) u))
      (set_code (pid, BatchWorker i) (batchInsertWorker buf [Received it]) (set_chan pid items s)).
Proof.
  intros Hg Hc [H1 H2 H3]. destruct (H3 _ _ Hc) as (body & Hb & Hf & Hrest). exists body.
  apply own_by_Some in Hb. split; [done |]. set (h := Held (pid, BatchWorker i)).
  set (u0 := delete (bD it) u).
  assert (forall h', h' <> h -> h' <> InChannel pid -> own_by h' (<[bD it := (body, h)]> u0) = own_by h' u) as Ho.
  { intros h' Hh Hh'. rewrite own_by_insert_ne by (unfold h in *; congruence). unfold u0. rewrite own_by_delete, delete_delete_eq.
    apply own_by_frame. intros b. congruence. }
  apply (Owned_code u0).
  - cbn. rewrite lookup_insert_eq. eauto.
  - unfold safe. fold h. rewrite own_by_insert. apply worker_wp.
    destruct (H1 _ _ Hg) as [_ Hs]. cbn in Hs. fold h in Hs.
    assert (own_by h u0 = own_by h u) as ->.
    { unfold u0. rewrite own_by_delete. apply own_by_frame. intros b. unfold h. congruence. }
    apply carries_snoc; [exact Hs | | done | done].
    destruct (own_by h u !! bD it) as [b |] eqn:E; [| done]. apply own_by_Some in E. unfold h in E. congruence.
  - intros h' Hh. rewrite own_by_insert_ne by (unfold h in *; congruence). apply own_by_frame. intros b. unfold u0.
    by rewrite lookup_delete_eq.
  - split; cbn.
    + intros g' p' Hg'. destruct (H1 _ _ Hg') as [Hl Hs]. split.
      * destruct (decide (pid = g'.1)) as [<- |]; [rewrite lookup_insert_eq; eauto | by rewrite lookup_insert_ne].
      * eapply safe_frame; [reflexivity | | exact Hs]. unfold u0. rewrite own_by_delete. apply own_by_frame.
        intros b. congruence.
    + intros g' Hl Hg'. unfold u0. rewrite own_by_delete. rewrite H2; [apply delete_empty | | done].
      destruct (decide (pid = g'.1)) as [<- |]; [rewrite Hc; eauto | by rewrite lookup_insert_ne in Hl].
    + intros pid' items'. unfold u0. rewrite own_by_delete. destruct (decide (pid = pid')) as [<- | Hne].
      * rewrite lookup_insert_eq. by intros [= <-].
      * rewrite lookup_insert_ne by done. intros Hc'. rewrite own_by_frame; [by apply H3 |]. congruence.
Qed.

(** ** What an answer tells is true *)
Lemma tells_split c r known : tells c r known = tells c r ∅ ∪ known.
Proof.
  destruct c as [q | | | | | | | | | | | |]; cbn; try set_solver.
  destruct q; cbn; try set_solver; destruct r; unfold insert_tells; try destruct (isDuplicateKey _); set_solver.
Qed.

Lemma elem_of_rows_stored w id : Stored id ∈ rows_of w <-> is_Some (messages (db w) !! id).
Proof.
  unfold rows_of. rewrite elem_of_union, elem_of_map, elem_of_map_to_set. setoid_rewrite elem_of_dom. naive_solver.
Qed.
Lemma elem_of_rows_copied w c : Copied c ∈ rows_of w <-> exists k m, messages (db w) !! k = Some m /\ copy_of m = c.
Proof.
  unfold rows_of. rewrite elem_of_union, elem_of_map, elem_of_map_to_set. naive_solver.
Qed.

(** What one INSERT is answered, and what is in the table then. *)
Lemma insert_answer l m w0 :
  calm_fault (fault l) ->
  let '(r, w) := store_env (Dao (DInsertMessage m)) (next_call l w0) in
  forall f, f ∈ insert_tells m r ∅ -> is_row f = true -> f ∈ rows_of w.
Proof.
  intros Hcalm. assert (calm (next_call l w0)) as Hc by (by constructor).
  pose proof (insert_step (db w0) [m] m (next_call l w0) Hc (grown_refl _ _)) as H.
  pose proof (insert_writes m (next_call l w0)) as Hw.
  destruct (store_env _ _) as [r w]. destruct H as (_ & _ & _ & H); [by left |].
  intros f Hf Hrow. destruct r as [[] | e]; cbn [insert_tells] in Hf; rewrite union_empty_r_L in Hf;
    apply elem_of_union in Hf as [->%elem_of_singleton | ->%elem_of_singleton].
  - by apply elem_of_rows_stored.
  - apply elem_of_rows_copied. destruct (Hw eq_refl) as [t Ht]. by exists (mMsgId m), (stamp t m).
  - destruct (isDuplicateKey e); [| done]. by apply elem_of_rows_stored, H.
  - done.
Qed.

Lemma answer_rows l c w0 f :
  calm_fault (fault l) ->
  let '(r, w) := store_env c (next_call l w0) in f ∈ tells c r ∅ -> is_row f = true -> f ∈ rows_of w.
Proof.
  intros Hcalm.
  assert (calm (next_call l w0)) as Hc by (by constructor).
  destruct c as [q | | | | | | | | | | | |]; try (by destruct (store_env _ _)).
  destruct q; try (by destruct (store_env _ _)).
  - pose proof (insert_answer l m w0 Hcalm) as H. destruct (store_env _ _) as [r w]. exact (H f).
  - pose proof (batch_step (db w0) ms (next_call l w0) Hc (grown_refl _ _)) as H.
    destruct (store_env _ _) as [r w]. destruct H as (_ & _ & _ & H).
    intros Hin _. cbn in Hin. destruct r as [[] |]; [| set_solver].
    apply elem_of_union in Hin as [Hin | ?]; [| set_solver].
    apply elem_of_list_to_set, list_elem_of_fmap in Hin as (m & -> & Hm). by apply elem_of_rows_stored, H.
  - destruct (store_env _ _) as [[? | ?] w]; cbn; set_solver.
Qed.

Lemma answer_tells l c s :
  calm_fault (fault l) ->
  tells c (answer_of l c s).1 (facts s) ⊆ facts (answer_of l c s).2 /\
  chans (answer_of l c s).2 = chans s /\ code (answer_of l c s).2 = code s /\
  facts s ⊆ facts (answer_of l c s).2.
Proof.
  intros Hcalm. unfold answer_of. pose proof (fun f => answer_rows l c (world s) f Hcalm) as Hs.
  destruct (store_env c (next_call l (world s))) as [r w]. cbn. split_and!; [| done | done | set_solver].
  rewrite tells_split. intros f [Hf | Hf]%elem_of_union; [| set_solver].
  destruct (is_row f) eqn:E.
  - specialize (Hs f Hf E). set_solver.
  - apply elem_of_union_r. unfold observed. by apply elem_of_filter.
Qed.

(** ** One step of a logic process *)
Definition LogicInv (x : Broker * Servers) : Prop := Books x.1 (facts x.2) /\ Owned (unacked x.1) x.2.

Lemma safe_quietly u known g p :
  wp UnmarshalUpload (own_by (Held g) u) known p (fun own _ _ => own = ∅) -> safe u known g (quietly p).
Proof. intros H. unfold safe, quietly. apply wp_bind. by eapply wp_mono; [reflexivity | | exact H]. Qed.

(** The command done, what it takes is gone from the goroutine and the rest of it is safe. *)
Lemma command_step g c p0 p b s b' s' :
  code s !! g = Some p0 ->
  needs UnmarshalUpload c (own_by (Held g) (unacked b)) (facts s) ->
  wp UnmarshalUpload (after c (own_by (Held g) (unacked b))) (facts s) p (fun own _ buf => carries UnmarshalUpload own buf) ->
  effect g c (b, s) (b', s') -> LogicInv (b, s) -> LogicInv (b', set_code g p s').
Proof.
  intros Hg Hn Hw He [HB HO]. cbn [fst snd] in *. destruct (owned_code _ _ HO _ _ Hg) as [Hl _].
  assert (forall d body, unacked b !! d = Some (body, Held g) ->
    wp UnmarshalUpload (delete d (own_by (Held g) (unacked b))) (facts s) p (fun own _ buf => carries UnmarshalUpload own buf) ->
    Owned (delete d (unacked b)) (set_code g p s)) as Hgone.
  { intros d body Hd Hp. apply (Owned_code (unacked b)); [done | | | done].
    - unfold safe. by rewrite own_by_delete.
    - intros h Hh. by eapply own_by_gone. }
  inversion He; subst; clear He; cbn [needs after] in *.
  - destruct Hn as (body & Hd%own_by_Some & Hdone). split; cbn.
    + apply Books_ack; [| done]. eauto.
    + unfold settle_ack. rewrite Hd. by eapply Hgone.
  - destruct Hn as (body & Hd%own_by_Some & Hgive). split; cbn.
    + apply Books_nack; [| done]. intros body' h' Hd' Hr. rewrite Hd in Hd'. simplify_eq. auto.
    + unfold settle_nack. rewrite Hd. destruct requeue; by eapply Hgone.
  - destruct Hn as (body & Hd%own_by_Some & Hf). split; cbn.
    + by eapply Books_pass.
    + rewrite (pass_insert _ _ _ _ _ Hd).
      by apply (Owned_send (unacked b) (set_code g p s) it (bD it) body g items); [| | | | eapply Hgone].
  - destruct Hn as (body & Hd%own_by_Some & Hf & Hst). split; cbn.
    + by eapply Books_pass.
    + rewrite (pass_insert _ _ _ _ _ Hd). set (gn := (g.1, Push i)) in *.
      assert (g <> gn) as Hne.
      { intros Hgn. match goal with H : code s !! gn = None |- _ => by rewrite <- Hgn, Hg in H end. }
      specialize (Hgone _ _ Hd Hw).
      replace (set_code g p (set_code gn (pushing it addr) s)) with (set_code gn (pushing it addr) (set_code g p s))
        by (unfold set_code; cbn; by rewrite insert_insert_ne).
      eapply Owned_code; [done | | | exact Hgone].
      * apply safe_quietly. rewrite own_by_insert, (owned_none _ _ Hgone gn); [| done | cbn; by rewrite lookup_insert_ne].
        eapply wp_mono; [reflexivity | | eapply push_wp; [apply lookup_insert_eq | done | done]].
        cbn. intros o k k' _ _ _ ->. by rewrite delete_insert_eq, delete_empty.
      * intros h Hh. rewrite own_by_insert_ne by (unfold gn in *; congruence).
        apply own_by_frame. intros b0. by rewrite lookup_delete_eq.
  - split; [done |]. cbn. eapply Owned_code; [done | | done | done].
    unfold safe. by destruct c.
Qed.

(** A process starts with nothing, ends, and what a dead one had is taken from it. *)
Lemma held_by_none pid h u : held_by pid u = 0%nat -> process_of h = pid -> own_by h u = ∅.
Proof.
  intros H0 Hh. apply map_eq. intros d. rewrite lookup_empty. destruct (own_by h u !! d) as [b |] eqn:E; [| done].
  apply own_by_Some in E. apply map_size_empty_inv in H0.
  assert (filter (fun x => process_of x.2.2 = pid) u !! d = Some (b, h)) as Hd by by apply map_lookup_filter_Some.
  by rewrite H0 in Hd.
Qed.

Lemma Owned_start pid u s :
  chans s !! pid = None -> held_by pid u = 0%nat -> Owned u s -> Owned u (StartUploadConsumer pid s).
Proof.
  intros Hc H0 [H1 H2 H3]. pose proof (fun h => held_by_none pid h u H0) as He.
  assert (forall g : goroutine, is_Some (<[pid := []]> (chans s) !! g.1) -> g.1 = pid \/ is_Some (chans s !! g.1)) as Hlive.
  { intros g. destruct (decide (pid = g.1)) as [<- |]; [by left |]. rewrite lookup_insert_ne by done. by right. }
  split; cbn.
  - intros g p [Hg | [_ Hg]]%lookup_union_Some_raw.
    + apply elem_of_list_to_map_2 in Hg. unfold started in Hg. rewrite elem_of_app, !list_elem_of_fmap in Hg.
      destruct Hg as [(i & [= -> ->] & _) | (i & [= -> ->] & _)]; cbn; rewrite lookup_insert_eq; (split; [eauto |]);
        by apply He.
    + destruct (H1 _ _ Hg) as [Hl Hs]. split; [| done]. rewrite lookup_insert_ne; [done |].
      intros ->. rewrite Hc in Hl. by destruct Hl.
  - intros g [Hp | Hl]%Hlive [_ Hg]%lookup_union_None; [by apply He | by apply H2].
  - intros pid' items. destruct (decide (pid = pid')) as [<- |].
    + rewrite lookup_insert_eq. intros [= <-]. by apply He.
    + rewrite lookup_insert_ne by done. apply H3.
Qed.

Lemma Owned_kill pid u s : Owned u s -> Owned u (kill pid s).
Proof.
  intros [H1 H2 H3]. split; cbn.
  - intros g p [Hg Hne]%map_lookup_filter_Some. cbn in Hne. rewrite lookup_delete_ne by done. by apply H1.
  - intros g Hl Hg. destruct (decide (pid = g.1)) as [-> | Hne]; [rewrite lookup_delete_eq in Hl; by destruct Hl |].
    rewrite lookup_delete_ne in Hl by done. apply H2; [done |].
    apply map_lookup_filter_None in Hg as [Hg | Hg]; [done |].
    destruct (code s !! g) as [p |] eqn:E; [| done]. exfalso. apply (Hg p eq_refl). cbn. congruence.
  - intros pid' items [_ Hc]%lookup_delete_Some. by apply H3.
Qed.

Lemma Owned_lost u s d body h :
  u !! d = Some (body, h) -> chans s !! process_of h = None -> Owned u s -> Owned (delete d u) s.
Proof.
  intros Hd Hc [H1 H2 H3].
  assert (forall h', is_Some (chans s !! process_of h') -> own_by h' (delete d u) = own_by h' u) as Ho.
  { intros h' Hl. rewrite own_by_delete. apply own_by_frame. intros b Hb. rewrite Hd in Hb. simplify_eq.
    rewrite Hc in Hl. by destruct Hl. }
  split.
  - intros g p Hg. destruct (H1 _ _ Hg) as [Hl Hs]. split; [done |]. by eapply safe_frame; [reflexivity | apply Ho |].
  - intros g Hl Hg. rewrite Ho by done. by apply H2.
  - intros pid items Hp. rewrite Ho by (cbn; eauto). by apply H3.
Qed.

Lemma logic_step_Inv x y : LogicInv x -> logic_step x y -> LogicInv y.
Proof.
  intros HI Hst. pose proof HI as [HB HO]. destruct Hst as [pid b s Hc Hh | pid b s | d body h b s Hd Hc |
    pid i d body l1 l2 b s Hg Hr Hd Hp | pid i buf it items b s Hg Hc | pid i buf b s Hg |
    g c k l b s b' s' Hg Hf He | now q b s]; cbn [fst snd] in *.
  - split; cbn; [by apply Books_declare | by apply Owned_start].
  - split; cbn; [done | by apply Owned_kill].
  - split; cbn.
    + by apply Books_nack.
    + unfold settle_nack. rewrite Hd. by eapply Owned_lost.
  - split; cbn.
    + by eapply Books_receive.
    + destruct (owned_code _ _ HO _ _ Hg) as [Hl Hs]. cbn in Hs. unfold safe in Hs. cbn in Hs.
      eapply Owned_code; [done | | | exact HO].
      * apply safe_quietly. rewrite own_by_insert, Hs.
        eapply wp_mono; [reflexivity | | eapply delivery_wp, lookup_insert_eq].
        cbn. intros o k k' _ _ _ ->. by rewrite delete_insert_eq, delete_empty.
      * intros h Hh. rewrite own_by_insert_ne by congruence. apply own_by_frame. intros b0. congruence.
  - destruct (Owned_item _ _ _ _ _ _ _ Hg Hc HO) as (body & Hd & HO'). split; cbn.
    + by eapply Books_pass.
    + by rewrite (pass_insert _ _ _ _ _ Hd).
  - split; cbn [fst snd]; [done |]. destruct (owned_code _ _ HO _ _ Hg) as [Hl Hs].
    eapply Owned_code; [done | | done | done]. apply worker_wp. by rewrite app_nil_r.
  - destruct (answer_tells l c s Hf) as (Ht & Ec & Ep & Hk). set (s1 := (answer_of l c s).2) in *.
    destruct (owned_code _ _ HO _ _ Hg) as [Hl [Hn Hw]].
    eapply (command_step g c _ _ b s1); [by rewrite Ep | by eapply needs_mono | | exact He |].
    + eapply wp_mono; [exact Ht | | apply Hw]. done.
    + split; cbn; [by eapply Books_mono |].
      assert (s1 = mkServers (chans s) (code s) (world s1) (facts s1)) as ->.
      { rewrite <- Ec, <- Ep. by destruct s1. }
      by apply Owned_facts.
  - split; cbn; [eapply Books_mono; [| done]; set_solver |]. apply Owned_facts; [set_solver | done].
Qed.

(** A channel holds no more than the broker delivers ahead: it is never full. *)
Lemma carries_size own items : carries UnmarshalUpload own items -> length items = size own.
Proof.
  revert own. induction items as [| it items IH]; intros own; cbn [carries].
  - intros ->. by rewrite map_size_empty.
  - intros (body & Hb & _ & Hc). cbn. rewrite (IH _ Hc), (map_size_delete_Some _ _ (ex_intro _ _ Hb)).
    assert (size own <> 0%nat) by (intros H0%map_size_empty_inv; by rewrite H0 in Hb). lia.
Qed.
Lemma own_by_size h u : (size (own_by h u) <= held_by (process_of h) u)%nat.
Proof.
  unfold held_by. rewrite <- !size_dom. apply subseteq_size. intros d [b Hd]%elem_of_dom.
  apply own_by_Some in Hd. apply elem_of_dom. exists (b, h). by apply map_lookup_filter_Some.
Qed.
Lemma channel_bounded b s pid items :
  LogicInv (b, s) -> chans s !! pid = Some items -> (length items <= prefetch)%nat.
Proof.
  intros [HB HO] Hc. rewrite (carries_size _ _ (owned_chan _ _ HO _ _ Hc)).
  etrans; [apply own_by_size |]. apply (books_prefetch _ _ HB).
Qed.

Lemma carries_in own items d body :
  carries UnmarshalUpload own items -> own !! d = Some body ->
  exists it, it ∈ items /\ bD it = d /\ fits UnmarshalUpload it body.
Proof.
  revert own. induction items as [| it items IH]; intros own; cbn [carries]; [by intros -> |].
  intros (b & Hb & Hf & Hc) Hd. destruct (decide (bD it = d)) as [<- | Hne].
  - exists it. assert (b = body) as -> by congruence. split_and!; [by left | done | done].
  - destruct (IH _ Hc) as (it' & Hin & H); [by rewrite lookup_delete_ne |]. exists it'. by split; [right |].
Qed.

(** An unsettled delivery of a live process is in the hands of one of its goroutines,
    which has not finished or has it in its buffer, or it is in the channel. *)
Definition in_hand (s : Servers) (d : delivery) (body : string) (h : holder) : Prop :=
  match h with
  | Held g => exists p, code s !! g = Some p /\
      forall buf, p = Ret buf -> exists it, it ∈ buf /\ bD it = d /\ fits UnmarshalUpload it body
  | InChannel pid => exists items it, chans s !! pid = Some items /\ it ∈ items /\ bD it = d /\ fits UnmarshalUpload it body
  end.

Lemma Owned_in_hand u s d body h :
  Owned u s -> u !! d = Some (body, h) -> is_Some (chans s !! process_of h) -> in_hand s d body h.
Proof.
  intros [H1 H2 H3] Hd%own_by_Some Hl. destruct h as [g | pid]; cbn in *.
  - destruct (code s !! g) as [p |] eqn:E; [| by rewrite (H2 _ Hl E) in Hd].
    exists p. split; [done |]. intros buf ->. destruct (H1 _ _ E) as [_ Hs]. by eapply carries_in.
  - destruct Hl as [items Hc]. destruct (carries_in _ _ _ _ (H3 _ _ Hc) Hd) as (it & ?). by exists items, it.
Qed.

(** ** The gateways *)
Variable UnmarshalRequest : string -> outcome Gateway.ClientRequest.
Variable MarshalUpload : UploadPayload -> outcome string.
Variable reliable : bool.
Notation body_of := (Gateway.body_of MarshalUpload).

(** The handlers of upward messages, the goroutine of an AI upload among them. *)
Inductive upward : prog Gateway.ws unit -> Prop :=
| upward_single uid data : upward (Gateway.handleSingleChat UnmarshalRequest MarshalUpload reliable uid data)
| upward_group uid data : upward (Gateway.handleGroupChat UnmarshalRequest MarshalUpload reliable uid data)
| upward_ai uid mid sid conv message : upward (Gateway.ai_upload MarshalUpload uid mid sid conv message).

Definition publishing (key body : string) (k : outcome unit -> prog Gateway.ws unit) : prog Gateway.ws unit :=
  Do (S := Gateway.ws) (Gateway.PublishUpload key body) k.
Definition is_publish (c : cmd Gateway.ws) : bool :=
  match c with Gateway.PublishUpload _ _ => true | _ => false end.
Definition sends_of (c : cmd Gateway.ws) : list (Gateway.client_id * string) :=
  match c with Gateway.SendMessage x text => [(x, text)] | _ => [] end.

(** The broker took the message of this publish, and says so. *)
Definition confirmed_in (key body : string) (tr : list (event Rabbit.amqp)) : Prop :=
  exists ch n, @ev Rabbit.amqp (Rabbit.PublishDeferred ch uploadExchangeName key body) (Ok (Some n)) ∈ tr /\
               @ev Rabbit.amqp (Rabbit.WaitConfirm n) (Ok true) ∈ tr.

Definition set_handler (i : nat) (p : prog Gateway.ws unit) (g : Gateways) : Gateways :=
  mkGateways (<[i := p]> (handlers g)) (wire g) (told g).

(** A publish is a run of Rabbit.PublishUpload against whatever the client library
    answers; one that was not confirmed may still arrive, later or never. *)
Inductive gateway_step : Broker * Gateways -> Broker * Gateways -> Prop :=
| step_handle i p b g :
    handlers g !! i = None -> upward p -> gateway_step (b, g) (b, set_handler i p g)
| step_answer i c k r b g :
    handlers g !! i = Some (Do c k) -> is_publish c = false ->
    gateway_step (b, g) (b, mkGateways (<[i := k r]> (handlers g)) (wire g) (told g ++ sends_of c))
| step_confirmed {W} (h : env Rabbit.amqp W) (w : W) m i key body k b g :
    handlers g !! i = Some (publishing key body k) ->
    let x := run h (Rabbit.PublishUpload key body m) w in
    confirmed_in key body (trace x) ->
    gateway_step (b, g) (take key body b, set_handler i (k (result x).1) g)
| step_unconfirmed {W} (h : env Rabbit.amqp W) (w : W) m i key body k b g :
    handlers g !! i = Some (publishing key body k) ->
    let x := run h (Rabbit.PublishUpload key body m) w in
    ~ confirmed_in key body (trace x) ->
    gateway_step (b, g) (b, mkGateways (<[i := k (result x).1]> (handlers g)) ((key, body) :: wire g) (told g))
| step_arrive key body l1 l2 b g :
    wire g = l1 ++ (key, body) :: l2 ->
    gateway_step (b, g) (take key body b, mkGateways (handlers g) (l1 ++ l2) (told g))
| step_handler_ends i b g :
    gateway_step (b, g) (b, mkGateways (delete i (handlers g)) (wire g) (told g)).

Inductive step : State -> State -> Prop :=
| step_logic b s g b' s' : logic_step (b, s) (b', s') -> step (mkState b s g) (mkState b' s' g)
| step_gateway b s g b' g' : gateway_step (b, g) (b', g') -> step (mkState b s g) (mkState b' s g').

(** Nobody runs yet; the queue may have been declared in an earlier life. *)
Definition init (declared : bool) (w : World) : State :=
  mkState (mkBroker declared [] ∅ [] [] [] []) (mkServers ∅ ∅ w (rows_of w)) (mkGateways ∅ [] []).
Definition reachable (declared : bool) (w : World) (st : State) : Prop := rtc step (init declared w) st.

(** *** What a gateway may say *)
Definition chat_upload (p : UploadPayload) : Prop :=
  uChatType p = ChatTypeSingle \/ uChatType p = ChatTypeGroup \/ uChatType p = ChatTypeAI.
(** A server_ack carries the numbers of a payload whose body the broker confirmed. *)
Definition told_ok (sent : list string) (text : string) : Prop :=
  exists p, chat_upload p /\ text = Gateway.ackMsg (uMsgID p) (uSeqID p) /\ body_of p ∈ sent.

Fixpoint honest {A} (sent : list string) (p : prog Gateway.ws A) : Prop :=
  match p with
  | Ret _ => True
  | Do c k =>
      Forall (fun x => told_ok sent x.2) (sends_of c) /\
      (forall key body, c = Gateway.PublishUpload key body -> key = bindingKey) /\
      forall r, honest (match c return res Gateway.ws c -> list string with
                        | Gateway.PublishUpload _ body =>
                            fun r => match r with Ok _ => body :: sent | _ => sent end
                        | _ => fun _ => sent
                        end r) (k r)
  end.

Lemma told_ok_mono sent sent' text : sent ⊆ sent' -> told_ok sent text -> told_ok sent' text.
Proof. intros Hs (p & ? & ? & ?). exists p. eauto. Qed.

Lemma honest_mono {A} sent sent' (p : prog Gateway.ws A) : sent ⊆ sent' -> honest sent p -> honest sent' p.
Proof.
  revert sent sent'. induction p as [a | c k IH]; intros sent sent' Hs; cbn [honest]; [done |].
  intros (H1 & H2 & H3). split_and!; [| done |].
  - eapply Forall_impl; [exact H1 |]. cbn. intros x. by apply told_ok_mono.
  - intros r. eapply IH; [| exact (H3 r)]. destruct c; try done. destruct r; try done. set_solver.
Qed.

Lemma upload_honest sent p : chat_upload p -> honest sent (Gateway.upload MarshalUpload p).
Proof.
  intros Hp. unfold Gateway.upload, Gateway.ask, call. cbn. split_and!; [done | by intros ? ? [= <- <-] |].
  intros [[] | e | e]; cbn; [| done..]. unfold Gateway.send_to, Gateway.ask, call. cbn.
  split_and!; [done | done |]. intros [c |]; cbn; [| done]. split_and!; [| done | done].
  constructor; [| done]. exists p. split_and!; [done | done |]. by left.
Qed.

Lemma number_honest sent conv uid (f : Z -> Z -> UploadPayload) :
  (forall m q, chat_upload (f m q)) ->
  honest sent (r <- Gateway.number reliable conv uid ;;
               match r with Ok (m, q) => Gateway.upload MarshalUpload (f m q) | _ => Ret tt end).
Proof.
  intros Hf. unfold Gateway.number. destruct reliable; [| by apply upload_honest].
  unfold Gateway.GetNextSeqID, Gateway.GenerateMsgID, Gateway.ask, call. cbn [bind].
  split_and!; [done | done |]. intros [q | e | e]; cbn [bind]; [| done..].
  split_and!; [done | done |]. intros m. by apply upload_honest.
Qed.

Lemma upward_honest sent p : upward p -> honest sent p.
Proof.
  intros [uid data | uid data | uid mid sid conv message].
  - unfold Gateway.handleSingleChat. destruct (UnmarshalRequest data); [| done..].
    apply number_honest with (f := fun m q => mkUpload m q _ _ _ _ _ _). by left.
  - unfold Gateway.handleGroupChat. destruct (UnmarshalRequest data); [| done..].
    apply number_honest with (f := fun m q => mkUpload m q _ _ _ _ _ _). by right; left.
  - apply upload_honest. by right; right.
Qed.

(** *** One step of a gateway *)
Lemma publish_result {W} (h : env Rabbit.amqp W) (w : W) m key body :
  let x := run h (Rabbit.PublishUpload key body m) w in
  (result x).1 = Ok tt -> confirmed_in key body (trace x).
Proof.
  intros x Hok. assert (Rabbit.confirmed uploadExchangeName key body (trace x)) as (ch & n & ->).
  { subst x. revert Hok. unfold Rabbit.PublishUpload, Rabbit.publish_to.
    destruct (Rabbit.getPublishCh m) as [[ch | e | e] m']; [| done..].
    rewrite run_bind. pose proof (Rabbit.publish_confirmed h ch uploadExchangeName key body w) as H.
    destruct (run h _ w) as [[r w1] tr]. cbn in *. rewrite app_nil_r. exact H. }
  exists ch, n. split; [by left | by right; left].
Qed.

Definition sent (b : Broker) : list string := accepted b ++ dropped b.

Record GatewayInv (declared : bool) (b : Broker) (g : Gateways) : Prop := {
  gw_honest : forall i p, handlers g !! i = Some p -> honest (sent b) p;
  gw_told : Forall (fun x => told_ok (sent b) x.2) (told g);
  gw_wire : Forall (fun x => x.1 = bindingKey) (wire g);
  gw_bound : declared = true -> bound b = true /\ dropped b = [];
}.

Lemma take_sent key body b : body :: sent b ⊆ sent (take key body b).
Proof. unfold take, sent. destruct (_ && _); cbn; set_solver. Qed.
Lemma take_bound body b :
  bound b = true /\ dropped b = [] -> bound (take bindingKey body b) = true /\ dropped (take bindingKey body b) = [].
Proof. intros [H1 H2]. unfold take. rewrite H1. done. Qed.

Lemma GatewayInv_broker declared b b' g :
  sent b ⊆ sent b' -> (bound b = true /\ dropped b = [] -> bound b' = true /\ dropped b' = []) ->
  GatewayInv declared b g -> GatewayInv declared b' g.
Proof.
  intros Hs Hb [H1 H2 H3 H4]. split; [| | done | by intros ?%H4%Hb].
  - intros i p Hp. eapply honest_mono; [exact Hs | eauto].
  - eapply Forall_impl; [exact H2 |]. cbn. intros x. by apply told_ok_mono.
Qed.
Lemma GatewayInv_take declared body b g : GatewayInv declared b g -> GatewayInv declared (take bindingKey body b) g.
Proof.
  apply GatewayInv_broker; [| apply take_bound]. etrans; [| apply take_sent]. set_solver.
Qed.
Lemma GatewayInv_handler declared b g i p w t :
  honest (sent b) p -> Forall (fun x => told_ok (sent b) x.2) t -> Forall (fun x => x.1 = bindingKey) w ->
  GatewayInv declared b g -> GatewayInv declared b (mkGateways (<[i := p]> (handlers g)) w t).
Proof.
  intros Hp Ht Hw [H1 H2 H3 H4]. split; cbn; [| done | done | done].
  intros i' p' [[<- <-] | [_ Hi]]%lookup_insert_Some; eauto.
Qed.

Lemma gateway_step_Inv declared x y :
  GatewayInv declared x.1 x.2 -> gateway_step x y -> GatewayInv declared y.1 y.2.
Proof.
  intros HI Hst. pose proof HI as [H1 H2 H3 H4].
  destruct Hst as [i p b g Hi Hu | i c k r b g Hi Hc | W h w m i key body k b g Hi x Hconf |
    W h w m i key body k b g Hi x Hconf | key body l1 l2 b g Hw | i b g]; cbn [fst snd] in *.
  - apply GatewayInv_handler; [by apply upward_honest | done..].
  - destruct (H1 _ _ Hi) as (Hs & Hp & Hk). apply GatewayInv_handler; [| | done | done].
    + specialize (Hk r). by destruct c.
    + by apply Forall_app.
  - destruct (H1 _ _ Hi) as (_ & Hp & Hk). specialize (Hp _ _ eq_refl). subst key.
    pose proof (GatewayInv_take _ body _ _ HI) as HI'. apply GatewayInv_handler; [| apply HI' | done | exact HI'].
    eapply honest_mono; [| exact (Hk (result x).1)]. pose proof (take_sent bindingKey body b).
    destruct (result x).1; set_solver.
  - destruct (H1 _ _ Hi) as (_ & Hp & Hk). specialize (Hp _ _ eq_refl). subst key.
    apply GatewayInv_handler; [| done | by constructor | done].
    specialize (Hk (result x).1). destruct (result x).1 as [[] | |] eqn:E; [| done..].
    exfalso. by apply Hconf, publish_result.
  - rewrite Hw in H3. apply Forall_app in H3 as [Hw1 [Hk Hw2]%Forall_cons]. cbn in Hk. subst key.
    destruct (GatewayInv_take _ body _ _ HI) as [H1' H2' _ H4']. split; cbn; [done | done | by apply Forall_app | done].
  - split; cbn; [| done..]. intros i' p [_ Hp]%lookup_delete_Some. eauto.
Qed.

Lemma logic_step_broker x y :
  logic_step x y -> accepted y.1 = accepted x.1 /\ dropped y.1 = dropped x.1 /\ (bound x.1 = true -> bound y.1 = true).
Proof.
  assert (forall d b, accepted (settle_ack d b) = accepted b /\ dropped (settle_ack d b) = dropped b /\
                      (bound b = true -> bound (settle_ack d b) = true)) as Ha.
  { intros d b. unfold settle_ack. by destruct (unacked b !! d) as [[] |]. }
  assert (forall d r b, accepted (settle_nack d r b) = accepted b /\ dropped (settle_nack d r b) = dropped b /\
                      (bound b = true -> bound (settle_nack d r b) = true)) as Hn.
  { intros d r b. unfold settle_nack. by destruct (unacked b !! d) as [[] |], r. }
  intros []; cbn [fst]; auto; cbn; try done. match goal with H : effect _ _ _ _ |- _ => inversion H; subst; auto end.
Qed.

(** *** Every reachable state *)
Lemma reachable_Inv declared w st :
  reachable declared w st -> LogicInv (broker st, servers st) /\ GatewayInv declared (broker st) (gateways st).
Proof.
  unfold reachable. revert st. apply rtc_ind_r; [| intros st st' Hr Hst IH].
  - split; [split |].
    + split; cbn; [done | done | done |]. intros pid. unfold held_by. rewrite map_filter_empty, map_size_empty. lia.
    + split; cbn; [done | | done]. intros g _ _. apply omap_empty.
    + split; cbn; [done | done | done |]. by intros ->.
  - destruct IH as [HL HG]. destruct Hst as [b s g b' s' Hst | b s g b' g' Hst]; cbn [broker servers gateways] in *.
    + split; [by eapply logic_step_Inv |]. destruct (logic_step_broker _ _ Hst) as (Ea & Ed & Hb). cbn in Ea, Ed, Hb.
      eapply GatewayInv_broker; [| | exact HG].
      * unfold sent. by rewrite Ea, Ed.
      * rewrite Ed. intros [? ?]. auto.
    + split; [| by apply (gateway_step_Inv _ (b, g) (b', g'))]. destruct HL as [HB HO].
      inversion Hst; subst; try (by split); (split; [by apply Books_take |]);
        cbn [fst snd] in *; unfold take; by destruct (_ && _).
Qed.


(** encoding/json reads back what it wrote. *)
Definition json_law : Prop :=
  forall p, chat_upload p -> exists body, MarshalUpload p = Ok body /\ UnmarshalUpload body = Ok p.

End upload.

(** ** A concrete system *)
#[export] Instance ChatType_countable : Countable ChatType.
Proof.
  apply (inj_countable' (fun t => match t with
      | ChatTypeSingle => (0%nat, "") | ChatTypeGroup => (1%nat, "") | ChatTypeAI => (2%nat, "")
      | ChatTypeFriendRequest => (3%nat, "") | ChatTypeFriendResolved => (4%nat, "")
      | ChatTypeFriendDeleted => (5%nat, "") | ChatTypeGroupCreated => (6%nat, "")
      | ChatTypeGroupDissolved => (7%nat, "") | ChatTypeGroupJoinRequest => (8%nat, "")
      | ChatTypeGroupJoinApproved => (9%nat, "") | ChatTypeGroupMemberChanged => (10%nat, "")
      | ChatTypeOther s => (11%nat, s) end)
    (fun x => match x.1 with
      | 0 => ChatTypeSingle | 1 => ChatTypeGroup | 2 => ChatTypeAI | 3 => ChatTypeFriendRequest
      | 4 => ChatTypeFriendResolved | 5 => ChatTypeFriendDeleted | 6 => ChatTypeGroupCreated
      | 7 => ChatTypeGroupDissolved | 8 => ChatTypeGroupJoinRequest | 9 => ChatTypeGroupJoinApproved
      | 10 => ChatTypeGroupMemberChanged | _ => ChatTypeOther x.2 end%nat)).
  by intros [].
Defined.
#[export] Instance UploadPayload_countable : Countable UploadPayload.
Proof.
  apply (inj_countable'
    (fun p => (uMsgID p, uSeqID p, uChatType p, uGroupID p, uConvID p, uSenderID p, uReceiverID p, uContent p))
    (fun '(m, q, t, g, c, u, r, x) => mkUpload m q t g c u r x)).
  by intros [].
Defined.

Lemma bit_json_law : json_law (bit_Unmarshal (A := UploadPayload)) bit_Marshal.
Proof.
  intros p _. exists (bits_of (encode p)). split; [done |].
  unfold bit_Unmarshal. by rewrite of_bits_of, decode_encode.
Qed.

Definition sample_request (_ : string) : outcome Gateway.ClientRequest := Ok (Gateway.mkRequest "single_chat" 7 0 "hi").
Definition sample_upload : UploadPayload := mkUpload 100 1 ChatTypeSingle 0 (ConvID.SingleChatConvID 5 7) 5 7 "hi".
Definition no_marshal {A} (_ : A) : outcome string := Err "".
Definition empty_world : World := mkWorld empty_store ∅ 0 0 [].

(** Its sender gets the server_ack of a message the broker confirmed. *)
Lemma sample_run Unmarshal Marshal MarshalDown MarshalVector declared :
  exists st, reachable Unmarshal MarshalDown MarshalVector sample_request Marshal true declared empty_world st /\
    servers st = servers (init declared empty_world) /\
    broker st = take bindingKey (Gateway.body_of Marshal sample_upload) (broker (init declared empty_world)) /\
    told (gateways st) = [(3%nat, Gateway.ackMsg 100 1)].
Proof.
  eexists. split.
  - unfold reachable.
    eapply rtc_l. { eapply step_gateway, (step_handle _ _ _ 0); [done | apply (upward_single _ _ _ 5 "")]. }
    eapply rtc_l. { eapply step_gateway, (step_answer _ _ _ 0 (Gateway.RedisIncr _) _ (Ok 1)); reflexivity. }
    eapply rtc_l. { eapply step_gateway, (step_answer _ _ _ 0 Gateway.SnowflakeGenerate _ 100); reflexivity. }
    eapply rtc_l.
    { eapply step_gateway, (step_confirmed _ _ _ broker_env 0%nat (Rabbit.mkMq true (Some 0%nat) [Some 1%nat] 0) 0);
        [reflexivity |]. exists 1%nat, 0%nat. split; [by left | by right; left]. }
    eapply rtc_l. { eapply step_gateway, (step_answer _ _ _ 0 (Gateway.CliGet _) _ (Some 3%nat)); reflexivity. }
    eapply rtc_l. { eapply step_gateway, (step_answer _ _ _ 0 (Gateway.SendMessage _ _) _ tt); reflexivity. }
    apply rtc_refl.
  - by split_and!.
Qed.

Notation sample_reachable :=
  (reachable (bit_Unmarshal (A := UploadPayload)) no_marshal no_marshal sample_request bit_Marshal true).



(** ** What the model shows *)

(** A message published before a logic server has declared the queue is confirmed by
    the broker and acknowledged to its sender, and no queue has it. *)
Lemma acknowledged_before_logic_started Unmarshal Marshal MarshalDown MarshalVector :
  exists st, reachable Unmarshal MarshalDown MarshalVector sample_request Marshal true false empty_world st /\
    told (gateways st) = [(3%nat, Gateway.ackMsg 100 1)] /\ accepted (broker st) = [] /\
    dropped (broker st) = [Gateway.body_of Marshal sample_upload].
Proof.
  destruct (sample_run Unmarshal Marshal MarshalDown MarshalVector false) as (st & Hr & Hs & Hb & Ht).
  exists st. by rewrite Hb.
Qed.

(** An AI message whose row is already there goes back to the queue, each time. *)
Lemma ai_redelivery_never_ends Unmarshal MarshalDown d body p w :
  Unmarshal body = Ok p -> uChatType p = ChatTypeAI -> faults w = [] -> is_Some (messages (db w) !! uMsgID p) ->
  from store_env w (handleUploadDelivery Unmarshal MarshalDown d body) (fun _ w' tr =>
    settled tr = [(d, Some true)] /\ faults w' = [] /\ is_Some (messages (db w') !! uMsgID p)).
Proof.
  intros Hb Hp Hf [row Hrow]. unfold handleUploadDelivery. rewrite Hb, Hp.
  unfold handleAIChat, NewMessages, query, ask, call. cbn [bind].
  destruct w as [db0 redis0 now0 id0 fs]. cbn in Hf, Hrow. subst fs.
  do 2 apply from_Do. cbn. unfold exec_dao. cbn. unfold InsertMessage. cbn. rewrite Hrow. cbn. apply from_Do, from_Ret. cbn.
  split_and!; [done | done | by eexists].
Qed.

(** A group message that is delivered again is stored again for everybody but its
    sender, whose row alone has the id of the message. *)
Definition group_upload : UploadPayload := mkUpload 100 1 ChatTypeGroup 9 "group_9" 5 0 "hi".
Definition group_store : Store :=
  mkStore ∅ ∅ ∅ ∅ {[ (9, 5) := mkGroupMember 9 5 1 0; (9, 6) := mkGroupMember 9 6 0 0 ]} ∅ 0.
Definition group_world : World := mkWorld group_store ∅ 1000 500 [].
Lemma group_redelivery_stores_again :
  let deliver w := final (run store_env (handleUploadDelivery (fun _ => Ok group_upload) no_marshal 1%nat "") w) in
  let rows w := (fun m => mMsgId m) <$> (map_to_list (messages (db w))).*2 in
  rows (deliver group_world) = [502; 100] /\ rows (deliver (deliver group_world)) = [505; 502; 100].
Proof. split; vm_compute; reflexivity. Qed.

(** A group message is acknowledged although no copy of it could be stored: the
    failed INSERTs are logged and nothing else. *)
Lemma acked_group_message_lost :
  exists fs, let w := run store_env (handleUploadDelivery (fun _ => Ok group_upload) no_marshal 1%nat "")
                          (mkWorld group_store ∅ 1000 500 fs) in
  settled (trace w) = [(1%nat, None)] /\ messages (db (final w)) = ∅.
Proof.
  exists (None :: None :: replicate 9 (Some ("driver: bad connection", false))). split; vm_compute; reflexivity.
Qed.
End Upload.
