(* ===== verification/Inbox.v ===== *)
(** * The way down: what a receiver gets to see

    The goroutines of the gateways (Ws.Gateway), run interleaved and command by command,
    against the messages table of Dao, on which the logic services may execute any
    statement at any time. A message that is marked read is never shown again: the
    invariant says when it may be marked. A read or an acknowledgement asked for over RPC
    takes effect when the logic service gets to it, also after the call has failed. *)
From S2P Require Import Prelude GoStd Effects Mq Dao Ws Logic.
#[local] Open Scope prog_scope.

(** ** Statements and the rows of messages *)

(** The two statements that mark messages read; they are run for RPCs only. *)
Definition marks (q : dao_cmd) : bool :=
  match q with DMarkMessagesAsRead _ | DMarkMessageAsRead _ => true | _ => false end.
Definition keyed (s : Store) : Prop := forall k m, messages s !! k = Some m -> mMsgId m = k.

Lemma exec_unmarked now q s k m' :
  keyed s -> marks q = false -> messages (exec now q s).2 !! k = Some m' ->
  mMsgId m' = k /\
  ((exists m, messages s !! k = Some m /\ mIsRead m' = mIsRead m /\ mReceiverId m' = mReceiverId m) \/
   messages s !! k = None).
Proof.
  intros Hs Hq Hk.
  assert (messages s !! k = Some m' -> mMsgId m' = k /\
    ((exists m, messages s !! k = Some m /\ mIsRead m' = mIsRead m /\ mReceiverId m' = mReceiverId m) \/ messages s !! k = None))
    as Hsame by (intros H; split; [by apply Hs | left; by exists m']).
  destruct q; simpl in *; try done; try (apply Hsame; exact Hk).
  - unfold InsertMessage in Hk. destruct (messages s !! mMsgId m) eqn:E; simpl in Hk; [by apply Hsame |].
    apply lookup_insert_Some in Hk as [[<- <-] | [_ Hk]]; [| by apply Hsame]. split; [done | by right].
  - unfold BatchInsertMessages in Hk. destruct ms as [| m0 ms]; [by apply Hsame |].
    destruct (insert_all now (m0 :: ms) (messages s)) as [t |] eqn:E; cbn [snd messages set_messages] in Hk; [| by apply Hsame].
    destruct (messages s !! k) as [m |] eqn:Ek.
    + rewrite (insert_all_keeps _ _ _ _ _ _ E Ek) in Hk. by apply Hsame.
    + destruct (insert_all_lookup _ _ _ _ _ _ E Hk) as [? | (m1 & Hm & -> & ->)]; [congruence |]. split; [done | by right].
  - rewrite lookup_update in Hk. apply fmap_Some in Hk as (m & Hm & ->).
    split; [case_match; by apply (Hs k m) | left; exists m; split; [done | by case_match]].
  - apply lookup_delete_rows in Hk as [Hk _]. by apply Hsame.
  - apply lookup_delete_rows in Hk as [Hk _]. by apply Hsame.
  - unfold ApplyFriend in Hk. apply Hsame. by case_match.
  - unfold InsertGroupMember in Hk. apply Hsame. by case_match.
  - unfold CreateGroup in Hk. apply Hsame. by repeat case_match.
Qed.

Module Inbox.
Import Gateway.
Notation UnreadMessage := Gateway.UnreadMessage.

(** SyncUnread (chat_service.go): a row as it is returned. *)
Definition to_unread (m : Messages) : UnreadMessage :=
  mkUnread (Dao.mSenderId m) (Dao.mContent m) (Dao.mGroupId m) (Dao.mMsgId m) (Dao.mSeqId m) (Dao.mSendStatus m).

(** ** The goroutines of a gateway *)

(** What a goroutine is about to mark read: the answer of its SyncUnread. *)
Definition window_step (w : option (Z * list UnreadMessage)) (e : event ws) : option (Z * list UnreadMessage) :=
  match e with
  | existT (RpcSyncUnread _ r) (Ok (m :: ms)) => Some (r, m :: ms)
  | existT (RpcReadMessages _ _) _ => None
  | _ => w
  end.
Definition window (past : list (event ws)) : option (Z * list UnreadMessage) := foldl window_step None past.

Section gateway.
Variable UnmarshalRequest : string -> outcome ClientRequest.
Variable UnmarshalChatType : string -> outcome string.
Variable UnmarshalAck : string -> outcome (Z * Z).
Variable UnmarshalDown : string -> outcome DownPayload.
Variable MarshalUpload : UploadPayload -> outcome string.
Variable MarshalMap : gmap string jv -> outcome string.
Variable QueryEscape : string -> string.
Variable AgentAddr GatewayAddr : string.
Variable reliable notify : bool.

(** Messages are marked read by a goroutine that has handed all of them to a connection. *)
Definition allowed (past : list (event ws)) (e : event ws) : Prop :=
  match e with
  | existT (RpcReadMessages _ r) _ => exists l, window past = Some (r, l) /\
      forall u t, u ∈ l -> unread_json MarshalMap u = Ok t -> exists c, (c, t) ∈ sends past
  | _ => True
  end.

(** The goroutines that gateways start. *)
Inductive goroutine : prog ws unit -> Prop :=
| go_handler token : goroutine (Handler MarshalMap GatewayAddr token)
| go_read_pump n uid c : goroutine (ReadPump UnmarshalChatType UnmarshalAck n uid c ;; Ret tt)
| go_single uid data : goroutine (handleSingleChat UnmarshalRequest MarshalUpload reliable uid data)
| go_group uid data : goroutine (handleGroupChat UnmarshalRequest MarshalUpload reliable uid data)
| go_ai uid data : goroutine (handlerAIChat UnmarshalRequest QueryEscape AgentAddr reliable uid data)
| go_ai_upload uid mid sid conv text : goroutine (ai_upload MarshalUpload uid mid sid conv text)
| go_delivered sender msg : goroutine (NotifyDeliveredRPC sender msg)
| go_consumer msgs : goroutine (consumeLoop UnmarshalDown MarshalMap notify msgs).

Definition not_reading (c : cmd ws) : Prop := match c with RpcReadMessages _ _ => False | _ => True end.

Lemma only_sat {A} past (p : prog ws A) : only not_reading p -> sat allowed past p (fun _ _ => True).
Proof.
  revert past. induction p as [a | c k IH]; intros past Hp; cbn; [done |]. destruct Hp as [Hc Hk].
  intros r. split; [by destruct c | by apply IH].
Qed.

Lemma window_snoc past e : window (past ++ [e]) = window_step (window past) e.
Proof. unfold window. by rewrite foldl_app. Qed.
Lemma sends_snoc past c t r : sends (past ++ [@ev ws (SendMessage c t) r]) = sends past ++ [(c, t)].
Proof. unfold sends, view. by rewrite bind_app. Qed.

Lemma sends_sat past c l :
  sat (allowed) past (for_each l (fun m =>
      match unread_json MarshalMap m with Ok text => ask (SendMessage c text) | _ => Ret tt end))
    (fun past' _ => window past' = window past /\ (forall x, x ∈ sends past -> x ∈ sends past') /\
      forall u t, u ∈ l -> unread_json MarshalMap u = Ok t -> (c, t) ∈ sends past').
Proof.
  revert past. induction l as [| m l IH]; intros past; cbn [for_each].
  { cbn. split_and!; [done | done | intros u t H; by apply not_elem_of_nil in H]. }
  destruct (unread_json MarshalMap m) as [text | e | e] eqn:E; cbn [bind].
  - intros r. split; [done |]. eapply sat_impl; [apply IH |]. cbn beta. intros past' [] (H1 & H2 & H3).
    rewrite window_snoc in H1. split_and!; [exact H1 | |].
    + intros x Hx. apply H2. rewrite sends_snoc. apply elem_of_app. by left.
    + intros u t [-> | Hu]%elem_of_cons Ht; [| by eapply H3]. apply H2. rewrite sends_snoc, E in *. simplify_eq.
      apply elem_of_app. right. by apply list_elem_of_singleton.
  - eapply sat_impl; [apply IH |]. cbn beta. intros past' [] (H1 & H2 & H3). split_and!; [done | done |].
    intros u t [-> | Hu]%elem_of_cons Ht; [congruence | by eapply H3].
  - eapply sat_impl; [apply IH |]. cbn beta. intros past' [] (H1 & H2 & H3). split_and!; [done | done |].
    intros u t [-> | Hu]%elem_of_cons Ht; [congruence | by eapply H3].
Qed.

Lemma syncMessage_sat past uid c : sat allowed past (syncMessage MarshalMap uid c) (fun _ _ => True).
Proof.
  unfold syncMessage, ask at 1, call. cbn [bind]. intros [[| m ms] | e | e]; (split; [done |]); [done | | done | done].
  eapply sat_bind; [apply sends_sat |]. cbn beta. intros past' _ (H1 & _ & H3). intros r. split; [| done].
  exists (m :: ms). split; [by rewrite H1, window_snoc |]. intros u t Hu Ht. exists c. by apply (H3 u).
Qed.

Ltac quiet := repeat first
  [ progress cbn | progress autounfold with prog | match goal with |- True => done | |- not_reading _ => done end
  | split; [exact I |] | intros ? | apply only_bind | case_match ].
#[local] Hint Unfold ask : prog.

Lemma scan_quiet c lines : only not_reading (scan c lines).
Proof. induction lines as [| l lines IH]; cbn [scan]; [done |]. repeat case_match; cbn; auto. Qed.

Lemma dispatch_never_reads uid c data : only not_reading (dispatch UnmarshalChatType UnmarshalAck uid c data).
Proof. unfold dispatch, handleAck, send_to. quiet. Qed.

Lemma read_pump_quiet n uid c : only not_reading (ReadPump UnmarshalChatType UnmarshalAck n uid c).
Proof.
  unfold ReadPump. apply only_bind; [| quiet].
  induction n as [| n IH]; cbn [read_loop]; [done |]. split; [done |]. intros [data | e | e]; [| done ..].
  cbn [bind]. apply only_bind; [apply dispatch_never_reads |]. by intros [].
Qed.

Lemma goroutine_sat p : goroutine p -> sat allowed [] p (fun _ _ => True).
Proof.
  intros Hp. assert (only not_reading p -> sat allowed [] p (fun _ _ => True)) as Hq by apply only_sat.
  destruct Hp as [token | | uid data | uid data | uid data | uid mid sid conv text | | msgs].
  - clear Hq. unfold Handler. destruct (String.eqb token ""); [by split |].
    intros [u | e | e]; (split; [done |]); [| by split ..]. cbn [bind].
    intros [c | e | e]; (split; [done |]); [| done ..]. cbn [bind].
    intros r1. split; [done |]. intros r2. split; [done |]. intros r3. split; [done |]. cbn [bind].
    eapply sat_bind; [apply syncMessage_sat |]. intros past' [[] | e | e] _; by try split.
  - apply Hq, only_bind; [apply read_pump_quiet | done].
  - apply Hq. unfold handleSingleChat, number, upload, send_to, GetNextSeqID, GenerateMsgID. quiet.
  - apply Hq. unfold handleGroupChat, number, upload, send_to, GetNextSeqID, GenerateMsgID. quiet.
  - apply Hq. unfold handlerAIChat, number, send_to, GetNextSeqID, GenerateMsgID. quiet; apply scan_quiet.
  - apply Hq. unfold ai_upload, upload, send_to. quiet.
  - apply Hq. quiet.
  - apply Hq. unfold consumeLoop. apply only_for_each. intros body. unfold handleMQDelivery. quiet.
Qed.

(** ** Gateways and tables *)

(** The tables; the goroutines that run, with what they did and what is left; what was
    handed to connections. What was asked for over RPC: the receivers whose messages are
    to be marked read, the messages a client acknowledged. And what only the statements
    below speak of: the rows inserted while their receiver's messages were about to be
    marked read, and the rows inserted as read. *)
Record State := mkState {
  tables : Store;
  running : gmap nat (list (event ws) * prog ws unit);
  handed : list (client_id * string);
  reads : list Z;
  asked : gset Z;
  late : gset Z;
  born : gset Z;
}.
Definition init : State := mkState empty_store ∅ [] [] ∅ ∅ ∅.
Definition set_running f st := mkState (tables st) (f (running st)) (handed st) (reads st) (asked st) (late st) (born st).
Definition set_tables s st := mkState s (running st) (handed st) (reads st) (asked st) (late st) (born st).
Definition set_handed h st := mkState (tables st) (running st) h (reads st) (asked st) (late st) (born st).
Definition set_reads r st := mkState (tables st) (running st) (handed st) r (asked st) (late st) (born st).
Definition set_asked a st := mkState (tables st) (running st) (handed st) (reads st) a (late st) (born st).

(** The receivers whose messages are about to be marked read. *)
Definition about (st : State) : list Z :=
  reads st ++ omap (fun g => fst <$> window g.2.1) (map_to_list (running st)).

(** A statement, and the rows it adds. *)
Definition added (s s' : Store) : list Messages :=
  (filter (fun x => messages s !! x.1 = None) (map_to_list (messages s'))).*2.
Definition execute (now : Z) (q : dao_cmd) (st : State) : State :=
  let s' := (exec now q (tables st)).2 in
  let new := added (tables st) s' in
  mkState s' (running st) (handed st) (reads st) (asked st)
    (late st ∪ list_to_set (Dao.mMsgId <$> filter (fun m => mReceiverId m ∈ about st) new))
    (born st ∪ list_to_set (Dao.mMsgId <$> filter (fun m => mIsRead m = true) new)).

(** The answers of a command, and what it leaves behind. SyncUnread reads the rows of the
    moment; the other answers are any. *)
Definition answers (st : State) (c : cmd ws) (r : res ws c) : Prop :=
  match c return res ws c -> Prop with
  | RpcSyncUnread _ u => fun r => forall l, r = Ok l ->
      exists rows, GetUnreadMessages u (tables st) = Success rows /\ l = to_unread <$> rows
  | _ => fun _ => True
  end r.
Definition effect (c : cmd ws) (st : State) : State :=
  match c with
  | SendMessage cl t => set_handed (handed st ++ [(cl, t)]) st
  | RpcReadMessages _ u => set_reads (u :: reads st) st
  | RpcAckMessage _ m => set_asked ({[m]} ∪ asked st) st
  | _ => st
  end.

Inductive step : State -> State -> Prop :=
| step_go st g p :
    running st !! g = None -> goroutine p -> step st (set_running (<[g := ([], p)]>) st)
| step_command st g past c k r :
    running st !! g = Some (past, Do c k) -> answers st c r ->
    step st (set_running (<[g := (past ++ [ev c r], k r)]>) (effect c st))
| step_end st g past :
    running st !! g = Some (past, Ret tt) -> step st (set_running (delete g) st)
| step_die st g x : running st !! g = Some x -> step st (set_running (delete g) st)
| step_statement st now q : marks q = false -> step st (execute now q st)
| step_read st u :
    u ∈ reads st -> step st (set_tables (MarkMessagesAsRead u (tables st)) st)
| step_read_over st l1 u l2 :
    reads st = l1 ++ u :: l2 -> step st (set_reads (l1 ++ l2) st)
| step_acknowledge st m :
    m ∈ asked st -> step st (set_tables (MarkMessageAsRead m (tables st)) st).
Definition reachable (st : State) : Prop := rtc step init st.

(** A message was shown: its text for the receiver was handed to a connection. *)
Definition shown (st : State) (id : Z) : Prop :=
  exists c t u, (c, t) ∈ handed st /\ unread_json MarshalMap u = Ok t /\ Gateway.mMsgId u = id.

(** ** What every run keeps *)
Definition unread_row (st : State) (r id : Z) : Prop :=
  exists m, messages (tables st) !! id = Some m /\ mReceiverId m = r /\ mIsRead m = false.

Record Inv (st : State) : Prop := {
  Inv_keyed : keyed (tables st);
  Inv_read : forall id m, messages (tables st) !! id = Some m -> mIsRead m = true ->
    shown st id \/ id ∈ asked st \/ id ∈ late st \/ id ∈ born st;
  Inv_sat : forall g past p, running st !! g = Some (past, p) -> sat allowed past p (fun _ _ => True);
  Inv_sent : forall g past p x, running st !! g = Some (past, p) -> x ∈ sends past -> x ∈ handed st;
  Inv_window : forall g past p r l id, running st !! g = Some (past, p) -> window past = Some (r, l) ->
    unread_row st r id -> (exists u, u ∈ l /\ Gateway.mMsgId u = id) \/ id ∈ late st;
  Inv_reads : forall r id, r ∈ reads st -> unread_row st r id -> shown st id \/ id ∈ late st;
}.

Lemma inbox_init_Inv : Inv init.
Proof. split; cbn; try done; intros; try (by rewrite lookup_empty in *); by apply not_elem_of_nil in H. Qed.

(** json.Marshal encodes every map of texts and integers. *)
Hypothesis marshal_map : forall m, exists t, MarshalMap m = Ok t.

Lemma sent_is_shown st u c t id :
  (c, t) ∈ handed st -> unread_json MarshalMap u = Ok t -> Gateway.mMsgId u = id -> shown st id.
Proof. intros. by exists c, t, u. Qed.

Lemma shown_mono st st' id : (forall x, x ∈ handed st -> x ∈ handed st') -> shown st id -> shown st' id.
Proof. intros H (c & t & u & Hx & ?). exists c, t, u. split; [by apply H | done]. Qed.

(** What a command leaves in place. *)
Lemma effect_tables c st : tables (effect c st) = tables st.
Proof. by destruct c. Qed.
Lemma effect_running c st : running (effect c st) = running st.
Proof. by destruct c. Qed.
Lemma effect_late c st : late (effect c st) = late st /\ born (effect c st) = born st.
Proof. by destruct c. Qed.
Lemma effect_handed c st x : x ∈ handed st -> x ∈ handed (effect c st).
Proof. destruct c; try done. intros H. apply elem_of_app. by left. Qed.
Lemma effect_asked c st id : id ∈ asked st -> id ∈ asked (effect c st).
Proof. destruct c; try done. cbn. set_solver. Qed.
Lemma effect_sends c (r : res ws c) st past x :
  (forall x, x ∈ sends past -> x ∈ handed st) -> x ∈ sends (past ++ [ev c r]) -> x ∈ handed (effect c st).
Proof.
  intros H Hx. unfold sends, view in Hx. rewrite bind_app in Hx. apply elem_of_app in Hx as [Hx | Hx].
  - by apply effect_handed, H.
  - destruct c; cbn in Hx; try (by apply not_elem_of_nil in Hx). cbn. apply elem_of_app. by right.
Qed.
Lemma effect_reads c st u :
  u ∈ reads (effect c st) -> u ∈ reads st \/ exists rk, c = RpcReadMessages rk u.
Proof. destruct c; try (by left). cbn. intros [-> | H]%elem_of_cons; [right; by eexists | by left]. Qed.

(** Rows whose goroutine is about to mark them: those it was given, until others come. *)
Lemma window_after st past c (r : res ws c) u l id :
  answers st c r -> window (past ++ [ev c r]) = Some (u, l) -> unread_row st u id ->
  keyed (tables st) ->
  window past = Some (u, l) \/ exists x, x ∈ l /\ Gateway.mMsgId x = id.
Proof.
  intros Ha Hw (m & Hm & Hr & Hu) Hk. rewrite window_snoc in Hw.
  destruct c; cbn in Hw; try (by left); try done.
  destruct r as [[| x xs] | e | e]; [by left | | by left ..]. injection Hw as <- <-. right.
  destruct (Ha _ eq_refl) as (rows & Hrows & ->). injection Hrows as <-.
  exists (to_unread m). split; [| by apply Hk].
  apply list_elem_of_fmap. exists m. split; [done |]. apply elem_of_select. split; [| by exists id].
  unfold unread_of. by rewrite Hr, Z.eqb_refl, Hu.
Qed.

Lemma command_Inv st g past c k r :
  Inv st -> running st !! g = Some (past, Do c k) -> answers st c r ->
  Inv (set_running (<[g := (past ++ [ev c r], k r)]>) (effect c st)).
Proof.
  intros [Hk Hread Hsat Hsent Hwin Hreads] Hg Ha.
  assert (forall id, shown st id -> shown (set_running (<[g := (past ++ [ev c r], k r)]>) (effect c st)) id) as Hsh
    by (intros id; apply shown_mono; cbn; intros x; apply effect_handed).
  pose proof (Hsat g past _ Hg r) as [Hall Hrest]. destruct (effect_late c st) as [El Eb].
  split; cbn; unfold unread_row in *; cbn; rewrite ?effect_tables, ?effect_running, ?El, ?Eb.
  - exact Hk.
  - intros id m Hm Hr. destruct (Hread id m Hm Hr) as [H | [H | H]]; [left; by apply Hsh | right; left; by apply effect_asked | by right; right].
  - intros g' past' p [[<- [= <- <-]] | [Hne H]]%lookup_insert_Some; [done | by eapply Hsat].
  - intros g' past' p x [[<- [= <- <-]] | [Hne H]]%lookup_insert_Some Hx.
    + eapply effect_sends; [| exact Hx]. intros y. by apply (Hsent g past (Do c k)).
    + by eapply effect_handed, Hsent.
  - intros g' past' p u l id [[<- [= <- <-]] | [Hne H]]%lookup_insert_Some Hw Hrow; [| by eapply Hwin].
    destruct (window_after st past c r u l id Ha Hw Hrow Hk) as [Hold | Hin]; [by eapply Hwin | by left].
  - intros u id Hu Hrow. destruct (effect_reads c st u Hu) as [H | [rk ->]].
    + destruct (Hreads u id H Hrow) as [H' | H']; [left; by apply Hsh | by right].
    + destruct Hall as (l & Hw & Hall). destruct (Hwin g past _ u l id Hg Hw Hrow) as [(x & Hx & Hid) | H]; [left | by right].
      assert (exists t, unread_json MarshalMap x = Ok t) as [t Ht] by apply marshal_map.
      destruct (Hall x t Hx Ht) as [cl Hcl]. apply Hsh. eapply sent_is_shown; [by eapply Hsent | exact Ht | exact Hid].
Qed.

(** A row that a statement adds is new, read or for a receiver that is about to read. *)
Lemma statement_row st now q id m :
  Inv st -> marks q = false -> messages (tables (execute now q st)) !! id = Some m ->
  Dao.mMsgId m = id /\
  ((exists m0, messages (tables st) !! id = Some m0 /\ mIsRead m = mIsRead m0 /\ mReceiverId m = mReceiverId m0) \/
   ((mIsRead m = true -> id ∈ born (execute now q st)) /\ (mReceiverId m ∈ about st -> id ∈ late (execute now q st)))).
Proof.
  intros HI Hq Hm. cbn in Hm. destruct (exec_unmarked now q (tables st) id m (Inv_keyed st HI) Hq Hm) as [Hid Hrow].
  split; [exact Hid |]. destruct Hrow as [H | Hnew]; [by left | right].
  assert (m ∈ added (tables st) (exec now q (tables st)).2) as Hin.
  { unfold added. apply list_elem_of_fmap. exists (id, m). split; [done |]. apply list_elem_of_filter.
    split; [exact Hnew | by apply elem_of_map_to_list]. }
  cbn. split; intros H; apply elem_of_union_r, elem_of_list_to_set, list_elem_of_fmap; exists m; (split; [done |]);
    by apply list_elem_of_filter.
Qed.

Lemma window_about st g past p u l : running st !! g = Some (past, p) -> window past = Some (u, l) -> u ∈ about st.
Proof.
  intros Hg Hw. unfold about. apply elem_of_app. right. apply list_elem_of_omap. exists (g, (past, p)).
  split; [by apply elem_of_map_to_list |]. change (fst <$> window past = Some u). by rewrite Hw.
Qed.

Lemma statement_Inv st now q : Inv st -> marks q = false -> Inv (execute now q st).
Proof.
  intros HI Hq. pose proof (statement_row st now q) as Hrow.
  assert (forall u id, unread_row (execute now q st) u id -> unread_row st u id \/ (u ∈ about st -> id ∈ late (execute now q st))) as Hun.
  { intros u id (m & Hm & Hr & Hu). destruct (Hrow id m HI Hq Hm) as [_ [(m0 & H0 & E1 & E2) | [_ H]]].
    - left. exists m0. split_and!; congruence.
    - right. by rewrite <- Hr. }
  assert (forall id, id ∈ late st -> id ∈ late (execute now q st)) as Hl by (intros id H; by apply elem_of_union_l).
  split.
  - intros id m Hm. by destruct (Hrow id m HI Hq Hm).
  - intros id m Hm Hr. destruct (Hrow id m HI Hq Hm) as [_ [(m0 & H0 & E1 & E2) | [H _]]].
    + destruct (Inv_read st HI id m0 H0) as [H | [H | [H | H]]]; [congruence | by left | by right; left | by right; right; left; apply Hl |].
      right. right. right. by apply elem_of_union_l.
    + right. right. right. by apply H.
  - apply (Inv_sat st HI).
  - apply (Inv_sent st HI).
  - intros g past p u l id Hg Hw H%Hun. destruct H as [H | H].
    + destruct (Inv_window st HI g past p u l id Hg Hw H) as [? | ?]; [by left | right; by apply Hl].
    + right. by eapply H, window_about.
  - intros u id Hu H%Hun. destruct H as [H | H].
    + destruct (Inv_reads st HI u id Hu H) as [? | ?]; [by left | right; by apply Hl].
    + right. apply H. apply elem_of_app. by left.
Qed.

(** A mark: rows become read for a reason, and no other row changes. *)
Lemma mark_Inv st p :
  Inv st ->
  (forall id m, messages (tables st) !! id = Some m -> mIsRead m = false -> p m = true ->
     shown st id \/ id ∈ asked st \/ id ∈ late st \/ id ∈ born st) ->
  Inv (set_tables (set_messages (update p mark_read (messages (tables st))) (tables st)) st).
Proof.
  intros [Hk Hread Hsat Hsent Hwin Hreads] Hp.
  assert (forall id m', messages (set_messages (update p mark_read (messages (tables st))) (tables st)) !! id = Some m' ->
    exists m, messages (tables st) !! id = Some m /\ m' = if p m then mark_read m else m) as Hrow.
  { intros id m'. cbn. rewrite lookup_update. intros (m & Hm & ->)%fmap_Some. by exists m. }
  assert (forall u id, unread_row (set_tables (set_messages (update p mark_read (messages (tables st))) (tables st)) st) u id ->
    unread_row st u id) as Hun.
  { intros u id (m' & Hm & Hr & Hu). destruct (Hrow id m' Hm) as (m & Hm0 & ->). exists m.
    destruct (p m); [done | by split_and!]. }
  split.
  - intros id m' Hm. destruct (Hrow id m' Hm) as (m & Hm0 & ->). destruct (p m); by apply (Hk id m).
  - intros id m' Hm Hr. destruct (Hrow id m' Hm) as (m & Hm0 & ->).
    destruct (mIsRead m) eqn:E; [by apply (Hread id m) |]. destruct (p m) eqn:Ep; [by apply (Hp id m) | congruence].
  - exact Hsat.
  - exact Hsent.
  - intros g past pr u l id Hg Hw H%Hun. by apply (Hwin g past pr u l id).
  - intros u id Hu H%Hun. by apply (Hreads u id).
Qed.

(** Fewer goroutines, fewer reads asked for. *)
Lemma fewer_Inv st f reads' :
  Inv st -> (forall g x, f (running st) !! g = Some x -> running st !! g = Some x) -> (forall u, u ∈ reads' -> u ∈ reads st) ->
  Inv (set_reads reads' (set_running f st)).
Proof.
  intros [Hk Hread Hsat Hsent Hwin Hreads] Hf Hr. split; cbn; try done.
  - intros g past p H%Hf. by eapply Hsat.
  - intros g past p x H%Hf. by eapply Hsent.
  - intros g past p u l id H%Hf. by eapply Hwin.
  - intros u id Hu%Hr. by apply Hreads.
Qed.

Lemma inbox_step_Inv st st' : Inv st -> step st st' -> Inv st'.
Proof.
  intros HI Hs. destruct Hs as [st g p Hn Hp | st g past c k r Hg Ha | st g past Hg | st g x Hg | st now q Hq | st u Hu | st l1 u l2 Hl | st m Hm].
  - destruct HI as [Hk Hread Hsat Hsent Hwin Hreads]. split; cbn; try done.
    + intros g' past' p' [[<- [= <- <-]] | [Hne H]]%lookup_insert_Some; [by apply goroutine_sat | by eapply Hsat].
    + intros g' past' p' x [[<- [= <- <-]] | [Hne H]]%lookup_insert_Some; [intros Hx; by apply not_elem_of_nil in Hx | by eapply Hsent].
    + intros g' past' p' u l id [[<- [= <- <-]] | [Hne H]]%lookup_insert_Some; [done | by eapply Hwin].
  - by apply command_Inv.
  - change (Inv (set_reads (reads st) (set_running (delete g) st))).
    apply fewer_Inv; [done | intros g' x'; rewrite lookup_delete_Some; tauto | done].
  - change (Inv (set_reads (reads st) (set_running (delete g) st))).
    apply fewer_Inv; [done | intros g' x'; rewrite lookup_delete_Some; tauto | done].
  - by apply statement_Inv.
  - apply mark_Inv; [done |]. intros id m Hm Hr [Hru _]%andb_true_iff. apply Z.eqb_eq in Hru.
    destruct (Inv_reads st HI u id Hu) as [? | ?]; [by exists m | by left | by right; right; left].
  - change (Inv (set_reads (l1 ++ l2) (set_running (fun x => x) st))).
    apply fewer_Inv; [done | done |]. rewrite Hl. set_solver.
  - apply mark_Inv; [done |]. intros id m0 Hm0 Hr [Hid _]%andb_true_iff. apply Z.eqb_eq in Hid. right. left.
    rewrite <- (Inv_keyed st HI id m0 Hm0), Hid. exact Hm.
Qed.

Lemma inbox_reachable_Inv st : reachable st -> Inv st.
Proof. apply (invariant_rtc step Inv inbox_step_Inv), inbox_init_Inv. Qed.

(** C6: A stored message is shown or still to be shown: however the goroutines of all
    gateways, the statements of the logic services and the RPCs between them interleave,
    fail and come late, a row of messages is returned by the next SyncUnread of its
    receiver, or its text was handed to a connection, or a client acknowledged it, or it
    was inserted as read - or it was inserted while a SyncUnread of its receiver had been
    answered and the messages were about to be marked read: the mark takes in what the
    answer did not have. *)
Theorem stored_is_shown_or_kept st id m :
  reachable st -> messages (tables st) !! id = Some m ->
  (exists rows, GetUnreadMessages (mReceiverId m) (tables st) = Success rows /\ m ∈ rows) \/
  shown st id \/ id ∈ asked st \/ id ∈ late st \/ id ∈ born st.
Proof.
  intros HI%inbox_reachable_Inv Hm. destruct (mIsRead m) eqn:E; [right; by apply (Inv_read st HI id m) |].
  left. eexists. split; [reflexivity |]. apply elem_of_select. split; [| by exists id].
  unfold unread_of. by rewrite Z.eqb_refl, E.
Qed.
End gateway.

(** ** A run in which a message is lost *)

Definition row (id sender receiver : Z) (content : string) : Messages :=
  mkMessages id id sender receiver 0 false content SendStatusUnsent 100.
Definition sample_map (m : gmap string jv) : outcome string :=
  Ok (match m !! "msg_id" with Some (JInt z) => Itoa z | _ => "" end).
Notation sample_step :=
  (step (fun _ => Err "") (fun _ => Err "") (fun _ => Err "") (fun _ => Err "") (fun _ => Err "") sample_map id "" "gw:8050" true true).
Notation sample_reachable :=
  (reachable (fun _ => Err "") (fun _ => Err "") (fun _ => Err "") (fun _ => Err "") (fun _ => Err "") sample_map id "" "gw:8050" true true).

Ltac answer c r := eapply rtc_l; [eapply (step_command _ _ _ _ _ _ _ _ _ _ _ _ 0%nat _ c _ r); [reflexivity |] |].

(** User 7 connects: message 1 is handed to the connection; message 2 is stored before
    the messages of user 7 are marked read, and is marked with them. *)
Definition connected (st : State) : Prop :=
  sample_reachable st /\ running st = ∅ /\ reads st = [] /\
  handed st = [(3%nat, "1")] /\ messages (tables st) !! 2 = Some (mark_read (row 2 8 7 "second")).

Lemma connecting : exists st, connected st.
Proof.
  eexists. split.
  - unfold reachable. eapply rtc_l; [apply (step_statement _ _ _ _ _ _ _ _ _ _ _ _ 100 (DInsertMessage (row 1 8 7 "first"))); reflexivity |].
    eapply rtc_l; [apply (step_go _ _ _ _ _ _ _ _ _ _ _ _ 0%nat); [reflexivity | apply (go_handler _ _ _ _ _ _ _ _ _ _ _ "token")] |].
    answer (ParseToken "token") (@Ok Z 7); [exact I |]. answer Upgrade (@Ok client_id 3%nat); [exact I |].
    answer (CliRegister 7 3%nat) tt; [exact I |].
    answer (RedisSet (route_key (Itoa 7)) "gw:8050" (24 * 3600 * 10 ^ 9)) (@Ok unit tt); [exact I |].
    answer (Gateway.Go (TaskWritePump 3%nat)) tt; [exact I |].
    answer (RpcSyncUnread (Itoa 7) 7) (Ok [to_unread (row 1 8 7 "first")]).
    { intros l [= <-]. eexists. split; [reflexivity |]. vm_compute. reflexivity. }
    answer (SendMessage 3%nat "1") tt; [exact I |].
    eapply rtc_l; [apply (step_statement _ _ _ _ _ _ _ _ _ _ _ _ 100 (DInsertMessage (row 2 8 7 "second"))); reflexivity |].
    answer (RpcReadMessages (Itoa 7) 7) (@Ok bool true); [exact I |].
    eapply rtc_l; [apply (step_read _ _ _ _ _ _ _ _ _ _ _ _ 7); apply list_elem_of_singleton; reflexivity |].
    eapply rtc_l; [apply (step_read_over _ _ _ _ _ _ _ _ _ _ _ _ [] 7 []); reflexivity |].
    answer (Gateway.Go (TaskReadPump 3%nat)) tt; [exact I |].
    eapply rtc_l; [eapply (step_end _ _ _ _ _ _ _ _ _ _ _ _ 0%nat); reflexivity |].
    apply rtc_refl.
  - split_and!; vm_compute; reflexivity.
Qed.

Lemma sample_total m : exists t, sample_map m = Ok t.
Proof. by eexists. Qed.

Lemma stored_is_shown_or_kept_witness :
  exists st, connected st /\
    ((exists rows, GetUnreadMessages 7 (tables st) = Success rows /\ mark_read (row 2 8 7 "second") ∈ rows) \/
     shown sample_map st 2 \/ 2 ∈ asked st \/ 2 ∈ late st \/ 2 ∈ born st).
Proof.
  destruct connecting as [st Hst]. exists st. split; [exact Hst |]. destruct Hst as (Hr & _ & _ & _ & Hm).
  exact (stored_is_shown_or_kept _ _ _ _ _ sample_map _ _ _ _ _ sample_total st 2 _ Hr Hm).
Defined.

(** The logic service looks up the routes of a batch before it inserts it, and pushes
    nothing to a receiver that had none. *)
Lemma flush_routes_first MarshalDown it items :
  (exists keys k, flush (it :: items) = Do (S := lg) (RedisMGet keys) k /\
    forall vals, exists k', k vals = Do (S := lg) (Logic.Dao (DBatchInsertMessages (bMsg <$> it :: items))) k') /\
  forall p, pushDownWithAddr MarshalDown p "" = Ret (Ok tt).
Proof. split; [| done]. unfold flush. do 2 eexists. split; [reflexivity |]. intros vals. by eexists. Qed.

(** So a message for a user who is just connecting can be lost: its row says that it was
    read, and nobody was shown it or will be: every goroutine has ended, the next
    SyncUnread does not return it, and there is no push of it when the route was looked
    up before the receiver had one. *)
Lemma late_message_is_lost :
  exists st, sample_reachable st /\ running st = ∅ /\ reads st = [] /\
    (exists m, messages (tables st) !! 2 = Some m /\ mIsRead m = true /\ Dao.mSendStatus m = SendStatusSentConfirmed) /\
    ~ shown sample_map st 2 /\
    forall rows, GetUnreadMessages 7 (tables st) = Success rows -> forall m, m ∈ rows -> Dao.mMsgId m <> 2.
Proof.
  destruct connecting as (st & Hr & Hrun & Hreads & Hh & Hm). exists st. split_and!; try done.
  - eexists. split; [exact Hm | by split].
  - intros (c & t & u & Hin & Ht & Hid). rewrite Hh in Hin. apply list_elem_of_singleton in Hin as [= -> ->].
    unfold unread_json, sample_map in Ht. rewrite Hid in Ht. vm_compute in Ht. congruence.
  - intros rows [= <-] m [Hu [k Hk]]%elem_of_select Hid. apply andb_true_iff in Hu as [_ Hu].
    pose proof (Inv_keyed _ _ (inbox_reachable_Inv _ _ _ _ _ sample_map _ _ _ _ _ sample_total st Hr)) as HK.
    rewrite <- (HK k m Hk), Hid, Hm in Hk. injection Hk as <-. done.
Qed.
End Inbox.
