(* ===== verification/Session.v ===== *)
(** * Whose texts: connections, goroutines and users

    The goroutines of all gateways (Ws.Gateway), started as the handlers start them, run
    interleaved and command by command over their connection maps (Ws.Routing). A
    connection belongs to the user of the token it was opened with. What goes up is said
    in the name of the user whose connection it was read from; what goes down a
    connection is meant for its user. What the broker delivers, what the logic service
    and the agent answer, and what clients write is arbitrary. *)
From S2P Require Import Prelude GoStd GoText Effects Mq Ws.
#[local] Open Scope prog_scope.

Module Session.
Import Gateway.

Definition parsed (past : list (event ws)) : option Z :=
  last (view (fun e : event ws => match e return list Z with existT (ParseToken _) (Ok u) => [u] | _ => [] end) past).
Definition dialled (past : list (event ws)) : option client_id :=
  last (view (fun e : event ws => match e return list client_id with existT Upgrade (Ok c) => [c] | _ => [] end) past).

Section gateways.
Variable UnmarshalRequest : string -> outcome ClientRequest.
Variable UnmarshalChatType : string -> outcome string.
Variable UnmarshalAck : string -> outcome (Z * Z).
Variable UnmarshalDown : string -> outcome DownPayload.
Variable MarshalUpload : UploadPayload -> outcome string.
Variable MarshalMap : gmap string jv -> outcome string.
Variable QueryEscape : string -> string.
Variable AgentAddr : string.
Variable reliable notify : bool.

(** ** Goroutines *)

(** What a goroutine is for: a request to connect, reading a connection, a task of a
    handler, the deliveries of a channel. *)
Inductive kind :=
| Connecting (token : string)
| Reading (n : nat) (uid : Z) (c : client_id)
| Running (t : task)
| Consuming (msgs : list string).

(** The write pump is Ws.Client, the read pump [Reading]. *)
Definition task_prog (t : task) : prog ws unit :=
  match t with
  | TaskSingleChat uid data => handleSingleChat UnmarshalRequest MarshalUpload reliable uid data
  | TaskGroupChat uid data => handleGroupChat UnmarshalRequest MarshalUpload reliable uid data
  | TaskAIChat uid data => handlerAIChat UnmarshalRequest QueryEscape AgentAddr reliable uid data
  | TaskAIUpload uid mid sid conv text => ai_upload MarshalUpload uid mid sid conv text
  | TaskDelivered sender msg => NotifyDeliveredRPC sender msg
  | TaskWritePump _ | TaskReadPump _ => Ret tt
  end.
Definition kind_prog (gw : string) (k : kind) : prog ws unit :=
  match k with
  | Connecting token => Handler MarshalMap gw token
  | Reading n uid c => ReadPump UnmarshalChatType UnmarshalAck n uid c ;; Ret tt
  | Running t => task_prog t
  | Consuming msgs => consumeLoop UnmarshalDown MarshalMap notify msgs
  end.

(** ** States and steps *)

(** The connection maps; whose token opened a connection; the goroutines started and not
    yet running; those that run, with what they did and what is left; all commands with
    their answers; what was delivered. Gateways are named by their addresses. *)
Record State := mkState {
  world : Routing.World;
  opened : gmap client_id Z;
  started : list (string * task);
  running : gmap nat (string * kind * list (event ws) * prog ws unit);
  log : list (event ws);
  delivered : list string;
}.
Definition init : State := mkState Routing.NewWorld ∅ [] ∅ [] [].

Definition set_running f s := mkState (world s) (opened s) (started s) (f (running s)) (log s) (delivered s).
Definition set_world w s := mkState w (opened s) (started s) (running s) (log s) (delivered s).
Definition set_opened o s := mkState (world s) o (started s) (running s) (log s) (delivered s).
Definition set_started l s := mkState (world s) (opened s) l (running s) (log s) (delivered s).
Definition set_log l s := mkState (world s) (opened s) (started s) (running s) l (delivered s).
Definition set_delivered l s := mkState (world s) (opened s) (started s) (running s) (log s) l.

Definition answers (s : State) (gw : string) (c : cmd ws) (r : res ws c) : Prop :=
  match c return res ws c -> Prop with
  | CliGet key => fun r => r = Routing.Get (world s) gw key
  | Upgrade => fun r => forall c, r = Ok c -> opened s !! c = None
  | _ => fun _ => True
  end r.

Definition effect (gw : string) (past : list (event ws)) (c : cmd ws) (r : res ws c) (s : State) : State :=
  match c return res ws c -> State with
  | Upgrade => fun r =>
      match r, parsed past with Ok c, Some u => set_opened (<[c := u]> (opened s)) s | _, _ => s end
  | CliRegister u c => fun _ => set_world (Routing.Register gw u c (world s)).2 s
  | CliRemove key c => fun _ => set_world (Routing.Remove gw key c (world s)) s
  | Go t => fun _ => set_started (started s ++ [(gw, t)]) s
  | _ => fun _ => s
  end r.

(** What [Register] does to the connection it replaces, before it releases the lock. *)
Definition call_event (x : Routing.call) : event ws :=
  match x with Routing.Tell c t => @ev ws (SendMessage c t) tt | Routing.Shut c => @ev ws (CloseClient c) tt end.
Definition sequel (gw : string) (c : cmd ws) (s : State) : list (event ws) :=
  match c with CliRegister u c => call_event <$> (Routing.Register gw u c (world s)).1 | _ => [] end.

Definition restart (gw : string) (w : Routing.World) : Routing.World :=
  Routing.mkWorld (delete gw (Routing.clients w)) (Routing.routes w) (Routing.routed w) (Routing.owner w).

Inductive step : State -> State -> Prop :=
| step_connect s g gw token :
    running s !! g = None -> step s (set_running (<[g := (gw, Connecting token, [], kind_prog gw (Connecting token))]>) s)
| step_consume s g gw msgs :
    running s !! g = None ->
    step s (set_delivered (delivered s ++ msgs) (set_running (<[g := (gw, Consuming msgs, [], kind_prog gw (Consuming msgs))]>) s))
| step_task s g gw t :
    running s !! g = None -> (gw, t) ∈ started s ->
    step s (set_running (<[g := (gw, Running t, [], kind_prog gw (Running t))]>) s)
| step_read s g gw c u n :
    running s !! g = None -> (gw, TaskReadPump c) ∈ started s -> opened s !! c = Some u ->
    step s (set_running (<[g := (gw, Reading n u c, [], kind_prog gw (Reading n u c))]>) s)
| step_command s g gw k past c kont r :
    running s !! g = Some (gw, k, past, Do c kont) -> answers s gw c r ->
    step s (set_log (log s ++ ev c r :: sequel gw c s)
              (set_running (<[g := (gw, k, past ++ [ev c r], kont r)]>) (effect gw past c r s)))
| step_end s g : step s (set_running (delete g) s)
| step_restart s gw : step s (set_world (restart gw (world s)) s).
Definition reachable (s : State) : Prop := rtc step init s.

(** ** What goes up and down *)

(** A text was read from a connection of a user. *)
Definition typed (s : State) (u : Z) (data : string) : Prop :=
  exists c, opened s !! c = Some u /\ @ev ws (ReadMessage c) (Ok data) ∈ log s.

(** A payload says what a request says, to whom the request says it; what is asked of the
    agent is addressed to -1. *)
Definition says (u : Z) (req : ClientRequest) (p : UploadPayload) : Prop :=
  uSenderID p = u /\ uContent p = Message req /\
  match uChatType p with
  | ChatTypeSingle => uGroupID p = 0 /\ uReceiverID p = Receiver req
  | ChatTypeGroup => uGroupID p = GroupID req
  | ChatTypeAI => uGroupID p = 0 /\ uReceiverID p = -1
  | _ => False
  end.

(** A body to upload says what a request of its sender says. *)
Definition said (s : State) (body : string) : Prop :=
  exists u data req p, typed s u data /\ UnmarshalRequest data = Ok req /\ body = body_of MarshalUpload p /\ says u req p.

Definition agent_url (u : Z) (req : ClientRequest) : string :=
  AgentAddr +:+ "/agent/chat/sse?user_id=" +:+ Itoa u +:+ "&message=" +:+ QueryEscape (Message req).

(** A text is meant for a user: it is an unread message that was returned for the user,
    a delivery to the user, the acknowledgement of an upload of the user, a line of the
    agent's answer to a question of the user, the receipt of somebody who names the user
    as the sender, a pong, or the notice that the user has connected again. *)
Inductive meant (s : State) (u : Z) (t : string) : Prop :=
| meant_unread key l m :
    @ev ws (RpcSyncUnread key u) (Ok l) ∈ log s -> m ∈ l -> unread_json MarshalMap m = Ok t -> meant s u t
| meant_push body p :
    body ∈ delivered s -> UnmarshalDown body = Ok p -> dReceiverID p = u -> push_of MarshalMap p = Ok t -> meant s u t
| meant_ack p :
    uSenderID p = u -> @ev ws (PublishUpload "upload.all" (body_of MarshalUpload p)) (Ok tt) ∈ log s ->
    t = ackMsg (uMsgID p) (uSeqID p) -> meant s u t
| meant_answer data req lines :
    typed s u data -> UnmarshalRequest data = Ok req -> @ev ws (HttpGet (agent_url u req)) (Ok lines) ∈ log s ->
    (t = endMsg \/ exists line, line ∈ lines /\ t = chunkMsg (TrimPrefix line "data: ")) -> meant s u t
| meant_receipt from data msg :
    typed s from data -> UnmarshalAck data = Ok (msg, u) -> t = readReceipt from msg -> meant s u t
| meant_pong : t = pongMsg -> meant s u t
| meant_kick c' :
    @ev ws (CliRegister u c') tt ∈ log s -> opened s !! c' = Some u -> t = Routing.kickMsg -> meant s u t.

(** ** What each goroutine does *)

Definition posts (k : kind) (body : string) : Prop :=
  match k with
  | Running (TaskSingleChat u data) | Running (TaskGroupChat u data) =>
      exists req p, UnmarshalRequest data = Ok req /\ body = body_of MarshalUpload p /\ says u req p
  | Running (TaskAIUpload u _ _ _ text) => exists p, body = body_of MarshalUpload p /\ forall req, Message req = text -> says u req p
  | _ => False
  end.

Definition acknowledges (past : list (event ws)) (u : Z) (c : client_id) (t : string) : Prop :=
  exists p, @ev ws (CliGet (Itoa u)) (Some c) ∈ past /\ uSenderID p = u /\
    @ev ws (PublishUpload "upload.all" (body_of MarshalUpload p)) (Ok tt) ∈ past /\ t = ackMsg (uMsgID p) (uSeqID p).

Definition shows (k : kind) (past : list (event ws)) (c : client_id) (t : string) : Prop :=
  match k with
  | Connecting _ => dialled past = Some c /\ exists u key l m, parsed past = Some u /\
      @ev ws (RpcSyncUnread key u) (Ok l) ∈ past /\ m ∈ l /\ unread_json MarshalMap m = Ok t
  | Reading _ u c0 => (c = c0 /\ t = pongMsg) \/
      exists data msg to, @ev ws (ReadMessage c0) (Ok data) ∈ past /\ UnmarshalAck data = Ok (msg, to) /\
        @ev ws (CliGet (Itoa to)) (Some c) ∈ past /\ t = readReceipt u msg
  | Running (TaskSingleChat u _) | Running (TaskGroupChat u _) | Running (TaskAIUpload u _ _ _ _) => acknowledges past u c t
  | Running (TaskAIChat u data) => @ev ws (CliGet (Itoa u)) (Some c) ∈ past /\
      exists req lines, UnmarshalRequest data = Ok req /\ @ev ws (HttpGet (agent_url u req)) (Ok lines) ∈ past /\
        (t = endMsg \/ exists line, line ∈ lines /\ t = chunkMsg (TrimPrefix line "data: "))
  | Consuming msgs => exists body p, body ∈ msgs /\ UnmarshalDown body = Ok p /\
      @ev ws (CliGet (Itoa (dReceiverID p))) (Some c) ∈ past /\ push_of MarshalMap p = Ok t
  | _ => False
  end.

Definition launches (k : kind) (past : list (event ws)) (t : task) : Prop :=
  match t with
  | TaskSingleChat u data | TaskGroupChat u data | TaskAIChat u data =>
      exists n c, k = Reading n u c /\ @ev ws (ReadMessage c) (Ok data) ∈ past
  | TaskAIUpload u _ _ _ text =>
      exists data req, k = Running (TaskAIChat u data) /\ UnmarshalRequest data = Ok req /\ text = Message req
  | TaskReadPump c => dialled past = Some c
  | _ => True
  end.

Definition policy (k : kind) (past : list (event ws)) (e : event ws) : Prop :=
  match e with
  | existT (ParseToken _) _ => dialled past = None
  | existT Upgrade _ => is_Some (parsed past) /\ dialled past = None
  | existT (CliRegister u c) _ => parsed past = Some u /\ dialled past = Some c
  | existT (PublishUpload _ body) _ => posts k body
  | existT (SendMessage c t) _ => shows k past c t
  | existT (Go t) _ => launches k past t
  | _ => True
  end.

(** ** Every goroutine keeps to its policy *)

Notation does k past p := (sat (policy k) past p (fun _ _ => True)).

Lemma snoc_old (past : list (event ws)) e e' : e ∈ past -> e ∈ past ++ [e'].
Proof. intros H. apply elem_of_app. by left. Qed.
Lemma snoc_new (past : list (event ws)) (e : event ws) : e ∈ past ++ [e].
Proof. apply elem_of_app. right. by apply list_elem_of_singleton. Qed.
#[local] Hint Resolve snoc_old snoc_new : told.
Ltac told := eauto 8 with told.
Ltac next := let r := fresh "r" in intros r; split; [try exact I |].

Lemma parsed_snoc past e : parsed (past ++ [e]) =
  match e return option Z with existT (ParseToken _) (Ok u) => Some u | _ => parsed past end.
Proof.
  unfold parsed. rewrite view_app. destruct e as [[] r]; cbn; rewrite ?app_nil_r; try done.
  destruct r; cbn; rewrite ?app_nil_r; [apply last_snoc | done | done].
Qed.
Lemma dialled_snoc past e : dialled (past ++ [e]) =
  match e return option client_id with existT Upgrade (Ok c) => Some c | _ => dialled past end.
Proof.
  unfold dialled. rewrite view_app. destruct e as [[] r]; cbn; rewrite ?app_nil_r; try done.
  destruct r; cbn; rewrite ?app_nil_r; [apply last_snoc | done | done].
Qed.

Lemma upload_does k past u p :
  (forall past c t, acknowledges past u c t -> shows k past c t) ->
  posts k (body_of MarshalUpload p) -> uSenderID p = u -> does k past (upload MarshalUpload p).
Proof.
  intros Hk Hp Hu. unfold upload, send_to, ask, call. cbn [bind]. intros r. split; [exact Hp |].
  destruct r as [[] | e | e]; cbn [bind]; [| done ..]. intros [c |]; (split; [exact I |]); cbn [bind]; [| done].
  intros r. split; [| done]. apply Hk. exists p. rewrite Hu. split_and!; told.
Qed.

(** Numbering a message is nobody's text. *)
Lemma number_does {A} k past conv u (f : outcome (Z * Z) -> prog ws A) :
  (forall past r, does k past (f r)) -> does k past (bind (number reliable conv u) f).
Proof.
  intros Hf. unfold number, GetNextSeqID, GenerateMsgID, ask, call. destruct reliable; cbn [bind]; [| apply Hf].
  next. destruct r as [n | e | e]; cbn [bind]; [| apply Hf ..]. next. apply Hf.
Qed.

Lemma single_does u data past : does (Running (TaskSingleChat u data)) past (task_prog (TaskSingleChat u data)).
Proof.
  cbn. unfold handleSingleChat. destruct (UnmarshalRequest data) as [req | |] eqn:E; [| done ..].
  apply number_does. intros past' [[mid sid] | |]; [| done ..]. apply (upload_does _ _ u); [done | | done].
  cbn. do 2 eexists. by split_and!.
Qed.
Lemma group_does u data past : does (Running (TaskGroupChat u data)) past (task_prog (TaskGroupChat u data)).
Proof.
  cbn. unfold handleGroupChat. destruct (UnmarshalRequest data) as [req | |] eqn:E; [| done ..].
  apply number_does. intros past' [[mid sid] | |]; [| done ..]. apply (upload_does _ _ u); [done | | done].
  cbn. do 2 eexists. by split_and!.
Qed.
Lemma ai_upload_does u mid sid conv text past :
  does (Running (TaskAIUpload u mid sid conv text)) past (task_prog (TaskAIUpload u mid sid conv text)).
Proof.
  unfold task_prog, ai_upload. apply (upload_does _ _ u); [done | | done]. cbn. eexists. split; [done |]. by intros req <-.
Qed.

Lemma scan_does u data req all c lines past :
  UnmarshalRequest data = Ok req -> @ev ws (CliGet (Itoa u)) (Some c) ∈ past ->
  @ev ws (HttpGet (agent_url u req)) (Ok all) ∈ past -> (forall line, line ∈ lines -> line ∈ all) ->
  does (Running (TaskAIChat u data)) past (scan c lines).
Proof.
  intros Hreq. revert past. induction lines as [| line lines IH]; intros past Hc Hg Hl; cbn [scan]; [done |].
  destruct (String.eqb line "data: [DONE]").
  { unfold ask, call. intros r. split; [| done]. cbn. split; [exact Hc |]. exists req, all. split_and!; [done | done | by left]. }
  destruct (HasPrefix line "data: ").
  - unfold ask, call. cbn [bind]. intros r. split.
    + cbn. split; [exact Hc |]. exists req, all. split_and!; [done | done | right]. exists line. split; [apply Hl; by left | done].
    + apply IH; [told | told |]. intros l' H. apply Hl. by right.
  - apply IH; [done | done |]. intros l' H. apply Hl. by right.
Qed.

Lemma ai_does u data past : does (Running (TaskAIChat u data)) past (task_prog (TaskAIChat u data)).
Proof.
  cbn. unfold handlerAIChat. destruct (UnmarshalRequest data) as [req | |] eqn:E; [| done ..].
  unfold ask at 1, call. cbn [bind]. next. destruct r as [lines | |]; cbn [bind]; [| done ..].
  set (past1 := past ++ _).
  assert (@ev ws (HttpGet (agent_url u req)) (Ok lines) ∈ past1) as Hg by (unfold past1; told).
  clearbody past1. unfold number, GetNextSeqID, GenerateMsgID.
  assert (forall past2 (r : outcome (Z * Z)), @ev ws (HttpGet (agent_url u req)) (Ok lines) ∈ past2 ->
    does (Running (TaskAIChat u data)) past2
      (let '(msgID, seqID) := match r with Ok x => x | _ => (0, 0) end in
       (ask (Go (TaskAIUpload u msgID seqID ("ai_" +:+ Itoa u) (Message req))) ;;
        c <- ask (CliGet (Itoa u)) ;; match c with Some c => scan c lines | None => Ret tt end))) as Hrest.
  { intros past2 r Hg2. destruct (match r with Ok x => x | _ => (0, 0) end) as [mid sid]. unfold ask, call. cbn [bind].
    intros r1. split; [by exists data, req |]. intros [c |]; (split; [exact I |]); cbn [bind]; [| done].
    eapply scan_does; [exact E | told | told | done]. }
  destruct reliable; [| by apply (Hrest past1 (Ok (0, 0)))].
  unfold ask at 1 2, call. cbn [bind]. next. destruct r as [n | e | e]; cbn [bind].
  - next. apply (Hrest _ (Ok (r, n))). told.
  - apply (Hrest _ (Err e)). told.
  - apply (Hrest _ (Panic e)). told.
Qed.

Lemma delivery_does msgs body past : body ∈ msgs -> does (Consuming msgs) past (handleMQDelivery UnmarshalDown MarshalMap notify body).
Proof.
  intros Hb. unfold handleMQDelivery, ask, call. destruct (UnmarshalDown body) as [p | |] eqn:E; [| by next ..].
  cbn [bind]. intros [c |]; (split; [exact I |]); cbn [bind]; [| by next].
  destruct (push_of MarshalMap p) as [t | |] eqn:Et; [| by next ..]. cbn [bind]. intros r. split.
  - exists body, p. split_and!; told.
  - next. destruct notify; cbn [bind]; [by next | done].
Qed.
Lemma consume_does msgs rest past : (forall b, b ∈ rest -> b ∈ msgs) ->
  does (Consuming msgs) past (for_each rest (handleMQDelivery UnmarshalDown MarshalMap notify)).
Proof.
  revert past. induction rest as [| b rest IH]; intros past Hr; cbn [for_each]; [done |].
  eapply sat_bind; [apply delivery_does, Hr; by left |]. intros past' [] _. apply IH. intros b' H. apply Hr. by right.
Qed.

Lemma dispatch_does n u c data past : @ev ws (ReadMessage c) (Ok data) ∈ past ->
  does (Reading n u c) past (dispatch UnmarshalChatType UnmarshalAck u c data).
Proof.
  intros Hd. unfold dispatch. destruct (UnmarshalChatType data) as [t | |]; [| done ..].
  unfold handleAck, send_to, ask, call.
  destruct (String.eqb t "ping"); [cbn [bind]; next; intros r1; split; [by left | done] |].
  destruct (String.eqb t "single_chat"); [cbn [bind]; intros r; split; [by exists n, c | done] |].
  destruct (String.eqb t "ai_chat"); [cbn [bind]; intros r; split; [by exists n, c | done] |].
  destruct (String.eqb t "group_chat"); [cbn [bind]; intros r; split; [by exists n, c | done] |].
  destruct (String.eqb t "ack"); [| done]. destruct (UnmarshalAck data) as [[msg to] | |] eqn:E; cbn [bind]; [| done ..].
  next. destruct r as [[] | |]; cbn [bind]; [| done ..]. intros [c' |]; (split; [exact I |]); cbn [bind]; [| done].
  intros r. split; [| done]. right. exists data, msg, to. split_and!; told.
Qed.

Lemma read_does n u c past : does (Reading n u c) past (ReadPump UnmarshalChatType UnmarshalAck n u c ;; Ret tt).
Proof.
  assert (forall m past, does (Reading n u c) past (read_loop UnmarshalChatType UnmarshalAck m u c)) as H.
  { induction m as [| m IH]; intros past'; cbn [read_loop]; [done |]. unfold ask at 1, call. cbn [bind]. next.
    destruct r as [data | |]; cbn [bind]; [| done ..]. eapply sat_bind; [apply dispatch_does; told |].
    intros past2 [] _; [apply IH | done]. }
  apply (sat_bind _ _ _ _ (fun _ _ => True)); [| done]. unfold ReadPump. eapply sat_bind; [apply H |]. intros past' [] _; [| done].
  unfold ask, call. cbn [bind]. by next; next.
Qed.

Lemma unread_does token u c l rest past :
  (forall m, m ∈ rest -> m ∈ l) -> parsed past = Some u -> dialled past = Some c ->
  @ev ws (RpcSyncUnread (Itoa u) u) (Ok l) ∈ past ->
  sat (policy (Connecting token)) past
    (for_each rest (fun m => match unread_json MarshalMap m with Ok text => ask (SendMessage c text) | _ => Ret tt end))
    (fun past' _ => dialled past' = Some c).
Proof.
  revert past. induction rest as [| m rest IH]; intros past Hl Hp Hd Hr; cbn [for_each]; [done |].
  assert (forall m', m' ∈ rest -> m' ∈ l) as Hl' by (intros m' H; apply Hl; by right).
  destruct (unread_json MarshalMap m) as [text | |] eqn:E; cbn [bind]; [| by apply IH ..]. unfold ask at 1, call. cbn [bind].
  intros r. split.
  - split; [exact Hd |]. exists u, (Itoa u), l, m. split_and!; [done | done | apply Hl; by left | done].
  - apply IH; [done | by rewrite parsed_snoc | by rewrite dialled_snoc | told].
Qed.

Lemma sync_does token u c past :
  parsed past = Some u -> dialled past = Some c ->
  sat (policy (Connecting token)) past (syncMessage MarshalMap u c) (fun past' _ => dialled past' = Some c).
Proof.
  intros Hp Hd. unfold syncMessage, ask at 1, call. cbn [bind]. intros r. split; [done |].
  destruct r as [[| m ms] | e | e]; cbn [bind]; [cbn; by rewrite dialled_snoc | | cbn; by rewrite dialled_snoc ..].
  eapply sat_bind; [apply (unread_does _ u _ (m :: ms)); [done | by rewrite parsed_snoc | by rewrite dialled_snoc | told] |].
  cbn beta. intros past' [] Hd'. unfold ask, call. cbn [bind]. next. cbn. by rewrite dialled_snoc.
Qed.

Lemma connect_does gw token : does (Connecting token) [] (Handler MarshalMap gw token).
Proof.
  unfold Handler, ask, call. destruct (String.eqb token ""); [by next |]. cbn [bind]. intros r. split; [done |].
  destruct r as [u | |]; cbn [bind]; [| by next ..]. intros r. split; [by split; [exists u |] |].
  destruct r as [c | |]; cbn [bind]; [| done ..]. intros r1. split; [done |]. intros r2. split; [done |]. intros r3. split; [done |].
  eapply sat_bind; [by apply sync_does |]. cbn beta. intros past' [[] | |] Hd; [| done ..]. by next.
Qed.

Lemma kind_does gw k : does k [] (kind_prog gw k).
Proof.
  destruct k as [token | n u c | t | msgs]; cbn; [apply connect_does | apply read_does | | by apply consume_does].
  destruct t; [apply single_does | apply ai_does | apply group_does | apply ai_upload_does | | done | done].
  cbn. unfold NotifyDeliveredRPC, ask, call. by next.
Qed.

(** ** What every run keeps *)

(** What a goroutine was started with. *)
Definition task_ok (s : State) (t : task) : Prop :=
  match t with
  | TaskSingleChat u data | TaskGroupChat u data | TaskAIChat u data => typed s u data
  | TaskAIUpload u _ _ _ text => exists data req, typed s u data /\ UnmarshalRequest data = Ok req /\ text = Message req
  | _ => True
  end.
Definition kind_ok (s : State) (k : kind) : Prop :=
  match k with
  | Reading _ u c => opened s !! c = Some u
  | Running t => task_ok s t
  | Consuming msgs => forall b, b ∈ msgs -> b ∈ delivered s
  | Connecting _ => True
  end.

Record goroutine_ok (s : State) (k : kind) (past : list (event ws)) (p : prog ws unit) : Prop := {
  ok_policy : does k past p;
  ok_kind : kind_ok s k;
  ok_log : forall e, e ∈ past -> e ∈ log s;
  ok_opened : forall c, dialled past = Some c -> exists u, parsed past = Some u /\ opened s !! c = Some u;
}.

Definition event_ok (s : State) (e : event ws) : Prop :=
  match e with
  | existT (CliGet key) (Some c) => exists u, opened s !! c = Some u /\ key = Itoa u
  | existT (PublishUpload _ body) _ => said s body
  | existT (SendMessage c t) _ => exists u, opened s !! c = Some u /\ meant s u t
  | _ => True
  end.

Record Inv (s : State) : Prop := {
  Inv_map : forall gw key c, Routing.Get (world s) gw key = Some c -> exists u, opened s !! c = Some u /\ key = Itoa u;
  Inv_running : forall g gw k past p, running s !! g = Some (gw, k, past, p) -> goroutine_ok s k past p;
  Inv_started : forall gw t, (gw, t) ∈ started s -> task_ok s t;
  Inv_log : forall e, e ∈ log s -> event_ok s e;
  Inv_token : forall c u, opened s !! c = Some u -> exists token, @ev ws (ParseToken token) (Ok u) ∈ log s;
}.

(** Connections keep their users, and nothing is forgotten. *)
Record grows (s s' : State) : Prop := {
  grows_opened : forall c u, opened s !! c = Some u -> opened s' !! c = Some u;
  grows_log : forall e, e ∈ log s -> e ∈ log s';
  grows_delivered : forall b, b ∈ delivered s -> b ∈ delivered s';
}.
Lemma typed_grows s s' u data : grows s s' -> typed s u data -> typed s' u data.
Proof. intros [H1 H2 _] (c & ? & ?). exists c. auto. Qed.
Lemma said_grows s s' body : grows s s' -> said s body -> said s' body.
Proof. intros Hg (u & data & req & p & H & ?). exists u, data, req, p. split; [by eapply typed_grows | done]. Qed.
Lemma meant_grows s s' u t : grows s s' -> meant s u t -> meant s' u t.
Proof.
  intros Hg [key l m H ? ? | body p H ? ? ? | p ? H ? | data req lines Ht ? H ? | from data msg Ht ? ? | | c' H ? ?].
  - eapply meant_unread; [by apply (grows_log _ _ Hg) | done | done].
  - eapply meant_push; [by apply (grows_delivered _ _ Hg) | done ..].
  - eapply meant_ack; [done | by apply (grows_log _ _ Hg) | done].
  - eapply meant_answer; [by eapply typed_grows | done | by apply (grows_log _ _ Hg) | done].
  - eapply meant_receipt; [by eapply typed_grows | done ..].
  - by apply meant_pong.
  - eapply meant_kick; [by apply (grows_log _ _ Hg) | by apply (grows_opened _ _ Hg) | done].
Qed.
Lemma session_event_ok_grows s s' e : grows s s' -> event_ok s e -> event_ok s' e.
Proof.
  intros Hg. destruct e as [[] r]; cbn; try done.
  - by apply said_grows.
  - destruct r as [c |]; [| done]. intros (u & ? & ?). exists u. split; [by apply Hg | done].
  - intros (u & ? & ?). exists u. split; [by apply Hg | by eapply meant_grows].
Qed.
Lemma Inv_get s key c : Inv s -> @ev ws (CliGet key) (Some c) ∈ log s -> exists u, opened s !! c = Some u /\ key = Itoa u.
Proof. intros HI H. exact (Inv_log s HI _ H). Qed.
Lemma task_ok_grows s s' t : grows s s' -> task_ok s t -> task_ok s' t.
Proof.
  intros Hg. destruct t; cbn; try done; try (by apply typed_grows).
  intros (data & req & H & ?). exists data, req. split; [by eapply typed_grows | done].
Qed.
Lemma kind_ok_grows s s' k : grows s s' -> kind_ok s k -> kind_ok s' k.
Proof.
  intros Hg. destruct k as [| n u c | t | msgs]; cbn; [done | by apply Hg | by apply task_ok_grows |].
  intros H b Hb. by apply (grows_delivered _ _ Hg), H.
Qed.
Lemma session_goroutine_ok_grows s s' k past p : grows s s' -> goroutine_ok s k past p -> goroutine_ok s' k past p.
Proof.
  intros Hg [H1 H2 H3 H4]. split; [done | by eapply kind_ok_grows | intros e He; by apply (grows_log _ _ Hg), H3 |].
  intros c Hc. destruct (H4 c Hc) as (u & ? & ?). exists u. split; [done | by apply Hg].
Qed.

(** Steps that add no event. *)
Lemma session_frame_Inv s s' :
  Inv s -> grows s s' -> log s' = log s -> opened s' = opened s -> started s' = started s ->
  (forall gw key c, Routing.Get (world s') gw key = Some c -> Routing.Get (world s) gw key = Some c) ->
  (forall g gw k past p, running s' !! g = Some (gw, k, past, p) ->
     running s !! g = Some (gw, k, past, p) \/ (past = [] /\ p = kind_prog gw k /\ kind_ok s' k)) ->
  Inv s'.
Proof.
  intros HI Hg El Eo Es Hw Hr. split; rewrite ?El, ?Eo, ?Es.
  - intros gw key c H%Hw. by eapply Inv_map.
  - intros g gw k past p H. destruct (Hr _ _ _ _ _ H) as [H' | (-> & -> & Hk)].
    + eapply session_goroutine_ok_grows; [exact Hg | by eapply Inv_running].
    + split; [apply kind_does | exact Hk | intros e He; by apply not_elem_of_nil in He | done].
  - intros gw t H. eapply task_ok_grows; [exact Hg | by eapply Inv_started].
  - intros e H. eapply session_event_ok_grows; [exact Hg | by apply (Inv_log s HI)].
  - apply (Inv_token s HI).
Qed.

Lemma session_start_Inv s s' g gw k :
  Inv s -> running s !! g = None -> kind_ok s' k -> grows s s' -> log s' = log s -> opened s' = opened s ->
  started s' = started s -> world s' = world s -> running s' = <[g := (gw, k, [], kind_prog gw k)]> (running s) -> Inv s'.
Proof.
  intros HI Hn Hk Hg El Eo Es Ew Er. apply (session_frame_Inv s); try done; [by rewrite Ew |].
  intros g' gw' k' past p. rewrite Er. intros [[<- [= <- <- <- <-]] | [_ H]]%lookup_insert_Some; [by right | by left].
Qed.

(** A text that a goroutine may show is meant for the user of the connection. *)
Lemma shows_meant s k past p c t :
  Inv s -> goroutine_ok s k past p -> shows k past c t -> exists u, opened s !! c = Some u /\ meant s u t.
Proof.
  intros HI [_ Hk Hl Ho]. destruct k as [token | n u0 c0 | t0 | msgs]; cbn in *.
  - intros (Hd & u & key & l & m & Hp & He & Hm & Hj). destruct (Ho c Hd) as (u' & Hp' & Hu).
    rewrite Hp in Hp'. injection Hp' as <-. exists u. split; [done |]. by eapply meant_unread; [apply Hl, He | ..].
  - intros [[-> ->] | (data & msg & to & Hr & Hu & Hg & ->)]; [by exists u0; split; [| apply meant_pong] |].
    apply Hl, (Inv_get s _ _ HI) in Hg as (u & Hc & E). apply Itoa_inj in E as <-. exists to. split; [done |].
    eapply meant_receipt; [| exact Hu | done]. exists c0. split; [done | by apply Hl].
  - assert (forall u, acknowledges past u c t -> exists u, opened s !! c = Some u /\ meant s u t) as Hack.
    { intros u (p' & Hg & Hs & Hp & ->). apply Hl, (Inv_get s _ _ HI) in Hg as (u' & Hc & E). apply Itoa_inj in E as <-.
      exists u. split; [done |]. eapply meant_ack; [done | by apply Hl | done]. }
    destruct t0 as [u data | u data | u data | u mid sid conv text | | |]; cbn in *; try done; try apply Hack.
    intros (Hg & req & lines & Hreq & He & Ht). apply Hl, (Inv_get s _ _ HI) in Hg as (u' & Hc & E). apply Itoa_inj in E as <-.
    exists u. split; [done |]. eapply meant_answer; [exact Hk | exact Hreq | by apply Hl | exact Ht].
  - intros (body & p' & Hb & Hu & Hg & Ht). apply Hl, (Inv_get s _ _ HI) in Hg as (u & Hc & E). apply Itoa_inj in E as E.
    exists u. split; [done |]. eapply meant_push; [by apply Hk | exact Hu | exact E | exact Ht].
Qed.

Lemma posts_said s k body : kind_ok s k -> posts k body -> said s body.
Proof.
  intros Hk. destruct k as [| | t |]; cbn; try done. destruct t as [u data | | u data | u mid sid conv text | | |]; cbn in *; try done.
  - intros (req & p & ? & ? & ?). by exists u, data, req, p.
  - intros (req & p & ? & ? & ?). by exists u, data, req, p.
  - intros (p & ? & H). destruct Hk as (data & req & ? & ? & ->). exists u, data, req, p. split_and!; try done. by apply H.
Qed.

Lemma launches_ok s k past p t : goroutine_ok s k past p -> launches k past t -> task_ok s t.
Proof.
  intros [_ Hk Hl _]. destruct t as [u data | u data | u data | u mid sid conv text | | |]; cbn; try done;
    try (intros (n & c & -> & He); exists c; split; [exact Hk | by apply Hl]).
  intros (data & req & -> & ? & ?). by exists data, req.
Qed.

(** ** Commands *)

Lemma parsed_told past u : parsed past = Some u -> exists token, @ev ws (ParseToken token) (Ok u) ∈ past.
Proof.
  induction past as [| e past IH] using rev_ind; [done |]. rewrite parsed_snoc. intros H.
  assert (parsed past = Some u -> exists token, @ev ws (ParseToken token) (Ok u) ∈ past ++ [e]) as Hold
    by (intros [token Ht]%IH; exists token; told).
  destruct e as [[] r]; try by apply Hold. destruct r as [u' | |]; try by apply Hold. injection H as ->.
  eexists. apply snoc_new.
Qed.

Lemma Get_Register gw gw' u c w key c' :
  Routing.Get (Routing.Register gw u c w).2 gw' key = Some c' ->
  (c' = c /\ key = Itoa u) \/ Routing.Get w gw' key = Some c'.
Proof.
  unfold Routing.Get, Routing.Register. cbn [snd]. rewrite Routing.CliMap_of_insert. case_decide as E; [subst | by right].
  intros [[<- <-] | [_ H]]%lookup_insert_Some; [by left | by right].
Qed.
Lemma Get_Remove gw gw' key0 c w key c' :
  Routing.Get (Routing.Remove gw key0 c w) gw' key = Some c' -> Routing.Get w gw' key = Some c'.
Proof.
  unfold Routing.Get, Routing.Remove. case_bool_decide; [| done]. rewrite Routing.CliMap_of_insert. case_decide as E; [subst | done].
  by intros [_ H']%lookup_delete_Some.
Qed.
Lemma Get_restart gw gw' w key c : Routing.Get (restart gw w) gw' key = Some c -> Routing.Get w gw' key = Some c.
Proof.
  unfold Routing.Get, Routing.CliMap_of, restart. cbn. destruct (decide (gw = gw')) as [<- | Hne].
  - by rewrite lookup_delete_eq.
  - by rewrite lookup_delete_ne.
Qed.

(** What a command leaves of the connections and of the tasks. *)
Lemma effect_spec s k gw past c r p :
  Inv s -> goroutine_ok s k past p -> policy k past (ev c r) -> answers s gw c r ->
  let s' := effect gw past c r s in
  log s' = log s /\ delivered s' = delivered s /\ running s' = running s /\
  (forall c0 u, opened s !! c0 = Some u -> opened s' !! c0 = Some u) /\
  (forall c0 u, opened s' !! c0 = Some u -> opened s !! c0 = Some u \/ parsed past = Some u) /\
  (forall gw' key c0, Routing.Get (world s') gw' key = Some c0 -> exists u, opened s' !! c0 = Some u /\ key = Itoa u) /\
  (forall gw' t, (gw', t) ∈ started s' -> (gw', t) ∈ started s \/ launches k past t) /\
  (forall c0, dialled (past ++ [ev c r]) = Some c0 ->
     exists u, parsed (past ++ [ev c r]) = Some u /\ opened s' !! c0 = Some u).
Proof.
  intros HI Hok Hpol Ha. rewrite dialled_snoc, parsed_snoc.
  pose proof (Inv_map s HI) as Hmap. pose proof (ok_opened _ _ _ _ Hok) as Hop.
  destruct c; cbn in *; try (split_and!; by auto).
  - split_and!; try by auto. intros gw' key' c' [[-> ->] | H]%Get_Register; [| by apply Hmap in H].
    destruct Hpol as [Hp Hd]. destruct (Hop _ Hd) as (u & Hp' & Hu). exists u. split; [done | congruence].
  - split_and!; try by auto. intros gw' key' c' H%Get_Remove. by apply Hmap in H.
  - split_and!; try by auto. intros c0 Hd. rewrite Hpol in Hd. done.
  - destruct Hpol as [[u Hu] Hd]. destruct r as [c | |]; cbn; [rewrite Hu; cbn | split_and!; by auto ..].
    specialize (Ha c eq_refl). split_and!; try by auto.
    + intros c0 u0 H0. rewrite lookup_insert_ne by congruence. done.
    + intros c0 u0 [[<- <-] | [_ H]]%lookup_insert_Some; [by right | by left].
    + intros gw' key' c' H. destruct (Hmap _ _ _ H) as (u' & Hu' & E). exists u'. split; [| done].
      rewrite lookup_insert_ne; [done |]. intros E0. apply (eq_None_ne_Some_1 _ u' Ha). by rewrite E0.
    + intros c0 [= ->]. exists u. split; [done | by rewrite lookup_insert_eq].
  - split_and!; try by auto. intros gw' t' [H | [= -> ->]%list_elem_of_singleton]%elem_of_app; [by left | by right].
Qed.

(** The connection that is replaced is one of the same user. *)
Lemma sequel_ok s s' gw k past c r p e :
  Inv s -> goroutine_ok s k past p -> policy k past (ev c r) -> grows s s' -> ev c r ∈ log s' ->
  e ∈ sequel gw c s -> event_ok s' e.
Proof.
  intros HI Hok Hpol Hg Hin. destruct c as [| | | | | | u c | | | | | | | | | | | | | | |]; cbn in *; try by intros ?%not_elem_of_nil.
  destruct r, Hpol as [Hp Hd]. destruct (ok_opened _ _ _ _ Hok _ Hd) as (u' & Hp' & Hu). rewrite Hp in Hp'. injection Hp' as <-.
  fold (Routing.Get (world s) gw (Itoa u)). destruct (Routing.Get _ _ _) as [old |] eqn:E; [| by intros ?%not_elem_of_nil].
  destruct (Inv_map s HI _ _ _ E) as (u' & Ho & <-%Itoa_inj). cbn.
  intros [-> | [-> | []%not_elem_of_nil]%elem_of_cons]%elem_of_cons; cbn; [| done].
  exists u. split; [by apply Hg |]. eapply meant_kick; [done | by apply Hg | done].
Qed.

Lemma session_command_Inv s g gw k past c kont r :
  Inv s -> running s !! g = Some (gw, k, past, Do c kont) -> answers s gw c r ->
  Inv (set_log (log s ++ ev c r :: sequel gw c s) (set_running (<[g := (gw, k, past ++ [ev c r], kont r)]>) (effect gw past c r s))).
Proof.
  intros HI Hg Ha. pose proof (Inv_running s HI _ _ _ _ _ Hg) as Hok. destruct (ok_policy _ _ _ _ Hok r) as [Hpol Hrest].
  destruct (effect_spec s k gw past c r _ HI Hok Hpol Ha) as (El & Ed & Er & Ho & Hnew & Hmap & Hst & Hop).
  set (s' := effect gw past c r s) in *. set (s2 := set_log _ _).
  assert (grows s s2) as Hgr by (split; cbn; [exact Ho | intros; apply elem_of_app; by left | by rewrite Ed]).
  assert (ev c r ∈ log s2) as Hnew2 by (cbn; apply elem_of_app; right; by left).
  split; cbn.
  - exact Hmap.
  - intros g' gw' k' past' p. rewrite Er. intros [[<- [= <- <- <- <-]] | [_ H]]%lookup_insert_Some.
    + split; [exact Hrest | eapply kind_ok_grows; [exact Hgr | apply Hok] | | exact Hop].
      intros e [He | ->%list_elem_of_singleton]%elem_of_app; [by apply (grows_log _ _ Hgr), (ok_log _ _ _ _ Hok) | exact Hnew2].
    + eapply session_goroutine_ok_grows; [exact Hgr | by eapply Inv_running].
  - intros gw' t [H | H]%Hst; (eapply task_ok_grows; [exact Hgr |]); [by eapply Inv_started | by eapply launches_ok].
  - intros e [He | [-> | He]%elem_of_cons]%elem_of_app; [| | by eapply sequel_ok]; (eapply session_event_ok_grows; [exact Hgr |]); [by apply (Inv_log s HI) |].
    destruct c; cbn in *; try done.
    + eapply posts_said; [apply Hok | exact Hpol].
    + subst r. destruct (Routing.Get _ _ _) as [c |] eqn:E; [| done]. by apply (Inv_map s HI) in E.
    + by eapply shows_meant.
  - intros c0 u Hu. destruct (Hnew c0 u Hu) as [H | H].
    + destruct (Inv_token s HI c0 u H) as [token ?]. exists token. by apply (grows_log _ _ Hgr).
    + apply parsed_told in H as [token H]. exists token. by apply (grows_log _ _ Hgr), (ok_log _ _ _ _ Hok).
Qed.

Lemma session_step_Inv s s' : Inv s -> step s s' -> Inv s'.
Proof.
  intros HI Hs.
  destruct Hs as [s g gw token Hn | s g gw msgs Hn | s g gw t Hn Ht | s g gw c u n Hn Ht Hc | s g gw k past c kont r Hg Ha | s g | s gw].
  - by eapply (session_start_Inv s _ g gw (Connecting token)).
  - eapply (session_start_Inv s _ g gw (Consuming msgs)); try done.
    + intros b Hb. cbn. apply elem_of_app. by right.
    + split; cbn; [done | done |]. intros b Hb. apply elem_of_app. by left.
  - eapply (session_start_Inv s _ g gw (Running t)); try done. exact (Inv_started s HI gw t Ht).
  - by eapply (session_start_Inv s _ g gw (Reading n u c)).
  - by apply session_command_Inv.
  - apply (session_frame_Inv s); try done. intros g' gw k past p. cbn. intros [_ H]%lookup_delete_Some. by left.
  - apply (session_frame_Inv s); try done; [| by left]. intros gw' key c. apply Get_restart.
Qed.
Lemma step_grows s s' : step s s' -> grows s s'.
Proof.
  intros Hs.
  destruct Hs as [s g gw token Hn | s g gw msgs Hn | s g gw t Hn Ht | s g gw c u n Hn Ht Hc | s g gw k past c kont r Hg Ha | s g | s gw];
    try by (split; cbn; auto; intros; apply elem_of_app; by left).
  split; cbn; [| intros; apply elem_of_app; by left |].
  - intros c0 u H. destruct c; cbn in *; try done. destruct r as [c1 | |]; cbn; try done.
    destruct (parsed past); cbn; [| done]. specialize (Ha c1 eq_refl). by rewrite lookup_insert_ne by congruence.
  - intros b H. destruct c; cbn in *; try done. by repeat case_match.
Qed.
Lemma session_reachable_Inv s : reachable s -> Inv s.
Proof.
  apply (invariant_rtc step Inv session_step_Inv). split; cbn.
  - intros gw key c H. unfold Routing.Get, Routing.CliMap_of in H. cbn in H. by rewrite !lookup_empty in H.
  - intros g gw k past p H. by rewrite lookup_empty in H.
  - intros gw t H. by apply not_elem_of_nil in H.
  - intros e H. by apply not_elem_of_nil in H.
  - intros c u H. by rewrite lookup_empty in H.
Qed.

(** C7: Texts reach their user, and are said by theirs: however the goroutines of all
    gateways interleave, fail and are restarted, and whatever clients write and the
    broker, the logic service and the agent answer, every connection belongs to the user
    of a token that was accepted; every upload says, in the name of its sender, what
    was read from a connection of the sender; and every text that is handed to a
    connection - by a goroutine of its own or of somebody else, or by a registration
    that replaces it - is meant for its user. *)
Theorem texts_reach_their_user s :
  reachable s ->
  (forall c u, opened s !! c = Some u -> exists token, @ev ws (ParseToken token) (Ok u) ∈ log s) /\
  (forall key body r, @ev ws (PublishUpload key body) r ∈ log s -> said s body) /\
  (forall c t r, @ev ws (SendMessage c t) r ∈ log s -> exists u, opened s !! c = Some u /\ meant s u t).
Proof.
  intros HI%session_reachable_Inv. split_and!; [apply (Inv_token s HI) | |].
  - intros key body r H. exact (Inv_log s HI _ H).
  - intros c t r H. exact (Inv_log s HI _ H).
Qed.

(** ** Runs *)

(** A state in which a goroutine is at a program. *)
Definition at_prog (g : nat) (x : string * kind * list (event ws) * prog ws unit) (s : State) : State :=
  set_running (<[g := x]>) s.

Lemma at_starts s g gw k s' :
  step s (at_prog g (gw, k, [], kind_prog gw k) s) -> rtc step (at_prog g (gw, k, [], kind_prog gw k) s) s' -> rtc step s s'.
Proof. apply rtc_l. Qed.

Lemma consume_starts s g gw msgs s' :
  running s !! g = None ->
  rtc step (at_prog g (gw, Consuming msgs, [], kind_prog gw (Consuming msgs)) (set_delivered (delivered s ++ msgs) s)) s' -> rtc step s s'.
Proof. intros Hg. apply rtc_l. by apply (step_consume s g gw msgs). Qed.

Lemma at_does s g gw k past c kont r s' :
  answers s gw c r ->
  rtc step (at_prog g (gw, k, past ++ [ev c r], kont r) (set_log (log s ++ ev c r :: sequel gw c s) (effect gw past c r s))) s' ->
  rtc step (at_prog g (gw, k, past, Do c kont) s) s'.
Proof.
  intros Ha. apply rtc_l.
  pose proof (step_command (at_prog g (gw, k, past, Do c kont) s) g gw k past c kont r (lookup_insert_eq _ _ _)) as Hs.
  assert (answers (at_prog g (gw, k, past, Do c kont) s) gw c r) as Ha' by (by destruct c). specialize (Hs Ha').
  assert (sequel gw c (at_prog g (gw, k, past, Do c kont) s) = sequel gw c s) as Es by (by destruct c). rewrite Es in Hs.
  eapply eq_ind; [exact Hs |]. unfold at_prog, set_running, set_log. f_equal; try (by destruct c, r).
  all: destruct c; cbn; try destruct r; try destruct (parsed past); cbn; by rewrite ?insert_insert_eq.
Qed.

Lemma at_ends s g x : running s !! g = None -> rtc step (at_prog g x s) s.
Proof.
  intros Hg. apply rtc_once. eapply eq_ind; [apply (step_end _ g) |].
  destruct s. unfold at_prog, set_running. cbn in *. by rewrite delete_insert_id.
Qed.
Ltac fields := cbn [world opened started running log delivered set_world set_opened set_started set_log set_delivered effect sequel].
Ltac command c r := eapply (at_does _ _ _ _ _ c _ r); [| fields].

(** A user connects, and has no unread messages. *)
Definition connect_log (token : string) (u : Z) (c : client_id) (s : State) : list (event ws) :=
  [@ev ws (ParseToken token) (Ok u); @ev ws Upgrade (Ok c); @ev ws (CliRegister u c) tt] ++
  sequel "gw:8050" (CliRegister u c) s ++
  [@ev ws (RedisSet (route_key (Itoa u)) "gw:8050" (24 * 3600 * 10 ^ 9)) (Ok tt); @ev ws (Go (TaskWritePump c)) tt;
   @ev ws (RpcSyncUnread (Itoa u) u) (Ok []); @ev ws (Go (TaskReadPump c)) tt].
Definition after_connect (token : string) (u : Z) (c : client_id) (s : State) : State :=
  mkState (Routing.Register "gw:8050" u c (world s)).2 (<[c := u]> (opened s))
    (started s ++ [("gw:8050", TaskWritePump c); ("gw:8050", TaskReadPump c)]) (running s) (log s ++ connect_log token u c s) (delivered s).

Lemma connects s g token u c :
  String.eqb token "" = false -> running s !! g = None -> opened s !! c = None -> rtc step s (after_connect token u c s).
Proof.
  intros Ht Hg Hc. destruct s as [w o st rn lg dl]. cbn in Hg, Hc.
  eapply at_starts; [apply (step_connect _ g "gw:8050" token); exact Hg |].
  cbn [kind_prog]. unfold Handler. rewrite Ht.
  command (ParseToken token) (@Ok Z u); [exact I |].
  command Upgrade (@Ok client_id c); [by intros ? [= <-] |].
  change (parsed ([] ++ [@ev ws (ParseToken token) (Ok u)])) with (Some u). fields.
  command (CliRegister u c) tt; [exact I |].
  command (RedisSet (route_key (Itoa u)) "gw:8050" (24 * 3600 * 10 ^ 9)) (@Ok unit tt); [exact I |].
  command (Go (TaskWritePump c)) tt; [exact I |].
  command (RpcSyncUnread (Itoa u) u) (@Ok (list UnreadMessage) []); [exact I |].
  command (Go (TaskReadPump c)) tt; [exact I |].
  eapply eq_rect_r with (P := fun s' => rtc _ _ s'); [by apply at_ends |].
  unfold after_connect, connect_log, set_log, sequel. cbn. f_equal; rewrite <- ?app_assoc; cbn; rewrite <- ?app_assoc; done.
Qed.

End gateways.

(** ** A run: a message is acknowledged by somebody else *)

(** Users 8 and 7 connect; user 7, who was shown nothing, acknowledges message 2 and
    names user 8 as its sender. *)
Notation sample_step := (step (fun _ => Err "") (fun _ => Ok "ack") (fun _ => Ok (2, 8)) (fun _ => Err "") (fun _ => Err "")
  (fun _ => Ok "") id "" true true).
Notation sample_reachable := (reachable (fun _ => Err "") (fun _ => Ok "ack") (fun _ => Ok (2, 8)) (fun _ => Err "")
  (fun _ => Err "") (fun _ => Ok "") id "" true true).
Notation sample_meant := (meant (fun _ => Err "") (fun _ => Ok (2, 8)) (fun _ => Err "") (fun _ => Err "") (fun _ => Ok "") id "").
Notation sample_said := (said (fun _ => Err "") (fun _ => Err "")).

Ltac fields := cbn [world opened started running log delivered set_world set_opened set_started set_log set_delivered effect sequel].
Ltac command c r := eapply (at_does _ _ _ _ _ _ _ _ _ _ _ _ _ _ _ c _ r); [| fields].

Definition receipt_forged (s : State) : Prop :=
  opened s !! 3%nat = Some 7 /\ opened s !! 4%nat = Some 8 /\
  @ev ws (RpcAckMessage (Itoa 7) 2) (Ok tt) ∈ log s /\
  @ev ws (SendMessage 4%nat (readReceipt 7 2)) tt ∈ log s /\ sends (log s) = [(4%nat, readReceipt 7 2)].

Lemma anyone_acknowledges : exists s, sample_reachable s /\ receipt_forged s.
Proof.
  set (s2 := after_connect "t7" 7 3%nat (after_connect "t8" 8 4%nat init)).
  assert (rtc sample_step init s2) as Hr.
  { etrans; [by apply (connects _ _ _ _ _ _ _ _ _ _ _ 0%nat "t8" 8 4%nat) |]. by apply (connects _ _ _ _ _ _ _ _ _ _ _ 0%nat "t7" 7 3%nat). }
  eexists. split.
  - unfold reachable. etrans; [exact Hr |].
    eapply at_starts; [apply (step_read _ _ _ _ _ _ _ _ _ _ _ 0%nat "gw:8050" 3%nat 7 1%nat); [reflexivity | | reflexivity] |].
    { apply (list_elem_of_lookup_2 _ 3%nat). reflexivity. }
    command (ReadMessage 3%nat) (@Ok string "ack 2"); [exact I |].
    command (RpcAckMessage (Itoa 7) 2) (@Ok unit tt); [exact I |].
    command (CliGet (Itoa 8)) (Some 4%nat); [vm_compute; reflexivity |].
    command (SendMessage 4%nat (readReceipt 7 2)) tt; [exact I |].
    apply rtc_refl.
  - split_and!; [reflexivity | reflexivity | apply (list_elem_of_lookup_2 _ 15%nat); reflexivity |
      apply (list_elem_of_lookup_2 _ 17%nat); reflexivity | vm_compute; reflexivity].
Qed.

(** User 7 connects again: the first connection is told, and closed. *)
Lemma second_connection_kicks_first : exists s, sample_reachable s /\
  opened s !! 3%nat = Some 7 /\ opened s !! 4%nat = Some 7 /\ Routing.Get (world s) "gw:8050" "7" = Some 4%nat /\
  sends (log s) = [(3%nat, Routing.kickMsg)] /\ @ev ws (CloseClient 3%nat) tt ∈ log s.
Proof.
  exists (after_connect "t7" 7 4%nat (after_connect "t7" 7 3%nat init)). split.
  - unfold reachable. etrans; [by apply (connects _ _ _ _ _ _ _ _ _ _ _ 0%nat "t7" 7 3%nat) |].
    by apply (connects _ _ _ _ _ _ _ _ _ _ _ 0%nat "t7" 7 4%nat).
  - split_and!; [reflexivity.. | apply (list_elem_of_lookup_2 _ 11%nat); reflexivity].
Qed.

Lemma texts_reach_their_user_witness :
  exists s, sample_reachable s /\ receipt_forged s /\
    (forall c u, opened s !! c = Some u -> exists token, @ev ws (ParseToken token) (Ok u) ∈ log s) /\
    (forall key body r, @ev ws (PublishUpload key body) r ∈ log s -> sample_said s body) /\
    (forall c t r, @ev ws (SendMessage c t) r ∈ log s -> exists u, opened s !! c = Some u /\ sample_meant s u t).
Proof.
  destruct anyone_acknowledges as (s & Hr & Hf). exists s. split; [exact Hr |]. split; [exact Hf |].
  exact (texts_reach_their_user _ _ _ _ _ _ _ _ _ _ s Hr).
Defined.
End Session.
