(* ===== verification/Chat.v ===== *)
(** * Who said what: from connection to connection

    The gateways of Session and the goroutines of the logic servers (Logic) together: what
    the gateways upload is what the consumers of the logic servers are delivered, what
    these publish downwards is what the consumers of the gateways are delivered, and the
    unread messages of a user are read from the tables the logic servers write. The broker
    may lose, repeat and reorder; it does not invent. *)
From S2P Require Import Prelude GoStd GoText Effects Mq Dao Ws Logic Services Inbox Session.
#[local] Open Scope prog_scope.

(** ** Notices: what friends and groups are told besides messages *)
Definition is_notice (t : ChatType) : bool :=
  match t with ChatTypeSingle | ChatTypeGroup | ChatTypeAI | ChatTypeOther _ => false | _ => true end.

(** ** Rows of messages: who says what to whom never changes *)
Definition same_text (m m' : Dao.Messages) : Prop :=
  Dao.mSenderId m' = Dao.mSenderId m /\ Dao.mContent m' = Dao.mContent m /\
  Dao.mGroupId m' = Dao.mGroupId m /\ Dao.mReceiverId m' = Dao.mReceiverId m.
Definition inserted (q : dao_cmd) : list Dao.Messages :=
  match q with DInsertMessage m => [m] | DBatchInsertMessages ms => ms | _ => [] end.

Lemma exec_texts now q s k m' :
  messages (exec now q s).2 !! k = Some m' ->
  (exists m, messages s !! k = Some m /\ same_text m m') \/ (exists m, m ∈ inserted q /\ same_text m m').
Proof.
  intros Hk.
  assert (messages s !! k = Some m' -> exists m, messages s !! k = Some m /\ same_text m m') as Hold by (by exists m').
  assert (forall p f, (forall m, same_text m (f m)) -> update p f (messages s) !! k = Some m' ->
    exists m, messages s !! k = Some m /\ same_text m m') as Hup.
  { intros p f Hf H. rewrite lookup_update in H. apply fmap_Some in H as (m & Hm & ->). exists m.
    split; [done |]. case_match; [apply Hf | done]. }
  destruct q; simpl in *; try (left; by apply Hold); try (left; eapply Hup, Hk; intros; by repeat split).
  - unfold InsertMessage in Hk. destruct (messages s !! Dao.mMsgId m) eqn:E; simpl in Hk; [left; by apply Hold |].
    apply lookup_insert_Some in Hk as [[<- <-] | [_ Hk]]; [| left; by apply Hold].
    right. exists m. split; [by apply list_elem_of_singleton | done].
  - unfold BatchInsertMessages in Hk. destruct ms as [| m0 ms]; [left; by apply Hold |].
    destruct (insert_all now (m0 :: ms) (messages s)) as [t |] eqn:E; cbn [snd messages Dao.set_messages] in Hk; [| left; by apply Hold].
    destruct (insert_all_lookup _ _ _ _ _ _ E Hk) as [? | (m1 & Hm & -> & ->)]; [left; by apply Hold |]. right. by exists m1.
  - apply lookup_delete_rows in Hk as [Hk _]. left. by apply Hold.
  - apply lookup_delete_rows in Hk as [Hk _]. left. by apply Hold.
  - unfold Dao.ApplyFriend in Hk. left. apply Hold. by case_match.
  - unfold Dao.InsertGroupMember in Hk. left. apply Hold. by case_match.
  - unfold Dao.CreateGroup in Hk. left. apply Hold. by repeat case_match.
Qed.

Module Chat.
Import Gateway.
Notation Messages := Dao.Messages.

(** A goroutine of a logic server: a consumer with a delivery, a batch worker with the
    items it has received, a push goroutine. *)
Inductive role :=
| Consumer (d : delivery) (body : string)
| Worker (items : list batchItem)
| Push (it : batchItem) (addr : string).

Definition item_of_event (e : worker_event) : list batchItem := match e with Received it => [it] | _ => [] end.

Section chat.
Variable UnmarshalRequest : string -> outcome ClientRequest.
Variable UnmarshalChatType : string -> outcome string.
Variable UnmarshalAck : string -> outcome (Z * Z).
Variable UnmarshalUpload : string -> outcome UploadPayload.
Variable UnmarshalDown : string -> outcome DownPayload.
Variable MarshalUpload : UploadPayload -> outcome string.
Variable MarshalDown : DownPayload -> outcome string.
Variable MarshalVector : VectorPayload -> outcome string.
Variable MarshalMap : gmap string jv -> outcome string.
Variable QueryEscape : string -> string.
Variable AgentAddr : string.
Variable reliable notify : bool.

Notation gate_step := (Session.step UnmarshalRequest UnmarshalChatType UnmarshalAck UnmarshalDown MarshalUpload MarshalMap
  QueryEscape AgentAddr reliable notify).
Notation gate_Inv := (Session.Inv UnmarshalRequest UnmarshalAck UnmarshalDown MarshalUpload MarshalMap QueryEscape AgentAddr).

(** ** States and steps *)
Record State := mkState {
  gates : Session.State;
  tables : Store;
  logics : gmap nat (role * list (event lg) * prog lg (list batchItem));
  did : list (event lg);          (* what the goroutines of the logic servers did *)
  scheduled : list Messages;      (* the rows the agent stored for scheduled tasks *)
}.
Definition init : State := mkState Session.init empty_store ∅ [] [].
Definition set_gates g st := mkState g (tables st) (logics st) (did st) (scheduled st).
Definition set_tables s st := mkState (gates st) s (logics st) (did st) (scheduled st).
Definition set_logics f st := mkState (gates st) (tables st) (f (logics st)) (did st) (scheduled st).
Definition set_did l st := mkState (gates st) (tables st) (logics st) l (scheduled st).
Definition set_scheduled l st := mkState (gates st) (tables st) (logics st) (did st) l.

Definition role_prog (r : role) : prog lg (list batchItem) :=
  match r with
  | Consumer d body => handleUploadDelivery UnmarshalUpload MarshalDown d body ;; Ret []
  | Worker items => Ret items
  | Push it addr => updateConversationAndPush MarshalDown MarshalVector it addr ;; Ret []
  end.

(** A notice, as the friend and group services and the group API publish it. *)
Definition notice (b : string) : Prop := exists p, MarshalDown p = Ok b /\ is_notice (dChatType p) = true.

(** What the gateways are delivered was published. *)
Definition brought (st : State) (b : string) : Prop :=
  (exists gw r, @ev lg (PublishDown gw b) r ∈ did st) \/ notice b.
Definition carried (st : State) (g : Session.State) : Prop :=
  forall b, b ∈ Session.delivered g -> b ∈ Session.delivered (gates st) \/ brought st b.

(** Unread messages are read from the tables. *)
Definition synced (st : State) (g : Session.State) : Prop :=
  forall key u l, @ev ws (RpcSyncUnread key u) (Ok l) ∈ Session.log g ->
    @ev ws (RpcSyncUnread key u) (Ok l) ∈ Session.log (gates st) \/
    exists rows, GetUnreadMessages u (tables st) = Success rows /\ l = Inbox.to_unread <$> rows.

(** A statement is executed, or fails, executed all the same or not; Redis and the broker
    answer anything. *)
Definition answered (c : cmd lg) (r : res lg c) (s s' : Store) : Prop :=
  match c return res lg c -> Prop with
  | Dao q => fun r => (exists now, exec now q s = (r, s')) \/
      (exists e, r = Failure e /\ (s' = s \/ exists now, s' = (exec now q s).2))
  | _ => fun _ => s' = s
  end r.

Definition inserts_message (q : dao_cmd) : bool :=
  match q with DInsertMessage _ | DBatchInsertMessages _ => true | _ => false end.

Inductive step : State -> State -> Prop :=
| step_gate st g : gate_step (gates st) g -> carried st g -> synced st g -> step st (set_gates g st)
| step_consume st n d body key r :
    logics st !! n = None -> @ev ws (PublishUpload key body) r ∈ Session.log (gates st) ->
    step st (set_logics (<[n := (Consumer d body, [], role_prog (Consumer d body))]>) st)
| step_worker st n :
    logics st !! n = None -> step st (set_logics (<[n := (Worker [], [], role_prog (Worker []))]>) st)
| step_receive st n items past buf e :
    logics st !! n = Some (Worker items, past, Ret buf) -> (forall it, e = Received it -> exists r, @ev lg (Enqueue it) r ∈ did st) ->
    step st (set_logics (<[n := (Worker (items ++ item_of_event e), past, batchInsertWorker buf [e])]>) st)
| step_push st n it addr r :
    logics st !! n = None -> @ev lg (GoPush it addr) r ∈ did st ->
    step st (set_logics (<[n := (Push it addr, [], role_prog (Push it addr))]>) st)
| step_logic st n ro past c k r s' :
    logics st !! n = Some (ro, past, Do c k) -> answered c r (tables st) s' ->
    step st (set_did (did st ++ [ev c r]) (set_tables s' (set_logics (<[n := (ro, past ++ [ev c r], k r)]>) st)))
| step_end st n : step st (set_logics (delete n) st)
| step_statement st now q : inserts_message q = false -> step st (set_tables (exec now q (tables st)).2 st)
| step_schedule st now m :
    step st (set_scheduled (scheduled st ++ [m]) (set_tables (InsertMessage now m (tables st)).2 st)).
Definition reachable (st : State) : Prop := rtc step init st.

(** ** What the other handlers do *)

(** They insert no message and publish notices only, so that [step_statement] and
    [brought] account for them. *)
Definition modest (c : cmd lg) : Prop :=
  match c with
  | Dao q => inserts_message q = false
  | PublishDown _ b => notice b
  | _ => True
  end.

Section services.
Variable MarshalHistory : HistoryReply -> outcome string.
Variable UnmarshalHistory : string -> outcome HistoryReply.
Variable FormatTime : Z -> string.

Inductive service : forall {A}, prog lg A -> Prop :=
| sv_SyncUnread r : service (SyncUnread r)
| sv_NotifyDelivered m : service (NotifyDelivered m)
| sv_AckMessage m : service (AckMessage m)
| sv_ReadMessages r : service (ReadMessages r)
| sv_GetConversations u : service (GetConversations u)
| sv_GetChatHistory u t c l : service (GetChatHistory MarshalHistory UnmarshalHistory FormatTime u t c l)
| sv_MarkMessageRead u t k : service (MarkMessageRead u t k)
| sv_ApplyFriend u f m : service (ApplyFriend MarshalDown u f m)
| sv_ResolveFriend u f a : service (ResolveFriend MarshalDown u f a)
| sv_GetFriendList u : service (GetFriendList u)
| sv_DeleteFriend u f : service (DeleteFriend MarshalDown u f)
| sv_GetPendingRequests u : service (GetPendingRequests FormatTime u)
| sv_CreateGroup u n ms : service (CreateGroup MarshalDown u n ms)
| sv_GetGroupList u : service (GetGroupList u)
| sv_SearchGroup like k : service (SearchGroup like k)
| sv_GetGroupInfo g : service (GetGroupInfo g)
| sv_GetGroupMembers g : service (GetGroupMembers g)
| sv_JoinGroup u g : service (JoinGroup MarshalDown u g)
| sv_LeaveGroup u g : service (LeaveGroup MarshalDown u g)
| sv_DissolveGroup u g : service (DissolveGroup MarshalDown u g)
| sv_GetGroupHistory g u c l : service (GetGroupHistory MarshalHistory UnmarshalHistory FormatTime g u c l).

Lemma notify_modest p : is_notice (dChatType p) = true -> only modest (Services.notify MarshalDown p).
Proof.
  intros Hn. unfold Services.notify, Logic.ask, call. cbn [bind]. split; [done |].
  intros [[gw |] | |]; cbn [bind]; try done. destruct (String.eqb gw ""); [done |].
  destruct (MarshalDown p) as [b | |] eqn:E; try done. split; [by exists p | done].
Qed.
Lemma notify_members_modest members x mk :
  (forall m, is_notice (dChatType (mk m)) = true) -> only modest (notify_members MarshalDown members x mk).
Proof. intros H. apply only_for_each. intros m. destruct (m =? x); [done | by apply notify_modest]. Qed.
Lemma try_modest {A B} (p : prog lg (outcome A)) (k : A -> prog lg (outcome B)) :
  only modest p -> (forall a, only modest (k a)) -> only modest (try p k).
Proof. intros Hp Hk. apply only_bind; [exact Hp |]. intros [a | |]; [apply Hk | done ..]. Qed.
Lemma fetch_modest q : inserts_message q = false -> only modest (fetch q).
Proof. intros Hq. split; [done |]. by intros []. Qed.
Lemma broadcast_modest g x : only modest (broadcastMemberChanged MarshalDown g x).
Proof. split; [done |]. intros [ms | e]; [by apply notify_members_modest | done]. Qed.

Ltac modestly := repeat first
  [ apply try_modest; [by apply fetch_modest | intros ?] | apply only_bind; [| intros ?] | by apply notify_modest | by apply notify_members_modest
  | apply broadcast_modest | apply only_for_each; intros ? | split; [reflexivity | intros ?] | exact I | case_match ].

Lemma service_modest {A} (p : prog lg A) : service p -> only modest p.
Proof.
  destruct 1.
  all: try (unfold SyncUnread, NotifyDelivered, AckMessage, ReadMessages, GetConversations, GetChatHistory, MarkMessageRead, ApplyFriend,
    ResolveFriend, GetFriendList, DeleteFriend, GetPendingRequests, CreateGroup, GetGroupList, SearchGroup, GetGroupInfo, GetGroupMembers,
    JoinGroup, LeaveGroup, DissolveGroup, GetGroupHistory, with_cache, reply_of, invalidateChatCache, query, Logic.ask, call; modestly).
Qed.
End services.

(** ** What the goroutines of a logic server do *)

(** The members of a group, when they were read, included a user. *)
Definition in_group (past : list (event lg)) (g u : Z) : Prop :=
  exists ms, @ev lg (Dao (DGetGroupMembers g)) (Success ms) ∈ past /\ u ∈ ms.

(** A row says what a payload says. *)
Definition copy (p : UploadPayload) (m : Messages) : Prop :=
  Dao.mSenderId m = uSenderID p /\ Dao.mContent m = uContent p /\ Dao.mGroupId m = uGroupID p.

Definition posts (ro : role) (past : list (event lg)) (b : string) : Prop :=
  match ro with
  | Consumer _ body => exists p u mid, UnmarshalUpload body = Ok p /\ uChatType p = ChatTypeGroup /\
      in_group past (uGroupID p) u /\ b = Logic.body_of MarshalDown (group_down p u mid)
  | Worker _ => False
  | Push it _ => b = Logic.body_of MarshalDown (down_of (bPayload it))
  end.
Definition makes (ro : role) (it : batchItem) : Prop :=
  exists d body, ro = Consumer d body /\ UnmarshalUpload body = Ok (bPayload it) /\
    uChatType (bPayload it) <> ChatTypeGroup /\ uChatType (bPayload it) <> ChatTypeAI /\
    copy (bPayload it) (bMsg it) /\ Dao.mReceiverId (bMsg it) = uReceiverID (bPayload it).
Definition writes (ro : role) (past : list (event lg)) (m : Messages) : Prop :=
  match ro with
  | Consumer _ body => exists p, UnmarshalUpload body = Ok p /\ copy p m /\
      match uChatType p with
      | ChatTypeGroup => in_group past (uGroupID p) (Dao.mReceiverId m)
      | ChatTypeAI => Dao.mReceiverId m = uReceiverID p
      | _ => False
      end
  | Worker items => exists it, it ∈ items /\ m = bMsg it
  | Push _ _ => False
  end.
Definition owns (ro : role) (it : batchItem) : Prop := exists items, ro = Worker items /\ it ∈ items.

Definition policy (ro : role) (past : list (event lg)) (e : event lg) : Prop :=
  match e with
  | existT (PublishDown _ b) _ => posts ro past b
  | existT (Enqueue it) _ => makes ro it
  | existT (GoPush it _) _ => owns ro it
  | existT (Dao (DInsertMessage m)) _ => writes ro past m
  | existT (Dao (DBatchInsertMessages ms)) _ => forall m, m ∈ ms -> writes ro past m
  | _ => True
  end.
Notation does ro past p := (sat (policy ro) past p (fun _ _ => True)).

Lemma in_group_old past e g u : in_group past g u -> in_group (past ++ [e]) g u.
Proof. intros (ms & H & ?). exists ms. split; [| done]. apply elem_of_app. by left. Qed.

(** Commands without a condition. *)
Definition free (c : cmd lg) : Prop :=
  match c with
  | PublishDown _ _ | Enqueue _ | GoPush _ _ | Dao (DInsertMessage _) | Dao (DBatchInsertMessages _) => False
  | _ => True
  end.
Lemma free_does {A} ro past (p : prog lg A) (P : list (event lg) -> Prop) :
  (forall past e, P past -> P (past ++ [e])) -> P past -> only free p -> sat (policy ro) past p (fun past' _ => P past').
Proof.
  intros Happ. revert past. induction p as [a | c k IH]; intros past HP Hp; cbn in *; [done |]. destruct Hp as [Hc Hk].
  intros r. split; [by destruct c as [[] | | | | | | | | | | | |] |]. apply IH; [by apply Happ | apply Hk].
Qed.

Lemma member_does d body p u past :
  UnmarshalUpload body = Ok p -> uChatType p = ChatTypeGroup -> in_group past (uGroupID p) u ->
  sat (policy (Consumer d body)) past (deliverToMember MarshalDown p u)
    (fun past' _ => forall v, in_group past (uGroupID p) v -> in_group past' (uGroupID p) v).
Proof.
  intros Hp Ht Hu. unfold deliverToMember, memberCopy, NewMessages.
  assert (forall past' m, in_group past' (uGroupID p) u -> copy p m -> Dao.mReceiverId m = u ->
    (forall v, in_group past (uGroupID p) v -> in_group past' (uGroupID p) v) ->
    sat (policy (Consumer d body)) past'
      (r <- query (DInsertMessage m) ;;
       match r with
       | Success _ =>
           let unreadDelta := if u =? uSenderID p then 0 else 1 in
           query (DUpsertConversation u (uGroupID p) 2 unreadDelta (Dao.mMsgId m)) ;;
           if u =? uSenderID p then Ret tt
           else
             addr <- Logic.ask (RedisGet (Logic.route_key u)) ;;
             match addr with
             | Ok (Some gatewayAddr) =>
                 Logic.ask (PublishDown gatewayAddr (Logic.body_of MarshalDown (group_down p u (Dao.mMsgId m)))) ;; Ret tt
             | _ => Ret tt
             end
       | Failure _ => Ret tt
       end)
      (fun past' _ => forall v, in_group past (uGroupID p) v -> in_group past' (uGroupID p) v)) as H.
  { intros past1 m Hu1 Hc Hr Hv. unfold query, Logic.ask, call. cbn [bind]. intros r. split.
    { exists p. rewrite Ht, Hr. by split_and!. }
    destruct r as [[] | e]; cbn [bind]; [| intros v Hin; by apply in_group_old, Hv].
    intros r1. split; [done |]. destruct (u =? uSenderID p); [intros v Hin; by do 2 apply in_group_old; apply Hv |].
    cbn [bind]. intros r2. split; [done |].
    destruct r2 as [[gw |] | |]; cbn [bind]; try (intros v Hin; by do 3 apply in_group_old; apply Hv).
    intros r3. split; [| intros v Hin; by do 4 apply in_group_old; apply Hv].
    exists p, u, (Dao.mMsgId m). split_and!; [done | done | by do 3 apply in_group_old | done]. }
  unfold Logic.ask at 1, call. cbn [bind]. intros id. split; [done |]. destruct (u =? uSenderID p) eqn:E; cbn [bind].
  - apply H; [by apply in_group_old | done | done |]. intros v. apply in_group_old.
  - unfold Logic.ask at 1, call. cbn [bind]. intros id2. split; [done |].
    apply H; [by do 2 apply in_group_old | done | done |]. intros v Hv. by do 2 apply in_group_old.
Qed.

Lemma members_do d body p past us :
  UnmarshalUpload body = Ok p -> uChatType p = ChatTypeGroup -> (forall u, u ∈ us -> in_group past (uGroupID p) u) ->
  does (Consumer d body) past (for_each us (deliverToMember MarshalDown p)).
Proof.
  intros Hp Ht. revert past. induction us as [| u us IH]; intros past Hu; cbn [for_each]; [done |].
  eapply sat_bind; [apply member_does; [done | done | apply Hu; by left] |]. cbn beta. intros past' [] Hv.
  apply IH. intros v Hin. apply Hv, Hu. by right.
Qed.

Ltac freely := apply (free_does _ _ _ (fun _ => True)); [done | done |].

Lemma consumer_does d body past :
  sat (policy (Consumer d body)) past (role_prog (Consumer d body)) (fun _ buf => buf = []).
Proof.
  cbn [role_prog]. eapply sat_bind with (P := fun _ _ => True); [| done]. unfold handleUploadDelivery.
  destruct (UnmarshalUpload body) as [p | |] eqn:Hp; [| freely; by split ..].
  assert (uChatType p <> ChatTypeGroup -> uChatType p <> ChatTypeAI -> does (Consumer d body) past (enqueueSingle p d)) as Hs.
  { intros H1 H2. unfold enqueueSingle, NewMessages, Logic.ask, call. cbn [bind]. intros id. split; [done |].
    intros r. split; [| done]. exists d, body. by split_and!. }
  destruct (uChatType p) eqn:Ht; try by (apply Hs; congruence).
  - eapply sat_bind with (P := fun _ _ => True); [| intros past' r _; freely; unfold settle; destruct r; by split].
    unfold Logic.handleGroupChat, query, Logic.ask at 1, call at 1. cbn [bind]. intros r. split; [done |].
    destruct r as [ms | e]; cbn [bind]; [| done]. eapply sat_bind with (P := fun _ _ => True).
    + apply members_do; [done | done |]. intros u Hu. exists ms. split; [| exact Hu].
      apply elem_of_app. right. by apply list_elem_of_singleton.
    + intros past' [] _. freely. apply only_bind; [apply only_for_each; by split | done].
  - eapply sat_bind with (P := fun _ _ => True); [| intros past' r _; freely; unfold settle; destruct r; by split].
    unfold handleAIChat, NewMessages, query, Logic.ask, call. cbn [bind]. intros id. split; [done |].
    intros r. split; [exists p; by rewrite Ht |]. by destruct r.
Qed.

Lemma push_does it addr past :
  sat (policy (Push it addr)) past (role_prog (Push it addr)) (fun _ buf => buf = []).
Proof.
  cbn [role_prog]. eapply sat_bind with (P := fun _ _ => True); [| done]. unfold updateConversationAndPush.
  destruct (session_of it) as [[st ti] stt]. unfold query, Logic.ask at 1 2, call at 1 2. cbn [bind].
  intros r1. split; [done |]. intros r2. split; [done |].
  eapply sat_bind with (P := fun _ _ => True).
  { freely. unfold invalidateChatCache. destruct (Dao.mGroupId (bMsg it) =? 0); [apply only_for_each; by split | done]. }
  intros past' [] _. unfold pushDownAndAckWithAddr. eapply sat_bind with (P := fun _ _ => True).
  { unfold pushDownWithAddr. destruct (String.eqb addr ""); [done |]. unfold Logic.ask, call. intros r. by split. }
  intros past2 r _. freely. destruct r as [[] | |]; [| by split ..]. split; [done |]. intros []. split; [done |].
  intros now. cbn [bind]. repeat case_match; by try split.
Qed.

Lemma insert_does items past addrs rest :
  (forall it, it ∈ rest -> it ∈ items) -> does (Worker items) past (for_each rest (insertSingly addrs)).
Proof.
  revert past. induction rest as [| it rest IH]; intros past Hr; cbn [for_each]; [done |].
  assert (it ∈ items) as Hit by (apply Hr; by left).
  eapply sat_bind with (P := fun _ _ => True); [| intros past' [] _; apply IH; intros i Hi; apply Hr; by right].
  unfold insertSingly, query, Logic.ask, call. cbn [bind]. intros r. split; [by exists it |].
  destruct r as [[] | e]; cbn [bind]; [intros r1; split; [by exists items | done] |].
  destruct (isDuplicateKey e); intros r1; split; try done. by exists items.
Qed.
Lemma push_all_does items past addrs rest :
  (forall it, it ∈ rest -> it ∈ items) -> does (Worker items) past (for_each rest (fun it => Logic.ask (GoPush it (addr_of addrs it)))).
Proof.
  revert past. induction rest as [| it rest IH]; intros past Hr; cbn [for_each]; [done |].
  unfold Logic.ask at 1, call. cbn [bind]. intros r. split; [exists items; split; [done | apply Hr; by left] |].
  apply IH. intros i Hi. apply Hr. by right.
Qed.

Lemma flush_does items past buf : (forall it, it ∈ buf -> it ∈ items) -> does (Worker items) past (flush buf).
Proof.
  intros Hb. destruct buf as [| i buf]; [done |]. unfold flush, query, Logic.ask at 1 2, call at 1 2. cbn [bind].
  intros vals. split; [done |]. intros r. split.
  { intros m (it & -> & Hit)%list_elem_of_fmap. exists it. split; [by apply Hb | done]. }
  destruct r as [[] | e]; [by apply push_all_does | by apply insert_does].
Qed.

Lemma receive_does items past buf e :
  (forall it, it ∈ buf -> it ∈ items) ->
  sat (policy (Worker (items ++ item_of_event e))) past (batchInsertWorker buf [e])
    (fun _ buf' => forall it, it ∈ buf' -> it ∈ items ++ item_of_event e).
Proof.
  intros Hb. set (items' := items ++ _).
  assert (forall it, it ∈ buf ++ item_of_event e -> it ∈ items') as Hall
    by (intros it [H | H]%elem_of_app; apply elem_of_app; [left; by apply Hb | by right]).
  assert (forall b : list batchItem, (forall it, it ∈ b -> it ∈ items') ->
    sat (policy (Worker items')) past (flush b ;; Ret []) (fun _ buf' => forall it : batchItem, it ∈ buf' -> it ∈ items')) as Hf.
  { intros b H. eapply sat_bind; [by apply flush_does |]. intros past' [] _ it Hit. by apply not_elem_of_nil in Hit. }
  destruct e as [it | |]; cbn [batchInsertWorker item_of_event] in *.
  - destruct (batchSize <=? len (buf ++ [it])); [| exact Hall]. by apply Hf.
  - apply Hf. intros i Hi. apply Hall, elem_of_app. by left.
  - apply Hf. intros i Hi. apply Hall, elem_of_app. by left.
Qed.

(** ** Who said what *)

(** encoding/json: integers and the constants for chat types come back as they were
    written, and so does every text that is UTF-8, as the texts it reads are; an empty
    input is an error. *)
Definition known (t : Mq.ChatType) : Prop := match t with ChatTypeOther _ => False | _ => True end.
Record same_upload (p p' : UploadPayload) : Prop := {
  up_sender : uSenderID p' = uSenderID p;
  up_receiver : uReceiverID p' = uReceiverID p;
  up_group : uGroupID p' = uGroupID p;
  up_type : known (uChatType p) -> uChatType p' = uChatType p;
  up_content : ValidString (uContent p) = true -> uContent p' = uContent p;
}.
Record same_down (p p' : DownPayload) : Prop := {
  down_sender : dSenderID p' = dSenderID p;
  down_receiver : dReceiverID p' = dReceiverID p;
  down_group : dGroupID p' = dGroupID p;
  down_type : known (dChatType p) -> dChatType p' = dChatType p;
  down_content : ValidString (dContent p) = true -> dContent p' = dContent p;
}.
Hypothesis request_valid : forall data req, UnmarshalRequest data = Ok req -> ValidString (Message req) = true.
Hypothesis upload_roundtrip : forall p b, MarshalUpload p = Ok b -> exists p', UnmarshalUpload b = Ok p' /\ same_upload p p'.
Hypothesis down_roundtrip : forall p b, MarshalDown p = Ok b -> exists p', UnmarshalDown b = Ok p' /\ same_down p p'.
Hypothesis upload_empty : forall p, UnmarshalUpload "" <> Ok p.
Hypothesis down_empty : forall p, UnmarshalDown "" <> Ok p.

Notation typed st u data := (Session.typed (gates st) u data).

(** To whom a request goes: its receiver, the agent, or whoever was a member of its group
    when the members were read. The first number is the group of the message, or 0. *)
Inductive addressed (events : list (event lg)) (req : ClientRequest) : Z -> Z -> Prop :=
| to_receiver : addressed events req 0 (Receiver req)
| to_agent : addressed events req 0 (-1)
| to_member u : in_group events (GroupID req) u -> addressed events req (GroupID req) u.

(** User [x] said [y] to user [u], in group [g]: it was read from a connection of [x]. *)
Definition genuine (st : State) (x : Z) (y : string) (g u : Z) : Prop :=
  exists data req, typed st x data /\ UnmarshalRequest data = Ok req /\ Message req = y /\ addressed (did st) req g u.

(** A row is what somebody said, or the agent stored it for a scheduled task. *)
Definition written (st : State) (m : Messages) : Prop :=
  genuine st (Dao.mSenderId m) (Dao.mContent m) (Dao.mGroupId m) (Dao.mReceiverId m) \/
  exists m0, m0 ∈ scheduled st /\ same_text m0 m.

(** What a text that is handed to a connection of user [u] is. *)
Inductive tells (st : State) (u : Z) (t : string) : Prop :=
| tells_push x y g mid sid : marshalChatPush MarshalMap mid sid g x y = Ok t -> genuine st x y g u -> tells st u t
| tells_unread m row : unread_json MarshalMap m = Ok t -> m = Inbox.to_unread row -> Dao.mReceiverId row = u ->
    written st row -> tells st u t
| tells_notice p : is_notice (dChatType p) = true -> dReceiverID p = u -> push_of MarshalMap p = Ok t -> tells st u t
| tells_ack p : uSenderID p = u -> @ev ws (PublishUpload "upload.all" (Gateway.body_of MarshalUpload p)) (Ok tt) ∈ Session.log (gates st) ->
    t = ackMsg (uMsgID p) (uSeqID p) -> tells st u t
| tells_answer data req lines : typed st u data -> UnmarshalRequest data = Ok req ->
    @ev ws (HttpGet (Session.agent_url QueryEscape AgentAddr u req)) (Ok lines) ∈ Session.log (gates st) ->
    (t = endMsg \/ exists line, line ∈ lines /\ t = chunkMsg (TrimPrefix line "data: ")) -> tells st u t
| tells_receipt from data msg : typed st from data -> UnmarshalAck data = Ok (msg, u) -> t = readReceipt from msg -> tells st u t
| tells_pong : t = pongMsg -> tells st u t
| tells_kick c : @ev ws (CliRegister u c) tt ∈ Session.log (gates st) -> Session.opened (gates st) !! c = Some u ->
    t = Routing.kickMsg -> tells st u t.

(** ** What every run keeps *)

(** A payload as a logic server reads it: what somebody said. *)
Definition heard (st : State) (p : UploadPayload) : Prop :=
  exists data req, typed st (uSenderID p) data /\ UnmarshalRequest data = Ok req /\ Session.says (uSenderID p) req p.
Definition item_ok (st : State) (it : batchItem) : Prop :=
  heard st (bPayload it) /\ uChatType (bPayload it) = ChatTypeSingle /\ copy (bPayload it) (bMsg it) /\
  Dao.mReceiverId (bMsg it) = uReceiverID (bPayload it).
Definition role_ok (st : State) (ro : role) : Prop :=
  match ro with
  | Consumer _ body => exists key r, @ev ws (PublishUpload key body) r ∈ Session.log (gates st)
  | Worker items => forall it, it ∈ items -> item_ok st it
  | Push it _ => item_ok st it
  end.

(** A payload that goes down as a message says what somebody said. *)
Definition chats (st : State) (b : string) : Prop :=
  exists p, b = Logic.body_of MarshalDown p /\ known (dChatType p) /\ is_notice (dChatType p) = false /\
    genuine st (dSenderID p) (dContent p) (dGroupID p) (dReceiverID p).
Definition event_ok (st : State) (e : event lg) : Prop :=
  match e with
  | existT (PublishDown _ b) _ => chats st b
  | existT (Enqueue it) _ => item_ok st it
  | existT (GoPush it _) _ => item_ok st it
  | _ => True
  end.

Record goroutine_ok (st : State) (ro : role) (past : list (event lg)) (p : prog lg (list batchItem)) : Prop := {
  ok_sat : sat (policy ro) past p (fun _ buf => forall it, it ∈ buf -> owns ro it);
  ok_role : role_ok st ro;
  ok_did : forall e, e ∈ past -> e ∈ did st;
}.

Record Inv (st : State) : Prop := {
  Inv_gates : gate_Inv (gates st);
  Inv_delivered : forall b, b ∈ Session.delivered (gates st) -> chats st b \/ notice b;
  Inv_synced : forall key u l m, @ev ws (RpcSyncUnread key u) (Ok l) ∈ Session.log (gates st) -> m ∈ l ->
    exists row, m = Inbox.to_unread row /\ Dao.mReceiverId row = u /\ written st row;
  Inv_rows : forall k m, messages (tables st) !! k = Some m -> written st m;
  Inv_logics : forall n ro past p, logics st !! n = Some (ro, past, p) -> goroutine_ok st ro past p;
  Inv_did : forall e, e ∈ did st -> event_ok st e;
}.

(** Nothing is forgotten. *)
Record grows (st st' : State) : Prop := {
  grows_gates : Session.grows (gates st) (gates st');
  grows_did : forall e, e ∈ did st -> e ∈ did st';
  grows_scheduled : forall m, m ∈ scheduled st -> m ∈ scheduled st';
}.
Lemma genuine_grows st st' x y g u : grows st st' -> genuine st x y g u -> genuine st' x y g u.
Proof.
  intros [Hg Hd _] (data & req & Ht & Hr & Hm & Ha). exists data, req. split_and!; try done.
  - by eapply Session.typed_grows.
  - destruct Ha as [| | u (ms & H & ?)]; constructor. exists ms. auto.
Qed.
Lemma written_grows st st' m : grows st st' -> written st m -> written st' m.
Proof.
  intros Hg [H | (m0 & H & ?)]; [left; by eapply genuine_grows | right]. exists m0. split; [by apply Hg | done].
Qed.
Lemma heard_grows st st' p : grows st st' -> heard st p -> heard st' p.
Proof. intros Hg (data & req & H & ?). exists data, req. split; [eapply Session.typed_grows; [apply Hg | done] | done]. Qed.
Lemma item_ok_grows st st' it : grows st st' -> item_ok st it -> item_ok st' it.
Proof. intros Hg (H & ?). split; [by eapply heard_grows | done]. Qed.
Lemma role_ok_grows st st' ro : grows st st' -> role_ok st ro -> role_ok st' ro.
Proof.
  intros Hg. destruct ro as [d body | items | it addr]; cbn.
  - intros (key & r & H). exists key, r. by apply (Session.grows_log _ _ (grows_gates _ _ Hg)).
  - intros H it Hin. by eapply item_ok_grows, H.
  - by apply item_ok_grows.
Qed.
Lemma chats_grows st st' b : grows st st' -> chats st b -> chats st' b.
Proof. intros Hg (p & ? & ? & ? & H). exists p. split_and!; try done. by eapply genuine_grows. Qed.
Lemma chat_event_ok_grows st st' e : grows st st' -> event_ok st e -> event_ok st' e.
Proof. intros Hg. destruct e as [[] r]; cbn; try done; [by apply chats_grows | by apply item_ok_grows ..]. Qed.
Lemma chat_goroutine_ok_grows st st' ro past p : grows st st' -> goroutine_ok st ro past p -> goroutine_ok st' ro past p.
Proof. intros Hg [H1 H2 H3]. split; [done | by eapply role_ok_grows | intros e He; by apply Hg, H3]. Qed.

(** What is said is heard. *)
Lemma said_heard st body p :
  Session.said UnmarshalRequest MarshalUpload (gates st) body -> UnmarshalUpload body = Ok p -> heard st p.
Proof.
  intros (u & data & req & p0 & Ht & Hr & -> & Hu & Hm & Ha) Hp. unfold Gateway.body_of in Hp.
  destruct (MarshalUpload p0) as [b | |] eqn:Eb; [| by destruct (upload_empty p) ..].
  destruct (upload_roundtrip p0 b Eb) as (p' & Hp' & [H1 H2 H3 H4 H5]). rewrite Hp in Hp'. injection Hp' as <-.
  unfold heard, Session.says. rewrite H1, Hu. exists data, req. split_and!; [done | done | done | |].
  - rewrite H5; [done |]. rewrite Hm. by eapply request_valid.
  - rewrite H2, H3, H4; [done |]. by destruct (uChatType p0).
Qed.
Lemma heard_genuine st p :
  heard st p -> uChatType p <> ChatTypeGroup -> genuine st (uSenderID p) (uContent p) (uGroupID p) (uReceiverID p).
Proof.
  intros (data & req & Ht & Hr & _ & Hm & Ha) Hg. exists data, req. split_and!; [done | done | done |].
  destruct (uChatType p); try done; destruct Ha as [-> ->]; constructor.
Qed.
Lemma heard_genuine_group st p u :
  heard st p -> uChatType p = ChatTypeGroup -> in_group (did st) (uGroupID p) u ->
  genuine st (uSenderID p) (uContent p) (uGroupID p) u.
Proof.
  intros (data & req & Ht & Hr & _ & Hm & Ha) Hg Hu. exists data, req. split_and!; [done | done | done |].
  rewrite Hg in Ha. rewrite Ha in *. by constructor.
Qed.
Lemma copy_written st p m u :
  copy p m -> Dao.mReceiverId m = u -> genuine st (uSenderID p) (uContent p) (uGroupID p) u -> written st m.
Proof. intros (H1 & H2 & H3) H4 H. left. by rewrite H1, H2, H3, H4. Qed.
Lemma written_same st m m' : same_text m m' -> written st m -> written st m'.
Proof.
  intros (H1 & H2 & H3 & H4) [H | (m0 & Hm & G1 & G2 & G3 & G4)]; [left; by rewrite H1, H2, H3, H4 | right].
  exists m0. split; [done |]. split_and!; congruence.
Qed.

Lemma consumer_hears st d body p :
  Inv st -> role_ok st (Consumer d body) -> UnmarshalUpload body = Ok p -> heard st p.
Proof.
  intros HI (key & r & He) Hp. eapply said_heard; [| exact Hp].
  exact (Session.Inv_log _ _ _ _ _ _ _ _ (Inv_gates _ HI) _ He).
Qed.
Lemma makes_ok st ro it : Inv st -> role_ok st ro -> makes ro it -> item_ok st it.
Proof.
  intros HI Hr (d & body & -> & Hp & H1 & H2 & Hc & Hm).
  pose proof (consumer_hears _ _ _ _ HI Hr Hp) as Hh. split_and!; [done | | done | done].
  destruct Hh as (data & req & _ & _ & _ & _ & Ha). by destruct (uChatType (bPayload it)).
Qed.
Lemma item_written st it : item_ok st it -> written st (bMsg it).
Proof.
  intros (Hh & Ht & Hc & Hm). eapply copy_written; [exact Hc | exact Hm |]. apply heard_genuine; [done | by rewrite Ht].
Qed.
Lemma in_group_did st past g u : (forall e, e ∈ past -> e ∈ did st) -> in_group past g u -> in_group (did st) g u.
Proof. intros H (ms & Hm & ?). exists ms. auto. Qed.
Lemma writes_written st ro past m :
  Inv st -> role_ok st ro -> (forall e, e ∈ past -> e ∈ did st) -> writes ro past m -> written st m.
Proof.
  intros HI Hr Hd. destruct ro as [d body | items | it addr]; cbn [writes]; [| | done].
  - intros (p & Hp & Hc & H). pose proof (consumer_hears _ _ _ _ HI Hr Hp) as Hh.
    destruct (uChatType p) eqn:Ht; try done.
    + eapply copy_written; [exact Hc | done |]. apply heard_genuine_group; [done | done | by eapply in_group_did].
    + eapply copy_written; [exact Hc | exact H |]. apply heard_genuine; [done | by rewrite Ht].
  - intros (it & Hin & ->). by apply item_written, Hr.
Qed.
Lemma posts_chat st ro past b :
  Inv st -> role_ok st ro -> (forall e, e ∈ past -> e ∈ did st) -> posts ro past b -> chats st b.
Proof.
  intros HI Hr Hd. destruct ro as [d body | items | it addr]; cbn [posts]; [| done |].
  - intros (p & u & mid & Hp & Ht & Hu & ->). pose proof (consumer_hears _ _ _ _ HI Hr Hp) as Hh.
    exists (group_down p u mid). cbn. rewrite Ht. split_and!; [done .. |].
    apply heard_genuine_group; [done | done | by eapply in_group_did].
  - intros ->. destruct Hr as (Hh & Ht & Hc & Hm). exists (down_of (bPayload it)). cbn. rewrite Ht. split_and!; [done .. |].
    pose proof (heard_genuine _ _ Hh) as H. rewrite Ht in H. destruct Hh as (data & req & _ & _ & _ & _ & Ha).
    rewrite Ht in Ha. destruct Ha as [Ha _]. rewrite Ha in H. by apply H.
Qed.

(** ** Steps *)

(** A state that keeps the tables' rows, gets no new event, and whose goroutines are old
    or fit to run. *)
Lemma chat_frame_Inv st st' :
  Inv st -> gates st' = gates st -> did st' = did st -> (forall m, m ∈ scheduled st -> m ∈ scheduled st') ->
  (forall k m, messages (tables st') !! k = Some m -> written st' m) ->
  (forall n ro past p, logics st' !! n = Some (ro, past, p) ->
     logics st !! n = Some (ro, past, p) \/ goroutine_ok st' ro past p) ->
  Inv st'.
Proof.
  intros HI Eg Ed Hs Ht Hl.
  assert (grows st st') as Hg by (split; rewrite ?Eg, ?Ed; by try split).
  split.
  - rewrite Eg. apply HI.
  - rewrite Eg. intros b Hb. destruct (Inv_delivered _ HI b Hb); [left; by eapply chats_grows | by right].
  - rewrite Eg. intros key u l m He Hm. destruct (Inv_synced _ HI _ _ _ _ He Hm) as (row & ? & ? & ?).
    exists row. split_and!; try done. by eapply written_grows.
  - exact Ht.
  - intros n ro past p H. destruct (Hl _ _ _ _ H) as [H' | H']; [| done].
    eapply chat_goroutine_ok_grows; [exact Hg | by eapply Inv_logics].
  - rewrite Ed. intros e He. eapply chat_event_ok_grows; [exact Hg | by apply (Inv_did _ HI)].
Qed.

Lemma chat_start_Inv st n ro past p :
  Inv st -> goroutine_ok st ro past p -> Inv (set_logics (<[n := (ro, past, p)]>) st).
Proof.
  intros HI Hok. apply (chat_frame_Inv st); try done.
  - intros k m Hm. exact (Inv_rows _ HI k m Hm).
  - intros n' ro' past' p'. cbn. intros [[<- [= <- <- <-]] | [_ H]]%lookup_insert_Some; [right | by left].
    by eapply chat_goroutine_ok_grows; [| exact Hok].
Qed.

Lemma statement_rows st now q k m :
  Inv st -> messages (exec now q (tables st)).2 !! k = Some m -> (forall m0, m0 ∈ inserted q -> written st m0) -> written st m.
Proof.
  intros HI [(m0 & Hm & Hs) | (m0 & Hm & Hs)]%exec_texts Hq; (eapply written_same; [exact Hs |]); [by eapply Inv_rows | by apply Hq].
Qed.

Lemma gate_Inv_step st g : Inv st -> gate_step (gates st) g -> carried st g -> synced st g -> Inv (set_gates g st).
Proof.
  intros HI Hs Hc Hy. assert (grows st (set_gates g st)) as Hg by (split; [by eapply Session.step_grows | done | done]).
  split; cbn.
  - eapply Session.session_step_Inv; [apply HI | exact Hs].
  - intros b [Hb | [(gw & r & Hb) | Hb]]%Hc; [| left; eapply chats_grows; [exact Hg | exact (Inv_did _ HI _ Hb)] | by right].
    destruct (Inv_delivered _ HI b Hb) as [H | H]; [left; by eapply chats_grows | by right].
  - intros key u l m He Hm. destruct (Hy _ _ _ He) as [He' | (rows & [= <-] & ->)].
    + destruct (Inv_synced _ HI _ _ _ _ He' Hm) as (row & ? & ? & ?). exists row. split_and!; try done. by eapply written_grows.
    + apply list_elem_of_fmap in Hm as (row & -> & [Hu [k Hk]]%elem_of_select). exists row. split_and!; [done | |].
      * unfold unread_of in Hu. by apply andb_true_iff in Hu as [Hu%Z.eqb_eq _].
      * eapply written_grows; [exact Hg | by eapply Inv_rows].
  - intros k m Hm. eapply written_grows; [exact Hg | by eapply Inv_rows].
  - intros n ro past p H. eapply chat_goroutine_ok_grows; [exact Hg | by eapply Inv_logics].
  - intros e He. eapply chat_event_ok_grows; [exact Hg | by apply (Inv_did _ HI)].
Qed.

Lemma chat_receive_Inv st n items past buf e :
  Inv st -> logics st !! n = Some (Worker items, past, Ret buf) -> (forall it, e = Received it -> exists r, @ev lg (Enqueue it) r ∈ did st) ->
  Inv (set_logics (<[n := (Worker (items ++ item_of_event e), past, batchInsertWorker buf [e])]>) st).
Proof.
  intros HI Hn He. destruct (Inv_logics _ HI _ _ _ _ Hn) as [Hs Hr Hd]. apply chat_start_Inv; [done |].
  assert (forall it, it ∈ item_of_event e -> item_ok st it) as Hit.
  { intros it Hin. destruct e; try by apply not_elem_of_nil in Hin. apply list_elem_of_singleton in Hin as ->.
    destruct (He it0 eq_refl) as [r H]. exact (Inv_did _ HI _ H). }
  split; [| | exact Hd].
  - eapply sat_impl; [apply receive_does; intros it Hin |]; cbn beta.
    + destruct (Hs it Hin) as (items' & [= ->] & ?). done.
    + intros past' buf' H it Hin. eexists. split; [done | by apply H].
  - cbn. intros it [H | H]%elem_of_app; [by apply Hr | by apply Hit].
Qed.

Lemma logic_Inv st n ro past c k r s' :
  Inv st -> logics st !! n = Some (ro, past, Do c k) -> answered c r (tables st) s' ->
  Inv (set_did (did st ++ [ev c r]) (set_tables s' (set_logics (<[n := (ro, past ++ [ev c r], k r)]>) st))).
Proof.
  intros HI Hn Ha. pose proof (Inv_logics _ HI _ _ _ _ Hn) as [Hs Hr Hd]. destruct (Hs r) as [Hp Hrest].
  set (st' := set_did _ _).
  assert (grows st st') as Hg by (split; cbn; [done | intros; apply elem_of_app; by left | done]).
  assert (forall q, c = Dao q -> forall m, m ∈ inserted q -> written st m) as Hins.
  { intros q -> m Hm. destruct q; cbn in Hm; try by apply not_elem_of_nil in Hm.
    - apply list_elem_of_singleton in Hm as ->. by eapply writes_written.
    - eapply writes_written; [done | done | exact Hd | by apply Hp]. }
  split; cbn.
  - apply HI.
  - intros b Hb. destruct (Inv_delivered _ HI b Hb); [left; by eapply chats_grows | by right].
  - intros key u l m He Hm. destruct (Inv_synced _ HI _ _ _ _ He Hm) as (row & ? & ? & ?).
    exists row. split_and!; try done. by eapply written_grows.
  - intros i m Hm. eapply written_grows; [exact Hg |].
    destruct c as [q | | | | | | | | | | | |]; cbn in Ha; try (subst s'; by eapply Inv_rows).
    specialize (Hins q eq_refl). destruct Ha as [[now E] | (e & _ & [-> | [now ->]])]; [| by eapply Inv_rows | by eapply statement_rows].
    eapply (statement_rows st now q i); [done | by rewrite E | exact Hins].
  - intros n' ro' past' p. intros [[<- [= <- <- <-]] | [_ H]]%lookup_insert_Some.
    + split; [exact Hrest | by eapply role_ok_grows |]. intros e [He | ->%list_elem_of_singleton]%elem_of_app; cbn; apply elem_of_app;
        [left; by apply Hd | right; by apply list_elem_of_singleton].
    + eapply chat_goroutine_ok_grows; [exact Hg | by eapply Inv_logics].
  - intros e [He | ->%list_elem_of_singleton]%elem_of_app; (eapply chat_event_ok_grows; [exact Hg |]); [by apply (Inv_did _ HI) |].
    destruct c; cbn in *; try done.
    + by eapply posts_chat.
    + by eapply makes_ok.
    + destruct Hp as (items & -> & Hin). by apply Hr.
Qed.

Lemma chat_step_Inv st st' : Inv st -> step st st' -> Inv st'.
Proof.
  intros HI Hs.
  destruct Hs as [st g Hs Hc Hy | st n d body key r Hn He | st n Hn | st n items past buf e Hn He | st n it addr r Hn He
    | st n ro past c k r s' Hn Ha | st n | st now q Hq | st now m].
  - by apply gate_Inv_step.
  - apply chat_start_Inv; [done |]. split; [| by exists key, r | intros e H; by apply not_elem_of_nil in H].
    eapply sat_impl; [apply consumer_does |]. cbn. intros _ ? -> it Hin. by apply not_elem_of_nil in Hin.
  - apply chat_start_Inv; [done |]. split; [| | intros e H; by apply not_elem_of_nil in H];
      cbn; intros it Hin; by apply not_elem_of_nil in Hin.
  - by apply chat_receive_Inv.
  - apply chat_start_Inv; [done |]. split; [| exact (Inv_did _ HI _ He) | intros e H; by apply not_elem_of_nil in H].
    eapply sat_impl; [apply push_does |]. cbn. intros _ ? -> it' Hin. by apply not_elem_of_nil in Hin.
  - by apply logic_Inv.
  - apply (chat_frame_Inv st); try done; [intros k m Hm; exact (Inv_rows _ HI k m Hm) |].
    intros n' ro past p. cbn. intros [_ H]%lookup_delete_Some. by left.
  - apply (chat_frame_Inv st); try done; [| by left]. intros k m Hm. eapply written_grows; [| eapply (statement_rows st now q k)]; try done.
    intros m0 Hm0. destruct q; cbn in *; try done; by apply not_elem_of_nil in Hm0.
  - assert (forall m', written st m' -> written (set_scheduled (scheduled st ++ [m]) (set_tables (InsertMessage now m (tables st)).2 st)) m') as Hw.
    { intros m'. apply written_grows. split; cbn; [done | done |]. intros m0 H. apply elem_of_app. by left. }
    apply (chat_frame_Inv st); try done; [cbn; intros m0 H; apply elem_of_app; by left | | by left].
    intros k m' Hk. apply (exec_texts now (DInsertMessage m) (tables st) k m') in Hk
      as [(m0 & Hm & Hs) | (m0 & ->%list_elem_of_singleton & Hs)].
    + apply Hw. eapply written_same; [exact Hs | by eapply Inv_rows].
    + right. exists m. split; [| done]. cbn. apply elem_of_app. right. by apply list_elem_of_singleton.
Qed.

Lemma chat_reachable_Inv st : reachable st -> Inv st.
Proof.
  apply (invariant_rtc step Inv chat_step_Inv).
  split; cbn; try (intros; by match goal with H : _ ∈ [] |- _ => apply not_elem_of_nil in H end);
    try (intros; by rewrite lookup_empty in *).
  apply (Session.session_reachable_Inv _ UnmarshalChatType _ _ _ _ _ _ reliable notify). apply rtc_refl.
Qed.

(** A payload that is no notice is pushed as a message. *)
Lemma push_of_chat p : is_notice (dChatType p) = false ->
  push_of MarshalMap p = marshalChatPush MarshalMap (dMsgID p) (dSeqID p) (dGroupID p) (dSenderID p) (dContent p).
Proof.
  intros H. unfold push_of. repeat (rewrite decide_False; [| by intros E; rewrite E in H]). done.
Qed.

Lemma delivered_tells st u t body p :
  Inv st -> body ∈ Session.delivered (gates st) -> UnmarshalDown body = Ok p -> dReceiverID p = u ->
  push_of MarshalMap p = Ok t -> tells st u t.
Proof.
  intros HI Hb Hp Hu Ht. destruct (Inv_delivered _ HI body Hb) as [(p0 & -> & Hk & Hn & Hg) | (p0 & Hm & Hn)].
  - unfold Logic.body_of in Hp. destruct (MarshalDown p0) as [b | |] eqn:Eb; [| by destruct (down_empty p) ..].
    destruct (down_roundtrip p0 b Eb) as (p' & Hp' & [H1 H2 H3 H4 H5]). rewrite Hp in Hp'. injection Hp' as <-.
    rewrite push_of_chat in Ht by (by rewrite H4). eapply tells_push; [exact Ht |].
    rewrite H1, H3, <- Hu, H2, H5; [exact Hg |]. destruct Hg as (data & req & _ & Hr & <- & _). by eapply request_valid.
  - destruct (down_roundtrip p0 body Hm) as (p' & Hp' & [H1 H2 H3 H4 H5]). rewrite Hp in Hp'. injection Hp' as <-.
    apply (tells_notice _ _ _ p); [| done | done]. rewrite H4; [done |]. by destruct (dChatType p0).
Qed.

(** C2: Nobody is misquoted: however the goroutines of gateways and logic servers
    interleave, fail and are started again, and whatever clients write, the broker loses,
    repeats or delivers late, and Redis and the agent answer, every text that is handed to
    a connection of a user is a message that was read from a connection of the user it
    names as its sender, who addressed it to this user or to a group this user was a
    member of when its members were read, in the words and with the group it was sent
    with, or a message the agent stored for a scheduled task, a notice published for
    this user, or an answer to something this user did, a receipt, a pong, or the notice
    that the user has connected again. And every row of messages is what its sender
    said to its receiver, or the agent's. *)
Theorem nobody_is_misquoted st :
  reachable st ->
  (forall c t r, @ev ws (SendMessage c t) r ∈ Session.log (gates st) ->
     exists u, Session.opened (gates st) !! c = Some u /\ tells st u t) /\
  (forall id m, messages (tables st) !! id = Some m -> written st m).
Proof.
  intros HI%chat_reachable_Inv. split; [| apply HI].
  intros c t r He. destruct (Session.Inv_log _ _ _ _ _ _ _ _ (Inv_gates _ HI) _ He) as (u & Hc & Hm).
  exists u. split; [done |]. destruct Hm as [key l m Hl Hm Ht | body p Hb Hp Hu Ht | p Hu Hp -> | data req lines Hd Hr Hl Ht
    | from data msg Hd Ha -> | -> | c' Hr Ho ->].
  - destruct (Inv_synced _ HI _ _ _ _ Hl Hm) as (row & ? & ? & ?). by eapply tells_unread.
  - by eapply delivered_tells.
  - by eapply tells_ack.
  - by eapply tells_answer.
  - by eapply tells_receipt.
  - by apply tells_pong.
  - by eapply tells_kick.
Qed.

(** ** Runs *)

Lemma gates_grow g g' : rtc gate_step g g' -> Session.grows g g'.
Proof.
  induction 1 as [g | g g1 g2 H _ [H1 H2 H3]]; [by split |]. apply Session.step_grows in H as [G1 G2 G3]. split; auto.
Qed.
Lemma gates_run st g : rtc gate_step (gates st) g -> carried st g -> synced st g -> rtc step st (set_gates g st).
Proof.
  intros H. remember (gates st) as g0 eqn:E. revert st E. induction H as [g | g0 g1 g H Hr IH]; intros st ->; intros Hc Hy.
  { by destruct st. }
  pose proof (gates_grow _ _ Hr) as [_ Hl Hd]. eapply rtc_l.
  - apply step_gate; [exact H | intros b Hb; by apply Hc, Hd | intros key u l He; by apply Hy, Hl].
  - apply (IH (set_gates g1 st)); [done | |].
    + intros b Hb. destruct (Hc b Hb) as [Hb' | Hb']; [left | by right]. by apply Session.step_grows in H as [_ _ Hb1]; apply Hb1.
    + intros key u l He. destruct (Hy key u l He) as [He' | He']; [left | by right]. by apply Session.step_grows in H as [_ He1 _]; apply He1.
Qed.

Definition at_logic (n : nat) (x : role * list (event lg) * prog lg (list batchItem)) (st : State) : State :=
  set_logics (<[n := x]>) st.
Lemma logic_ends st n x : logics st !! n = None -> rtc step (at_logic n x st) st.
Proof.
  intros Hn. apply rtc_once. eapply eq_ind; [apply (step_end _ n) |].
  destruct st. unfold at_logic, set_logics. cbn in *. by rewrite delete_insert_id.
Qed.
(** A goroutine that runs alone, against an environment that answers as it may. *)
Lemma logic_runs (h : env lg Store) n ro past p st :
  (forall c s, answered c (h c s).1 s (h c s).2) -> logics st !! n = None ->
  let x := run h p (tables st) in
  rtc step (at_logic n (ro, past, p) st) (set_did (did st ++ trace x) (set_tables (final x) st)).
Proof.
  intros Hh. revert past st. induction p as [a | c k IH]; intros past st Hn; cbn [run].
  { cbn. destruct st; cbn in *. rewrite app_nil_r. by apply logic_ends. }
  eapply rtc_l; [apply (step_logic (at_logic n (ro, past, Do c k) st) n ro past c k); [apply lookup_insert_eq | apply Hh] |].
  cbn [tables at_logic set_logics]. destruct (h c (tables st)) as [r s1] eqn:E. cbn [fst snd].
  specialize (IH r (past ++ [ev c r]) (set_did (did st ++ [ev c r]) (set_tables s1 st)) Hn).
  cbn [did tables set_did set_tables] in IH. destruct (run h (k r) s1) as [[a s2] tr]. unfold trace, final in *. cbn [fst snd] in *.
  rewrite <- app_assoc in IH. unfold at_logic, set_did, set_tables, set_logics in *. cbn in *. by rewrite insert_insert_eq.
Qed.
End chat.

(** *** A run: an outsider is heard in a group *)

(** Users 8 and 9 connect, 8 is the only member of group 1; 9 writes to the group. *)
Definition up : UploadPayload := mkUpload 100 1 ChatTypeGroup 1 "group_1" 9 0 "hi".
Definition down : DownPayload := group_down up 8 501.
Definition read_request (data : string) : outcome ClientRequest :=
  if String.eqb data "hi all" then Ok (mkRequest "group_chat" 0 1 "hi") else Err "no request".
Definition read_upload (b : string) : outcome UploadPayload := if String.eqb b "up" then Ok up else Err "no payload".
Definition read_down (b : string) : outcome DownPayload := if String.eqb b "down" then Ok down else Err "no payload".
Definition write_upload (p : UploadPayload) : outcome string := if bool_decide (p = up) then Ok "up" else Err "".
Definition write_down (p : DownPayload) : outcome string := if bool_decide (p = down) then Ok "down" else Err "".

Notation sample_step := (step read_request (fun _ => Ok "group_chat") (fun _ => Err "") read_upload read_down write_upload write_down
  (fun _ => Err "") (fun _ => Ok "push") id "" true false).
Notation sample_reachable := (reachable read_request (fun _ => Ok "group_chat") (fun _ => Err "") read_upload read_down write_upload write_down
  (fun _ => Err "") (fun _ => Ok "push") id "" true false).
Notation sample_gate_step := (Session.step read_request (fun _ => Ok "group_chat") (fun _ => Err "") read_down write_upload
  (fun _ => Ok "push") id "" true false).

Definition connected : Session.State := Session.after_connect "t9" 9 3%nat (Session.after_connect "t8" 8 4%nat Session.init).
Lemma both_connect : rtc sample_gate_step Session.init connected.
Proof. etrans; [by apply (Session.connects _ _ _ _ _ _ _ _ _ _ _ 0%nat "t8" 8 4%nat) |]. by apply (Session.connects _ _ _ _ _ _ _ _ _ _ _ 0%nat "t9" 9 3%nat). Qed.

Definition group_log : list (event ws) :=
  [@ev ws (ReadMessage 3%nat) (@Ok string "hi all"); @ev ws (Go (TaskGroupChat 9 "hi all")) tt;
   @ev ws (RedisIncr "seq:group_1:9") (Ok 1); @ev ws SnowflakeGenerate 100; @ev ws (PublishUpload "upload.all" "up") (Ok tt)].
Ltac gate_command c r := eapply (Session.at_does _ _ _ _ _ _ _ _ _ _ _ _ _ _ _ c _ r); [| Session.fields].

Lemma written_to_group : exists g, rtc sample_gate_step connected g /\ Session.delivered g = [] /\ Session.world g = Session.world connected /\ Session.opened g = Session.opened connected /\ Session.log g = Session.log connected ++ group_log /\ Session.running g !! 1%nat = None.
Proof.
  set (s := connected). assert (Session.running s = ∅) as Hr by reflexivity. assert (Session.delivered s = []) as Hd by reflexivity.
  assert (("gw:8050", TaskReadPump 3%nat) ∈ Session.started s) as Hs by (apply (list_elem_of_lookup_2 _ 3%nat); reflexivity).
  assert (Session.opened s !! 3%nat = Some 9) as Ho by reflexivity.
  clearbody s. destruct s as [w o st rn lg dl]. cbn in *. subst rn dl. eexists. split.
  - eapply Session.at_starts; [apply (Session.step_read _ _ _ _ _ _ _ _ _ _ _ 2%nat "gw:8050" 3%nat 9 1%nat); [reflexivity | exact Hs | exact Ho] |].
    gate_command (ReadMessage 3%nat) (@Ok string "hi all"); [exact I |].
    gate_command (Go (TaskGroupChat 9 "hi all")) tt; [exact I |].
    etrans; [by apply Session.at_ends |].
    eapply Session.at_starts; [apply (Session.step_task _ _ _ _ _ _ _ _ _ _ _ 3%nat "gw:8050" (TaskGroupChat 9 "hi all")); [reflexivity |] |].
    { cbn. apply elem_of_app. right. by apply list_elem_of_singleton. }
    gate_command (RedisIncr "seq:group_1:9") (@Ok Z 1); [exact I |].
    gate_command SnowflakeGenerate 100; [exact I |].
    gate_command (PublishUpload "upload.all" "up") (@Ok unit tt); [exact I |].
    by apply Session.at_ends.
  - cbn. split_and!; try reflexivity. by rewrite <- !app_assoc.
Qed.

Definition member_store : Store := (exec 0 (DInsertGroupMember 1 8) empty_store).2.

(** Statements are executed, Redis knows the gateway, the broker confirms. *)
Definition sample_env : env lg Store := fun c s =>
  match c return lg_res c * Store with
  | Dao q => exec 0 q s
  | Logic.RedisGet _ => (Ok (Some "gw:8050"), s)
  | RedisMGet ks => (Ok ((fun _ => None) <$> ks), s)
  | PublishDown _ _ | PublishVector _ _ => (Ok tt, s)
  | Logic.SnowflakeGenerate => (501, s)
  | TimeNow => (0, s)
  | _ => (tt, s)
  end.

Lemma handed_on g dl : @ev ws (PublishUpload "upload.all" "up") (Ok tt) ∈ Session.log g ->
  exists l t, rtc sample_step (mkState g member_store ∅ [] dl) (mkState g t ∅ l dl) /\
    @ev lg (PublishDown "gw:8050" "down") (Ok tt) ∈ l /\ group_members t = group_members member_store.
Proof.
  intros Hp. do 2 eexists. split.
  - eapply rtc_l; [apply (step_consume _ _ _ _ _ _ _ _ _ _ _ _ _ _ 0%nat 0%nat "up" "upload.all" (Ok tt)); [reflexivity | exact Hp] |].
    apply (logic_runs _ _ _ _ _ _ _ _ _ _ _ _ _ sample_env); [| reflexivity].
    intros [q | | | | | | | | | | | |] s; try reflexivity. left. exists 0. apply surjective_pairing.
  - split; [| vm_compute; reflexivity]. apply (list_elem_of_lookup_2 _ 6%nat). vm_compute. reflexivity.
Qed.

Lemma shown_to_member g : Session.world g = Session.world connected -> Session.running g !! 1%nat = None -> Session.delivered g = [] ->
  exists g', rtc sample_gate_step g g' /\ Session.delivered g' = ["down"] /\ Session.opened g' = Session.opened g /\
    Session.log g' = Session.log g ++ [@ev ws (CliGet "8") (Some 4%nat); @ev ws (SendMessage 4%nat "push") tt].
Proof.
  destruct g as [w o st rn lg dl]. cbn [Session.world Session.running Session.delivered Session.opened Session.log]. intros -> Hr ->. eexists. split.
  - apply (Session.consume_starts _ _ _ _ _ _ _ _ _ _ _ 1%nat "gw:8050" ["down"]); [exact Hr |]. Session.fields.
    gate_command (CliGet "8") (Some 4%nat); [vm_compute; reflexivity |].
    gate_command (SendMessage 4%nat "push") tt; [exact I |].
    by apply Session.at_ends.
  - cbn. split_and!; try reflexivity. by rewrite <- !app_assoc.
Qed.

Notation no_unread := (fun e : event ws => match e with existT (RpcSyncUnread _ _) (Ok l) => l = [] | _ => True end).
Lemma no_unread_synced st g :
  (forall u, GetUnreadMessages u (tables st) = Success []) -> Forall no_unread (Session.log g) -> synced st g.
Proof.
  intros Ht Hl key u l He. right. exists []. split; [apply Ht |]. exact (proj1 (Forall_forall _ _) Hl _ He).
Qed.

Lemma outsider_is_heard : exists st, sample_reachable st /\
  @ev ws (SendMessage 4%nat "push") tt ∈ Session.log (gates st) /\ Session.opened (gates st) !! 4%nat = Some 8 /\
  Session.typed (gates st) 9 "hi all" /\ group_members (tables st) !! (1, 9) = None.
Proof.
  destruct written_to_group as (g & Hg & Hd & Hw & Ho & Hl & Hr).
  destruct (handed_on g []) as (l & t & Hrun & Hp & Hm).
  { rewrite Hl. apply elem_of_app. right. apply (list_elem_of_lookup_2 _ 4%nat). reflexivity. }
  destruct (shown_to_member g Hw Hr Hd) as (g' & Hg' & Hd' & Ho' & Hl').
  assert (Forall no_unread (Session.log connected ++ group_log)) as Hn by (repeat constructor).
  exists (mkState g' t ∅ l []). split.
  - unfold reachable. etrans; [apply (gates_run _ _ _ _ _ _ _ _ _ _ _ _ _ init connected both_connect) |].
    { intros b Hb. by apply not_elem_of_nil in Hb. }
    { apply no_unread_synced; [done |]. by apply Forall_app in Hn as [Hn _]. }
    eapply rtc_l; [by apply (step_statement _ _ _ _ _ _ _ _ _ _ _ _ _ _ 0 (DInsertGroupMember 1 8)) |].
    etrans; [apply (gates_run _ _ _ _ _ _ _ _ _ _ _ _ _ _ g); [exact Hg | | ] |].
    { intros b Hb. rewrite Hd in Hb. by apply not_elem_of_nil in Hb. }
    { apply no_unread_synced; [done |]. by rewrite Hl. }
    etrans; [exact Hrun |].
    apply (gates_run _ _ _ _ _ _ _ _ _ _ _ _ _ (mkState g t ∅ l []) g'); [exact Hg' | |].
    + intros b. rewrite Hd'. intros ->%list_elem_of_singleton. right. left. by exists "gw:8050", (Ok tt).
    + intros key u ms. rewrite Hl'. intros [He | He]%elem_of_app; [by left |].
      assert (Forall (fun e : event ws => match e with existT (RpcSyncUnread _ _) _ => False | _ => True end)
        [@ev ws (CliGet "8") (Some 4%nat); @ev ws (SendMessage 4%nat "push") tt]) as Hf by (repeat constructor).
      by apply (proj1 (Forall_forall _ _) Hf) in He.
  - cbn [gates tables]. rewrite Hl', Ho', Ho. split_and!.
    + apply elem_of_app. right. apply (list_elem_of_lookup_2 _ 1%nat). reflexivity.
    + reflexivity.
    + exists 3%nat. rewrite Ho', Ho, Hl', Hl. split; [reflexivity |]. apply elem_of_app. left. apply elem_of_app. right. by left.
    + by rewrite Hm.
Qed.

Lemma read_request_valid data req : read_request data = Ok req -> ValidString (Message req) = true.
Proof. unfold read_request. destruct (String.eqb data "hi all"); [| done]. by intros [= <-]. Qed.
Lemma sample_uploads p b : write_upload p = Ok b -> exists p', read_upload b = Ok p' /\ same_upload p p'.
Proof. unfold write_upload. case_bool_decide; [subst | done]. intros [= <-]. exists up. split; [done | by split]. Qed.
Lemma sample_downs p b : write_down p = Ok b -> exists p', read_down b = Ok p' /\ same_down p p'.
Proof. unfold write_down. case_bool_decide; [subst | done]. intros [= <-]. exists down. split; [done | by split]. Qed.

Lemma sample_no_upload p : read_upload "" <> Ok p.
Proof. done. Qed.
Lemma sample_no_down p : read_down "" <> Ok p.
Proof. done. Qed.

Notation sample_tells := (tells read_request (fun _ => Err "") write_upload (fun _ => Ok "push") id "").

Lemma nobody_is_misquoted_witness :
  exists st, sample_reachable st /\ @ev ws (SendMessage 4%nat "push") tt ∈ Session.log (gates st) /\
    (exists u, Session.opened (gates st) !! 4%nat = Some u /\ sample_tells st u "push").
Proof.
  destruct outsider_is_heard as (st & Hr & Hs & _). exists st. split; [exact Hr |]. split; [exact Hs |].
  eapply (proj1 (nobody_is_misquoted _ _ _ _ _ _ _ _ _ _ _ _ _
    read_request_valid sample_uploads sample_downs sample_no_upload sample_no_down st Hr)). exact Hs.
Defined.
End Chat.
