(* ===== verification/AgentSchema.v ===== *)
(** * The messages of the agent framework

    What the code reads and writes of eino's schema.Message. *)
From S2P Require Import Prelude GoFloat.

Inductive RoleType := Assistant | User | System | Tool.
#[export] Instance RoleType_eq_dec : EqDecision RoleType.
Proof. solve_decision. Defined.

Record ToolCall := mkToolCall {
  tcID : string;
  tcType : string;
  tcName : string;
  tcArguments : string;
}.

Record Message := mkMessage {
  Role : RoleType;
  Content : string;
  ReasoningContent : string;
  ToolCalls : list ToolCall;
  ToolName : string;
  FinishReason : option string;      (* ResponseMeta; None is nil *)
}.
#[export] Instance ToolCall_eq_dec : EqDecision ToolCall.
Proof. solve_decision. Defined.
#[export] Instance Message_eq_dec : EqDecision Message.
Proof. solve_decision. Defined.

(** schema.SystemMessage, UserMessage, AssistantMessage *)
Definition SystemMessage (content : string) : Message := mkMessage System content "" [] "" None.
Definition UserMessage (content : string) : Message := mkMessage User content "" [] "" None.
Definition AssistantMessage (content : string) (calls : list ToolCall) : Message :=
  mkMessage Assistant content "" calls "" None.

(** The arguments of a tool called over MCP: a JSON value, of which the code reads
    numbers (float64) and texts. *)
Inductive any := Number (f : float64) | Text (s : string) | Other.

Definition number (args : gmap string any) (k : string) : option float64 :=
  match args !! k with Some (Number f) => Some f | _ => None end.
Definition text (args : gmap string any) (k : string) : option string :=
  match args !! k with Some (Text s) => Some s | _ => None end.

(** A type assertion without ok panics. *)
Definition must {A} (o : option A) : outcome A :=
  match o with Some a => Ok a | None => Panic "interface conversion" end.
