(* ===== verification/Retrieval.v ===== *)
(** * Ranking for the agent: apps/agent/retrieval

    Module Fusion (fusion.go): reciprocal rank fusion, online over messages and
    offline over ids. Module Threshold (semantic_threshold.go): the score gate and
    keyword coverage. *)
From S2P Require Import Prelude GoStd GoText GoFloat GoSort Dao.

Module Fusion.

Definition DefaultRRFK : Z := 60.

(** fusionEntry, and entry of FuseRankedIDs: [A] is what travels with the id. *)
Record entry (A : Type) := mkEntry {
  payload : A;
  score : float64;
  sources : gset string;
  bestRank : Z;
}.
Arguments mkEntry {A}.
Arguments payload {A}.
Arguments score {A}.
Arguments sources {A}.
Arguments bestRank {A}.

(** 1.0 / float64(k+rank) *)
Definition weight (k rank : Z) : float64 := fdiv f1 (of_Z (int64 (k + rank))).

Definition bump {A} (k : Z) (source : string) (rank : Z) (e : entry A) : entry A :=
  mkEntry (payload e) (fadd (score e) (weight k rank)) ({[source]} ∪ sources e)
    (if rank <? bestRank e then rank else bestRank e).

(** One ranked list: only the first occurrence of an id counts. *)
Fixpoint add {A} (k : Z) (source : string) (rank : Z) (seen : gset Z) (l : list (Z * A))
    (entries : gmap Z (entry A)) : gmap Z (entry A) :=
  match l with
  | [] => entries
  | (id, a) :: rest =>
      if decide (id ∈ seen) then add k source (rank + 1) seen rest entries
      else
        let e := default (mkEntry a f0 ∅ rank) (entries !! id) in
        add k source (rank + 1) ({[id]} ∪ seen) rest (<[id := bump k source rank e]> entries)
  end.

(** The comparison both functions sort by: score, best rank, id. *)
Definition better {A} (x y : Z * entry A) : bool :=
  if negb (feq (score x.2) (score y.2)) then flt (score y.2) (score x.2)
  else if negb (bestRank x.2 =? bestRank y.2) then bestRank x.2 <? bestRank y.2
  else x.1 <? y.1.

Definition effective_k (k : Z) : Z := if k <=? 0 then DefaultRRFK else k.

(** RankedIDs *)
Record RankedIDs := mkRanked { Source : string; IDs : list Z }.

(** FusedID *)
Record FusedID := mkFusedID { fID : Z; fScore : float64; fSources : list string }.

Definition fused_id {A} (x : Z * entry A) : FusedID :=
  mkFusedID x.1 (score x.2) (sort_Strings (elements (sources x.2))).

Definition with_unit (id : Z) : Z * unit := (id, tt).

Definition rank_all (k : Z) (lists : list RankedIDs) : gmap Z (entry unit) :=
  foldl (fun es l => add k (Source l) 1 ∅ (with_unit <$> IDs l) es) ∅ lists.

Definition FuseRankedIDs (k : Z) (lists : list RankedIDs) : list FusedID :=
  fused_id <$> sort_Slice better (map_to_list (rank_all (effective_k k) lists)).

(** FusedMessage *)
Record FusedMessage := mkFused { fmMessage : Messages; fmScore : float64; fmSources : list string }.

Definition fused_message (x : Z * entry Messages) : FusedMessage :=
  mkFused (payload x.2) (score x.2) (sort_Strings (elements (sources x.2))).

Definition with_id (m : Messages) : Z * Messages := (mMsgId m, m).

Definition message_entries (fulltext milvus : list Messages) (k : Z) : gmap Z (entry Messages) :=
  add k "milvus" 1 ∅ (with_id <$> milvus) (add k "fulltext" 1 ∅ (with_id <$> fulltext) ∅).

Definition FuseMessages (fulltext milvus : list Messages) (k : Z) : list FusedMessage :=
  fused_message <$> sort_Slice better (map_to_list (message_entries fulltext milvus (effective_k k))).

(** SourceLabel *)
Definition SourceLabel (m : FusedMessage) : string := Join (fmSources m) "+".

(** A message for each id, the last one of the list. *)
Definition byID (messages : list Messages) : gmap Z Messages :=
  foldl (fun t m => <[mMsgId m := m]> t) ∅ messages.

Fixpoint pick (t : gmap Z Messages) (ids : list Z) : list Messages :=
  match ids with
  | [] => []
  | id :: rest =>
      match t !! id with
      | Some m => m :: pick (delete id t) rest
      | None => pick t rest
      end
  end.

Definition OrderMessagesByIDs (messages : list Messages) (ids : list Z) : list Messages :=
  pick (byID messages) ids.

(** ** What the fused list is *)

(** The rank of an id in a list, counted from [r]. *)
Fixpoint rank_from (r : Z) (id : Z) (l : list Z) : option Z :=
  match l with
  | [] => None
  | i :: rest => if i =? id then Some r else rank_from (r + 1) id rest
  end.

(** The reciprocal-rank score of an id, summed in the order of the lists. *)
Definition rrf (k id : Z) (lists : list RankedIDs) : float64 :=
  foldl (fun s l => match rank_from 1 id (IDs l) with
                    | Some r => fadd s (weight k r) | None => s end) f0 lists.

Definition best_step (id : Z) (b : option Z) (l : RankedIDs) : option Z :=
  match rank_from 1 id (IDs l), b with
  | Some r, Some b => Some (if r <? b then r else b)
  | Some r, None => Some r
  | None, b => b
  end.
Definition best_rank (id : Z) (lists : list RankedIDs) : option Z :=
  foldl (best_step id) None lists.

Definition sources_of (id : Z) (lists : list RankedIDs) : gset string :=
  foldl (fun ss l => match rank_from 1 id (IDs l) with
                     | Some _ => {[Source l]} ∪ ss | None => ss end) ∅ lists.

(** What an id's entry becomes when its list gives it rank [r]. *)
Definition hit {A} (k : Z) (source : string) (a : A) (r : Z) (e : option (entry A)) : entry A :=
  bump k source r (default (mkEntry a f0 ∅ r) e).

Lemma add_lookup_unit k source r seen l es id :
  add k source r seen (with_unit <$> l) es !! id =
  match (if decide (id ∈ seen) then None else rank_from r id l) with
  | Some r' => Some (hit k source tt r' (es !! id))
  | None => es !! id
  end.
Proof.
  revert r seen es. induction l as [| i l IH]; intros r seen es; cbn; [by case_decide |].
  destruct (decide (i ∈ seen)) as [Hi | Hi]; rewrite IH.
  - destruct (decide (id ∈ seen)) as [|Hid]; [done |].
    destruct (Z.eqb_spec i id) as [-> |]; [done |]. done.
  - destruct (Z.eqb_spec i id) as [-> | Hne].
    + rewrite (decide_True (P := id ∈ {[id]} ∪ seen)) by set_solver.
      rewrite lookup_insert_eq, decide_False by done. done.
    + rewrite lookup_insert_ne by done.
      destruct (decide (id ∈ seen)), (decide (id ∈ {[i]} ∪ seen)); try done; set_solver.
Qed.

Lemma rank_from_elem r id l : is_Some (rank_from r id l) <-> id ∈ l.
Proof.
  revert r. induction l as [| i l IH]; intros r; cbn.
  - split; [intros [? [=]] | by intros ?%elem_of_nil].
  - rewrite elem_of_cons. destruct (Z.eqb_spec i id) as [-> |]; [split; eauto |].
    rewrite IH. split; [by right | by intros [-> |]].
Qed.

Lemma rank_from_range r id l r' : rank_from r id l = Some r' -> r <= r' < r + len l.
Proof.
  revert r. induction l as [| i l IH]; intros r; cbn; [done |].
  unfold len in *. cbn [length]. destruct (i =? id); intros; simplify_eq; [lia |].
  specialize (IH (r + 1) H). lia.
Qed.

(** The entries hold, for every id of some list, its score, its sources and its best rank. *)
Lemma rank_all_lookup k lists id :
  rank_all k lists !! id =
  (fun b => mkEntry tt (rrf k id lists) (sources_of id lists) b) <$> best_rank id lists /\
  (best_rank id lists = None -> rrf k id lists = f0 /\ sources_of id lists = ∅).
Proof.
  unfold rank_all, rrf, best_rank, sources_of.
  induction lists as [| l lists [IH IH0]] using rev_ind; [done |].
  rewrite !foldl_app. cbn [foldl]. rewrite add_lookup_unit, decide_False by set_solver.
  unfold best_step at 1 3. set (best := foldl (best_step id) None lists) in *.
  destruct (rank_from 1 id (IDs l)) as [r |]; [| done].
  split; [| by destruct best]. rewrite IH.
  destruct best as [b |]; cbn; [done |].
  destruct IH0 as [-> ->]; [done |]. unfold hit, bump. cbn. by rewrite Z.ltb_irrefl.
Qed.

Lemma best_rank_elem id lists : is_Some (best_rank id lists) <-> exists l, l ∈ lists /\ id ∈ IDs l.
Proof.
  unfold best_rank. induction lists as [| l lists IH] using rev_ind.
  - split; [by intros [] | by intros (? & ?%elem_of_nil & _)].
  - rewrite foldl_app. cbn [foldl].
    assert (forall b, is_Some (best_step id b l) <-> is_Some b \/ id ∈ IDs l) as ->.
    { intros b. rewrite <- (rank_from_elem 1). unfold best_step.
      destruct (rank_from 1 id (IDs l)), b; rewrite ?is_Some_alt; tauto. }
    rewrite IH. set_solver.
Qed.

(** ** The order *)

Lemma better_asym {A} (x y : Z * entry A) : better x y = true -> better y x = false.
Proof.
  unfold better, feq, flt, SFeqb, SFltb.
  assert (SFcompare (score y.2) (score x.2) = CompOpp <$> SFcompare (score x.2) (score y.2)) as ->.
  { destruct (score x.2) as [[] | [] | | [] m e], (score y.2) as [[] | [] | | [] m' e']; try done; cbn;
      rewrite (Z.compare_antisym e e'); destruct (e ?= e'); cbn; try done;
      change (Pos.compare_cont Eq m m') with (Pos.compare m m');
      change (Pos.compare_cont Eq m' m) with (Pos.compare m' m);
      rewrite (Pos.compare_antisym m m'); by destruct (Pos.compare m m'). }
  destruct (SFcompare (score x.2) (score y.2)) as [[] |]; cbn; try done.
  rewrite (Z.eqb_sym (bestRank y.2)). destruct (Z.eqb_spec (bestRank x.2) (bestRank y.2)); cbn; lia.
Qed.

(** Entries whose scores are numbers. *)
Definition scored {A} (l : list (Z * entry A)) : Prop := forall x, x ∈ l -> fwf (score x.2) = true.

Lemma not_after_key {A} (x y : Z * entry A) :
  fwf (score x.2) = true -> fwf (score y.2) = true ->
  not_after better x y <->
  lex_lt (fkey (score y.2)) (fkey (score x.2)) \/
  fkey (score x.2) = fkey (score y.2) /\
    (bestRank x.2 < bestRank y.2 \/ bestRank x.2 = bestRank y.2 /\ x.1 <= y.1).
Proof.
  intros Hx Hy. unfold not_after, better.
  pose proof (feq_key _ _ Hy Hx) as He. pose proof (flt_key _ _ Hx Hy) as Hl.
  destruct (SFcompare_key _ _ Hx Hy) as (c & Ec & Hc). unfold lex_lt in *.
  destruct (feq (score y.2) (score x.2)); cbn.
  - destruct He as [He _]. specialize (He eq_refl). rewrite He.
    destruct (Z.eqb_spec (bestRank y.2) (bestRank x.2)) as [-> |]; cbn;
      rewrite Z.ltb_ge; (split; [intros; right; split; [done | lia] | intros [? | [_ ?]]; lia]).
  - destruct (flt (score x.2) (score y.2)).
    + split; [done |]. intros H. destruct Hl as [Hl _]. specialize (Hl eq_refl).
      destruct (fkey (score x.2)), (fkey (score y.2)); cbn in *. destruct H as [H | [[= -> ->] H]]; lia.
    + split; [intros _ | done]. left. destruct c; [| | done].
      * destruct He as [_ He]. by discriminate He.
      * destruct Hl as [_ Hl]. by discriminate Hl.
Qed.

Lemma better_weak_order {A} (l : list (Z * entry A)) : scored l -> weak_order_on better l.
Proof.
  intros Hs x y z Hx Hy Hz. rewrite !not_after_key by auto. unfold lex_lt.
  destruct (fkey (score x.2)), (fkey (score y.2)), (fkey (score z.2)); cbn.
  intros [H1 | [[= -> ->] H1]] [H2 | [[= -> ->] H2]]; [left | left | left | right]; try lia.
  split; [done | lia].
Qed.

Lemma better_separates {A} (l : list (Z * entry A)) :
  scored l -> NoDup l.*1 -> separates better l.
Proof.
  intros Hs Hn x y Hx Hy. rewrite !not_after_key by auto. unfold lex_lt. intros H1 H2.
  assert (x.1 = y.1) as E.
  { destruct (fkey (score x.2)), (fkey (score y.2)); cbn in *.
    destruct H1 as [H1 | [[= -> ->] H1]], H2 as [H2 | [H2' H2]]; try lia; simplify_eq; lia. }
  apply list_elem_of_lookup in Hx as [i Hi], Hy as [j Hj].
  assert (i = j) as -> by (eapply NoDup_lookup; [exact Hn | ..]; rewrite list_lookup_fmap, ?Hi, ?Hj; cbn; by rewrite ?E).
  congruence.
Qed.

Lemma sort_better_strict {A} (l : list (Z * entry A)) :
  scored l -> NoDup l.*1 -> StronglySorted (fun x y => better x y = true) (sort_Slice better l).
Proof.
  intros Hs Hn.
  assert (NoDup (sort_Slice better l)) as Hd.
  { rewrite sort_Slice_perm. by eapply NoDup_fmap_1. }
  pose proof (better_separates l Hs Hn) as Hsep.
  apply (separates_perm _ _ (sort_Slice better l)) in Hsep; [| by rewrite sort_Slice_perm].
  pose proof (sort_Slice_sorted _ better_asym l (better_weak_order l Hs)) as Hsort.
  revert Hd Hsep Hsort. generalize (sort_Slice better l) as k. induction k as [| x k IH]; [constructor |].
  intros [Hx Hd]%NoDup_cons Hsep [Hk Hxk]%StronglySorted_inv. constructor.
  - apply IH; [done | | done]. intros a b Ha Hb. apply Hsep; by right.
  - rewrite Forall_forall in *. intros y Hy. destruct (better x y) eqn:E; [done |].
    rewrite (Hsep x y) in Hx; [done | by left | by right | by apply Hxk | done].
Qed.

Lemma weight_pos k r : 0 < k + r < 2 ^ 63 -> fpos (weight k r) = true.
Proof.
  intros H. unfold weight. rewrite int64_id by (unfold is_int64; lia).
  apply fdiv_pos; [done | apply of_Z_pos; lia | done].
Qed.

(** Room for the ranks in an int. *)
Definition fits (k : Z) (lists : list RankedIDs) : Prop :=
  forall l, l ∈ lists -> k + len (IDs l) < 2 ^ 63.

Lemma rrf_pos k id lists : 0 < k -> fits k lists -> fpos (rrf k id lists) = true.
Proof.
  intros Hk. unfold rrf. induction lists as [| l lists IH] using rev_ind; intros Hf; [done |].
  rewrite foldl_app. cbn [foldl].
  assert (fpos (foldl (fun s l => match rank_from 1 id (IDs l) with
                    | Some r => fadd s (weight k r) | None => s end) f0 lists) = true) as Hl.
  { apply IH. intros l' ?. apply Hf. set_solver. }
  destruct (rank_from 1 id (IDs l)) as [r |] eqn:E; [| done].
  apply fadd_pos; [done |]. apply weight_pos.
  apply rank_from_range in E. specialize (Hf l ltac:(set_solver)). lia.
Qed.

Lemma rank_all_scored k lists : 0 < k -> fits k lists -> scored (map_to_list (rank_all k lists)).
Proof.
  intros Hk Hf [id e] He%elem_of_map_to_list. rewrite (proj1 (rank_all_lookup _ _ _)) in He.
  destruct (best_rank id lists); simplify_eq/=. by apply fpos_wf, rrf_pos.
Qed.

Lemma effective_k_pos k : 0 < effective_k k.
Proof. unfold effective_k, DefaultRRFK. destruct (Z.leb_spec k 0); lia. Qed.

(** One id is ranked before another: by score, by best rank, by id. *)
Definition ranked_before (k : Z) (lists : list RankedIDs) (i j : Z) : Prop :=
  let s id := rrf k id lists in
  let b id := default 0 (best_rank id lists) in
  (feq (s i) (s j) = false /\ flt (s j) (s i) = true) \/
  (feq (s i) (s j) = true /\ (b i < b j \/ b i = b j /\ i < j)).

Lemma better_ranked k lists x y :
  x ∈ map_to_list (rank_all k lists) -> y ∈ map_to_list (rank_all k lists) ->
  better x y = true -> ranked_before k lists x.1 y.1.
Proof.
  destruct x as [i e], y as [j e']. rewrite !elem_of_map_to_list. cbn [fst].
  rewrite !(proj1 (rank_all_lookup _ _ _)). unfold ranked_before, better. cbn [fst snd].
  destruct (best_rank i lists), (best_rank j lists); cbn; intros; simplify_eq/=.
  destruct (feq _ _); cbn in *; [right | by left]. split; [done |].
  destruct (Z.eqb_spec z z0); cbn in *; lia.
Qed.

(** The fused ranking: however the map of entries is iterated, the ids of the
    lists come out once each, with the reciprocal-rank sum of the lists that
    contain them, their sources in order, and ranked by score, then best rank,
    then id. *)
Theorem fused_ranking k lists :
  fits (effective_k k) lists ->
  let res := FuseRankedIDs k lists in
  NoDup (fID <$> res) /\
  (forall id, id ∈ fID <$> res <-> exists l, l ∈ lists /\ id ∈ IDs l) /\
  (forall x, x ∈ res ->
     fScore x = rrf (effective_k k) (fID x) lists /\
     fSources x = sort_Strings (elements (sources_of (fID x) lists))) /\
  StronglySorted (ranked_before (effective_k k) lists) (fID <$> res) /\
  (forall order, order ≡ₚ map_to_list (rank_all (effective_k k) lists) ->
     fused_id <$> sort_Slice better order = res).
Proof.
  intros Hf res. pose proof (effective_k_pos k) as Hk. unfold res, FuseRankedIDs.
  set (es := map_to_list (rank_all _ lists)).
  pose proof (rank_all_scored _ _ Hk Hf) as Hs. fold es in Hs.
  assert (NoDup es.*1) as Hn by apply NoDup_fst_map_to_list.
  rewrite <- !list_fmap_compose.
  assert (fID ∘ fused_id <$> sort_Slice better es = (sort_Slice better es).*1) as -> by done.
  split; [by rewrite sort_Slice_perm |]. split; [| split; [| split]].
  - intros id. rewrite sort_Slice_perm, <- best_rank_elem. unfold es.
    rewrite list_elem_of_fmap. split.
    + intros ([i e] & -> & He%elem_of_map_to_list). rewrite (proj1 (rank_all_lookup _ _ _)) in He. cbn.
      destruct (best_rank i lists); [by eexists | done].
    + intros [b Hb]. eexists (id, _). split; [done |]. apply elem_of_map_to_list.
      rewrite (proj1 (rank_all_lookup _ _ _)), Hb. done.
  - intros x ([id e] & -> & He)%list_elem_of_fmap. rewrite sort_Slice_perm in He. unfold es in He.
    apply elem_of_map_to_list in He. rewrite (proj1 (rank_all_lookup _ _ _)) in He.
    destruct (best_rank id lists); by simplify_eq/=.
  - pose proof (sort_better_strict es Hs Hn) as Hst.
    assert (forall x, x ∈ sort_Slice better es -> x ∈ es) as Hin by (intros x; by rewrite sort_Slice_perm).
    revert Hst Hin. generalize (sort_Slice better es) as L. induction L as [| x L IH]; [constructor |].
    intros [HL Hx]%StronglySorted_inv Hin. constructor; [apply IH; [done |]; intros; apply Hin; by right |].
    apply Forall_fmap, Forall_forall. intros y Hy. rewrite Forall_forall in Hx.
    apply better_ranked; [apply Hin; by left | apply Hin; by right | by apply Hx].
  - intros order Ho. f_equal. symmetry. apply sort_Slice_proper; [apply better_asym | | | by rewrite Ho].
    + by apply better_weak_order.
    + by apply better_separates.
Qed.

(** *** Online and offline agree *)

Definition forget {A} (e : entry A) : entry unit := mkEntry tt (score e) (sources e) (bestRank e).

Lemma add_forget {A} k source r seen (l : list (Z * A)) es :
  forget <$> add k source r seen l es = add k source r seen (with_unit <$> l.*1) (forget <$> es).
Proof.
  revert r seen es. induction l as [| [i a] l IH]; intros r seen es; cbn; [done |].
  case_decide; rewrite IH; [done |]. f_equal. rewrite fmap_insert. f_equal.
  rewrite lookup_fmap. by destruct (es !! i).
Qed.

Definition forget_pair {A} (x : Z * entry A) : Z * entry unit := (x.1, forget x.2).

(** Sorting does not look at the payload. *)
Lemma sort_forget {A} (l : list (Z * entry A)) :
  scored l -> NoDup l.*1 -> sort_Slice better (forget_pair <$> l) = forget_pair <$> sort_Slice better l.
Proof.
  intros Hs Hn.
  assert (scored (forget_pair <$> l)) as Hs'.
  { intros x (y & -> & Hy)%list_elem_of_fmap. by apply Hs. }
  assert (NoDup (forget_pair <$> l).*1) as Hn' by by rewrite <- list_fmap_compose.
  symmetry. apply sort_Slice_unique.
  - apply better_asym.
  - by apply better_weak_order.
  - by apply better_separates.
  - by rewrite sort_Slice_perm.
  - pose proof (sort_Slice_sorted _ better_asym l (better_weak_order l Hs)) as H.
    induction H as [| x L HL IH Hx]; [constructor |]. constructor; [done |].
    apply Forall_fmap. by eapply Forall_impl; [exact Hx |].
Qed.

Definition forget_message (m : FusedMessage) : FusedID :=
  mkFusedID (mMsgId (fmMessage m)) (fmScore m) (fmSources m).

(** What holds of the messages holds of the payloads, with their ids. *)
Lemma add_payload (P : Z -> Messages -> Prop) k source r seen ms es :
  (forall id e, es !! id = Some e -> P id (payload e)) ->
  (forall m, m ∈ ms -> P (mMsgId m) m) ->
  forall id e, add k source r seen (with_id <$> ms) es !! id = Some e -> P id (payload e).
Proof.
  revert r seen es. induction ms as [| m ms IH]; intros r seen es Hes Hms; cbn; [done |].
  assert (forall m, m ∈ ms -> P (mMsgId m) m) as Hms' by (intros; apply Hms; by right).
  case_decide; [by apply IH |]. apply IH; [| done]. intros id e.
  destruct (decide (id = mMsgId m)) as [-> | Hne].
  - rewrite lookup_insert_eq. intros [= <-]. cbn.
    destruct (es !! mMsgId m) eqn:E; cbn; [by apply Hes | apply Hms; by left].
  - rewrite lookup_insert_ne by done. apply Hes.
Qed.

Lemma message_entries_payload fulltext milvus k id e :
  message_entries fulltext milvus k !! id = Some e ->
  mMsgId (payload e) = id /\ payload e ∈ fulltext ++ milvus.
Proof.
  revert id e. apply (add_payload (fun id m => mMsgId m = id /\ m ∈ fulltext ++ milvus)); [| set_solver].
  apply (add_payload (fun id m => mMsgId m = id /\ m ∈ fulltext ++ milvus)); [| set_solver].
  intros id e. by rewrite lookup_empty.
Qed.

Lemma message_entries_forget fulltext milvus k :
  forget <$> message_entries fulltext milvus k =
  rank_all k [mkRanked "fulltext" (mMsgId <$> fulltext); mkRanked "milvus" (mMsgId <$> milvus)].
Proof.
  unfold message_entries, rank_all. cbn [foldl Source IDs]. rewrite !add_forget, fmap_empty.
  by rewrite <- !list_fmap_compose.
Qed.

(** What the offline evaluation ranks is what the tool shows: fusing messages is
    fusing their ids under the two sources, message by message. *)
Theorem fuse_messages_is_fuse_ids fulltext milvus k :
  let lists := [mkRanked "fulltext" (mMsgId <$> fulltext); mkRanked "milvus" (mMsgId <$> milvus)] in
  fits (effective_k k) lists ->
  forget_message <$> FuseMessages fulltext milvus k = FuseRankedIDs k lists /\
  (forall x, x ∈ FuseMessages fulltext milvus k -> fmMessage x ∈ fulltext ++ milvus).
Proof.
  intros lists Hf. pose proof (effective_k_pos k) as Hk.
  pose proof (message_entries_payload fulltext milvus (effective_k k)) as Hp.
  pose proof (message_entries_forget fulltext milvus (effective_k k)) as He. fold lists in He.
  pose proof (rank_all_scored _ _ Hk Hf) as Hs. unfold FuseMessages, FuseRankedIDs.
  set (E := message_entries _ _ _) in *.
  assert (forget_pair <$> map_to_list E ≡ₚ map_to_list (rank_all (effective_k k) lists)) as HE.
  { rewrite <- He, map_to_list_fmap. apply reflexive_eq, list_fmap_ext. by intros ? [] _. }
  assert (scored (map_to_list E)) as HsE.
  { intros x Hx. apply (Hs (forget_pair x)). rewrite <- HE. by apply list_elem_of_fmap_2. }
  split.
  - rewrite <- (sort_Slice_proper better better_asym (forget_pair <$> map_to_list E)).
    + rewrite sort_forget by (done || apply NoDup_fst_map_to_list). rewrite <- !list_fmap_compose.
      apply list_fmap_ext. intros i [id e] Hi. cbn. unfold forget_message, fused_id. cbn.
      apply list_elem_of_lookup_2 in Hi. rewrite sort_Slice_perm in Hi.
      apply elem_of_map_to_list, Hp in Hi as [-> _]. done.
    + eapply weak_order_perm; [symmetry; exact HE |]. by apply better_weak_order.
    + eapply separates_perm; [symmetry; exact HE |]. apply better_separates; [done |].
      apply NoDup_fst_map_to_list.
    + done.
  - intros x ([id e] & -> & Hx)%list_elem_of_fmap. rewrite sort_Slice_perm in Hx.
    apply elem_of_map_to_list, Hp in Hx. apply Hx.
Qed.

Definition sample_lists : list RankedIDs :=
  [mkRanked "fulltext" [1; 2; 2; 3]; mkRanked "milvus" [3; 4]].

Lemma fused_ranking_witness :
  fits (effective_k 0) sample_lists /\ fID <$> FuseRankedIDs 0 sample_lists = [3; 1; 2; 4] /\
  NoDup (fID <$> FuseRankedIDs 0 sample_lists).
Proof.
  assert (fits (effective_k 0) sample_lists) as Hf.
  { intros l. unfold sample_lists. rewrite !elem_of_cons, elem_of_nil. intros [-> | [-> | []]]; vm_compute; done. }
  split; [exact Hf |]. split; [by vm_compute |]. exact (proj1 (fused_ranking 0 sample_lists Hf)).
Defined.

Definition hello (id : Z) : Messages := mkMessages id 0 1 2 0 false "hello" 0 0.

Lemma fuse_messages_is_fuse_ids_witness :
  let lists := [mkRanked "fulltext" [1]; mkRanked "milvus" [2]] in
  fits (effective_k 5) lists /\
  forget_message <$> FuseMessages [hello 1] [hello 2] 5 = FuseRankedIDs 5 lists.
Proof.
  intros lists.
  assert (fits (effective_k 5) lists) as Hf.
  { intros l. unfold lists. rewrite !elem_of_cons, elem_of_nil. intros [-> | [-> | []]]; vm_compute; done. }
  split; [exact Hf |]. exact (proj1 (fuse_messages_is_fuse_ids [hello 1] [hello 2] 5 Hf)).
Defined.

(** *** The order of the vector search, after the lookup in MySQL *)

(** Every message of the table is stored under its own id. *)
Definition keyed (t : gmap Z Messages) : Prop := forall id m, t !! id = Some m -> mMsgId m = id.

Lemma byID_lookup messages id :
  byID messages !! id = last (filter (fun m => mMsgId m = id) messages).
Proof.
  unfold byID. induction messages as [| m messages IH] using rev_ind; [done |].
  rewrite foldl_app, filter_app. cbn [foldl]. rewrite filter_cons, filter_nil.
  case_decide as E; [subst | rewrite app_nil_r].
  - by rewrite lookup_insert_eq, last_snoc.
  - by rewrite lookup_insert_ne.
Qed.

Lemma byID_keyed messages : keyed (byID messages).
Proof.
  intros id m. rewrite byID_lookup. intros H%last_Some_elem_of.
  by apply list_elem_of_filter in H as [-> _].
Qed.

Lemma pick_spec t ids :
  keyed t ->
  (mMsgId <$> pick t ids) `sublist_of` ids /\ NoDup (mMsgId <$> pick t ids) /\
  (forall m, m ∈ pick t ids <-> mMsgId m ∈ ids /\ t !! mMsgId m = Some m).
Proof.
  revert t. induction ids as [| id ids IH]; intros t Ht; cbn.
  - split; [done |]. split; [constructor |]. intros m. rewrite !elem_of_nil. tauto.
  - destruct (t !! id) as [m |] eqn:E.
    + assert (keyed (delete id t)) as Hd by (intros i x; rewrite lookup_delete_Some; intros [_ ?]; auto).
      destruct (IH _ Hd) as (H1 & H2 & H3). pose proof (Ht _ _ E) as Hm. cbn. rewrite Hm.
      split; [by apply sublist_skip |]. split.
      * constructor; [| done]. intros (x & Hx & Hin)%list_elem_of_fmap.
        apply H3 in Hin as [_ Hin]. rewrite <- Hx, lookup_delete_eq in Hin. done.
      * intros x. rewrite !elem_of_cons, H3, lookup_delete_Some. split.
        -- intros [-> | (Hin & _ & Hx)]; [rewrite Hm; auto | auto].
        -- intros [[Hx | Hin] Hl]; [left; congruence |].
           destruct (decide (id = mMsgId x)) as [-> |]; [left; congruence | right; auto].
    + destruct (IH t Ht) as (H1 & H2 & H3). split; [by apply sublist_cons |]. split; [done |].
      intros x. rewrite H3, elem_of_cons. split; [tauto |]. intros [[Hx | ?] Hl]; [congruence | done].
Qed.

(** It gives no row but those found, and none but of the ids asked for. *)
Lemma ordered_found messages ids m :
  m ∈ OrderMessagesByIDs messages ids -> m ∈ messages /\ mMsgId m ∈ ids.
Proof.
  intros Hm. unfold OrderMessagesByIDs in Hm. apply (pick_spec _ ids (byID_keyed messages)) in Hm as [Hi Hm].
  rewrite byID_lookup in Hm. apply last_Some_elem_of, list_elem_of_filter in Hm as [_ Hm]. done.
Qed.

(** OrderMessagesByIDs puts the rows MySQL found into the order of the vector
    search: each found id once, at its first rank, with its row and no other. *)
Theorem order_restores_rank messages ids :
  NoDup (mMsgId <$> messages) ->
  let r := OrderMessagesByIDs messages ids in
  (mMsgId <$> r) `sublist_of` ids /\ NoDup (mMsgId <$> r) /\
  r ≡ₚ filter (fun m => mMsgId m ∈ ids) messages.
Proof.
  intros Hn r. destruct (pick_spec (byID messages) ids (byID_keyed messages)) as (H1 & H2 & H3).
  split; [done |]. split; [done |]. apply NoDup_Permutation.
  - by eapply NoDup_fmap_1.
  - apply NoDup_filter. by eapply NoDup_fmap_1.
  - intros m. unfold r, OrderMessagesByIDs. rewrite H3, list_elem_of_filter. f_equiv.
    rewrite byID_lookup. split.
    + intros H%last_Some_elem_of. by apply list_elem_of_filter in H as [_ H].
    + intros Hm. assert (filter (fun x => mMsgId x = mMsgId m) messages ≡ₚ [m]) as ->%Permutation_singleton_r; [| done].
      apply NoDup_Permutation; [apply NoDup_filter; by eapply NoDup_fmap_1 | apply NoDup_singleton |].
      intros x. rewrite list_elem_of_filter, list_elem_of_singleton. split; [| by intros ->].
      intros [Hx Hin]. apply list_elem_of_lookup in Hm as [i Hi], Hin as [j Hj].
      assert (i = j) as ->; [| congruence].
      eapply NoDup_lookup; [exact Hn | ..]; rewrite list_lookup_fmap, ?Hi, ?Hj; cbn; by rewrite ?Hx.
Qed.

Lemma order_restores_rank_witness :
  NoDup (mMsgId <$> [hello 1; hello 2; hello 3]) /\
  OrderMessagesByIDs [hello 1; hello 2; hello 3] [3; 7; 1; 3] = [hello 3; hello 1] /\
  (mMsgId <$> OrderMessagesByIDs [hello 1; hello 2; hello 3] [3; 7; 1; 3]) `sublist_of` [3; 7; 1; 3].
Proof.
  assert (NoDup (mMsgId <$> [hello 1; hello 2; hello 3])) as H by (cbn; repeat constructor; set_solver).
  split; [exact H |]. split; [by vm_compute |].
  exact (proj1 (order_restores_rank [hello 1; hello 2; hello 3] [3; 7; 1; 3] H)).
Defined.
End Fusion.

Module Threshold.

(** What the code reads of a schema.Document. *)
Record Document := mkDoc {
  docID : string;
  docContent : string;
  docScore : float64;
}.

(** 0.67 *)
Definition MinMessageSemanticScore : float64 := flit 67 100.

(** Documents come as pointers: [None] is nil. *)
Definition passes (minScore : float64) (d : option Document) : bool :=
  match d with Some d => fle minScore (docScore d) | None => false end.

Definition FilterDocumentsByScore (documents : list (option Document)) (minScore : float64)
    : list (option Document) :=
  filter (fun d => passes minScore d) documents.

Section coverage.
(** strings.ToLower *)
Variable ToLower : string -> string.

Definition covered (contents : list string) (keyword : string) : bool :=
  let term := ToLower (TrimSpace keyword) in
  String.eqb term "" || existsb (fun content => Contains (ToLower content) term) contents.

Fixpoint cover_all (contents keywords : list string) : bool :=
  match keywords with
  | [] => true
  | k :: rest => if covered contents k then cover_all contents rest else false
  end.

Definition HasContentKeywordCoverage (contents keywords : list string) : bool :=
  match contents with
  | [] => false
  | _ => cover_all contents keywords
  end.

Lemma coverage_spec contents keywords :
  HasContentKeywordCoverage contents keywords = true <->
  contents <> [] /\
  forall k, k ∈ keywords -> ToLower (TrimSpace k) = "" \/
    exists c, c ∈ contents /\ Contains (ToLower c) (ToLower (TrimSpace k)) = true.
Proof.
  assert (forall k, covered contents k = true <-> ToLower (TrimSpace k) = "" \/
    exists c, c ∈ contents /\ Contains (ToLower c) (ToLower (TrimSpace k)) = true) as Hc.
  { intros k. unfold covered. rewrite orb_true_iff, String.eqb_eq, existsb_exists.
    setoid_rewrite list_elem_of_In. done. }
  assert (cover_all contents keywords = true <-> forall k, k ∈ keywords -> covered contents k = true) as Ha.
  { induction keywords as [| k rest IH]; cbn; [split; [by intros _ ? ?%elem_of_nil | done] |].
    destruct (covered contents k) eqn:E; [rewrite IH | split; [done |]].
    - split; intros H x; [rewrite elem_of_cons; intros [-> |]; auto | intros; apply H; by right].
    - intros H. by rewrite (H k ltac:(by left)) in E. }
  unfold HasContentKeywordCoverage. destruct contents; [by split; [| intros [? _]] |].
  rewrite Ha. setoid_rewrite Hc. split; [done | by intros [_ ?]].
Qed.
End coverage.

Example weak_match_dropped :
  FilterDocumentsByScore [Some (mkDoc "1" "" (flit 66 100)); None; Some (mkDoc "2" "" (flit 67 100))]
    MinMessageSemanticScore = [Some (mkDoc "2" "" (flit 67 100))].
Proof. vm_compute. reflexivity. Qed.
End Threshold.
