(* ===== verification/Graph.v ===== *)
(** * Reranking, generation and chunking: apps/agent/graph

    Module Chunker (chunker.go): fixed-size windows over the runes of a text.
    Module Rerank (reranker.go): the prompt, the parsing of the model's answer, the
    sort. Module Pipeline (rag_graph.go): rerank and generate. *)
From S2P Require Import Prelude GoStd GoText GoFloat Effects AgentSchema.
#[local] Open Scope prog_scope.

Module Chunker.

Record FixedSizeChunker := mkChunker { ChunkSize : Z; ChunkOverlap : Z }.

Definition NewFixedSizeChunker (chunkSize overlap : Z) : FixedSizeChunker :=
  let chunkSize := if chunkSize <=? 0 then 512 else chunkSize in
  let overlap := if (overlap <? 0) || (chunkSize <=? overlap) then 50 else overlap in
  mkChunker chunkSize overlap.

(** runes[start:end] for 0 <= start <= end <= len(runes) *)
Definition slice (l : list Z) (start stop : Z) : list Z :=
  take (Z.to_nat (stop - start)) (drop (Z.to_nat start) l).

Definition step_of (c : FixedSizeChunker) : Z :=
  let step := ChunkSize c - ChunkOverlap c in
  if step <=? 0 then ChunkSize c else step.

(** for start := 0; start < len(runes); start += step; the fuel bounds the rounds. *)
Fixpoint windows (fuel : nat) (c : FixedSizeChunker) (rs : list Z) (start : Z) : option (list (list Z)) :=
  match fuel with
  | O => None
  | S k =>
      if start <? len rs then
        let stop := if len rs <? start + ChunkSize c then len rs else start + ChunkSize c in
        let w := slice rs start stop in
        if stop =? len rs then Some [w]
        else cons w <$> windows k c rs (start + step_of c)
      else Some []
  end.

(** Chunk; [None] would be a loop that never ends. *)
Definition Chunk (c : FixedSizeChunker) (content : string) : option (list string) :=
  let rs := runes content in
  if len rs <=? ChunkSize c then Some [content]
  else match windows (S (length rs)) c rs 0 with
       | Some ws => Some (of_runes <$> ws)
       | None => None
       end.

Example Chunk_ex : Chunk (NewFixedSizeChunker 4 1) "ABCDEFGHIJ" = Some ["ABCD"; "DEFG"; "GHIJ"].
Proof. vm_compute. reflexivity. Qed.

(** Put overlapping windows together again. *)
Definition stitch (overlap : Z) (ws : list (list Z)) : list Z :=
  match ws with
  | [] => []
  | w :: rest => w ++ concat (drop (Z.to_nat overlap) <$> rest)
  end.

(** What a chunker made by the constructor has. *)
Definition chunker_ok (c : FixedSizeChunker) : Prop := 0 < ChunkSize c /\ 0 <= ChunkOverlap c.

Lemma New_ok size overlap : chunker_ok (NewFixedSizeChunker size overlap).
Proof.
  unfold NewFixedSizeChunker, chunker_ok. cbn.
  destruct (Z.leb_spec size 0); destruct (Z.ltb_spec overlap 0); cbn; repeat case_match; lia.
Qed.

(** The overlap two neighbours really have. *)
Definition real_overlap (c : FixedSizeChunker) : Z := ChunkSize c - step_of c.

Lemma step_range c : chunker_ok c -> 0 < step_of c <= ChunkSize c.
Proof. intros [H1 H2]. unfold step_of. destruct (Z.leb_spec (ChunkSize c - ChunkOverlap c) 0); lia. Qed.

Lemma windows_spec fuel c rs start :
  chunker_ok c -> 0 <= start < len rs -> len rs - start < Z.of_nat fuel ->
  exists w ws, windows fuel c rs start = Some (w :: ws) /\
    len w = Z.min (ChunkSize c) (len rs - start) /\
    stitch (real_overlap c) (w :: ws) = drop (Z.to_nat start) rs /\
    Forall (fun w => w <> [] /\ len w <= ChunkSize c /\ (forall r, r ∈ w -> r ∈ rs)) (w :: ws).
Proof.
  intros Hc. pose proof (step_range c Hc) as Hs. destruct Hc as [Hc _].
  revert start. induction fuel as [| fuel IH]; intros start Hst Hf; [lia |]. cbn [windows].
  rewrite (proj2 (Z.ltb_lt _ _)) by lia. set (stop := if _ <? _ then _ else _).
  assert (stop = Z.min (len rs) (start + ChunkSize c)) as Hstop.
  { unfold stop. destruct (Z.ltb_spec (len rs) (start + ChunkSize c)); lia. }
  clearbody stop.
  assert (len (slice rs start stop) = stop - start) as Hlen.
  { unfold slice, len in *. rewrite length_take, length_drop. clear IH. lia. }
  assert (slice rs start stop <> [] /\ len (slice rs start stop) <= ChunkSize c /\
          (forall r, r ∈ slice rs start stop -> r ∈ rs)) as Hw.
  { split; [| split; [lia |]].
    - intros E. rewrite E in Hlen. change (len []) with 0 in Hlen. lia.
    - intros r (i & Hi & _)%elem_of_take. rewrite lookup_drop in Hi. by eapply list_elem_of_lookup_2. }
  destruct (Z.eqb_spec stop (len rs)) as [E | E].
  - eexists _, []. split; [reflexivity |]. split; [lia |]. split; [| by constructor].
    cbn. rewrite app_nil_r. unfold slice. apply take_ge. rewrite length_drop. unfold len in *. lia.
  - destruct (IH (start + step_of c)) as (w & ws & -> & Hl & Hst' & HF); [lia .. |].
    eexists _, (w :: ws). split; [reflexivity |]. split; [lia |]. split; [| by constructor].
    cbn in Hst' |- *.
    assert (drop (Z.to_nat (real_overlap c)) w ++ concat (drop (Z.to_nat (real_overlap c)) <$> ws) =
            drop (Z.to_nat (start + ChunkSize c)) rs) as ->.
    { replace (Z.to_nat (start + ChunkSize c)) with (Z.to_nat (start + step_of c) + Z.to_nat (real_overlap c))%nat
        by (unfold real_overlap; lia).
      rewrite <- drop_drop, <- Hst', drop_app_le; [done |]. unfold len, real_overlap in *. lia. }
    unfold slice. rewrite Hstop.
    replace (Z.to_nat (Z.min (len rs) (start + ChunkSize c) - start)) with (Z.to_nat (ChunkSize c)) by lia.
    replace (Z.to_nat (start + ChunkSize c)) with (Z.to_nat start + Z.to_nat (ChunkSize c))%nat by lia.
    by rewrite <- drop_drop, take_drop.
Qed.

(** A chunker made by its constructor returns. *)
Lemma Chunk_returns size overlap content :
  exists chunks, Chunk (NewFixedSizeChunker size overlap) content = Some chunks.
Proof.
  pose proof (New_ok size overlap) as Hc. unfold Chunk. case_match; [by eexists |].
  destruct (windows_spec (S (length (runes content))) (NewFixedSizeChunker size overlap) (runes content) 0 Hc)
    as (w & ws & -> & _); [destruct Hc; lia | unfold len; lia |]. by eexists.
Qed.

(** Cutting a text: a chunker made by its constructor always returns; no chunk is
    empty unless the text is, none has more than ChunkSize runes, and without the
    overlap they put the text together again, so nothing is lost between two
    chunks; text that is not valid UTF-8 comes back with U+FFFD in its place. *)
Theorem chunks_cover size overlap content :
  let c := NewFixedSizeChunker size overlap in
  exists chunks, Chunk c content = Some chunks /\ chunks <> [] /\
    (forall ch, ch ∈ chunks -> len (runes ch) <= ChunkSize c /\ (content <> "" -> ch <> "")) /\
    of_runes (stitch (real_overlap c) (runes <$> chunks)) = of_runes (runes content) /\
    (ValidString content = true ->
       of_runes (stitch (real_overlap c) (runes <$> chunks)) = content).
Proof.
  intros c. pose proof (New_ok size overlap) as Hc. fold c in Hc. unfold Chunk.
  destruct (Z.leb_spec (len (runes content)) (ChunkSize c)) as [Hle | Hgt].
  - eexists. split; [reflexivity |]. split; [done |]. split.
    + intros ch ->%list_elem_of_singleton. done.
    + cbn. rewrite app_nil_r. split; [done |]. unfold ValidString. by intros ?%String.eqb_eq.
  - destruct (windows_spec (S (length (runes content))) c (runes content) 0 Hc) as (w & ws & -> & _ & Hst & HF).
    { destruct Hc. lia. } { unfold len. lia. }
    eexists. split; [reflexivity |]. split; [done |].
    assert (forall v, v ∈ w :: ws -> runes (of_runes v) = v) as Hv.
    { intros v Hv. apply runes_of_runes, Forall_forall. intros r Hr.
      rewrite Forall_forall in HF. destruct (HF v Hv) as (_ & _ & Hin).
      pose proof (runes_ok content) as Hok. rewrite Forall_forall in Hok. auto. }
    split.
    + intros ch (v & -> & Hin)%list_elem_of_fmap. rewrite Hv by done. rewrite Forall_forall in HF.
      destruct (HF v Hin) as (Hne & Hlen & _). split; [done |]. intros _ E.
      apply Hne. rewrite <- (Hv v Hin), E. done.
    + assert (runes <$> (of_runes <$> w :: ws) = w :: ws) as ->.
      { rewrite <- list_fmap_compose. etransitivity; [| apply list_fmap_id]. apply list_fmap_ext.
        intros i v Hi. cbn. by apply Hv, (list_elem_of_lookup_2 _ i). }
      rewrite Hst. cbn. rewrite drop_0. split; [done |]. unfold ValidString. by intros ?%String.eqb_eq.
Qed.
End Chunker.

(** The chat model both halves of the pipeline call. *)
Inductive chat_cmd := Generate (messages : list Message).
Definition chat : Sig := mkSig chat_cmd (fun _ => outcome string).
Definition generate (messages : list Message) : prog chat (outcome string) :=
  Effects.call (S := chat) (Generate messages).
#[export] Hint Unfold generate : prog.

(** Document of rag_graph.go *)
Record Document := mkDocument {
  dcContent : string;
  dcScore : float64;
  dcSource : string;
}.

Module Rerank.

(** *** The prompt *)

Definition newline : string := String (byte 10) "".

Definition quoted (s : string) : string := String (byte 34) (s +:+ String (byte 34) "").

Definition rerankSystemPrompt : string :=
  "你是一个检索重排序助手。根据用户查询，对以下文档片段逐一评分。" +:+ newline +:+
  "只输出 JSON 数组，每个元素包含 id（序号，从 0 开始）和 score（0-10 整数，10=完全相关）。" +:+ newline +:+
  "不要输出其他内容。" +:+ newline +:+ newline +:+
  "示例输出格式：[{" +:+ quoted "id" +:+ ":0," +:+ quoted "score" +:+ ":8},{" +:+
  quoted "id" +:+ ":1," +:+ quoted "score" +:+ ":3}]".

(** At most 200 runes of a document go into the prompt. *)
Definition clip (content : string) : string :=
  let rs := runes content in
  if 200 <? len rs then of_runes (take 200 rs) +:+ "..." else content.

Definition buildPrompt (query : string) (docs : list Document) : string :=
  "用户查询: " +:+ query +:+ newline +:+ newline +:+ "候选文档:" +:+ newline +:+
  foldr (fun x s => "[" +:+ Itoa (Z.of_nat x.1) +:+ "] " +:+ clip (dcContent x.2) +:+ newline +:+ s) ""
    (imap (fun i d => (i, d)) docs) +:+
  newline +:+ "请对每条文档与查询的相关性打分 (0-10)。".

(** *** The answer *)

(** fmt.Sscanf(val, "%d", &n), with n = 0 when it fails *)
Fixpoint leading_digits (s : string) : string :=
  match s with
  | String a s' => match digit_val a with Some _ => String a (leading_digits s') | None => "" end
  | EmptyString => ""
  end.
Definition Sscanf_d (s : string) : Z :=
  let signed p s := match ParseInt (p +:+ leading_digits s) with Ok n => n | _ => 0 end in
  match s with
  | String "-" s' => signed "-" s'
  | String "+" s' => signed "" s'
  | _ => signed "" s
  end.

(** The first byte of [s] that is one of [delim]; the end of [s] if there is none. *)
Fixpoint index_any (s delim : string) : nat :=
  match s with
  | EmptyString => O
  | String a s' =>
      if bool_decide (a ∈ String.list_ascii_of_string delim) then O else S (index_any s' delim)
  end.

Definition extractInt (s key delim : string) : Z :=
  match Index s key with
  | None => -1
  | Some idx =>
      let rest := string_drop (idx + String.length key) s in
      Sscanf_d (TrimSpace (string_take (index_any rest delim) rest))
  end.

Definition id_key : string := quoted "id" +:+ ":".
Definition score_key : string := quoted "score" +:+ ":".

Definition defaults (expectedCount : Z) : list Z :=
  (fun i => expectedCount - Z.of_nat i) <$> seq 0 (Z.to_nat expectedCount).

(** One object of the answer; [found] counts the usable ones. *)
Definition parse_object (expectedCount : Z) (acc : list Z * Z) (obj : string) : list Z * Z :=
  let obj := Trim obj "[]{} " in
  let id := extractInt obj id_key "," in
  let score := extractInt obj score_key ",}" in
  if (0 <=? id) && (id <? expectedCount) && (0 <=? score)
  then (<[Z.to_nat id := score]> acc.1, acc.2 + 1)
  else acc.

Definition parseScores (raw : string) (expectedCount : Z) : list Z :=
  match IndexByte raw "[", LastIndexByte raw "]" with
  | Some start, Some stop =>
      if (stop <=? start)%nat then defaults expectedCount
      else
        let jsonStr := string_drop start (string_take (S stop) raw) in
        let '(scores, found) := foldl (parse_object expectedCount)
          (replicate (Z.to_nat expectedCount) 0, 0) (SplitStr jsonStr "},{") in
        if found =? 0 then defaults expectedCount else scores
  | _, _ => defaults expectedCount
  end.

(** *** The sort: for i, for j > i, swap when items[j] scores higher *)

Fixpoint inner {A} (x : A * Z) (l : list (A * Z)) : (A * Z) * list (A * Z) :=
  match l with
  | [] => (x, [])
  | y :: rest =>
      if x.2 <? y.2
      then let '(m, out) := inner y rest in (m, x :: out)
      else let '(m, out) := inner x rest in (m, y :: out)
  end.

Fixpoint outer {A} (fuel : nat) (l : list (A * Z)) : list (A * Z) :=
  match fuel, l with
  | S k, x :: rest => let '(m, out) := inner x rest in m :: outer k out
  | _, _ => []
  end.

(** items[i] = (docs[i], scores[i]); a missing score is an index out of range. *)
Fixpoint score_items {A} (docs : list A) (scores : list Z) : outcome (list (A * Z)) :=
  match docs, scores with
  | [], _ => Ok []
  | d :: docs', s :: scores' => outcome_map (cons (d, s)) (score_items docs' scores')
  | _ :: _, [] => Panic "index out of range"
  end.

Definition sortByScore {A} (docs : list A) (scores : list Z) : outcome (list A) :=
  outcome_map (fun items => (outer (length items) items).*1) (score_items docs scores).

Definition Rerank (query : string) (docs : list Document) : prog chat (outcome (list Document)) :=
  if len docs <=? 1 then Ret (Ok docs)
  else
    resp <- generate [SystemMessage rerankSystemPrompt; UserMessage (buildPrompt query docs)] ;;
    match resp with
    | Ok content => Ret (sortByScore docs (parseScores content (len docs)))
    | _ => Ret (Ok docs)
    end.

(** *** What the sort does *)

Lemma inner_spec {A} (x : A * Z) l m out :
  inner x l = (m, out) -> m :: out ≡ₚ x :: l /\ Forall (fun y => y.2 <= m.2) (x :: l).
Proof.
  revert x m out. induction l as [| y l IH]; intros x m out; cbn.
  - intros [= <- <-]. split; [done |]. by constructor.
  - destruct (Z.ltb_spec x.2 y.2).
    + destruct (inner y l) as [m' out'] eqn:E. intros [= <- <-]. apply IH in E as [Hp HF].
      split; [transitivity (x :: m' :: out'); [apply perm_swap | by rewrite Hp] |].
      constructor; [| done]. apply Forall_inv in HF. lia.
    + destruct (inner x l) as [m' out'] eqn:E. intros [= <- <-]. apply IH in E as [Hp HF].
      split; [transitivity (y :: m' :: out'); [apply perm_swap | rewrite Hp; apply perm_swap] |].
      apply Forall_cons in HF as [Hx HF]. do 2 (constructor; [lia |]). done.
Qed.

Definition higher {A} (x y : A * Z) : Prop := y.2 <= x.2.

Lemma outer_spec {A} fuel (l : list (A * Z)) :
  (length l <= fuel)%nat -> outer fuel l ≡ₚ l /\ StronglySorted higher (outer fuel l).
Proof.
  revert l. induction fuel as [| fuel IH]; intros [| x l] Hf; cbn in *; try lia;
    try (split; [done | constructor]).
  destruct (inner x l) as [m out] eqn:E. apply inner_spec in E as [Hp HF].
  destruct (IH out) as [Hp' Hs].
  { apply Permutation_length in Hp. cbn in Hp. lia. }
  split; [by rewrite Hp' |]. constructor; [done |].
  rewrite Forall_forall in *. intros y Hy. apply HF. rewrite <- Hp. right. by rewrite <- Hp'.
Qed.

Lemma inner_top {A} (x : A * Z) l : Forall (fun y => y.2 <= x.2) l -> inner x l = (x, l).
Proof.
  induction 1 as [| y l Hy Hl IH]; cbn; [done |].
  rewrite (proj2 (Z.ltb_ge _ _)) by done. by rewrite IH.
Qed.

Lemma outer_sorted {A} fuel (l : list (A * Z)) :
  (length l <= fuel)%nat -> StronglySorted higher l -> outer fuel l = l.
Proof.
  revert l. induction fuel as [| fuel IH]; intros [| x l] Hf Hs; cbn in *; try done; try lia.
  apply StronglySorted_inv in Hs as [Hs Hx]. rewrite inner_top by done.
  rewrite IH by (done || lia). done.
Qed.

Lemma score_items_ok {A} (docs : list A) scores :
  length docs = length scores -> score_items docs scores = Ok (zip docs scores).
Proof.
  revert scores. induction docs as [| d docs IH]; intros [| s scores] H; cbn in *; try done.
  rewrite IH by lia. done.
Qed.

Lemma sortByScore_spec {A} (docs : list A) scores :
  length docs = length scores ->
  exists items, sortByScore docs scores = Ok items.*1 /\ items ≡ₚ zip docs scores /\
    StronglySorted higher items.
Proof.
  intros H. unfold sortByScore. rewrite score_items_ok by done.
  destruct (outer_spec (length (zip docs scores)) (zip docs scores)) as [Hp Hs]; [done |].
  by eexists.
Qed.

Lemma defaults_length n : length (defaults n) = Z.to_nat n.
Proof. unfold defaults. by rewrite length_fmap, length_seq. Qed.

Lemma parse_object_length n acc obj : length (parse_object n acc obj).1 = length acc.1.
Proof. unfold parse_object. case_match; [| done]. cbn. apply length_insert. Qed.

Lemma parseScores_length raw n : 0 <= n -> len (parseScores raw n) = n.
Proof.
  intros Hn. unfold len, parseScores.
  assert (forall objs acc, length acc.1 = Z.to_nat n ->
    length (foldl (parse_object n) acc objs).1 = Z.to_nat n) as Hf.
  { induction objs as [| o objs IH]; intros acc Ha; cbn; [done |]. apply IH. by rewrite parse_object_length. }
  destruct (IndexByte raw "["), (LastIndexByte raw "]"); rewrite ?defaults_length; try lia.
  case_match; rewrite ?defaults_length; try lia.
  specialize (Hf (SplitStr (string_drop n0 (string_take (S n1) raw)) "},{")
    (replicate (Z.to_nat n) 0, 0) (length_replicate _ 0)).
  destruct (foldl _ _ _) as [scores found]. cbn in Hf. case_match; rewrite ?defaults_length; lia.
Qed.

Lemma sortByScore_defaults {A} (docs : list A) : sortByScore docs (defaults (len docs)) = Ok docs.
Proof.
  unfold sortByScore. assert (length docs = length (defaults (len docs))) as Hl.
  { rewrite defaults_length. unfold len. lia. }
  rewrite score_items_ok by done. cbn. rewrite outer_sorted; [| done |].
  - rewrite fst_zip by lia. done.
  - clear Hl. unfold defaults, len. rewrite Nat2Z.id. generalize (Z.of_nat (length docs)) as n. intros n.
    generalize 0%nat as k. induction docs as [| d docs IH]; intros k; cbn; [constructor |].
    constructor; [apply IH |]. apply Forall_forall. intros [d' z] Hin%elem_of_zip_r.
    apply list_elem_of_fmap in Hin as (i & -> & Hi%elem_of_seq). unfold higher. cbn. lia.
Qed.

Definition answers : list (event chat) -> list (outcome string) :=
  view (S := chat) (fun e => match e with existT (Generate _) r => [r] end).

(** Reranking is safe whatever the model says: the result is always a permutation
    of the candidates - nothing is lost, invented or repeated, and no answer makes
    it panic - ordered by the scores read from the answer; the model is asked once,
    and not at all for fewer than two candidates; when it fails or gives no usable
    score the order stays. *)
Theorem rerank_permutes {W} (h : env chat W) query docs :
  always h (Rerank query docs) (fun r tr =>
    exists out, r = Ok out /\ out ≡ₚ docs /\
    match answers tr with
    | [] => out = docs /\ len docs <= 1
    | [Ok text] =>
        let scores := parseScores text (len docs) in
        (exists items, out = items.*1 /\ items ≡ₚ zip docs scores /\ StronglySorted higher items) /\
        (scores = defaults (len docs) -> out = docs)
    | [_] => out = docs
    | _ => False
    end).
Proof.
  unfold Rerank. destruct (Z.leb_spec (len docs) 1).
  - apply always_Ret. by exists docs.
  - apply always_Do. intros [a | e | m]; cbn [bind]; apply always_Ret; cbn; [| by exists docs ..].
    assert (length docs = length (parseScores a (len docs))) as Hl.
    { pose proof (parseScores_length a (len docs) (len_nonneg docs)). unfold len in *. lia. }
    destruct (sortByScore_spec docs _ Hl) as (items & E & Hp & Hs).
    exists items.*1. split; [done |]. split.
    { rewrite Hp. by rewrite fst_zip by lia. }
    cbn. split; [by exists items |]. intros Hd. rewrite Hd, sortByScore_defaults in E. congruence.
Qed.

(** The answer is cut at "},{" only: with a blank after the comma, as JSON allows
    and models like to write, everything but the first object is lost, and the
    best document comes last. *)
Definition spaced_answer : string :=
  "[{" +:+ quoted "id" +:+ ": 0, " +:+ quoted "score" +:+ ": 3}, {" +:+
  quoted "id" +:+ ": 1, " +:+ quoted "score" +:+ ": 9}]".

Lemma spaced_answer_misread :
  parseScores spaced_answer 2 = [3; 0] /\
  sortByScore ["poor"; "best"] (parseScores spaced_answer 2) = Ok ["poor"; "best"].
Proof. vm_compute. auto. Qed.
End Rerank.

Module Pipeline.

(** Pipeline: the model is the signature, the reranker a parameter of the interface. *)
Record Pipeline := mkPipeline {
  reranker : string -> list Document -> prog chat (outcome (list Document));
  topK : Z;
}.

(** NewPipeline with its options, applied in order: [None] keeps the default. *)
Definition NewPipeline (withReranker : option (string -> list Document -> prog chat (outcome (list Document))))
    (withTopK : option Z) : Pipeline :=
  mkPipeline (default Rerank.Rerank withReranker) (default 3 withTopK).

Definition Rerank (p : Pipeline) (query : string) (docs : list Document)
    : prog chat (outcome (list Document)) := reranker p query docs.

Definition buildGeneratePrompt (query : string) (docs : list Document) : string :=
  "根据以下参考资料回答用户问题。如果资料不足以回答，请如实说明。" +:+ Rerank.newline +:+ Rerank.newline +:+
  "用户问题: " +:+ query +:+ Rerank.newline +:+ Rerank.newline +:+ "参考资料:" +:+ Rerank.newline +:+
  foldr (fun x s => "---" +:+ Rerank.newline +:+ "[" +:+ Itoa (Z.of_nat (S x.1)) +:+ "] " +:+
                    dcContent x.2 +:+ Rerank.newline +:+ s) ""
    (imap (fun i d => (i, d)) docs) +:+
  Rerank.newline +:+ "---" +:+ Rerank.newline +:+ "请给出简洁准确的回答，引用具体信息时标注来源编号。".

Record Output := mkOutput { Answer : string; UsedDocs : list Document }.

(** ranked[:topK] when it is shorter *)
Definition clip_docs (k : Z) (ranked : list Document) : outcome (list Document) :=
  if k <? len ranked then
    (if k <? 0 then Panic "slice bounds out of range" else Ok (take (Z.to_nat k) ranked))
  else Ok ranked.

Definition Execute (p : Pipeline) (query : string) (candidates : list Document)
    : prog chat (outcome Output) :=
  match candidates with
  | [] => Ret (Ok (mkOutput "未找到相关信息" []))
  | _ =>
      r <- reranker p query candidates ;;
      match outcome_bind r (clip_docs (topK p)) with
      | Ok ranked =>
          resp <- generate [UserMessage (buildGeneratePrompt query ranked)] ;;
          match resp with
          | Ok content => Ret (Ok (mkOutput content ranked))
          | Err e => Ret (Err ("RAG generate 失败: " +:+ e))
          | Panic m => Ret (Panic m)
          end
      | Err e => Ret (Err e)
      | Panic m => Ret (Panic m)
      end
  end.

(** An answer is built on the candidates only: with the default pipeline at most
    three of them are used, each at most as often as it was found, and the
    answer is the model's reply to exactly these; without candidates the model
    is not asked. *)
Theorem answer_uses_candidates {W} (h : env chat W) query candidates :
  always h (Execute (NewPipeline None None) query candidates) (fun r tr =>
    (candidates = [] -> tr = []) /\
    forall out, r = Ok out ->
      UsedDocs out ⊆+ candidates /\ len (UsedDocs out) <= 3 /\
      (candidates <> [] -> 0 < len (UsedDocs out) /\
       exists tr0, tr = tr0 ++ [@ev chat (Generate [UserMessage (buildGeneratePrompt query (UsedDocs out))])
                               (Ok (Answer out))])).
Proof.
  unfold Execute, NewPipeline. cbn [reranker topK default].
  destruct candidates as [| d ds]; [apply always_Ret; split; [done |]; intros out [= <-]; cbn; done |].
  eapply always_bind; [apply Rerank.rerank_permutes |]. cbn [outcome_bind].
  intros r tr (ranked & -> & Hp & _). cbn [outcome_bind].
  assert (exists used, clip_docs 3 ranked = Ok used /\ used ⊆+ d :: ds /\ 0 < len used <= 3) as (used & -> & H1 & H2).
  { unfold clip_docs. apply Permutation_length in Hp as Hl. cbn in Hl.
    destruct (Z.ltb_spec 3 (len ranked)); eexists; (split; [reflexivity |]).
    - split; [rewrite <- Hp; apply sublist_submseteq, sublist_take |].
      unfold len in *. rewrite length_take. lia.
    - split; [by rewrite Hp |]. unfold len in *. lia. }
  apply always_Do. intros [a | e | m]; cbn [bind]; apply always_Ret; (split; [done |]);
    intros out; [intros [= <-] | done ..].
  cbn [UsedDocs Answer]. split; [done |]. split; [lia |]. intros _. split; [lia |]. by eexists.
Qed.
End Pipeline.
