(* ===== verification/AgentMiddleware.v ===== *)
(** * The middleware of the agent: apps/agent/middleware

    Module ToolFix (tool_fix.go): repairing the JSON arguments of a tool call.
    Module TrimResult (trim_result.go), AutoContinue (autocontinue.go): rewriting
    the message list before and after the model. Module Approval (approval.go) and
    SafeAgent (safe_agent.go): wrappers of a tool call, and a call through its
    interruptions. Module RateLimit (rate_limit.go): the sliding window in Redis. *)
From S2P Require Import Prelude GoStd GoText GoJson Effects AgentSchema.
#[local] Open Scope prog_scope.

Module ToolFix.

(** extractFirstObject, from the byte [s] starts with: what is read so far, in
    reverse, and the depth. *)
Fixpoint match_braces (depth : Z) (seen s : string) : string :=
  match s with
  | EmptyString => ""
  | String a s' =>
      if Ascii.eqb a "{" then match_braces (depth + 1) (String a seen) s'
      else if Ascii.eqb a "}" then
        if depth - 1 =? 0 then string_rev (String a seen)
        else match_braces (depth - 1) (String a seen) s'
      else match_braces depth (String a seen) s'
  end.

Definition extractFirstObject (s : string) : string :=
  match IndexByte s "{" with
  | None => ""
  | Some start => match_braces 0 "" (string_drop start s)
  end.

Section repair.
(** jsonrepair.Repair *)
Variable Repair : string -> outcome string.

(** The last steps: an unpaired brace is added, then the library repairs. *)
Definition force (input s : string) : string :=
  let s :=
    if negb (HasPrefix s "{") && HasSuffix s "}" then "{" +:+ s
    else if HasPrefix s "{" && negb (HasSuffix s "}") then s +:+ "}"
    else s in
  match Repair s with
  | Ok out =>
      if HasPrefix out "[" then
        let obj := extractFirstObject out in if String.eqb obj "" then out else obj
      else out
  | _ => let obj := extractFirstObject input in if String.eqb obj "" then s else obj
  end.

(** From "strip array brackets" on. *)
Definition strip (input s : string) : string :=
  let s :=
    if HasPrefix s "[" then let obj := extractFirstObject s in if String.eqb obj "" then s else obj
    else s in
  let s := TrimPrefix s "<|FunctionCallBegin|>" in
  let s := TrimSuffix s "<|FunctionCallEnd|>" in
  let s := TrimPrefix s "<think>" in
  if Valid s then s else force input s.

(** From the text between the outermost braces on. *)
Definition isolate (input s : string) : string :=
  match IndexByte s "{", LastIndexByte s "}" with
  | Some i, Some j =>
      if (i <=? j)%nat then
        let sub := string_drop i (string_take (S j) s) in
        if Valid sub then sub else strip input sub
      else strip input s
  | _, _ => strip input s
  end.

Definition repair (input : string) : string :=
  let s := TrimSpace input in
  let obj := extractFirstObject s in
  if negb (String.eqb obj "") && Valid obj then obj
  else if Valid s then
    if HasPrefix s "{" then s
    else if HasPrefix s "[" then
      (* s = extractFirstObject(s), kept when it is empty *)
      if String.eqb obj "" then isolate input "" else obj
    else isolate input s
  else isolate input s.

(** Invokable and Streamable: the tool gets the repaired arguments. *)
Definition Wrap {A} (next : string -> A) (arguments : string) : A := next (repair arguments).

(** *** What is extracted *)

(** A match is a prefix of the text that ends with a brace. *)
Lemma match_braces_prefix depth seen s :
  match_braces depth seen s <> "" ->
  exists t rest, match_braces depth seen s = t +:+ "}" /\
    string_rev seen +:+ s = match_braces depth seen s +:+ rest.
Proof.
  revert depth seen. induction s as [| a s IH]; intros depth seen; cbn; [done |].
  assert (string_rev seen +:+ String a s = string_rev (String a seen) +:+ s) as ->.
  { rewrite string_rev_cons, <- string_app_assoc, string_app_cons, string_app_empty. reflexivity. }
  destruct (Ascii.eqb a "{"); [by apply IH |].
  destruct (Ascii.eqb_spec a "}") as [-> |]; [| by apply IH].
  destruct (depth - 1 =? 0); [| by apply IH].
  intros _. exists (string_rev seen), s. split; [apply string_rev_cons | done].
Qed.

Lemma extract_prefix s obj :
  HasPrefix s "{" = true -> extractFirstObject s = obj -> obj <> "" ->
  exists t rest, obj = t +:+ "}" /\ s = obj +:+ rest.
Proof.
  destruct s as [| a s]; [done |]. intros Hp. assert (a = "{"%char) as ->.
  { unfold HasPrefix in Hp. revert Hp. change (String.prefix "{" (String a s))
      with (if ascii_dec "{" a then String.prefix "" s else false). by destruct (ascii_dec "{" a). }
  unfold extractFirstObject. cbn [IndexByte Ascii.eqb string_drop].
  intros <- Hne. destruct (match_braces_prefix 0 "" _ Hne) as (t & rest & H1 & H2). by exists t, rest.
Qed.

(** A valid object is passed on as it is, whatever braces its strings hold. *)
Theorem repair_keeps_valid_objects input :
  HasPrefix (TrimSpace input) "{" = true -> Valid (TrimSpace input) = true ->
  repair input = TrimSpace input.
Proof.
  intros Hp Hv. unfold repair. set (s := TrimSpace input) in *. rewrite Hp, Hv.
  destruct (String.eqb_spec (extractFirstObject s) "") as [| Hne]; [done |]. cbn [negb andb].
  destruct (Valid (extractFirstObject s)) eqn:Ho; [| done].
  destruct (extract_prefix s _ Hp eq_refl Hne) as (t & rest & Et & Es).
  assert (string_forallb json_space rest = true) as Hr
    by (apply (Valid_object_prefix t rest); [by rewrite <- Et | by rewrite <- Et, <- Es]).
  unfold s in Es. rewrite (TrimSpace_end input _ rest Es) in Es by
    (eapply string_forallb_impl; [apply json_space_is_space | exact Hr]).
  rewrite string_app_nil in Es. symmetry. exact Es.
Qed.
End repair.

Lemma repair_keeps_valid_objects_witness : exists input,
  repair (fun _ => Err "unrepairable") input = TrimSpace input.
Proof. exists " { } ". apply repair_keeps_valid_objects; vm_compute; reflexivity. Defined.

(** The object taken out of a valid array is not checked: a brace inside one of
    its strings ends it early. *)
Definition quoted (s : string) : string := String (byte 34) s +:+ String (byte 34) "".
Lemma repair_cuts_array :
  let array := "[{" +:+ quoted "a" +:+ ":" +:+ quoted "}" +:+ "}]" in
  let out := repair (fun _ => Err "unrepairable") array in
  Valid array = true /\ Valid out = false /\ out = "{" +:+ quoted "a" +:+ ":" +:+ String (byte 34) "}".
Proof. vm_compute. done. Qed.
End ToolFix.

Module TrimResult.

Definition noisyPrefixes : list string := ["search_chat_history"].

Definition is_reply (m : Message) : bool :=
  bool_decide (Role m = Assistant) && negb (String.eqb (Content m) "").

(** lastTextIdx: the search from the end; [None] is -1. *)
Fixpoint last_reply (msgs : list Message) : option nat :=
  match msgs with
  | [] => None
  | m :: rest =>
      match last_reply rest with
      | Some k => Some (S k)
      | None => if is_reply m then Some O else None
      end
  end.

Definition omit (m : Message) : Message :=
  if bool_decide (Role m = Tool) && existsb (HasPrefix (ToolName m)) noisyPrefixes then
    mkMessage (Role m)
      ("[result omitted] (~" +:+ Itoa (Z.of_nat (String.length (Content m))) +:+ " chars)")
      (ReasoningContent m) (ToolCalls m) (ToolName m) (FinishReason m)
  else m.

(** The messages are shared by pointer with the state; each occurs once. *)
Definition BeforeModelRewriteState (msgs : list Message) : list Message :=
  match last_reply msgs with
  | None => msgs
  | Some k => (omit <$> take k msgs) ++ drop k msgs
  end.

Lemma last_reply_None msgs : last_reply msgs = None <-> existsb is_reply msgs = false.
Proof.
  induction msgs as [| m msgs IH]; cbn; [done |].
  destruct (last_reply msgs), (is_reply m), (existsb is_reply msgs); naive_solver.
Qed.

Lemma last_reply_after msgs k i :
  last_reply msgs = Some k -> existsb is_reply (drop (S i) msgs) = bool_decide (i < k)%nat.
Proof.
  revert k i. induction msgs as [| m msgs IH]; intros k i; [done |]. cbn [last_reply drop].
  destruct (last_reply msgs) as [k' |] eqn:E.
  - intros [= <-]. destruct i as [| i].
    + rewrite drop_0, bool_decide_eq_true_2 by lia.
      destruct (existsb is_reply msgs) eqn:E'; [done |]. apply last_reply_None in E'. congruence.
    + rewrite (IH k' i eq_refl). apply bool_decide_ext. lia.
  - destruct (is_reply m); [| done]. intros [= <-].
    rewrite bool_decide_eq_false_2 by lia. apply last_reply_None in E.
    clear IH. revert i. induction msgs as [| a msgs IH]; intros i; [by destruct i |].
    cbn in E. apply orb_false_iff in E as [Ea E]. destruct i as [| i]; cbn; [by rewrite Ea |].
    by apply (IH E i).
Qed.

(** Exactly the search results that an assistant reply already follows are cut,
    message by message; everything else, and the order, stays. *)
Theorem trims_answered_results msgs i :
  BeforeModelRewriteState msgs !! i =
    (fun m => if existsb is_reply (drop (S i) msgs) then omit m else m) <$> msgs !! i.
Proof.
  unfold BeforeModelRewriteState. destruct (last_reply msgs) as [k |] eqn:E.
  - rewrite (last_reply_after msgs k i E).
    assert (k <= length msgs)%nat as Hk.
    { revert k E. induction msgs as [| m msgs IH]; intros k; cbn; [done |].
      destruct (last_reply msgs); [intros [= <-]; specialize (IH _ eq_refl); lia |].
      case_match; intros [= <-]; lia. }
    case_bool_decide as Hi.
    + rewrite lookup_app_l by (rewrite length_fmap, length_take; lia).
      by rewrite list_lookup_fmap, lookup_take_lt by done.
    + rewrite lookup_app_r by (rewrite length_fmap, length_take; lia).
      rewrite length_fmap, length_take, lookup_drop.
      replace (k + (i - k `min` length msgs))%nat with i by lia. by destruct (msgs !! i).
  - apply last_reply_None in E.
    assert (existsb is_reply (drop (S i) msgs) = false) as ->; [| by destruct (msgs !! i)].
    revert i. induction msgs as [| m msgs IH]; intros i; [done |].
    cbn in E. apply orb_false_iff in E as [_ E]. cbn. destruct i as [| i]; [done |]. apply (IH E).
Qed.

(** A second pass measures the marker of the first. *)
Definition searched : list Message :=
  [mkMessage Tool "0123456789" "" [] "search_chat_history" None; AssistantMessage "done" []].
Lemma trim_twice_loses_length :
  (Content <$> BeforeModelRewriteState searched !! O) = Some "[result omitted] (~10 chars)" /\
  (Content <$> BeforeModelRewriteState (BeforeModelRewriteState searched) !! O) =
    Some "[result omitted] (~28 chars)".
Proof. vm_compute. done. Qed.
End TrimResult.

Module AutoContinue.

Definition maxContinue : Z := 3.

(** The loop of countRecentContinues, over the messages from the end. *)
Fixpoint count_back (count : Z) (rev : list Message) : Z :=
  match rev with
  | [] => count
  | m :: rest =>
      if String.eqb (ToolName m) "continue_output" && bool_decide (Role m = Tool) then
        count_back (count + 1) rest
      else if bool_decide (Role m = Assistant) then count_back count rest
      else count
  end.

Definition countRecentContinues (msgs : list Message) : Z := count_back 0 (reverse msgs).

(** The call that is put into the truncated message. *)
Definition continue_call (now : Z) : ToolCall :=
  mkToolCall ("continue_" +:+ Itoa now) "function" "continue_output" "{}".

Definition truncated (m : Message) : bool :=
  match FinishReason m with
  | None => false
  | Some reason => String.eqb reason "length" || String.eqb reason "max_tokens"
  end.

(** newContinueOutputTool, and the tools a run is given: [tools] maps a name to what the
    tool answers. *)
Definition newContinueOutputTool : string * (string -> string) :=
  ("continue_output", fun _ => "continue from where you left off, do not repeat content already output").
Definition BeforeAgent (tools : list (string * (string -> string))) : list (string * (string -> string)) :=
  tools ++ [newContinueOutputTool].

(** The call names a tool of every run. *)
Lemma continue_call_answered now tools : exists f, (tcName (continue_call now), f) ∈ BeforeAgent tools.
Proof. exists newContinueOutputTool.2. unfold BeforeAgent. apply elem_of_app. right. by apply list_elem_of_singleton. Qed.

(** The message is changed through its pointer: the state holds the new one. *)
Definition AfterModelRewriteState (now : Z) (msgs : list Message) : list Message :=
  match last msgs with
  | None => msgs
  | Some lastMsg =>
      if negb (truncated lastMsg) then msgs
      else if (0 <? length (ToolCalls lastMsg))%nat then msgs
      else if maxContinue <=? countRecentContinues msgs then msgs
      else
        take (length msgs - 1) msgs ++
        [mkMessage (Role lastMsg) (Content lastMsg) (ReasoningContent lastMsg)
           [continue_call now] (ToolName lastMsg) (Some "tool_calls")]
  end.

(** *** The agent's loop

    The framework appends the model's reply, lets the middleware see it, runs the
    tools it calls, and asks the model again when there were any. [replies] is what
    the model would answer and the clock at each answer; the result is the messages
    and the answers never asked for. *)
Section loop.
Variable run_tool : ToolCall -> Message.

Fixpoint loop (msgs : list Message) (replies : list (Message * Z)) : list Message * list (Message * Z) :=
  match replies with
  | [] => (msgs, [])
  | (m, now) :: rest =>
      let msgs := AfterModelRewriteState now (msgs ++ [m]) in
      match last msgs with
      | Some m => if (0 <? length (ToolCalls m))%nat then loop (msgs ++ (run_tool <$> ToolCalls m)) rest
                  else (msgs, rest)
      | None => (msgs, rest)
      end
  end.

Lemma count_back_add c c' l : count_back (c + c') l = c + count_back c' l.
Proof.
  revert c'. induction l as [| m l IH]; intros c'; cbn; [done |].
  destruct (_ && _); [by rewrite <- IH, Z.add_assoc |]. by case_match.
Qed.

(** A reply of the model does not interrupt the count, a tool's answer adds to it. *)
Lemma count_snoc msgs m :
  countRecentContinues (msgs ++ [m]) =
    if String.eqb (ToolName m) "continue_output" && bool_decide (Role m = Tool) then
      1 + countRecentContinues msgs
    else if bool_decide (Role m = Assistant) then countRecentContinues msgs else 0.
Proof.
  unfold countRecentContinues. rewrite reverse_app. cbn. destruct (_ && _); [| done].
  apply (count_back_add 1 0).
Qed.

(** A reply of text that the model had to break off. *)
Definition broken_off (r : Message * Z) : Prop :=
  Role r.1 = Assistant /\ ToolCalls r.1 = [] /\ truncated r.1 = true.

Lemma after_broken_off msgs r : broken_off r ->
  AfterModelRewriteState r.2 (msgs ++ [r.1]) =
    if maxContinue <=? countRecentContinues msgs then msgs ++ [r.1]
    else msgs ++ [mkMessage Assistant (Content r.1) (ReasoningContent r.1) [continue_call r.2]
                    (ToolName r.1) (Some "tool_calls")].
Proof.
  intros (Hr & Hc & Ht). unfold AfterModelRewriteState.
  rewrite last_snoc, Ht, Hc, count_snoc, Hr. cbn [negb length Nat.ltb Nat.leb].
  rewrite (bool_decide_eq_false_2 (Assistant = Tool)) by done. rewrite andb_false_r.
  rewrite (bool_decide_eq_true_2 (Assistant = Assistant)) by done.
  rewrite length_app, Nat.add_sub, take_app_length. done.
Qed.

Context (Htool : forall c, Role (run_tool c) = Tool /\ ToolName (run_tool c) = tcName c).

(** C28: However often the model is broken off, it is asked to go on at most three times
    in a row: with [c] continuations at the end of the history, [4 - c] more
    answers are asked for and then the loop ends. *)
Theorem at_most_three_continuations msgs replies :
  countRecentContinues msgs <= maxContinue -> Forall broken_off replies ->
  let (msgs', left) := loop msgs replies in
  left = drop (Z.to_nat (1 + maxContinue - countRecentContinues msgs)) replies /\
  countRecentContinues msgs' <= maxContinue.
Proof.
  unfold maxContinue. intros Hc Hr. revert msgs Hc.
  induction Hr as [| r replies Hr Hrs IH]; intros msgs Hc; cbn [loop].
  { by rewrite drop_nil. }
  destruct r as [m now]. pose proof (after_broken_off msgs (m, now) Hr) as E.
  cbn [fst snd] in E. rewrite E. unfold maxContinue.
  destruct (Z.leb_spec 3 (countRecentContinues msgs)) as [H3 | H3].
  - destruct Hr as (Hro & Hca & _). cbn [fst] in *. rewrite last_snoc, Hca. cbn.
    replace (countRecentContinues msgs) with 3 by lia. rewrite count_snoc, Hro.
    rewrite (bool_decide_eq_false_2 (Assistant = Tool)), andb_false_r by done.
    rewrite (bool_decide_eq_true_2 (Assistant = Assistant)) by done. split; [done | exact Hc].
  - rewrite last_snoc. cbn [ToolCalls length Nat.ltb Nat.leb fmap list_fmap].
    destruct (Htool (continue_call now)) as [H1 H2]. cbn [tcName continue_call] in H2.
    set (h := (_ ++ _) ++ _). assert (countRecentContinues h = 1 + countRecentContinues msgs) as Hh.
    { unfold h. rewrite !count_snoc, H1, H2. cbn [Role ToolName].
      rewrite (bool_decide_eq_false_2 (Assistant = Tool)), andb_false_r by done. done. }
    specialize (IH h). rewrite Hh in IH. specialize (IH ltac:(lia)).
    destruct (loop h replies) as [msgs' left]. destruct IH as [-> IH]. split; [| done].
    replace (Z.to_nat (1 + 3 - countRecentContinues msgs))
      with (S (Z.to_nat (1 + 3 - (1 + countRecentContinues msgs)))) by lia. done.
Qed.
End loop.

Lemma at_most_three_continuations_witness :
  let m := mkMessage Assistant "and then" "" [] "" (Some "length") in
  let run c := mkMessage Tool "" "" [] (tcName c) None in
  let (_, left) := loop run [UserMessage "tell me"] (replicate 9 (m, 0)) in length left = 5%nat.
Proof.
  intros m run.
  pose proof (at_most_three_continuations run (fun c => conj eq_refl eq_refl) [UserMessage "tell me"]
    (replicate 9 (m, 0)) ltac:(vm_compute; discriminate)
    ltac:(repeat constructor)) as H.
  destruct (loop run _ _) as [msgs' left]. destruct H as [-> _]. reflexivity.
Defined.
End AutoContinue.

(** What a tool call ends with besides a value: an interrupt (with what the user
    is shown and the state kept for the next run) or another error. *)
Record ApprovalInfo := mkApprovalInfo { infoTool : string; infoArguments : string }.
Record ApprovalResult := mkApprovalResult { Approved : bool; Reason : string }.
Inductive tool_err :=
| Interrupt (info : ApprovalInfo) (state : string)
| Failed (text : string).

(** compose.IsInterruptRerunError *)
Definition is_interrupt (e : tool_err) : bool := match e with Interrupt _ _ => true | Failed _ => false end.
(** The text of the error; nothing reads that of an interrupt. *)
Definition err_text (e : tool_err) : string := match e with Interrupt _ _ => "interrupt" | Failed t => t end.

(** tools/metadata.go *)
Definition destructiveToolNames : list string := ["schedule_message"].
Definition IsDestructiveTool (name : string) : bool := bool_decide (name ∈ destructiveToolNames).

(** A stream reader: what it still yields, an error being the last. *)
Record reader := mkReader { chunks : list string; broken : option string }.
Definition singleChunkReader (msg : string) : reader := mkReader [msg] None.

Module SafeAgent.
Section wrap.
Context {S : Sig}.

(** safeModelWrapper.Generate *)
Definition Generate {A} (model : prog S (A + tool_err)) : prog S (A + tool_err) :=
  resp <- model ;;
  match resp with
  | inr err => Ret (inr (if is_interrupt err then err else Failed ("[model error] " +:+ err_text err)))
  | inl a => Ret (inl a)
  end.

(** safeModelWrapper.Stream: the stream itself is passed on, with its errors. *)
Definition Stream (model : prog S (reader + tool_err)) : prog S (reader + tool_err) :=
  stream <- model ;;
  match stream with
  | inr err => Ret (inr (if is_interrupt err then err else Failed ("[model error] " +:+ err_text err)))
  | inl sr => Ret (inl sr)
  end.

Definition WrapInvokableToolCall (endpoint : string -> prog S (string + tool_err)) (args : string)
  : prog S (string + tool_err) :=
  r <- endpoint args ;;
  match r with
  | inr err => Ret (if is_interrupt err then inr err else inl ("[tool error] " +:+ err_text err))
  | inl result => Ret (inl result)
  end.

(** The goroutine that forwards the chunks, and tells an error as the last one. *)
Definition safeWrapReader (sr : reader) : reader :=
  match broken sr with
  | None => mkReader (chunks sr) None
  | Some e => mkReader (chunks sr ++ [String (byte 10) ("[tool error] " +:+ e)]) None
  end.

Definition WrapStreamableToolCall (endpoint : string -> prog S (reader + tool_err)) (args : string)
  : prog S (reader + tool_err) :=
  r <- endpoint args ;;
  match r with
  | inr err => Ret (if is_interrupt err then inr err
                    else inl (singleChunkReader ("[tool error] " +:+ err_text err)))
  | inl sr => Ret (inl (safeWrapReader sr))
  end.
End wrap.
End SafeAgent.

Module Approval.

(** What the framework tells a tool call: tool.GetInterruptState and
    tool.GetResumeContext. *)
Record tool_ctx := mkCtx {
  wasInterrupted : bool;
  storedArgs : string;
  isTarget : bool;
  hasData : bool;
  data : ApprovalResult;
}.

Section wrap.
Context {S : Sig}.

Definition WrapInvokableToolCall (name : string) (endpoint : string -> prog S (string + tool_err))
    (ctx : tool_ctx) (args : string) : prog S (string + tool_err) :=
  if negb (IsDestructiveTool name) then endpoint args
  else if negb (wasInterrupted ctx) then Ret (inr (Interrupt (mkApprovalInfo name args) args))
  else if isTarget ctx && hasData ctx then
    if Approved (data ctx) then endpoint (storedArgs ctx)
    else if negb (String.eqb (Reason (data ctx)) "") then
      Ret (inl ("工具 '" +:+ name +:+ "' 操作已取消 " +:+ Reason (data ctx)))
    else Ret (inl "操作已取消")
  else Ret (inr (Interrupt (mkApprovalInfo name (storedArgs ctx)) (storedArgs ctx))).

Definition WrapStreamableToolCall (name : string) (endpoint : string -> prog S (reader + tool_err))
    (ctx : tool_ctx) (args : string) : prog S (reader + tool_err) :=
  if negb (IsDestructiveTool name) then endpoint args
  else if negb (wasInterrupted ctx) then Ret (inr (Interrupt (mkApprovalInfo name args) args))
  else if isTarget ctx && hasData ctx then
    if Approved (data ctx) then endpoint (storedArgs ctx)
    else if negb (String.eqb (Reason (data ctx)) "") then
      Ret (inl (singleChunkReader ("工具 '" +:+ name +:+ "' 操作已取消 " +:+ Reason (data ctx))))
    else Ret (inl (singleChunkReader ("工具 '" +:+ name +:+ "' 操作已取消")))
  else Ret (inr (Interrupt (mkApprovalInfo name (storedArgs ctx)) (storedArgs ctx))).
End wrap.

(** The two wrappers of the agent (engine/runner.go lists both) can be nested
    either way: approval does not turn an error into a text, and an interrupt
    passes the safety wrapper. *)
Theorem wrappers_commute {S : Sig} {W} (h : env S W) name endpoint ctx args w :
  run h (WrapInvokableToolCall name (SafeAgent.WrapInvokableToolCall endpoint) ctx args) w =
  run h (SafeAgent.WrapInvokableToolCall (WrapInvokableToolCall name endpoint ctx) args) w.
Proof.
  unfold SafeAgent.WrapInvokableToolCall, WrapInvokableToolCall.
  by destruct (IsDestructiveTool name), (wasInterrupted ctx), (isTarget ctx && hasData ctx),
    (Approved (data ctx)), (String.eqb (Reason (data ctx)) "").
Qed.

(** *** A call through its interruptions

    The framework runs the call, and while it ends in an interrupt shows the user what
    the interrupt tells and runs the call again at every resume, with the state the last
    interrupt kept and whatever arguments the resumed run comes with. *)
Record resume := mkResume { target : bool; given : option ApprovalResult; again : string }.

Definition ctx_of (saved : option string) (r : resume) : tool_ctx :=
  mkCtx (if saved is Some _ then true else false) (default "" saved)
    (target r) (if given r is Some _ then true else false) (default (mkApprovalResult false "") (given r)).

Section calls.
Context {S : Sig} (call : tool_ctx -> string -> prog S (string + tool_err)).

(** The outcome, [None] while the call is interrupted after the last resume, and what the
    user was shown. *)
Fixpoint attempts (saved : option string) (r : resume) (rs : list resume)
  : prog S (option (string + string) * list ApprovalInfo) :=
  result <- call (ctx_of saved r) (again r) ;;
  match result with
  | inl text => Ret (Some (inl text), [])
  | inr (Failed e) => Ret (Some (inr e), [])
  | inr (Interrupt info state) =>
      match rs with
      | [] => Ret (None, [info])
      | r :: rs => '(out, shown) <- attempts (Some state) r rs ;; Ret (out, info :: shown)
      end
  end.

Definition call_tool (args : string) (rs : list resume) : prog S (option (string + string) * list ApprovalInfo) :=
  attempts None (mkResume false None args) rs.
End calls.

(** The tool itself: one command, that succeeds or fails. *)
Inductive tool_cmd := Execute (args : string).
Definition tool_sig : Sig := mkSig tool_cmd (fun _ => (string + string)%type).
Definition execute (args : string) : prog tool_sig (string + tool_err) :=
  r <- call (S := tool_sig) (Execute args) ;;
  Ret (match r with inl t => inl t | inr e => inr (Failed e) end).

Definition executed (e : event tool_sig) : list string :=
  match e with existT (Execute args) _ => [args] end.

(** The first resume that is addressed to the call and says something. *)
Definition decision (r : resume) : option ApprovalResult := if target r then given r else None.
Fixpoint first_decision (rs : list resume) : option ApprovalResult :=
  match rs with
  | [] => None
  | r :: rs => match decision r with Some d => Some d | None => first_decision rs end
  end.

(** The resumes before it, and what it is answered when it refuses. *)
Fixpoint undecided (rs : list resume) : nat :=
  match rs with
  | [] => O
  | r :: rs => match decision r with Some _ => O | None => S (undecided rs) end
  end.
Definition refusal (name : string) (d : ApprovalResult) : string :=
  if String.eqb (Reason d) "" then "操作已取消" else "工具 '" +:+ name +:+ "' 操作已取消 " +:+ Reason d.

Definition guarded (name : string) : tool_ctx -> string -> prog tool_sig (string + tool_err) :=
  WrapInvokableToolCall name (SafeAgent.WrapInvokableToolCall execute).

Lemma guarded_resumed name stored r args : IsDestructiveTool name = true ->
  guarded name (ctx_of (Some stored) r) args =
    match decision r with
    | Some d => if Approved d then SafeAgent.WrapInvokableToolCall execute stored else Ret (inl (refusal name d))
    | None => Ret (inr (Interrupt (mkApprovalInfo name stored) stored))
    end.
Proof.
  intros Hd. unfold guarded, WrapInvokableToolCall, decision, refusal. rewrite Hd.
  destruct r as [[] [[ok reason] |] args']; try done. cbn. by destruct ok, (String.eqb reason "").
Qed.

(** What a call through its resumes does. *)
Definition as_decided (name args : string) (rs : list resume)
    (x : option (string + string) * list ApprovalInfo) (tr : list (event tool_sig)) : Prop :=
  let '(out, shown) := x in
  shown = replicate (undecided rs) (mkApprovalInfo name args) /\
  match first_decision rs with
  | None => out = None /\ view (S := tool_sig) executed tr = []
  | Some d =>
      if Approved d then view (S := tool_sig) executed tr = [args] /\ out <> None
      else out = Some (inl (refusal name d)) /\ view (S := tool_sig) executed tr = []
  end.

Lemma attempts_decided {W} (h : env tool_sig W) name args r rs :
  IsDestructiveTool name = true ->
  always h (attempts (guarded name) (Some args) r rs) (as_decided name args (r :: rs)).
Proof.
  intros Hd. revert r. induction rs as [| r' rs IH]; intros r; cbn [attempts]; rewrite guarded_resumed by done;
    unfold as_decided; cbn [first_decision undecided]; destruct (decision r) as [d |].
  1, 3: destruct (Approved d); [apply always_Do; intros [t | e]; cbn; by apply always_Ret | by apply always_Ret].
  - by apply always_Ret.
  - cbn [bind]. eapply always_bind; [apply (IH r') |]. intros [out shown] tr [-> H].
    apply always_Ret. by rewrite app_nil_r.
Qed.

(** C14: A destructive tool runs only after an approval addressed to the call, at most
    once however often the call is resumed, and with the arguments the first run got,
    whatever arguments the resumed runs come with. The user is shown the tool and these
    arguments before the first resume and again after each one that decides nothing, and
    nothing else; a refusal is answered in words and nothing runs; without a decision
    the call stays interrupted. *)
Theorem destructive_needs_approval {W} (h : env tool_sig W) name args rs :
  IsDestructiveTool name = true ->
  always h (call_tool (guarded name) args rs) (fun '(out, shown) tr =>
    shown = replicate (S (undecided rs)) (mkApprovalInfo name args) /\
    match first_decision rs with
    | None => out = None /\ view (S := tool_sig) executed tr = []
    | Some d =>
        if Approved d then view (S := tool_sig) executed tr = [args] /\ out <> None
        else out = Some (inl (refusal name d)) /\ view (S := tool_sig) executed tr = []
    end).
Proof.
  intros Hd. unfold call_tool.
  assert (guarded name (ctx_of None (mkResume false None args)) args =
    Ret (inr (Interrupt (mkApprovalInfo name args) args))) as E.
  { unfold guarded, WrapInvokableToolCall. by rewrite Hd. }
  destruct rs as [| r rs]; cbn [attempts again]; rewrite E; cbn [bind].
  - by apply always_Ret.
  - eapply always_bind; [by apply (attempts_decided h name args r rs) |]. intros [out shown] tr [-> H].
    apply always_Ret. by rewrite app_nil_r.
Qed.

(** Resumed for another call first, then for this one; the model by then says something else. *)
Lemma destructive_needs_approval_witness :
  let h : env tool_sig unit := fun _ w => (inl "sent", w) in
  let rs := [mkResume false (Some (mkApprovalResult true "")) "{}"; mkResume true (Some (mkApprovalResult true "")) "{1}"] in
  let x := run h (call_tool (guarded "schedule_message") "{}" rs) tt in
  view (S := tool_sig) executed (trace x) = ["{}"] /\
  result x = (Some (inl "sent"), [mkApprovalInfo "schedule_message" "{}"; mkApprovalInfo "schedule_message" "{}"]).
Proof.
  intros h rs x. destruct (destructive_needs_approval h "schedule_message" "{}" rs eq_refl tt) as [H1 [H2 H3]].
  split; [exact H2 | reflexivity].
Defined.
End Approval.

Module RateLimit.

Definition limit : Z := 5.
Definition minute : Z := 60 * 1000000000.

(** Redis: per key a sorted set (member to score) and the time it expires at. *)
Notation redis := (gmap string (gmap string Z * Z)).

Section limiter.
(** The score Redis reads from the decimal time: a double. *)
Variable score : Z -> Z.

(** rateLimitLua, run by Redis at its time [clock]; the arguments are the decimal
    texts of [now], [left], the limit and the seconds to live. *)
Definition rateLimitLua (clock : Z) (key : string) (now left limit expire : Z) (st : redis) : Z * redis :=
  let '(members, expires) :=
    match st !! key with
    | Some (members, expires) => if expires <=? clock then (∅, 0) else (members, expires)
    | None => (∅, 0)
    end in
  let members := filter (fun '(_, s) => ~ (0 <= s <= score left)) members in
  if limit <=? Z.of_nat (size members) then (0, <[key := (members, expires)]> st)
  else (1, <[key := (<[Itoa now := score now]> members, clock + expire * 1000000000)]> st).

(** What becomes of the call: its answer arrives, the script is not run, or it is
    run and the answer is lost. *)
Inductive fate := Answered | NotRun | AnswerLost.
Record request := mkRequest { user : Z; now : Z; clock : Z; what : fate }.

Definition redis_key (userID : Z) : string := "rate_limit:ai:" +:+ Itoa userID.

Definition checkRateLimit (r : request) (st : redis) : outcome unit * redis :=
  let oneMinuitAgo := now r - minute in
  let '(result, st') := rateLimitLua (clock r) (redis_key (user r)) (now r) oneMinuitAgo limit 60 st in
  match what r with
  | NotRun => (Err "[redis error]", st)
  | AnswerLost => (Err "[redis error]", st')
  | Answered => (if result =? 0 then Err "聊天太频繁啦，请休息一分钟后再试~" else Ok tt, st')
  end.

(** BeforeAgent: a context without a user counts as user 0. *)
Definition BeforeAgent (current_user_id : option Z) (now clock : Z) (what : fate) (st : redis) : outcome unit * redis :=
  checkRateLimit (mkRequest (default 0 current_user_id) now clock what) st.

(** The times at which requests of [u] pass. *)
Fixpoint passed (u : Z) (rs : list request) (st : redis) : list Z :=
  match rs with
  | [] => []
  | r :: rs =>
      let '(out, st) := checkRateLimit r st in
      match out with
      | Ok _ => (if bool_decide (user r = u) then [now r] else []) ++ passed u rs st
      | _ => passed u rs st
      end
  end.

(** What is known of the clocks. A score determines its reading up to [eps]; the clock
    of Redis when the script runs is between [lo] and [hi] ahead of the reading it is
    given; a reading that Redis gets earlier exceeds a later one by at most [late]. *)
Context (eps lo hi late : Z) (Hscore : forall a b, score a <= score b -> a <= b + eps).
Definition timed (u : Z) (rs : list request) : Prop :=
  let own := filter (fun r => user r = u) rs in
  NoDup (now <$> own) /\ StronglySorted (fun q r => now q <= now r + late) own /\
  Forall (fun r => lo <= clock r - now r <= hi) own.

Notation tolerance := (Z.max eps (hi - lo + late)).
Notation slack := (late + tolerance).

#[local] Instance redis_key_inj : Inj (=) (=) redis_key.
Proof. intros a b H. unfold redis_key in H. by simplify_eq. Qed.

(** A reading that passed is in the set of [u], or a reading [seen] since lies a minute
    after it. *)
Definition in_set (u : Z) (st : redis) (a : Z) : Prop :=
  exists members expires, st !! redis_key u = Some (members, expires) /\
    members !! Itoa a = Some (score a) /\ a + lo - late + minute <= expires.
Definition remembers (u : Z) (st : redis) (acc seen : list Z) : Prop :=
  forall a, a ∈ acc -> in_set u st a \/ exists q, q ∈ seen /\ a + minute - tolerance <= q.

Lemma remembers_more u st acc seen seen' : seen ⊆ seen' -> remembers u st acc seen -> remembers u st acc seen'.
Proof. intros Hs H a Ha. destruct (H a Ha) as [Hin | (q & Hq & ?)]; [by left | right]. exists q. auto. Qed.

Lemma remembers_other u st acc seen key v :
  key <> redis_key u -> remembers u st acc seen -> remembers u (<[key := v]> st) acc seen.
Proof.
  intros Hk H a Ha. destruct (H a Ha) as [(m & e & H1 & H2) | Hq]; [left | by right]. exists m, e.
  by rewrite lookup_insert_ne.
Qed.

Lemma script_remembers u st acc seen r :
  lo <= clock r - now r <= hi -> 0 <= late -> (forall a, a ∈ acc -> a <= now r + late) -> remembers u st acc seen ->
  let '(result, st') := rateLimitLua (clock r) (redis_key u) (now r) (now r - minute) limit 60 st in
  remembers u st' acc (now r :: seen) /\
  (result <> 0 -> remembers u st' (acc ++ [now r]) (now r :: seen) /\
     forall recent, NoDup recent ->
       (forall a, a ∈ recent -> a ∈ acc /\ forall q, q ∈ now r :: seen -> q < a + minute - tolerance) ->
       (length recent < 5)%nat).
Proof.
  intros Hc Hl Hle H. unfold rateLimitLua.
  destruct (match st !! redis_key u with Some _ => _ | None => _ end) as [members expires] eqn:E.
  set (kept := filter _ members).
  assert (forall a, a ∈ acc -> (kept !! Itoa a = Some (score a) /\ a + lo - late + minute <= expires) \/
    exists q, q ∈ now r :: seen /\ a + minute - tolerance <= q) as Hkept.
  { intros a Ha. destruct (H a Ha) as [(m & e & H1 & H2 & H3) | (q & Hq & ?)];
      [| by right; exists q; split; [right |]]. rewrite H1 in E.
    destruct (Z.leb_spec e (clock r)) as [He | He]; [right; exists (now r); split; [by left | lia] |].
    injection E as <- <-. destruct (decide (score a <= score (now r - minute))) as [Hs | Hs].
    - right. exists (now r). split; [by left |]. apply Hscore in Hs. lia.
    - left. split; [| done]. apply map_lookup_filter_Some. split; [done |]. intros [_ Hs']. done. }
  assert (forall a, a ∈ acc \/ a = now r ->
    in_set u (<[redis_key u := (<[Itoa (now r) := score (now r)]> kept, clock r + 60 * 1000000000)]> st) a \/
    exists q, q ∈ now r :: seen /\ a + minute - tolerance <= q) as Hnew.
  { intros a Ha. destruct (decide (a + minute - tolerance <= now r)) as [Hq | Hq];
      [right; exists (now r); split; [by left | done] |].
    assert (a <= now r + late) as Hla by (destruct Ha as [Ha | ->]; [by apply Hle | lia]).
    assert (a = now r \/ kept !! Itoa a = Some (score a) \/ exists q, q ∈ now r :: seen /\ a + minute - tolerance <= q)
      as [-> | [Hk | Hk]]; [destruct Ha as [Ha | ->]; [| by left]; destruct (Hkept a Ha) as [[? _] |]; by auto | ..]; [| | by right].
    - left. eexists _, _. rewrite lookup_insert_eq. split; [done |]. rewrite lookup_insert_eq.
      split; [done |]. unfold minute. lia.
    - left. eexists _, _. rewrite lookup_insert_eq. split; [done |]. split; [| unfold minute in *; lia].
      destruct (decide (a = now r)) as [-> | Hne]; [by rewrite lookup_insert_eq |].
      rewrite lookup_insert_ne; [done |]. intros ?%Itoa_inj. congruence. }
  destruct (Z.leb_spec limit (Z.of_nat (size kept))) as [Hfull | Hfree]; split.
  - intros a Ha. destruct (Hkept a Ha) as [[? ?] |]; [left | by right]. exists kept, expires. by rewrite lookup_insert_eq.
  - done.
  - intros a Ha. apply Hnew. by left.
  - intros _. split; [intros a [Ha | ->%list_elem_of_singleton]%elem_of_app; apply Hnew; auto |].
    intros recent Hnd Hr. apply Nat2Z.inj_lt. change (Z.of_nat 5) with limit.
    eapply Z.le_lt_trans; [| exact Hfree]. apply Nat2Z.inj_le.
    rewrite <- size_dom, <- (length_fmap Itoa), <- (size_list_to_set (C := gset string)).
    + apply subseteq_size. intros x. rewrite elem_of_list_to_set, list_elem_of_fmap.
      intros (a & -> & Ha). apply elem_of_dom. destruct (Hr a Ha) as [H1 H2].
      destruct (Hkept a H1) as [[-> _] | (q & Hq & ?)]; [by eexists |]. specialize (H2 q Hq). lia.
    + by apply NoDup_fmap_2; [apply _ |].
Qed.

(** One of five passed readings in a row lies a minute, but for the slack, before the
    next that passes. *)
Definition spaced (acc : list Z) : Prop :=
  forall i b, acc !! (i + 5)%nat = Some b ->
    exists j a, (j < 5)%nat /\ acc !! (i + j)%nat = Some a /\ minute - slack <= b - a.

Lemma spaced_snoc acc t :
  spaced acc -> NoDup acc ->
  (forall recent, NoDup recent -> (forall a, a ∈ recent -> a ∈ acc /\ t - a < minute - slack) -> (length recent < 5)%nat) ->
  spaced (acc ++ [t]).
Proof.
  intros Hs Hnd Hrecent i b Hb.
  destruct (decide (i + 5 < length acc)%nat) as [Hi | Hi].
  { rewrite lookup_app_l in Hb by lia. destruct (Hs i b Hb) as (j & a & Hj & Ha & ?). exists j, a.
    rewrite lookup_app_l by (by eapply lookup_lt_Some). done. }
  pose proof (lookup_lt_Some _ _ _ Hb) as Hlen. rewrite length_app in Hlen. cbn in Hlen.
  assert (i + 5 = length acc)%nat as Hi5 by lia.
  rewrite Hi5, list_lookup_middle in Hb by done. injection Hb as <-.
  destruct (decide (Exists (fun a => minute - slack <= t - a) (drop i acc))) as [Hex | Hno].
  - apply Exists_exists in Hex as (a & [j Hj]%list_elem_of_lookup & Ha). rewrite lookup_drop in Hj.
    pose proof (lookup_lt_Some _ _ _ Hj). exists j, a. rewrite lookup_app_l by lia. split; [lia | done].
  - exfalso. assert (length (drop i acc) < 5)%nat; [| rewrite length_drop in *; lia]. apply Hrecent.
    + eapply sublist_NoDup; [exact Hnd | apply sublist_drop].
    + intros a Ha. split; [by eapply subseteq_drop |]. apply not_Exists_Forall in Hno; [| apply _].
      rewrite Forall_forall in Hno. specialize (Hno a Ha). cbn in Hno. lia.
Qed.

Lemma check_other u r st acc seen :
  user r <> u -> remembers u st acc seen -> remembers u (checkRateLimit r st).2 acc seen.
Proof.
  intros Hu H. assert (redis_key (user r) <> redis_key u) by (intros ?%redis_key_inj; done).
  unfold checkRateLimit, rateLimitLua. destruct (match st !! redis_key (user r) with Some _ => _ | None => _ end).
  by destruct (_ <=? _), (what r); cbn; try apply remembers_other.
Qed.

Lemma check_own u r st acc seen :
  user r = u -> lo <= clock r - now r <= hi -> (forall q, q ∈ acc ++ seen -> q <= now r + late) -> 0 <= late ->
  remembers u st acc seen ->
  let '(out, st') := checkRateLimit r st in
  match out with
  | Ok _ => remembers u st' (acc ++ [now r]) (now r :: seen) /\
      forall recent, NoDup recent -> (forall a, a ∈ recent -> a ∈ acc /\ now r - a < minute - slack) -> (length recent < 5)%nat
  | _ => remembers u st' acc (now r :: seen)
  end.
Proof.
  intros Hu Hc Hq Hl H. pose proof (script_remembers u st acc seen r Hc Hl ltac:(intros; apply Hq, elem_of_app; by left) H) as Hs.
  assert (remembers u st acc (now r :: seen)) as Hst by (eapply remembers_more; [| exact H]; by right).
  unfold checkRateLimit. rewrite Hu. destruct (rateLimitLua _ _ _ _ _ _ st) as [result st'].
  destruct Hs as [H1 H2]. destruct (what r); cbn; [| done | done].
  destruct (Z.eqb_spec result 0); [done |]. destruct (H2 n) as [H3 H4]. split; [done |].
  intros recent Hnd Hr. apply H4; [done |]. intros a Ha. destruct (Hr a Ha) as [? ?]. split; [done |].
  intros q [-> | Hin]%elem_of_cons; [lia |]. assert (q <= now r + late) by (apply Hq, elem_of_app; by right). lia.
Qed.

Lemma passed_spaced u rs st acc seen :
  0 <= late -> spaced acc -> NoDup acc -> remembers u st acc seen ->
  (forall r, r ∈ rs -> user r = u -> now r ∉ acc /\ forall q, q ∈ acc ++ seen -> q <= now r + late) ->
  timed u rs -> spaced (acc ++ passed u rs st).
Proof.
  intros Hl. revert st acc seen. induction rs as [| r rs IH]; intros st acc seen Hsp Hnd Hrem Hpast (Hdist & Hord & Hclk);
    cbn [passed]; [by rewrite app_nil_r |].
  rewrite filter_cons in Hdist, Hord, Hclk. destruct (decide (user r = u)) as [Hu | Hu].
  - cbn in Hdist. apply NoDup_cons in Hdist as [Hnew Hdist]. apply StronglySorted_inv in Hord as [Hord HF].
    apply Forall_cons in Hclk as [Hc Hclk]. destruct (Hpast r ltac:(by left) Hu) as [Hra Hrq].
    pose proof (check_own u r st acc seen Hu Hc Hrq Hl Hrem) as Hown.
    destruct (checkRateLimit r st) as [out st']. rewrite bool_decide_eq_true_2 by done.
    assert (forall q, q ∈ rs -> user q = u -> now q <> now r /\ now r <= now q + late) as Hafter.
    { intros q Hq Huq. assert (q ∈ filter (fun r => user r = u) rs) as Hf by (by apply list_elem_of_filter).
      split; [intros En; apply Hnew, list_elem_of_fmap; by exists q |]. rewrite Forall_forall in HF. by apply HF. }
    assert (forall q acc', q ∈ rs -> user q = u -> acc' ⊆ acc ++ [now r] ->
      now q ∉ acc' /\ forall x, x ∈ acc' ++ now r :: seen -> x <= now q + late) as Hpast'.
    { intros q acc' Hq Huq Hsub. destruct (Hafter q Hq Huq), (Hpast q ltac:(by right) Huq) as [H1 H2]. split.
      - intros [? | ?%list_elem_of_singleton]%Hsub%elem_of_app; done.
      - intros x [[Hx | Hx%list_elem_of_singleton]%Hsub%elem_of_app | [-> | Hx]%elem_of_cons]%elem_of_app; subst; try done;
          apply H2, elem_of_app; auto. }
    assert (acc ⊆ acc ++ [now r]) as Hsub by (intros x ?; apply elem_of_app; by left).
    destruct out as [[] | ? |]; [destruct Hown as [Hown Hfew]; rewrite app_assoc | |];
      apply (IH _ _ (now r :: seen)); try done; try (intros; by apply Hpast').
    + by apply spaced_snoc.
    + apply NoDup_app. split; [done |]. split; [| apply NoDup_singleton]. intros x Hx ->%list_elem_of_singleton. done.
  - pose proof (check_other u r st acc seen Hu Hrem) as Hrem'.
    destruct (checkRateLimit r st) as [out st']. rewrite bool_decide_eq_false_2 by done.
    destruct out as [[] | ? |]; apply (IH _ _ seen); try done; intros q Hq; apply Hpast; by right.
Qed.

(** C27: Of any six requests of a user that pass one after the other, the last is read at
    least a minute after one of the five before it, less the slack of the clocks: the
    rounding of the scores or the drift between the clock of the service and that of
    Redis, and what a reading is overtaken by on its way to Redis. This is for requests
    mixed with those of others and hit by lost answers, whose readings are distinct:
    two with the same reading count once ([same_reading_counts_once]). *)
Theorem five_per_minute u rs i b :
  0 <= late -> timed u rs -> passed u rs ∅ !! (i + 5)%nat = Some b ->
  exists j a, (j < 5)%nat /\ passed u rs ∅ !! (i + j)%nat = Some a /\ minute - slack <= b - a.
Proof.
  intros Hl Ht. apply (passed_spaced u rs ∅ [] []); try done; [constructor | |].
  - intros a Ha. by apply elem_of_nil in Ha.
  - intros r _ _. split; [by intros ?%elem_of_nil | by intros q ?%elem_of_nil].
Qed.
End limiter.

(** Readings in nanoseconds; Redis runs the script [d] later. *)
Definition at_ (u t d : Z) : request := mkRequest u t (t + d) Answered.
Definition second : Z := 1000000000.

(** Six requests, one of which is overtaken by the next, the sixth a minute after the
    first; one more at the same time as another user's. *)
Definition sample_requests : list request :=
  [at_ 7 (1 * second) 5; at_ 7 (3 * second) 2; at_ 7 (2 * second) (second + 9); at_ 7 (4 * second) 5; at_ 7 (5 * second) 5;
   at_ 7 (6 * second) 5; at_ 8 (6 * second) 5; at_ 7 (62 * second) 5].
Lemma five_per_minute_witness :
  passed id 7 sample_requests ∅ !! 5%nat = Some (62 * second) /\
  exists j a, (j < 5)%nat /\ passed id 7 sample_requests ∅ !! (0 + j)%nat = Some a /\
    minute - (second + Z.max 0 (second + 9 - 2 + second)) <= 62 * second - a.
Proof.
  split; [vm_compute; reflexivity |].
  refine (five_per_minute id 0 2 (second + 9) second _ 7 sample_requests O (62 * second) _ _ _).
  - unfold id. lia.
  - by vm_compute.
  - unfold timed. cbv zeta. match goal with |- context [filter ?P ?l] => let l' := eval vm_compute in (filter P l) in change (filter P l) with l' end.
    split_and!; [apply (bool_decide_unpack _); vm_compute; exact I | |]; repeat constructor; vm_compute; discriminate.
  - vm_compute. reflexivity.
Defined.

(** The member of the set is the reading itself: requests with the same reading pass
    without a limit. *)
Lemma same_reading_counts_once :
  passed id 7 (replicate 9 (at_ 7 second 0)) ∅ = replicate 9 second.
Proof. vm_compute. reflexivity. Qed.

(** A reading that is overtaken by one a minute later passes, the sixth within seconds. *)
Lemma overtaken_reading_passes :
  let times := (fun t => t * second) <$> [1; 2; 3; 4; 5; 62; 6] in
  passed id 7 ((fun t => at_ 7 t 0) <$> times) ∅ = times.
Proof. vm_compute. reflexivity. Qed.
End RateLimit.
