(* ===== verification/AgentMemory.v ===== *)
(** * The memory of the agent: apps/agent/memory, dao/summary.go, engine/engine.go

    Module Short: the short-term memory, a Redis list (memory.go: Append,
    GetMessages, triggerSummaryCompress) and its compression by a summary
    (summarizer.go, dao/summary.go: SaveSummary). Module Recall: the long-term
    memory, found by similarity (engine.go: RecallMemory). Module Context: what a
    question to the agent comes with (engine.go: PrepareAgentContext;
    dao/summary.go: GetLatestSummary). Module CheckPoint (checkpoint.go). *)
From S2P Require Import Prelude GoStd GoText GoFloat GoSort Effects AgentSchema.
#[local] Open Scope prog_scope.

(** models/agent_summary.go; the id and the time are the database's. *)
Record AgentSummary := mkSummaryRow {
  sumUserID : Z;
  sumSessionID : string;
  sumSummary : string;
  sumMemoryType : string;
  sumTags : string;
  sumImportance : Z;
}.

(** SummaryResult *)
Record SummaryResult := mkResult {
  Summary : string;
  Type_ : string;
  Tags : string;
  Importance : Z;
}.

(** A document the vector database returns: doc.Score(), the content, and the
    metadata the code reads. [mdSummary] is the summary where it is a string;
    [mdImportance] is [Some None] where it is there but no int64. *)
Record MemoryDoc := mkMemoryDoc {
  mdScore : float64;
  mdContent : string;
  mdSummary : option string;
  mdImportance : option (option Z);
}.

(** What the memory talks to: Redis (the scripts and list commands), the chat
    model, MySQL, the vector database; [Go_compress] starts the goroutine, the
    clock and uuid commands are those of their packages. *)
Inductive mem_cmd :=
| RunAppend (key data : string) (ttl : Z)
| LLen (key : string)
| LRange (key : string) (start stop : Z)
| RunSummary (key data : string) (toCompress ttl : Z)
| Go_compress
| GetChatModel
| Generate (input : list Message)
| InsertSummary (row : AgentSummary)
| FindSummaries (userID : Z) (sessionID : string) (limit : Z)
| GetEmbedder
| GetIndexer
| NewUUID
| Now
| StoreDoc (id content : string) (userID : Z) (sessionID memoryType : string) (importance createTime : Z)
| GetRetriever (topK : Z)
| Retrieve (query filter : string)
| GetRunner.

Definition mem_res (c : mem_cmd) : Type :=
  match c with
  | RunAppend _ _ _ | RunSummary _ _ _ _ | GetChatModel | InsertSummary _
  | GetEmbedder | GetIndexer | StoreDoc _ _ _ _ _ _ _ | GetRetriever _ | GetRunner => outcome unit
  | LLen _ => outcome Z
  | LRange _ _ _ => outcome (list string)
  | Go_compress => unit
  | Generate _ => outcome Message
  | FindSummaries _ _ _ => outcome (list AgentSummary)
  | NewUUID => string
  | Now => Z
  | Retrieve _ _ => outcome (list MemoryDoc)
  end.
Definition mem : Sig := mkSig mem_cmd mem_res.
Notation mcall c := (call (S := mem) c).

(** ** Errors in a program *)
Definition ok_or {S A B} (r : outcome A) (wrap : string -> string) (k : A -> prog S (outcome B))
  : prog S (outcome B) :=
  match r with
  | Ok a => k a
  | Err e => Ret (Err (wrap e))
  | Panic m => Ret (Panic m)
  end.

Module Short.

Definition WindowSize : Z := 20.
Definition KeepAfterCompress : Z := 15.

(** Session, with the TTL of its store *)
Record Session := mkSession { sID : string; sKey : string; sUserID : Z; sTTL : Z }.
(** GetOrCreate of a store with TTL [ttl] (in seconds) *)
Definition GetOrCreate (ttl : Z) (sessionID : string) (userID : Z) : Session :=
  mkSession sessionID ("memory:" +:+ sessionID) userID ttl.

Section session.
(** json.Marshal and json.Unmarshal of schema.Message, and Unmarshal of
    SummaryResult *)
Variable Marshal : Message -> outcome string.
Variable Unmarshal : string -> option Message.
Variable UnmarshalResult : string -> option SummaryResult.

Definition Append (s : Session) (msg : Message) : prog mem (outcome unit) :=
  ok_or (Marshal msg) (String.append "[Memory] 消息序列化失败: ") (fun data =>
  r <- mcall (RunAppend (sKey s) data (sTTL s)) ;;
  ok_or r (String.append "[Memory] 消息追加失败: ") (fun _ =>
  count <- mcall (LLen (sKey s)) ;;
  let count := match count with Ok n => n | _ => 0 end in
  if WindowSize <=? count then _ <- mcall Go_compress ;; Ret (Ok tt)
  else Ret (Ok tt))).

Definition GetMessages (s : Session) : prog mem (outcome (list Message)) :=
  strs <- mcall (LRange (sKey s) 0 (-1)) ;;
  ok_or strs (String.append "redis LRange 失败: ") (fun strs => Ret (Ok (omap Unmarshal strs))).

(** *** summarizer.go *)
Definition summaryPrompt : string :=
  let nl := String (byte 10) "" in
  let q := String (byte 34) "" in
  let field k v := "  " +:+ q +:+ k +:+ q +:+ ": " +:+ v in
  "你是对话摘要助手。请将以下对话压缩为 JSON 格式输出：" +:+ nl +:+ "{" +:+ nl +:+
  field "summary" (q +:+ "摘要正文，不超过 300 字，第三人称" +:+ q) +:+ "," +:+ nl +:+
  field "type" (q +:+ "fact|preference|decision|knowledge|general" +:+ q) +:+ "," +:+ nl +:+
  field "tags" (q +:+ "关键词1,关键词2" +:+ q) +:+ "," +:+ nl +:+
  field "importance" "0-5" +:+ nl +:+ "}" +:+ nl +:+
  "type 说明：fact=用户提到的事实，preference=用户偏好习惯，decision=用户做出的决策，knowledge=技术知识点，general=普通对话" +:+ nl +:+
  "importance: 5=极其重要/关键决策，0=闲聊。只输出 JSON，不要其他内容。".

Definition role_text (r : RoleType) : string :=
  match r with Assistant => "assistant" | User => "user" | System => "system" | Tool => "tool" end.

Definition dialog_line (m : Message) : string :=
  role_text (Role m) +:+ ": " +:+ Content m +:+ String (byte 10) "".
Definition dialogText (msgs : list Message) : string :=
  foldr (fun m t => dialog_line m +:+ t) "" msgs.

Definition summary_request (msgs : list Message) : list Message :=
  [SystemMessage summaryPrompt;
   UserMessage ("请为以下对话生成摘要：" +:+ String (byte 10) (String (byte 10) "") +:+ dialogText msgs)].

(** The parse of the answer with its fallback, and the defaults. *)
Definition result_of (raw : string) : SummaryResult :=
  let r := match UnmarshalResult raw with
           | Some r => r
           | None => mkResult raw "general" "" 1
           end in
  let summary := if String.eqb (Summary r) "" then raw else Summary r in
  let type := if String.eqb (Type_ r) "" then "general" else Type_ r in
  let importance := if Importance r <? 0 then 1 else Importance r in
  let importance := if 5 <? importance then 5 else importance in
  mkResult summary type (Tags r) importance.

Definition SummarizeWithLLM (msgs : list Message) : prog mem (outcome SummaryResult) :=
  cm <- mcall GetChatModel ;;
  ok_or cm id (fun _ =>
  resp <- mcall (Generate (summary_request msgs)) ;;
  ok_or resp (String.append "摘要 LLM 调用失败: ") (fun resp =>
  let raw := TrimSpace (Content resp) in
  if String.eqb raw "" then Ret (Err "摘要 LLM 返回空内容")
  else Ret (Ok (result_of raw)))).

(** dao.SaveSummary *)
Definition SaveSummary (userID : Z) (sessionID summary memoryType tags : string) (importance : Z)
  : prog mem (outcome unit) :=
  r <- mcall (InsertSummary (mkSummaryRow userID sessionID summary memoryType tags importance)) ;;
  ok_or r (String.append "摘要落库失败: ") (fun _ => Ret (Ok tt)).

Definition embeddingMemoryToMilvus (userID : Z) (sessionID summary memoryType : string) (importance : Z)
  : prog mem (outcome unit) :=
  e <- mcall GetEmbedder ;;
  ok_or e id (fun _ =>
  i <- mcall GetIndexer ;;
  ok_or i id (fun _ =>
  id_ <- mcall NewUUID ;;
  now <- mcall Now ;;
  r <- mcall (StoreDoc id_ summary userID sessionID memoryType importance now) ;;
  ok_or r id (fun _ => Ret (Ok tt)))).

(** int8(x) *)
Definition int8 (z : Z) : Z := (z + 128) mod 256 - 128.

Definition toCompress : Z := WindowSize - KeepAfterCompress.

Definition summary_message (r : SummaryResult) : Message := SystemMessage ("[历史摘要] " +:+ Summary r).

(** Steps 4 and 5: what is stored of the summary, then the replacement. The
    error of Marshal is dropped, which leaves an empty text. *)
Definition keep_summary (s : Session) (summary : SummaryResult) : prog mem unit :=
  _ <- SaveSummary (sUserID s) (sID s) (Summary summary) (Type_ summary) (Tags summary) (int8 (Importance summary)) ;;
  _ <- embeddingMemoryToMilvus (sUserID s) (sID s) (Summary summary) (Type_ summary) (int8 (Importance summary)) ;;
  let summaryData := match Marshal (summary_message summary) with Ok d => d | _ => "" end in
  _ <- mcall (RunSummary (sKey s) summaryData toCompress (sTTL s)) ;;
  Ret tt.

Definition triggerSummaryCompress (s : Session) : prog mem unit :=
  strs <- mcall (LRange (sKey s) 0 (toCompress - 1)) ;;
  match strs with
  | Ok ((_ :: _) as strs) =>
      match omap Unmarshal strs with
      | [] => Ret tt
      | msgs =>
          summary <- SummarizeWithLLM msgs ;;
          match summary with
          | Ok summary => keep_summary s summary
          | _ => Ret tt
          end
      end
  | _ => Ret tt
  end.

(** A summary is never empty, has a type, and an importance between 0 and 5, which
    the column holds. *)
Theorem summary_well_formed {W} (h : env mem W) msgs :
  always h (SummarizeWithLLM msgs) (fun out _ =>
    match out with
    | Ok r => Summary r <> "" /\ Type_ r <> "" /\ 0 <= Importance r <= 5 /\ int8 (Importance r) = Importance r
    | _ => True
    end).
Proof.
  unfold SummarizeWithLLM. apply always_Do. intros [[] | e | m]; cbn [bind ok_or]; [| by apply always_Ret ..].
  apply always_Do. intros [resp | e | m]; cbn [bind ok_or]; [| by apply always_Ret ..].
  destruct (String.eqb_spec (TrimSpace (Content resp)) "") as [| Hne]; apply always_Ret; [done |].
  unfold result_of. set (r := match UnmarshalResult _ with Some _ => _ | None => _ end). cbn.
  destruct (String.eqb_spec (Summary r) ""), (String.eqb_spec (Type_ r) ""),
    (Z.ltb_spec (Importance r) 0); cbn; try destruct (Z.ltb_spec 5 (Importance r));
    (split_and!; try done; try lia);
    unfold int8; rewrite Z.mod_small; lia.
Qed.
End session.

(** *** A Redis list under the session's key *)

Definition lrange {A} (start stop : Z) (l : list A) : list A :=
  let n := Z.of_nat (length l) in
  let first := if start <? 0 then 0 `max` (n + start) else start in
  let past := (if stop <? 0 then n + stop else stop) + 1 in
  take (Z.to_nat (past - first)) (drop (Z.to_nat first) l).

Lemma lrange_all {A} (l : list A) : lrange 0 (-1) l = l.
Proof.
  unfold lrange. change (0 <? 0) with false. change (-1 <? 0) with true. cbv iota.
  change (drop (Z.to_nat 0) l) with l. apply take_ge. lia.
Qed.

Lemma lrange_prefix {A} n (l : list A) : 0 < n -> lrange 0 (n - 1) l = take (Z.to_nat n) l.
Proof.
  intros Hn. unfold lrange. change (0 <? 0) with false. cbv iota. change (drop (Z.to_nat 0) l) with l.
  destruct (Z.ltb_spec (n - 1) 0); [lia |]. f_equal. lia.
Qed.

(** LTRIM key n -1 *)
Lemma lrange_suffix {A} n (l : list A) : 0 <= n -> lrange n (-1) l = drop (Z.to_nat n) l.
Proof.
  intros Hn. unfold lrange. destruct (Z.ltb_spec n 0); [lia |]. change (-1 <? 0) with true. cbv iota.
  apply take_ge. rewrite length_drop. lia.
Qed.

(** What the scripts and commands do to the list [stored] under [key]: a script
    that succeeds took effect once, one that failed may have; reading does not
    change it, nor does any other command. *)
Class RedisList {W} (h : env mem W) (key : string) (stored : W -> list string) : Prop := {
  append_effect data ttl w :
    let '(r, w') := h (RunAppend key data ttl) w in
    match r with
    | Ok _ => stored w' = stored w ++ [data]
    | _ => stored w' = stored w \/ stored w' = stored w ++ [data]
    end;
  summary_effect data n ttl w :
    let '(r, w') := h (RunSummary key data n ttl) w in
    match r with
    | Ok _ => stored w' = data :: lrange n (-1) (stored w)
    | _ => stored w' = stored w \/ stored w' = data :: lrange n (-1) (stored w)
    end;
  range_effect start stop w :
    let '(r, w') := h (LRange key start stop) w in
    stored w' = stored w /\ (match r with Ok l => l = lrange start stop (stored w) | _ => True end);
  other_effect c w :
    match c with
    | RunAppend _ _ _ | RunSummary _ _ _ _ | Go_compress => True
    | _ => stored (h c w).2 = stored w
    end;
}.

(** Commands that leave the list alone. *)
Definition quiet (c : mem_cmd) : Prop :=
  match c with RunAppend _ _ _ | RunSummary _ _ _ _ | Go_compress => False | _ => True end.

Lemma only_ok_or {A B} P (r : outcome A) wrap (k : A -> prog mem (outcome B)) :
  (forall a, only P (k a)) -> only P (ok_or r wrap k).
Proof. intros H. by destruct r; cbn. Qed.

Lemma save_quiet a b c d e f : only (S := mem) quiet (SaveSummary a b c d e f).
Proof. split; [done |]. intros r. by apply only_ok_or. Qed.
Lemma embed_quiet a b c d e : only (S := mem) quiet (embeddingMemoryToMilvus a b c d e).
Proof.
  split; [done |]. intros r. apply only_ok_or. intros _.
  split; [done |]. intros r'. apply only_ok_or. intros _.
  split; [done |]. intros u. split; [done |]. intros t. split; [done |]. intros r''. by apply only_ok_or.
Qed.

Section compress.
Variable Marshal : Message -> outcome string.
Variable Unmarshal : string -> option Message.
Variable UnmarshalResult : string -> option SummaryResult.
Context {W : Type} (h : env mem W) (s : Session) (stored : W -> list string).
Context {HR : RedisList h (sKey s) stored}.

Lemma quiet_keeps {A} (p : prog mem A) w :
  only (S := mem) quiet p -> from h w p (fun _ w' _ => stored w' = stored w).
Proof.
  intros Hp. apply (only_invariant (S := mem) quiet h (fun w' => stored w' = stored w)); [done | | done].
  intros c w' Hc <-. pose proof (other_effect c w') as H. by destruct c.
Qed.

(** The text that replaces what was summarised. *)
Definition placeholder (r : SummaryResult) : string :=
  match Marshal (summary_message r) with Ok d => d | _ => "" end.

Lemma keep_summary_effect r w :
  from h w (keep_summary Marshal s r) (fun _ w' _ =>
    stored w' = stored w \/ stored w' = placeholder r :: drop 5 (stored w)).
Proof.
  unfold keep_summary. eapply from_bind; [apply quiet_keeps, save_quiet |]. intros ? w1 ? H1.
  eapply from_bind; [apply quiet_keeps, embed_quiet |]. intros ? w2 ? H2.
  apply from_Do, from_Ret. fold (placeholder r).
  pose proof (summary_effect (placeholder r) toCompress (sTTL s) w2) as H.
  rewrite lrange_suffix in H by done. change (Z.to_nat toCompress) with 5%nat in H.
  destruct (h _ w2) as [res w3]. cbn. rewrite H2, H1 in H. destruct res; tauto.
Qed.

(** C25: The messages a compression removes are the oldest five, and only after the
    model answered a request that quotes all of them that can be read; what takes
    their place is the summary in that answer. Whatever fails, the newer messages
    stay, in order. *)
Theorem compress_loses_nothing w :
  from h w (triggerSummaryCompress Marshal Unmarshal UnmarshalResult s) (fun _ w' tr =>
    stored w' = stored w \/
    exists resp,
      ev (S := mem) (Generate (summary_request (omap Unmarshal (take 5 (stored w))))) (Ok resp) ∈ tr /\
      stored w' = placeholder (result_of UnmarshalResult (TrimSpace (Content resp))) :: drop 5 (stored w)).
Proof.
  unfold triggerSummaryCompress. apply from_Do.
  pose proof (range_effect 0 (toCompress - 1) w) as Hr. destruct (h _ w) as [strs w1]. cbn [fst snd].
  destruct Hr as [Hw1 Hr]. destruct strs as [[| d strs] | |]; try (by apply from_Ret; left).
  rewrite lrange_prefix in Hr by done. change (Z.to_nat toCompress) with 5%nat in Hr. rewrite <- Hr.
  destruct (omap Unmarshal (d :: strs)) as [| m msgs]; [by apply from_Ret; left |].
  set (l := m :: msgs). eapply from_bind with (P := fun out w2 tr => stored w2 = stored w1 /\
    match out with
    | Ok r => exists resp, ev (S := mem) (Generate (summary_request l)) (Ok resp) ∈ tr /\
                r = result_of UnmarshalResult (TrimSpace (Content resp))
    | _ => True
    end).
  - unfold SummarizeWithLLM. apply from_Do.
    pose proof (other_effect GetChatModel w1) as H1. destruct (h _ w1) as [cm w2]. cbn [fst snd] in *.
    destruct cm; try by apply from_Ret. apply from_Do.
    pose proof (other_effect (Generate (summary_request l)) w2) as H2. destruct (h _ w2) as [resp w3].
    cbn [fst snd] in *. rewrite H1 in H2. destruct resp as [resp | |]; try by apply from_Ret.
    cbn [ok_or]. case_match; apply from_Ret; [done |]. split; [done |]. exists resp. split; [| done].
    apply elem_of_cons. right. by apply elem_of_cons; left.
  - intros out w2 tr [Hw2 Hout]. destruct out as [r | |]; try (apply from_Ret; left; congruence).
    destruct Hout as (resp & Hin & ->). eapply from_impl; [apply keep_summary_effect |].
    intros ? w' tr' H. cbn beta in H. rewrite Hw2, Hw1 in H. destruct H as [-> | ->]; [by left | right].
    exists resp. split; [| done]. apply elem_of_cons. right. apply elem_of_app. by left.
Qed.
End compress.

(** *** A concrete list, the other commands answered by [others] *)
Definition list_env (others : forall c, mem_res c) : env mem (list string) := fun c w =>
  match c as c return mem_res c * list string with
  | RunAppend _ d _ => (Ok tt, w ++ [d])
  | RunSummary _ d n _ => (Ok tt, d :: lrange n (-1) w)
  | LLen _ => (Ok (Z.of_nat (length w)), w)
  | LRange _ start stop => (Ok (lrange start stop w), w)
  | Go_compress => (tt, w)
  | c => (others c, w)
  end.

#[export] Instance list_env_laws others key : RedisList (list_env others) key id.
Proof. split; try done. intros c w. by destruct c. Qed.

(** Everything works, the model says [text]. *)
Definition all_well (text : string) : forall c, mem_res c := fun c =>
  match c as c return mem_res c with
  | RunAppend _ _ _ | RunSummary _ _ _ _ | GetChatModel | InsertSummary _
  | GetEmbedder | GetIndexer | StoreDoc _ _ _ _ _ _ _ | GetRetriever _ | GetRunner => Ok tt
  | LLen _ => Ok 0
  | LRange _ _ _ => Ok []
  | Go_compress => tt
  | Generate _ => Ok (AssistantMessage text [])
  | FindSummaries _ _ _ => Ok []
  | NewUUID => "1"
  | Now => 0
  | Retrieve _ _ => Ok []
  end.

Definition text_of (m : Message) : outcome string := Ok (Content m).
Definition of_text (s : string) : option Message := Some (UserMessage s).
Definition twenty : list string := Itoa <$> seqZ 1 20.
Definition session1 : Session := GetOrCreate 86400 "agent_session:1" 1.

Lemma compress_loses_nothing_witness :
  let out := run (list_env (all_well "s")) (triggerSummaryCompress text_of of_text (fun _ => None) session1) twenty in
  final out = "[历史摘要] s" :: (Itoa <$> seqZ 6 15) /\
  exists resp, ev (S := mem) (Generate (summary_request (omap of_text (take 5 twenty)))) (Ok resp) ∈ trace out.
Proof.
  intros out. split; [vm_compute; reflexivity |].
  destruct (compress_loses_nothing text_of of_text (fun _ => None) (list_env (all_well "s")) session1 id twenty)
    as [H | (resp & H & _)]; [exfalso; vm_compute in H; discriminate H | exists resp; exact H].
Defined.

(** Two goroutines, [true] letting the first issue its next command. *)
Fixpoint interleave {S W A B} (h : env S W) (sched : list bool) (p : prog S A) (q : prog S B) (w : W)
  : W * list (event S) :=
  match sched with
  | [] => (w, [])
  | true :: sched =>
      match p with
      | Ret _ => interleave h sched p q w
      | Do c k => let '(r, w) := h c w in
                  let '(w, tr) := interleave h sched (k r) q w in (w, ev c r :: tr)
      end
  | false :: sched =>
      match q with
      | Ret _ => interleave h sched p q w
      | Do c k => let '(r, w) := h c w in
                  let '(w, tr) := interleave h sched p (k r) w in (w, ev c r :: tr)
      end
  end.

Definition asked (e : event mem) : list (list Message) :=
  match e with existT (Generate input) _ => [input] | _ => [] end.

(** Two messages that find the window full start two compressions; both may
    read the same five messages, and each then removes five: four messages (6 to
    9) are gone that no summary was asked for. *)
Lemma two_compressions_lose_messages :
  let p := triggerSummaryCompress text_of of_text (fun _ => None) session1 in
  let '(w, tr) := interleave (list_env (all_well "s")) (true :: replicate 20 false ++ replicate 20 true) p p twenty in
  w = "[历史摘要] s" :: (Itoa <$> seqZ 10 11) /\
  view (S := mem) asked tr = replicate 2 (summary_request ((UserMessage ∘ Itoa) <$> seqZ 1 5)).
Proof. vm_compute. done. Qed.
End Short.

Module Recall.

Definition minScore : float64 := flit 1 2.
Definition TopLongHistory : Z := 3.
Definition tieThreshold : float64 := flit 5 100.

(** recallItem *)
Record recallItem := mkItem { content : string; score : float64; importance : Z }.

(** The loop over the documents found. *)
Fixpoint candidates (docs : list MemoryDoc) : outcome (list recallItem) :=
  match docs with
  | [] => Ok []
  | doc :: docs =>
      if flt (mdScore doc) minScore then candidates docs
      else
        let c := if String.eqb (mdContent doc) "" then default "" (mdSummary doc) else mdContent doc in
        if String.eqb c "" then candidates docs
        else match mdImportance doc with
             | Some None => Panic "interface conversion"
             | Some (Some v) => outcome_map (cons (mkItem c (mdScore doc) v)) (candidates docs)
             | None => outcome_map (cons (mkItem c (mdScore doc) 0)) (candidates docs)
             end
  end.

Fixpoint dedup_from (seen : gset string) (items : list recallItem) : list recallItem :=
  match items with
  | [] => []
  | item :: items =>
      if decide (content item ∈ seen) then dedup_from seen items
      else item :: dedup_from ({[content item]} ∪ seen) items
  end.
Definition deduplicateByContent : list recallItem -> list recallItem := dedup_from ∅.

(** The comparator of the sort. *)
Definition before (x y : recallItem) : bool :=
  if flt tieThreshold (fabs (fsub (score x) (score y))) then flt (score y) (score x)
  else if negb (importance x =? importance y) then importance y <? importance x
  else flt (score y) (score x).

Definition rank_documents (docs : list MemoryDoc) (topK : nat) : outcome (list string) :=
  outcome_map (fun cs => content <$> take topK (sort_Slice before (deduplicateByContent cs))) (candidates docs).

Definition RecallMemory (userID : Z) (query : string) (topK : nat) : prog mem (outcome (list string)) :=
  e <- mcall GetEmbedder ;;
  ok_or e id (fun _ =>
  r <- mcall (GetRetriever (Z.of_nat topK * 2)) ;;
  ok_or r id (fun _ =>
  docs <- mcall (Retrieve query ("user_id == " +:+ Itoa userID)) ;;
  ok_or docs id (fun docs => Ret (rank_documents docs topK)))).

(** truncateStr, used in the log *)
Definition truncateStr (s : string) (maxLen : nat) : string :=
  let rs := runes s in
  if (length rs <=? maxLen)%nat then s else of_runes (take maxLen rs) +:+ "...".

(** *** What is recalled *)

Definition usable (doc : MemoryDoc) (c : string) : Prop :=
  flt (mdScore doc) minScore = false /\ c <> "" /\
  c = (if String.eqb (mdContent doc) "" then default "" (mdSummary doc) else mdContent doc).

Lemma candidates_usable docs cs :
  candidates docs = Ok cs -> forall c, c ∈ (content <$> cs) <-> exists doc, doc ∈ docs /\ usable doc c.
Proof.
  revert cs. induction docs as [| doc docs IH]; intros cs; cbn [candidates].
  { intros [= <-] c. split; [intros H; by apply elem_of_nil in H |].
    intros (doc & H & _). by apply elem_of_nil in H. }
  set (c0 := if String.eqb (mdContent doc) "" then _ else _).
  assert (forall cs' c, candidates docs = Ok cs' -> ~ usable doc c ->
    c ∈ (content <$> cs') <-> exists d, d ∈ doc :: docs /\ usable d c) as Hskip.
  { intros cs' c Hcs Hno. rewrite (IH cs' Hcs c). split; intros (d & Hd & Hu).
    - exists d. split; [by right | done].
    - apply elem_of_cons in Hd as [-> | Hd]; [done | by exists d]. }
  destruct (flt (mdScore doc) minScore) eqn:Es.
  { intros Hcs c. apply Hskip; [done |]. intros (H & _). congruence. }
  destruct (String.eqb_spec c0 "") as [E0 | E0].
  { intros Hcs c. apply Hskip; [done |]. intros (_ & H & ->). done. }
  assert (forall v cs', candidates docs = Ok cs' -> forall c, c ∈ (content <$> mkItem c0 (mdScore doc) v :: cs') <->
    exists d, d ∈ doc :: docs /\ usable d c) as Hkeep.
  { intros v cs' Hcs c. rewrite fmap_cons, elem_of_cons. cbn [content]. split.
    - intros [-> | H]; [exists doc; split; [by left | done] |].
      apply (IH cs' Hcs) in H as (d & Hd & Hu). exists d. split; [by right | done].
    - intros (d & [-> | Hd]%elem_of_cons & Hu); [left; apply Hu |].
      right. apply (IH cs' Hcs). by exists d. }
  destruct (mdImportance doc) as [[v |] |]; [| done |];
    (destruct (candidates docs) as [cs' | |]; [| done | done]); intros [= <-]; by apply Hkeep.
Qed.

Lemma dedup_from_spec seen items :
  NoDup (content <$> dedup_from seen items) /\
  forall c, c ∈ (content <$> dedup_from seen items) <-> c ∈ (content <$> items) /\ c ∉ seen.
Proof.
  revert seen. induction items as [| item items IH]; intros seen; cbn [dedup_from fmap list_fmap].
  { split; [constructor |]. intros c. split; [intros H; by apply elem_of_nil in H |].
    intros [H _]. by apply elem_of_nil in H. }
  case_decide as Hin.
  - destruct (IH seen) as [H1 H2]. split; [done |]. intros c. rewrite H2, elem_of_cons. naive_solver.
  - destruct (IH ({[content item]} ∪ seen)) as [H1 H2]. cbn [fmap list_fmap]. split.
    + constructor; [| done]. rewrite H2. set_solver.
    + intros c. rewrite !elem_of_cons, H2. destruct (decide (c = content item)); set_solver.
Qed.

(** The memories recalled are different texts of documents similar enough to the
    question, at most [topK], and none of those is left out while there is room. *)
Theorem recalled_memories docs topK out :
  rank_documents docs topK = Ok out ->
  NoDup out /\ (length out <= topK)%nat /\
  (forall c, c ∈ out -> exists doc, doc ∈ docs /\ usable doc c) /\
  ((length out < topK)%nat -> forall doc c, doc ∈ docs -> usable doc c -> c ∈ out).
Proof.
  unfold rank_documents. destruct (candidates docs) as [cs | |] eqn:Ec; [| done | done]. intros [= <-].
  set (sorted := sort_Slice before (deduplicateByContent cs)).
  assert (sorted ≡ₚ deduplicateByContent cs) as Hperm by apply sort_Slice_perm.
  destruct (dedup_from_spec ∅ cs) as [Hnd Hel]. fold (deduplicateByContent cs) in Hnd, Hel.
  rewrite <- Hperm in Hnd. assert (forall c, c ∈ (content <$> sorted) <-> exists doc, doc ∈ docs /\ usable doc c) as Hall.
  { intros c. rewrite Hperm, Hel, (candidates_usable docs cs Ec). set_solver. }
  rewrite fmap_take. split_and!.
  - rewrite <- (take_drop topK (content <$> sorted)) in Hnd. by apply NoDup_app in Hnd as (H & _).
  - rewrite length_take. lia.
  - intros c Hc. apply Hall. by eapply subseteq_take.
  - rewrite length_take. intros Hlt doc c Hd Hu. rewrite take_ge by lia. apply Hall. by exists doc.
Qed.

Definition found (c : string) (pct imp : Z) : MemoryDoc := mkMemoryDoc (flit pct 100) c None (Some (Some imp)).

Lemma recalled_memories_witness :
  let docs := [found "a" 90 1; found "b" 40 5; found "a" 80 2; found "c" 60 3] in
  rank_documents docs 3 = Ok ["a"; "c"] /\ NoDup ["a"; "c"].
Proof.
  intros docs. split; [vm_compute; reflexivity |].
  refine (proj1 (recalled_memories [found "a" 90 1; found "b" 40 5; found "a" 80 2; found "c" 60 3] 3 ["a"; "c"] _)).
  vm_compute. reflexivity.
Defined.

(** The comparator is no order: each of three memories goes before the next and
    the last before the first, so which one is recalled first depends on the order in
    which they were found. *)
Lemma before_is_cyclic :
  let item pct imp := mkItem "" (flit pct 100) imp in
  before (item 60 3) (item 64 2) = true /\ before (item 64 2) (item 68 1) = true /\
  before (item 68 1) (item 60 3) = true /\
  rank_documents [found "a" 60 3; found "b" 64 2; found "c" 68 1] 1 = Ok ["a"] /\
  rank_documents [found "b" 64 2; found "c" 68 1; found "a" 60 3] 1 = Ok ["b"].
Proof. by vm_compute. Qed.
End Recall.

Module Context.
Import Short Recall.

(** dao.GetLatestSummary: the statement orders by importance, then time, and
    keeps three rows; an error counts as no summary. *)
Fixpoint distinct_summaries (kept : list string) (records : list AgentSummary) : list string :=
  match records with
  | [] => kept
  | r :: records =>
      if existsb (String.eqb (sumSummary r)) kept then distinct_summaries kept records
      else distinct_summaries (kept ++ [sumSummary r]) records
  end.

Definition GetLatestSummary (userID : Z) (sessionID : string) : prog mem (outcome string) :=
  records <- mcall (FindSummaries userID sessionID 3) ;;
  match records with
  | Ok ((_ :: _) as records) => Ret (Ok (Join (distinct_summaries [] records) (String (byte 10) (String (byte 10) ""))))
  | _ => Ret (Ok "")
  end.

Section context.
Variable Marshal : Message -> outcome string.
Variable Unmarshal : string -> option Message.

Definition long_term (memories : outcome (list string)) : list Message :=
  match memories with
  | Ok ((_ :: _) as l) =>
      [SystemMessage ("[以下是关于此用户的历史记忆，可能与此对话相关]" +:+ String (byte 10) "" +:+ String.concat "" l)]
  | _ => []
  end.
Definition mid_term (summary : string) : list Message :=
  if String.eqb summary "" then []
  else [SystemMessage ("[历史对话摘要，请参考但不必完全重复]" +:+ String (byte 10) "" +:+ summary)].

Definition PrepareAgentContext (senderID : Z) (message : string) : prog mem (outcome (Session * list Message)) :=
  let sessionID := "agent_session:" +:+ Itoa senderID in
  runner <- mcall GetRunner ;;
  ok_or runner id (fun _ =>
  let session := GetOrCreate (24 * 3600) sessionID senderID in
  appended <- Append Marshal session (UserMessage (TrimSpace message)) ;;
  ok_or appended (String.append "写入 Session 失败: ") (fun _ =>
  shortTermHistory <- GetMessages Unmarshal session ;;
  ok_or shortTermHistory (String.append "读取 Session 失败: ") (fun shortTermHistory =>
  recentSummary <- GetLatestSummary senderID sessionID ;;
  let recentSummary := match recentSummary with Ok s => s | _ => "" end in
  longTermHistory <- RecallMemory senderID message (Z.to_nat TopLongHistory) ;;
  match longTermHistory with
  | Panic m => Ret (Panic m)
  | _ => Ret (Ok (session, long_term longTermHistory ++ mid_term recentSummary ++ shortTermHistory))
  end))).

(** *** What the agent is given *)
Context {W : Type} (h : env mem W) (stored : W -> list string).

Lemma Append_last s `{!RedisList h (sKey s) stored} msg w :
  (forall w, last (stored (h Go_compress w).2) = last (stored w)) ->
  from h w (Append Marshal s msg) (fun out w' _ =>
    match out with Ok _ => exists d, Marshal msg = Ok d /\ last (stored w') = Some d | _ => True end).
Proof.
  intros Hgo. unfold Append. destruct (Marshal msg) as [d | |]; cbn [ok_or]; [| done | done].
  apply from_Do. pose proof (append_effect d (sTTL s) w) as H1.
  destruct (h _ w) as [r w1]. cbn [fst snd]. destruct r as [[] | |]; cbn [bind ok_or]; [| done | done].
  apply from_Do. pose proof (other_effect (LLen (sKey s)) w1) as H2. cbn in H2.
  destruct (h _ w1) as [n w2]. cbn [fst snd] in *. cbn [bind].
  assert (last (stored w2) = Some d) as Hl by (by rewrite H2, H1, last_snoc).
  case_match; [| apply from_Ret; by exists d].
  apply from_Do, from_Ret. exists d. by rewrite Hgo.
Qed.

Lemma GetMessages_reads s `{!RedisList h (sKey s) stored} w :
  from h w (GetMessages Unmarshal s) (fun out w' _ =>
    stored w' = stored w /\ match out with Ok l => l = omap Unmarshal (stored w) | _ => True end).
Proof.
  unfold GetMessages. apply from_Do. pose proof (range_effect 0 (-1) w) as H. rewrite lrange_all in H.
  destruct (h _ w) as [r w1]. cbn [fst snd]. destruct H as [H1 H2].
  destruct r as [l | |]; cbn [bind ok_or]; apply from_Ret; [by subst l | done | done].
Qed.

Lemma recall_quiet userID query topK : only (S := mem) quiet (RecallMemory userID query topK).
Proof.
  split; [done |]. intros r. apply only_ok_or. intros _. split; [done |]. intros r'. apply only_ok_or.
  intros _. split; [done |]. intros docs. by apply only_ok_or.
Qed.
Lemma summary_quiet userID sessionID : only (S := mem) quiet (GetLatestSummary userID sessionID).
Proof. split; [done |]. intros [[] | |]; done. Qed.

Lemma last_omap (l : list string) d m :
  last l = Some d -> Unmarshal d = Some m -> last (omap Unmarshal l) = Some m.
Proof.
  intros (l' & ->)%last_Some Hd. rewrite omap_app. cbn. rewrite Hd. apply last_snoc.
Qed.

(** The agent is given the session as Redis has it, with nothing before it but
    what is recalled and the summary, each one system message; the question is the
    last message, whatever the summary, the recall or a compression running at the
    same time do. *)
Theorem context_ends_with_question senderID message w :
  let session := GetOrCreate (24 * 3600) ("agent_session:" +:+ Itoa senderID) senderID in
  RedisList h (sKey session) stored ->
  (forall m d, Marshal m = Ok d -> Unmarshal d = Some m) ->
  (forall w, last (stored (h Go_compress w).2) = last (stored w)) ->
  from h w (PrepareAgentContext senderID message) (fun out w' _ =>
    match out with
    | Ok (s, history) =>
        s = session /\ last history = Some (UserMessage (TrimSpace message)) /\
        exists front, history = front ++ omap Unmarshal (stored w') /\
          Forall (fun m => Role m = System) front /\ (length front <= 2)%nat
    | _ => True
    end).
Proof.
  intros session HR Hcodec Hgo. unfold PrepareAgentContext. fold session. apply from_Do.
  pose proof (other_effect GetRunner w) as Hw0. destruct (h _ w) as [r w0]. cbn [fst snd bind].
  destruct r as [[] | |]; cbn [ok_or]; [| done | done].
  eapply from_bind; [by apply (Append_last session) |]. intros a w1 ? H1.
  destruct a as [[] | |]; cbn [ok_or]; [| done | done]. destruct H1 as (d & Hd & Hl).
  eapply from_bind; [apply (GetMessages_reads session) |]. intros l w2 ? [H2 H2'].
  destruct l as [l | |]; cbn [ok_or]; [| done | done].
  eapply from_bind; [apply (quiet_keeps h session stored), summary_quiet |]. intros sm w3 ? H3. cbv zeta.
  eapply from_bind; [apply (quiet_keeps h session stored), recall_quiet |]. intros lt w4 ? H4.
  cbn beta in *. set (front := long_term lt ++ mid_term (match sm with Ok s => s | _ => "" end)).
  assert (last (front ++ l) = Some (UserMessage (TrimSpace message)) /\ front ++ l = front ++ omap Unmarshal (stored w4) /\
    Forall (fun m => Role m = System) front /\ (length front <= 2)%nat) as (G1 & G2 & G3 & G4).
  { split_and!.
    - rewrite last_app, H2'. rewrite <- H2 in Hl. rewrite <- H2. by rewrite (last_omap _ d _ Hl (Hcodec _ _ Hd)).
    - congruence.
    - apply Forall_app. unfold long_term, mid_term. split; repeat case_match; repeat constructor.
    - unfold front, long_term, mid_term. rewrite length_app. repeat case_match; cbn; lia. }
  destruct lt as [lt | |]; [| | done]; apply from_Ret; rewrite app_assoc; fold front;
    (split_and!; [done | exact G1 | exists front; done]).
Qed.
End context.

(** A codec of plain user messages. *)
Definition plain (m : Message) : outcome string :=
  if decide (m = UserMessage (Content m)) then Ok (Content m) else Err "unsupported".

Lemma context_ends_with_question_witness :
  let out := run (list_env (all_well "s")) (PrepareAgentContext plain of_text 7 " how? ") ["hi"; "hello"] in
  result out = Ok (GetOrCreate 86400 "agent_session:7" 7, UserMessage <$> ["hi"; "hello"; "how?"]) /\
  exists history, result out = Ok (GetOrCreate 86400 "agent_session:7" 7, history) /\
    last history = Some (UserMessage "how?").
Proof.
  intros out. split; [vm_compute; reflexivity |].
  assert (forall m d, plain m = Ok d -> of_text d = Some m) as Hcodec.
  { intros m d. unfold plain. case_decide as H; [intros [= <-]; by rewrite H | done]. }
  pose proof (context_ends_with_question plain of_text (list_env (all_well "s")) id 7 " how? " ["hi"; "hello"]
    (list_env_laws _ _) Hcodec (fun _ => eq_refl)) as H.
  eexists. split; [vm_compute; reflexivity | exact (proj1 (proj2 H))].
Defined.
End Context.

Module CheckPoint.
(** inMemoryStore *)
Definition Set_ (s : gmap string string) (key value : string) : gmap string string := <[key := value]> s.
Definition Get (s : gmap string string) (key : string) : string * bool :=
  match s !! key with Some v => (v, true) | None => ("", false) end.

(** A key reads back what was set last, other keys are untouched. *)
Lemma get_set s k v k' : Get (Set_ s k v) k' = if decide (k = k') then (v, true) else Get s k'.
Proof.
  unfold Get, Set_. case_decide as H; [subst; by rewrite lookup_insert_eq | by rewrite lookup_insert_ne].
Qed.
End CheckPoint.
