(* ===== verification/AgentTask.v ===== *)
(** * Scheduled messages: apps/agent/task, dao/scheduled_messages.go, the tools

    Module Table: the statements of the dao on the table, over whatever columns it
    has, and the life of a task under any interleaving of them. Module Cron
    (task/schedule_msg.go): the job of every minute and the goroutine that sends.
    Module Tool (tools/schedule_message.go) and Module McpTool
    (mcp/schedule_msg.go): the two ways a task is made. *)
From S2P Require Import Prelude GoStd GoText GoFloat Effects AgentSchema Dao.
#[local] Open Scope prog_scope.

(** models/scheduled_messages.go, less the times no statement reads. *)
Record ScheduledMessages := mkSch {
  SchMsgId : Z;
  CreatorId : Z;
  ReceiverId : Z;
  GroupId : Z;
  Content : string;
  ScheduledSendTime : Z;
  Status : Z;          (* 0 waiting, 1 claimed, 2 sent, 3 failed *)
  FailReason : string;
}.

Module Table.

(** The columns AutoMigrate gives the table: those of the model's tags. *)
Definition migrated : list string :=
  ["msg_id"; "creator_id"; "receiver_id"; "group_id"; "content"; "scheduled_send_time"; "status";
   "actual_send_time"; "fail_reason"; "create_time"; "update_time"].

(** The columns the updates of the dao name. *)
Definition named : list string := ["sch_msg_id"; "status"; "updated_time"].

Record tables := mkTables {
  rows : gmap Z ScheduledMessages;
  next_id : Z;                        (* auto-increment *)
}.

Definition with_status (to : Z) (reason : option string) (t : ScheduledMessages) : ScheduledMessages :=
  mkSch (SchMsgId t) (CreatorId t) (ReceiverId t) (GroupId t) (Content t) (ScheduledSendTime t) to
    (default (FailReason t) reason).

(** The four updates: WHERE sch_msg_id = ? AND status = ?, setting the status (and
    the reason) and updated_time. *)
Record update_stmt := mkUpdate { task_of : Z; from_status : Z; to_status : Z; reason : option string }.
Definition claim (id : Z) : update_stmt := mkUpdate id 0 1 None.
Definition sent (id : Z) : update_stmt := mkUpdate id 1 2 None.
Definition failed (id : Z) (why : string) : update_stmt := mkUpdate id 1 3 (Some why).

Definition unknown_column (columns : list string) (u : update_stmt) : option string :=
  find (fun c => negb (existsb (String.eqb c) columns)) (named ++ if reason u is Some _ then ["fail_reason"] else []).

(** The answer is the number of rows affected. *)
Definition exec_update (columns : list string) (u : update_stmt) (s : tables) : answer Z * tables :=
  match unknown_column columns u with
  | Some c => (Failure ("Error 1054 (42S22): Unknown column '" +:+ c +:+ "'"), s)
  | None =>
      match rows s !! task_of u with
      | Some t =>
          if Status t =? from_status u then
            (Success 1, mkTables (<[task_of u := with_status (to_status u) (reason u) t]> (rows s)) (next_id s))
          else (Success 0, s)
      | None => (Success 0, s)
      end
  end.

(** db.Create: the key is assigned, and left in the caller's value. *)
Definition exec_create (t : ScheduledMessages) (s : tables) : answer Z * tables :=
  let id := next_id s in
  (Success id,
   mkTables (<[id := mkSch id (CreatorId t) (ReceiverId t) (GroupId t) (Content t) (ScheduledSendTime t)
                       (Status t) (FailReason t)]> (rows s)) (id + 1)).

(** GetPendingScheduledTasks *)
Definition pending (now : Z) (t : ScheduledMessages) : bool := (Status t =? 0) && (ScheduledSendTime t <=? now).
Definition exec_pending (now : Z) (batch : nat) (s : tables) : answer (list ScheduledMessages) :=
  Success (take batch (select (pending now) (rows s))).

(** *** The life of a task, under any interleaving of statements *)
Inductive stmt := SCreate (t : ScheduledMessages) | SUpdate (u : update_stmt).

(** The statements of the dao; a new task waits. *)
Definition dao_stmt (q : stmt) : Prop :=
  match q with
  | SCreate t => Status t = 0
  | SUpdate u => u = claim (task_of u) \/ u = sent (task_of u) \/ exists why, u = failed (task_of u) why
  end.

Definition exec (columns : list string) (q : stmt) (s : tables) : answer Z * tables :=
  match q with SCreate t => exec_create t s | SUpdate u => exec_update columns u s end.

Fixpoint exec_all (columns : list string) (qs : list stmt) (s : tables) : list (stmt * answer Z) * tables :=
  match qs with
  | [] => ([], s)
  | q :: qs =>
      let '(a, s) := exec columns q s in
      let '(log, s) := exec_all columns qs s in
      ((q, a) :: log, s)
  end.

(** The statements that changed the status of task [id] from [st]. *)
Definition moved (id st : Z) (e : stmt * answer Z) : bool :=
  match e with
  | (SUpdate u, Success 1) => (task_of u =? id) && (from_status u =? st)
  | _ => false
  end.

Definition well_formed (s : tables) : Prop :=
  forall id t, rows s !! id = Some t -> id < next_id s /\ 0 <= Status t <= 3.

(** How many more times the task can leave status [st]. *)
Definition may_leave (id st : Z) (s : tables) : nat :=
  match rows s !! id with
  | None => if next_id s <=? id then 1 else 0
  | Some t => if Status t <=? st then 1 else 0
  end.

Lemma exec_moves columns q s id st :
  dao_stmt q -> well_formed s ->
  let '(a, s') := exec columns q s in
  well_formed s' /\
  ((if moved id st (q, a) then 1 else 0) + may_leave id st s' <= may_leave id st s)%nat.
Proof.
  intros Hq Hwf. destruct q as [t | u]; cbn [exec].
  - unfold exec_create. split.
    + intros k t'. cbn [rows next_id]. rewrite lookup_insert_Some. cbn in Hq.
      intros [[<- <-] | [_ Hk]]; cbn; [lia | specialize (Hwf k t' Hk); lia].
    + unfold may_leave. cbn [rows next_id moved]. destruct (decide (id = next_id s)) as [-> | Hne].
      * rewrite lookup_insert_eq. destruct (rows s !! next_id s) as [t' |] eqn:E; [specialize (Hwf _ _ E); lia |].
        rewrite Z.leb_refl. case_match; lia.
      * rewrite lookup_insert_ne by done. destruct (rows s !! id); [lia |].
        destruct (Z.leb_spec (next_id s + 1) id), (Z.leb_spec (next_id s) id); lia.
  - unfold exec_update. destruct (unknown_column columns u); [cbn; split; [done | lia] |].
    destruct (rows s !! task_of u) as [t |] eqn:Et; [| cbn; split; [done | lia]].
    destruct (Z.eqb_spec (Status t) (from_status u)) as [Hst | Hst]; [| cbn; split; [done | lia]].
    assert (from_status u < to_status u <= 3) as Hup.
    { destruct Hq as [-> | [-> | [why ->]]]; cbn; lia. }
    split.
    + intros k t'. cbn [rows next_id]. rewrite lookup_insert_Some. specialize (Hwf (task_of u) t Et) as Hu.
      intros [[<- <-] | [_ Hk]]; [cbn; lia | by apply Hwf].
    + cbn [moved]. unfold may_leave. cbn [rows next_id]. destruct (Z.eqb_spec (task_of u) id) as [<- | Hne].
      * rewrite lookup_insert_eq, Et. cbn [Status with_status]. rewrite Hst.
        destruct (Z.eqb_spec (from_status u) st), (Z.leb_spec (to_status u) st), (Z.leb_spec (from_status u) st);
          cbn; lia.
      * rewrite lookup_insert_ne by done. cbn. lia.
Qed.

(** Whatever the workers, retries and failures, a task leaves each status at most
    once: it is claimed by one worker only, and then ends as sent or as failed,
    once. *)
Theorem task_moves_once columns qs id st s :
  well_formed s -> Forall dao_stmt qs ->
  (length (List.filter (moved id st) (exec_all columns qs s).1) <= may_leave id st s)%nat /\
  (may_leave id st s <= 1)%nat.
Proof.
  intros Hwf Hqs. split; [| unfold may_leave; repeat case_match; lia].
  revert s Hwf. induction Hqs as [| q qs Hq Hqs IH]; intros s Hwf; cbn [exec_all]; [cbn; lia |].
  pose proof (exec_moves columns q s id st Hq Hwf) as Hm. destruct (exec columns q s) as [a s1].
  destruct Hm as [Hwf1 Hm]. specialize (IH s1 Hwf1). destruct (exec_all columns qs s1) as [log s2].
  cbn [fst] in *. cbn [List.filter]. destruct (moved id st (q, a)); cbn [length]; lia.
Qed.

(** The schema the updates were written for. *)
Definition intended : list string := named ++ migrated.

Lemma task_moves_once_witness :
  let t := mkSch 0 7 8 0 "hi" 100 0 "" in
  let qs := [SCreate t; SUpdate (claim 1); SUpdate (claim 1); SUpdate (sent 1); SUpdate (failed 1 "late")] in
  let log := (exec_all intended qs (mkTables ∅ 1)).1 in
  snd <$> log = [Success 1; Success 1; Success 0; Success 1; Success 0] /\
  (length (List.filter (moved 1 0) log) <= 1)%nat.
Proof.
  intros t qs log. split; [vm_compute; reflexivity |].
  destruct (task_moves_once intended qs 1 0 (mkTables ∅ 1)) as [H1 H2].
  - intros id t' H. cbn in H. by rewrite lookup_empty in H.
  - unfold qs. repeat (apply Forall_cons; split; [cbn; eauto |]). by apply Forall_nil.
  - unfold log. lia.
Defined.

(** On the table AutoMigrate makes, every update fails: it names columns the table
    does not have. *)
Lemma migrated_updates_fail u s : exists e, exec_update migrated u s = (Failure e, s).
Proof. unfold exec_update. destruct u as [id f t [r |]]; eexists; reflexivity. Qed.
End Table.

(** What the tasks talk to: the database (an update, a transaction and its update,
    the other statements), the clock, the id generator; [Go_send] starts the
    goroutine of a task, [Fatal] ends the process. *)
Inductive task_cmd :=
| Now
| Pending (now : Z) (batch : nat)
| Update (u : Table.update_stmt)
| Go_send (t : ScheduledMessages)
| SnowflakeGenerate
| InsertMessage (m : Messages)
| GetGroupMembers (groupID : Z)
| Begin
| TxUpdate (u : Table.update_stmt)
| Commit
| Rollback
| Fatal (text : string)
| Create (t : ScheduledMessages)
| FindUserByName (name : string)
| FindGroupByName (name : string).

Definition task_res (c : task_cmd) : Type :=
  match c with
  | Now | SnowflakeGenerate => Z
  | Pending _ _ => answer (list ScheduledMessages)
  | Update _ | TxUpdate _ | Create _ => answer Z
  | Go_send _ | Fatal _ => unit
  | InsertMessage _ | Begin | Commit | Rollback => answer unit
  | GetGroupMembers _ => answer (list Z)
  | FindUserByName _ => answer User
  | FindGroupByName _ => answer Group
  end.
Definition tasks : Sig := mkSig task_cmd task_res.
Notation tcall c := (call (S := tasks) c).

(** An error or a panic ends the call with it. *)
Definition ok_or' {S A B} (r : outcome A) (k : A -> prog S (outcome B)) : prog S (outcome B) :=
  match r with Ok a => k a | Err e => Ret (Err e) | Panic m => Ret (Panic m) end.

Module Cron.

Definition batch : nat := 100.

(** models.NewMessages *)
Definition NewMessages (senderId receiverId groupId : Z) (content : string) (isRead : bool) : prog tasks Messages :=
  id <- tcall SnowflakeGenerate ;;
  Ret (mkMessages id 0 senderId receiverId groupId isRead content SendStatusUnsent 0).

(** dao.ExecuteSchSend: the message is inserted outside the transaction. *)
Definition ExecuteSchSend (msg : Messages) (schMsgId : Z) : prog tasks (answer unit) :=
  b <- tcall Begin ;;
  match b with
  | Failure e => Ret (Failure e)
  | Success _ =>
      r <- tcall (InsertMessage msg) ;;
      match r with
      | Failure e => _ <- tcall Rollback ;; Ret (Failure e)
      | Success _ =>
          r <- tcall (TxUpdate (Table.sent schMsgId)) ;;
          match r with
          | Failure e => _ <- tcall Rollback ;; Ret (Failure e)
          | Success _ => tcall Commit
          end
      end
  end.

(** dao.FailedTask; [true] when it ended the process. *)
Definition FailedTask (schMsgId : Z) (failReason : string) : prog tasks bool :=
  r <- tcall (Update (Table.failed schMsgId failReason)) ;;
  match r with
  | Success _ => Ret false
  | Failure e =>
      _ <- tcall (Fatal ("[FATAL] 任务 ID: " +:+ Itoa schMsgId +:+ " 状态回写失败！原错误: " +:+ failReason +:+
                         ", 数据库写入错误: " +:+ e)) ;;
      Ret true
  end.

Definition sendSingleSchMessage (t : ScheduledMessages) : prog tasks (answer unit) :=
  msg <- NewMessages (CreatorId t) (ReceiverId t) 0 (Content t) false ;;
  ExecuteSchSend msg (SchMsgId t).

Fixpoint send_copies (t : ScheduledMessages) (members : list Z) : prog tasks (answer unit) :=
  match members with
  | [] =>
      r <- tcall (Update (Table.sent (SchMsgId t))) ;;
      Ret (match r with Success _ => Success tt | Failure e => Failure e end)
  | memberID :: members =>
      if memberID =? CreatorId t then send_copies t members
      else
        msg <- NewMessages (CreatorId t) memberID (GroupId t) (Content t) false ;;
        r <- tcall (InsertMessage msg) ;;
        match r with
        | Success _ => send_copies t members
        | Failure e => Ret (Failure ("群成员 " +:+ Itoa memberID +:+ " 落库失败: " +:+ e))
        end
  end.

Definition sendGroupSchMessage (t : ScheduledMessages) : prog tasks (answer unit) :=
  members <- tcall (GetGroupMembers (GroupId t)) ;;
  match members with
  | Failure e => Ret (Failure ("查询群成员失败: " +:+ e))
  | Success [] => Ret (Failure "群成员为空")
  | Success members => send_copies t members
  end.

(** The first half of SendSchMessages *)
Definition deliver (t : ScheduledMessages) : prog tasks (answer unit) :=
  if negb (GroupId t =? 0) then sendGroupSchMessage t else sendSingleSchMessage t.

Definition give_feedback (t : ScheduledMessages) (feedback : string) : prog tasks unit :=
  feedbackMsg <- NewMessages (-1) (CreatorId t) 0 feedback false ;;
  _ <- tcall (InsertMessage feedbackMsg) ;;
  Ret tt.

Definition success_text (t : ScheduledMessages) : string :=
  "✅ 任务完成！您预定的消息已成功为您发出：" +:+ String (byte 10) "『" +:+ Content t +:+ "』".
Definition failure_text (t : ScheduledMessages) (err : string) : string :=
  let target := if negb (GroupId t =? 0) then "群 [" +:+ Itoa (GroupId t) +:+ "]"
                else "用户 [" +:+ Itoa (ReceiverId t) +:+ "]" in
  "❌ 抱歉，您预定发给 " +:+ target +:+ " 的消息发送失败。原因：" +:+ err.

Definition SendSchMessages (t : ScheduledMessages) : prog tasks unit :=
  r <- deliver t ;;
  match r with
  | Failure err =>
      exited <- FailedTask (SchMsgId t) err ;;
      if exited : bool then Ret tt else give_feedback t (failure_text t err)
  | Success _ => give_feedback t (success_text t)
  end.

Fixpoint claim_each (l : list ScheduledMessages) : prog tasks unit :=
  match l with
  | [] => Ret tt
  | t :: l =>
      r <- tcall (Update (Table.claim (SchMsgId t))) ;;
      match r with
      | Failure _ => Ret tt
      | Success n =>
          if n =? 0 then claim_each l
          else _ <- tcall (Go_send t) ;; claim_each l
      end
  end.

Definition handleScheduledMessages : prog tasks unit :=
  now <- tcall Now ;;
  r <- tcall (Pending now batch) ;;
  match r with
  | Failure _ => Ret tt
  | Success l => claim_each l
  end.

(** *** What is sent *)
Definition claimed (e : event tasks) : list Z :=
  match e with
  | existT (Update u) (Success n) =>
      if bool_decide (Table.from_status u = 0) && negb (n =? 0) then [Table.task_of u] else []
  | _ => []
  end.
Definition spawned (e : event tasks) : list Z :=
  match e with existT (Go_send t) _ => [SchMsgId t] | _ => [] end.

(** The goroutines started are for the tasks this worker claimed, one each, in
    order; the job stops at the first claim that fails. *)
Theorem sends_what_it_claims {W} (h : env tasks W) :
  always h handleScheduledMessages (fun _ tr =>
    view (S := tasks) spawned tr = view (S := tasks) claimed tr).
Proof.
  apply always_Do. intros now. apply always_Do. intros [l | e]; cbn [bind]; [| by apply always_Ret].
  eapply always_impl with (P := fun _ tr => view (S := tasks) spawned tr = view (S := tasks) claimed tr);
    [| intros ? tr H; exact H].
  induction l as [| t l IH]; cbn [claim_each]; [by apply always_Ret |].
  apply always_Do. intros [n | e]; cbn [bind]; [| by apply always_Ret].
  destruct (Z.eqb_spec n 0) as [-> | Hn].
  - eapply always_impl; [exact IH |]. intros ? tr H. exact H.
  - apply always_Do. intros r. eapply always_impl; [exact IH |]. intros ? tr H.
    autorewrite with go. cbn. rewrite (proj2 (Z.eqb_neq n 0) Hn). cbn. by rewrite H.
Qed.

(** The messages stored, as sender, receiver, group and text. *)
Definition stored (e : event tasks) : list (Z * Z * Z * string) :=
  match e with
  | existT (InsertMessage m) (Success _) => [(mSenderId m, mReceiverId m, mGroupId m, mContent m)]
  | _ => []
  end.
(** The groups whose members were read, each with those. *)
Definition members_found (e : event tasks) : list (Z * list Z) :=
  match e with existT (GetGroupMembers g) (Success l) => [(g, l)] | _ => [] end.

Definition copies (t : ScheduledMessages) (receivers : list Z) : list (Z * Z * Z * string) :=
  (fun r => (CreatorId t, r, GroupId t, Content t)) <$> receivers.

Lemma send_copies_spec {W} (h : env tasks W) t members :
  always h (send_copies t members) (fun out tr =>
    out = Success tt -> view (S := tasks) members_found tr = [] /\
      view (S := tasks) stored tr = copies t (List.filter (fun m => negb (m =? CreatorId t)) members)).
Proof.
  induction members as [| m members IH]; cbn [send_copies List.filter].
  { apply always_Do. intros [n | e]; by apply always_Ret. }
  destruct (m =? CreatorId t); cbn [negb]; [exact IH |].
  apply always_Do. intros id. apply always_Do. intros [[] | e]; cbn [bind]; [| by apply always_Ret].
  eapply always_impl; [exact IH |]. intros out tr H Hout. destruct (H Hout) as [H1 H2].
  autorewrite with go. cbn [members_found stored app mSenderId mReceiverId mGroupId mContent].
  rewrite H1, H2. done.
Qed.

(** The members a group task is for. *)
Definition addressees (t : ScheduledMessages) (members : list Z) : list Z :=
  List.filter (fun m => negb (m =? CreatorId t)) members.

(** C22: When the delivery of a task succeeds - only then is its creator told that it
    is done - its message is stored once for each receiver and for nobody else. The
    receiver is the user the task is for and no group is read; for a task with a group
    the members of that very group are read, once, and the receivers are those
    members but the creator. *)
Theorem done_means_stored {W} (h : env tasks W) t :
  always h (deliver t) (fun out tr =>
    out = Success tt ->
    if GroupId t =? 0 then
      view (S := tasks) members_found tr = [] /\ view (S := tasks) stored tr = copies t [ReceiverId t]
    else exists members,
      view (S := tasks) members_found tr = [(GroupId t, members)] /\
      view (S := tasks) stored tr = copies t (addressees t members)).
Proof.
  unfold deliver. destruct (Z.eqb_spec (GroupId t) 0) as [Hg | Hg]; cbn [negb].
  - unfold sendSingleSchMessage, ExecuteSchSend, NewMessages, copies. rewrite Hg.
    walk; try done.
  - unfold sendGroupSchMessage. apply always_Do. intros [[| m l] | e]; cbn [bind]; try by apply always_Ret.
    eapply always_impl; [apply send_copies_spec |]. intros out tr H Hout. destruct (H Hout) as [H1 H2].
    exists (m :: l). autorewrite with go. unfold ev. cbn [members_found stored app]. by rewrite H1, H2.
Qed.

Definition soon : ScheduledMessages := mkSch 1 7 8 0 "hi" 100 1 "".
Definition fine : forall c, task_res c := fun c =>
  match c as c return task_res c with
  | Now | SnowflakeGenerate => 100
  | Pending _ _ => Success []
  | Update _ | TxUpdate _ | Create _ => Success 1
  | Go_send _ | Fatal _ => tt
  | InsertMessage _ | Begin | Commit | Rollback => Success tt
  | GetGroupMembers _ => Success [7; 8; 9]
  | FindUserByName n => Success (mkUser 8 n "" "" "")
  | FindGroupByName n => Success (mkGroup 3 n 7 7 0)
  end.
Definition oracle (others : forall c, task_res c) : env tasks unit := fun c w => (others c, w).

Lemma done_means_stored_witness :
  let t := mkSch 1 7 0 3 "hi" 100 1 "" in
  let out := run (oracle fine) (deliver t) tt in
  result out = Success tt /\
  exists members, view (S := tasks) members_found (trace out) = [(3, members)] /\
    view (S := tasks) stored (trace out) = copies t (addressees t members).
Proof.
  intros t out. split; [vm_compute; reflexivity |].
  exact (done_means_stored (oracle fine) t tt eq_refl).
Defined.

(** The converse fails: the message is stored outside the transaction, so a task
    whose last update fails is reported as failed although its message is there. *)
Definition late_failure : forall c, task_res c := fun c =>
  match c as c return task_res c with
  | TxUpdate _ => Failure "Lock wait timeout"
  | c => fine c
  end.
Lemma reported_failed_but_stored :
  let out := run (oracle late_failure) (deliver soon) tt in
  result out = Failure "Lock wait timeout" /\ view (S := tasks) stored (trace out) = [(7, 8, 0, "hi")].
Proof. vm_compute. done. Qed.

(** *** On the table of the dao *)
Definition table_env (columns : list string) (others : forall c, task_res c) : env tasks Table.tables := fun c w =>
  match c as c return task_res c * Table.tables with
  | Update u | TxUpdate u => Table.exec_update columns u w
  | Pending now n => (Table.exec_pending now n w, w)
  | Create t => Table.exec_create t w
  | c => (others c, w)
  end.

(** With the columns AutoMigrate makes no task is ever sent, whatever is due: the
    first claim fails and ends the job. *)
Theorem migrated_table_sends_nothing others :
  always (table_env Table.migrated others) handleScheduledMessages (fun _ tr =>
    view (S := tasks) spawned tr = []).
Proof.
  apply always_Do. intros now. apply always_Do. intros [l | e]; cbn [bind]; [| by apply always_Ret].
  apply (always_impl _ _ (fun _ tr => view (S := tasks) spawned tr = [])); [| intros ? tr H; exact H].
  intros w. destruct l as [| t l]; [done |]. cbn [claim_each bind call run table_env].
  destruct (Table.migrated_updates_fail (Table.claim (SchMsgId t)) w) as [e ->]. done.
Qed.

(** With the columns the updates name, a due task is claimed and its goroutine
    started, and the next job finds nothing to do. *)
Lemma intended_table_sends :
  let w := (Table.exec_create (mkSch 0 7 8 0 "hi" 100 0 "") (Table.mkTables ∅ 1)).2 in
  let out := run (table_env Table.intended fine) handleScheduledMessages w in
  let again := run (table_env Table.intended fine) handleScheduledMessages (final out) in
  view (S := tasks) spawned (trace out) = [1] /\ view (S := tasks) spawned (trace again) = [].
Proof. vm_compute. done. Qed.
End Cron.

(** dao.CreateScheduledMessage: what it returns is the creator, not the task. *)
Definition CreateScheduledMessage (t : ScheduledMessages) : prog tasks (Z * option string) :=
  r <- tcall (Create t) ;;
  Ret (CreatorId t, match r with Success _ => None | Failure e => Some e end).

Definition created (e : event tasks) : list ScheduledMessages :=
  match e with existT (Create t) _ => [t] | _ => [] end.

Section tools.
(** time.Parse and Time.Format, of package time *)
Variable Parse : string -> outcome Z.
Variable Format : string -> Z -> string.
Definition RFC3339 : string := "2006-01-02T15:04:05Z07:00".

(** SchMessageReq *)
Record SchMessageReq := mkReq { TargetUser : string; GroupName : string; SendTime : string; MessageContent : string }.

(** The receiver, the group and the name, or the answer that there is none. *)
Definition find_target (req : SchMessageReq) : prog tasks (Z * Z * string + string) :=
  if negb (String.eqb (GroupName req) "") then
    g <- tcall (FindGroupByName (GroupName req)) ;;
    Ret (match g with
         | Success g => inl (0, gGroupID g, gGroupName g)
         | Failure _ => inr ("未找到群 '" +:+ GroupName req +:+ "'，请检查群名称。")
         end)
  else
    u <- tcall (FindUserByName (TargetUser req)) ;;
    Ret (match u with
         | Success u => inl (usUserId u, 0, usUsername u)
         | Failure _ => inr ("未找到用户 '" +:+ TargetUser req +:+ "'，请检查用户名。")
         end).

(** [user] is the user of the context, [None] where it is missing; the result is
    the text of the answer. *)
Definition schMessageInvoker (user : option Z) (req : SchMessageReq) : prog tasks (outcome string) :=
  match Parse (SendTime req) with
  | Ok sendTime =>
      now <- tcall Now ;;
      if sendTime <? now then Ret (Ok "时间已经过去了，请设定一个未来的时间。")
      else
        match user with
        | None => Ret (Err "internal error: missing user context")
        | Some currentUserID =>
            target <- find_target req ;;
            match target with
            | inr text => Ret (Ok text)
            | inl (receiverID, groupID, targetName) =>
                '(taskId, err) <- CreateScheduledMessage
                  (mkSch 0 currentUserID receiverID groupID (MessageContent req) sendTime 0 "") ;;
                match err with
                | Some e => Ret (Err ("db error: " +:+ e))
                | None =>
                    let nl := String (byte 10) "" in
                    Ret (Ok ("已为你设定好定时消息！" +:+ nl +:+ "任务ID: " +:+ Itoa taskId +:+ nl +:+
                             "接收对象: " +:+ targetName +:+ nl +:+ "发送时间: " +:+ Format RFC3339 sendTime +:+ nl +:+
                             "内容: " +:+ MessageContent req +:+ nl +:+ "时间到了我会自动帮你发出去。"))
                end
            end
        end
  | Err e | Panic e => Ret (Ok ("时间格式解析失败: " +:+ e +:+ "，请告诉我发送的具体日期和时间，例如'明天早上9点'。"))
  end.

Definition clock (e : event tasks) : list Z :=
  match e with existT Now now => [now] | _ => [] end.

(** What may be created for a request. *)
Definition task_for (user : option Z) (req : SchMessageReq) (now : Z) (t : ScheduledMessages) : Prop :=
  user = Some (CreatorId t) /\ Parse (SendTime req) = Ok (ScheduledSendTime t) /\ now <= ScheduledSendTime t /\
  Content t = MessageContent req /\ Status t = 0 /\
  (if String.eqb (GroupName req) "" then GroupId t = 0 else ReceiverId t = 0).

(** A request makes at most one task: one that waits, of the user in the context,
    for the time and with the text of the request, not in the past, to either a
    user or a group. *)
Theorem schedules_for_the_user {W} (h : env tasks W) user req :
  always h (schMessageInvoker user req) (fun _ tr =>
    view (S := tasks) created tr = [] \/
    exists now t, view (S := tasks) clock tr = [now] /\ view (S := tasks) created tr = [t] /\
      task_for user req now t).
Proof.
  unfold schMessageInvoker, find_target, CreateScheduledMessage.
  destruct (Parse (SendTime req)) as [sendTime | e | m] eqn:Ep; [| by apply always_Ret; left ..].
  apply always_Do. intros now. cbn [bind]. destruct (Z.ltb_spec sendTime now); [by apply always_Ret; left |].
  destruct user as [u |]; [| by apply always_Ret; left].
  destruct (String.eqb (GroupName req) "") eqn:Eg; cbn [negb bind]; apply always_Do;
    (intros [row | e]; cbn [bind]; [| by apply always_Ret; left]);
    apply always_Do; (intros [id | e]; cbn [bind]; apply always_Ret; right; eexists now, _;
      (split_and!; [reflexivity | reflexivity |]); unfold task_for; cbn; rewrite Eg, Ep;
      (split_and!; [done .. | done])).
Qed.

(** *** mcp/schedule_msg.go *)

Variable int64_of : float64 -> Z.

(** The result of the tool: an error of the tool or a text; [arguments] is [None]
    where they are no object. *)
Definition mcp_schedule (arguments : option (gmap string any)) : prog tasks (outcome (string + string)) :=
  match arguments with
  | None => Ret (Ok (inl "参数格式错误，arguments 必须为 JSON 对象"))
  | Some args =>
      ok_or' (must (number args "sender_id")) (fun sender =>
      ok_or' (must (text args "content")) (fun content =>
      ok_or' (must (text args "send_at")) (fun sendAtStr =>
      let senderID := int64_of sender in
      match Parse sendAtStr with
      | Ok sendAt =>
          now <- tcall Now ;;
          if sendAt <? now then Ret (Ok (inl "发送时间不能早于当前时间"))
          else
            let receiverID := from_option int64_of 0 (number args "receiver_id") in
            let groupID := from_option int64_of 0 (number args "group_id") in
            if (receiverID =? 0) && (groupID =? 0) then Ret (Ok (inl "请指定接收方（用户或群）"))
            else
              '(_, err) <- CreateScheduledMessage (mkSch 0 senderID receiverID groupID content sendAt 0 "") ;;
              Ret (Ok (match err with
                       | Some e => inl ("创建定时消息失败: " +:+ e)
                       | None => inr ("定时消息已创建，将在 " +:+ Format "2006-01-02 15:04:05" sendAt +:+ " 发送")
                       end))
      | _ => Ret (Ok (inl "时间格式错误，请使用 RFC3339 格式"))
      end)))
  end.

(** The sender is whoever the arguments name. *)
Lemma mcp_schedule_trusts_sender sender receiver :
  int64_of receiver <> 0 -> Parse "t" = Ok 200 ->
  let args := {["sender_id" := Number sender; "receiver_id" := Number receiver;
                "content" := Text "hi"; "send_at" := Text "t"]} in
  view (S := tasks) created (trace (run (Cron.oracle Cron.fine) (mcp_schedule (Some args)) tt)) =
    [mkSch 0 (int64_of sender) (int64_of receiver) 0 "hi" 200 0 ""].
Proof.
  intros Hr Hp args. unfold mcp_schedule.
  change (number args "sender_id") with (Some sender). change (text args "content") with (Some "hi").
  change (text args "send_at") with (Some "t"). cbn [must ok_or']. rewrite Hp.
  change (number args "receiver_id") with (Some receiver). change (number args "group_id") with (@None float64).
  cbn. rewrite (proj2 (Z.eqb_neq _ 0) Hr). reflexivity.
Qed.

(** A missing argument is a panic. *)
Lemma mcp_schedule_panics : mcp_schedule (Some ∅) = Ret (Panic "interface conversion").
Proof. reflexivity. Qed.
End tools.

Example schedules_for_bob :
  let req := mkReq "bob" "" "tomorrow" "hi" in
  let parse s := if String.eqb s "tomorrow" then Ok 200 else Err "parse error" in
  view (S := tasks) created
    (trace (run (Cron.oracle Cron.fine) (schMessageInvoker parse (fun _ _ => "tomorrow") (Some 7) req) tt)) =
    [mkSch 0 7 8 0 "hi" 200 0 ""].
Proof. vm_compute. reflexivity. Qed.
