(* ===== verification/AgentTools.v ===== *)
(** * The reading tools of the agent: apps/agent/tools, mcp/search_chat.go

    Module Time (pkg/utils/resolveTime.go). Module Query (dao/messages.go,
    dao/group_members.go): the statements, as conditions with their text and
    arguments. Module Search (tools/search_chat_history.go, mcp/search_chat.go) and
    Module Summarize (tools/summarize_group.go). *)
From S2P Require Import Prelude GoStd GoText GoFloat Ids Effects AgentSchema Dao Retrieval.
#[local] Open Scope prog_scope.

Module Time.
Section time.
(** time.Parse(time.RFC3339, _) and Time.AddDate; a time is in nanoseconds. *)
Variable Parse : string -> outcome Z.
Variable AddDate : Z -> Z -> Z -> Z -> Z.

(** utils.ResolveTime at time [now]; the zone does not change the instant. *)
Definition ResolveTime (now : Z) (startStr endStr : string) : Z * Z :=
  let endTime :=
    if negb (String.eqb endStr "") then match Parse endStr with Ok t => t | _ => now end else now in
  let startTime :=
    if negb (String.eqb startStr "") then
      match Parse startStr with Ok t => t | _ => AddDate now 0 (-1) 0 end
    else AddDate now 0 0 (-7) in
  (startTime, endTime).
End time.

(** Time.Unix *)
Definition Unix (t : Z) : Z := t / 10 ^ 9.
End Time.

Module Query.

Inductive arg := AInt (z : Z) | ATime (t : Z) | AText (s : string).

(** A condition of a WHERE clause. *)
Inductive cond :=
| CTime (start stop : Z)
| CGroup (g : Z)
| CReceiver (u : Z)
| CSender (u : Z)
| CSingle
| CPair (a b : Z)
| CMatch (terms : string).

Definition sql_of (c : cond) : string :=
  match c with
  | CTime _ _ => "create_time BETWEEN ? AND ?"
  | CGroup _ => "group_id = ?"
  | CReceiver _ => "receiver_id = ?"
  | CSender _ => "sender_id = ?"
  | CSingle => "group_id = 0"
  | CPair _ _ => "((sender_id = ? AND receiver_id = ?) OR (sender_id = ? AND receiver_id = ?))"
  | CMatch _ => "MATCH(content) AGAINST(? IN BOOLEAN MODE)"
  end.
Definition args_of (c : cond) : list arg :=
  match c with
  | CTime s e => [ATime s; ATime e]
  | CGroup g => [AInt g]
  | CReceiver u | CSender u => [AInt u]
  | CSingle => []
  | CPair a b => [AInt a; AInt b; AInt b; AInt a]
  | CMatch terms => [AText terms]
  end.

(** What the database means by it; [matches] is its full-text search. *)
Definition holds (matches : string -> string -> bool) (c : cond) (m : Messages) : bool :=
  match c with
  | CTime s e => (s <=? mCreateTime m) && (mCreateTime m <=? e)
  | CGroup g => mGroupId m =? g
  | CReceiver u => mReceiverId m =? u
  | CSender u => mSenderId m =? u
  | CSingle => mGroupId m =? 0
  | CPair a b => (mSenderId m =? a) && (mReceiverId m =? b) || (mSenderId m =? b) && (mReceiverId m =? a)
  | CMatch terms => matches terms (mContent m)
  end.

Definition clamp (limit : Z) (otherwise : Z) : Z := if (limit <=? 0) || (200 <? limit) then otherwise else limit.

(** The conditions of SearchHistoryMessages, in order. *)
Definition search_conds (uid1 uid2 groupId : Z) (keyWords : list string) (start stop : Z) : list cond :=
  [CTime start stop] ++
  (if negb (groupId =? 0) then
     [CGroup groupId; CReceiver uid1] ++ (if negb (uid2 =? 0) then [CSender uid2] else [])
   else [CSingle; CPair uid1 uid2]) ++
  (if (0 <? length keyWords)%nat then [CMatch ("+" +:+ Join keyWords " +")] else []).

Definition statement (conds : list cond) (limit : Z) : string * list arg :=
  ("SELECT * FROM messages WHERE " +:+ Join (sql_of <$> conds) " AND " +:+ " ORDER BY create_time DESC LIMIT ?",
   concat (args_of <$> conds) ++ [AInt limit]).

(** SearchHistoryMessages: the statement it sends. *)
Definition SearchHistoryMessages (uid1 uid2 groupId : Z) (keyWords : list string) (start stop limit : Z)
  : string * list arg :=
  statement (search_conds uid1 uid2 groupId keyWords start stop) (clamp limit 50).

(** GetHistoryBetweenUsers *)
Definition history_sql : string :=
  let nl := String (byte 10) (String (byte 9) (String (byte 9) "")) in
  let cont := nl +:+ "    " in
  nl +:+ "SELECT *" +:+ nl +:+ "FROM messages " +:+ nl +:+ "WHERE " +:+ cont +:+
  "((sender_id = ? AND receiver_id = ?) OR (sender_id = ? AND receiver_id = ?))" +:+ cont +:+
  "AND create_time >= ? " +:+ cont +:+ "AND create_time <= ?" +:+ nl +:+ "ORDER BY create_time DESC " +:+ nl +:+
  "LIMIT ?" +:+ String (byte 10) (String (byte 9) "").
Definition GetHistoryBetweenUsers (uid1 uid2 start stop limit : Z) : string * list arg :=
  (history_sql, [AInt uid1; AInt uid2; AInt uid2; AInt uid1; ATime start; ATime stop; AInt (clamp limit 50)]).

(** GetGroupMessages: the conditions of its chained Where calls, and the limit. *)
Definition GetGroupMessages (currentUserID groupID start stop limit : Z) : list cond * Z :=
  ([CGroup groupID; CReceiver currentUserID; CTime start stop], clamp limit 200).

Lemma clamp_range limit : 0 < clamp limit 200 <= 200.
Proof.
  unfold clamp. destruct (Z.leb_spec limit 0), (Z.ltb_spec 200 limit); cbn; lia.
Qed.

(** IsGroupMember *)
Definition IsGroupMember (groupID userID : Z) : string * list arg :=
  ("SELECT 1 FROM group_members WHERE group_id = ? AND user_id = ? LIMIT 1", [AInt groupID; AInt userID]).

(** *** The statements are well formed *)
Fixpoint placeholders (s : string) : nat :=
  match s with
  | EmptyString => 0
  | String a s => (if Ascii.eqb a "?" then 1 else 0) + placeholders s
  end.

Lemma placeholders_app s t : placeholders (s +:+ t) = (placeholders s + placeholders t)%nat.
Proof. induction s as [| a s IH]; [done |]. rewrite string_app_cons. cbn [placeholders]. rewrite IH. lia. Qed.

Lemma placeholders_cond c : placeholders (sql_of c) = length (args_of c).
Proof. by destruct c. Qed.

Lemma placeholders_conds conds :
  placeholders (Join (sql_of <$> conds) " AND ") = length (concat (args_of <$> conds)).
Proof.
  induction conds as [| c conds IH]; [done |]. cbn [fmap list_fmap concat]. rewrite length_app, <- placeholders_cond.
  destruct conds as [| d conds]; [cbn; lia |].
  change (Join (sql_of c :: (sql_of <$> d :: conds)) " AND ")
    with (sql_of c +:+ " AND " +:+ Join (sql_of <$> d :: conds) " AND ").
  rewrite !placeholders_app, IH. done.
Qed.

(** Every statement binds as many values as it has placeholders, none of which
    comes from the text of a request. *)
Theorem statement_binds_all conds limit :
  let (sql, args) := statement conds limit in placeholders sql = length args.
Proof.
  unfold statement. rewrite !placeholders_app, placeholders_conds, length_app. done.
Qed.

(** A message found belongs to the user who asks: a group message is the user's own
    copy of that group, and another one is between the user and the person asked
    about. *)
Theorem found_is_own matches uid1 uid2 groupId keyWords start stop m :
  forallb (fun c => holds matches c m) (search_conds uid1 uid2 groupId keyWords start stop) = true ->
  start <= mCreateTime m <= stop /\ mGroupId m = groupId /\
  (if groupId =? 0 then
     mSenderId m = uid1 /\ mReceiverId m = uid2 \/ mSenderId m = uid2 /\ mReceiverId m = uid1
   else mReceiverId m = uid1 /\ (uid2 = 0 \/ mSenderId m = uid2)).
Proof.
  unfold search_conds. rewrite !forallb_app, !andb_true_iff. intros (Ht & Hw & _).
  cbn in Ht. rewrite andb_true_r in Ht. split; [lia |].
  destruct (Z.eqb_spec groupId 0) as [-> | Hg]; cbn [negb] in Hw.
  - cbn in Hw. rewrite andb_true_r in Hw. apply andb_true_iff in Hw as [H1 H2]. split; [lia |].
    apply orb_true_iff in H2. lia.
  - rewrite forallb_app in Hw. cbn in Hw. rewrite andb_true_r in Hw. rewrite !andb_true_iff in Hw.
    destruct Hw as [[H1 H2] H3]. split; [lia |]. split; [lia |].
    destruct (Z.eqb_spec uid2 0); cbn in H3; [by left | right; lia].
Qed.

Lemma found_is_own_witness :
  let m := mkMessages 1 1 7 8 0 false "hi" 0 50 in
  mSenderId m = 7 /\ mReceiverId m = 8.
Proof.
  intros m. destruct (found_is_own (fun _ _ => true) 7 8 0 ["hi"] 0 100 m) as (_ & _ & H);
    [vm_compute; reflexivity |]. destruct H as [H | [H _]]; [exact H | discriminate H].
Defined.
End Query.

(** What the tools talk to: MySQL, the clock, the vector database. *)
Inductive search_cmd :=
| FindUserByName (name : string)
| FindGroupByName (name : string)
| MemberQuery (groupID userID : Z)
| Now
| Raw (query : string * list Query.arg)
| GetMessagesWhereID (ids : list Z)
| FindMessages (where_ : list Query.cond) (limit : Z)
| GetEmbedder
| GetRetriever (topK : Z)
| Retrieve (query filter : string).

Definition search_res (c : search_cmd) : Type :=
  match c with
  | FindUserByName _ => answer User
  | FindGroupByName _ => answer Group
  | MemberQuery _ _ => answer bool
  | Now => Z
  | Raw _ | GetMessagesWhereID _ | FindMessages _ _ => answer (list Messages)
  | GetEmbedder | GetRetriever _ => outcome unit
  | Retrieve _ _ => outcome (list (option Threshold.Document))
  end.
Definition search : Sig := mkSig search_cmd search_res.
Notation scall c := (call (S := search) c).

(** dao.IsGroupMember; the callers drop the error. *)
Definition is_member (groupID userID : Z) : prog search bool :=
  r <- scall (MemberQuery groupID userID) ;;
  Ret (match r with Success b => b | Failure _ => false end).

(** dao.GetMessagesByIDs: despite its comment, the user plays no part. *)
Definition GetMessagesByIDs (msgIDs : list Z) : prog search (answer (list Messages)) :=
  match msgIDs with [] => Ret (Success []) | _ => scall (GetMessagesWhereID msgIDs) end.

Module Search.
Section search.
Variable Parse : string -> outcome Z.
Variable AddDate : Z -> Z -> Z -> Z -> Z.
Variable Format : string -> Z -> string.
Variable ToLower : string -> string.

Definition convID (currentUserID targetUserID targetGroupID : Z) : string :=
  if negb (targetGroupID =? 0) then ConvID.GroupConvID targetGroupID
  else ConvID.SingleChatConvID currentUserID targetUserID.

Definition filterExpr (conv : string) (queryStart queryEnd : Z) : string :=
  let q := String (byte 34) "" in
  "conv_id == " +:+ q +:+ conv +:+ q +:+
  (if 0 <? Time.Unix queryStart then " && send_time >= " +:+ Itoa (Time.Unix queryStart) else "") +:+
  (if 0 <? Time.Unix queryEnd then " && send_time <= " +:+ Itoa (Time.Unix queryEnd) else "").

Definition parse_ids (docs : list (option Threshold.Document)) : list Z :=
  omap (fun d => match d with
                 | Some d => match ParseInt (Threshold.docID d) with Ok id => Some id | _ => None end
                 | None => None
                 end) docs.

(** From the candidates to the messages, in the order of their rank. *)
Definition rows_of (keywords : string) (msgIDs : list Z) (messages : list Messages) : list Messages :=
  let ordered := Fusion.OrderMessagesByIDs messages msgIDs in
  if Threshold.HasContentKeywordCoverage ToLower (mContent <$> ordered) (Fields keywords) then ordered else [].

Definition semanticFallback (currentUserID : Z) (keywords : string) (targetUserID targetGroupID queryStart queryEnd limit : Z)
  : prog search (list Messages) :=
  e <- scall GetEmbedder ;;
  match e with
  | Ok _ =>
      r <- scall (GetRetriever limit) ;;
      match r with
      | Ok _ =>
          results <- scall (Retrieve keywords (filterExpr (convID currentUserID targetUserID targetGroupID) queryStart queryEnd)) ;;
          match results with
          | Ok results =>
              match Threshold.FilterDocumentsByScore results Threshold.MinMessageSemanticScore with
              | [] => Ret []
              | results =>
                  match parse_ids results with
                  | [] => Ret []
                  | msgIDs =>
                      messages <- GetMessagesByIDs msgIDs ;;
                      match messages with
                      | Success messages => Ret (rows_of keywords msgIDs messages)
                      | Failure _ => Ret []
                      end
                  end
              end
          | _ => Ret []
          end
      | _ => Ret []
      end
  | _ => Ret []
  end.

Definition resolveSenderName (senderId currentUserID targetUserID : Z) (targetUserName : string) : string :=
  if senderId =? currentUserID then "你"
  else if negb (targetUserID =? 0) && (senderId =? targetUserID) then targetUserName
  else "用户" +:+ Itoa senderId.

(** The loop that writes the answer. *)
Fixpoint write_docs (i limit : Z) (docs : list string) : string :=
  match docs with
  | [] => ""
  | d :: docs =>
      d +:+ String (byte 10) "" +:+
      (if (limit <=? i) && (0 <? limit) then "" else write_docs (i + 1) limit docs)
  end.

(** SearHistoryReq *)
Record SearHistoryReq := mkReq {
  TargetUser : string;
  TargetGroup : string;
  StartTime : string;
  EndTime : string;
  Keywords : string;
  Limit : Z;
}.

Definition no_user : Z * string := (0, "").

Definition find_user (name : string) : prog search (outcome (Z * string)) :=
  if String.eqb name "" then Ret (Ok no_user)
  else
    u <- scall (FindUserByName name) ;;
    Ret (match u with
         | Success u => Ok (usUserId u, usUsername u)
         | Failure _ => Err ("未找到用户 '" +:+ name +:+ "'，请确认用户名")
         end).
Definition find_group (name : string) : prog search (outcome Z) :=
  if String.eqb name "" then Ret (Ok 0)
  else
    g <- scall (FindGroupByName name) ;;
    Ret (match g with
         | Success g => Ok (gGroupID g)
         | Failure _ => Err ("未找到群 '" +:+ name +:+ "'，请确认群名称")
         end).

(** "group fallback": a group is only searched by a member. *)
Definition allowed (targetGroupID currentUserID : Z) : prog search bool :=
  if targetGroupID =? 0 then Ret true else is_member targetGroupID currentUserID.

Definition candidate_limit (limit : Z) : Z :=
  let l := if limit <? 20 then 20 else limit in if 200 <? l then 200 else l.

(** From the candidate limit on. *)
Definition search_messages (currentUserID targetUserID targetGroupID queryStart queryEnd : Z) (keywords : string) (limit : Z)
  : prog search (list Messages) :=
  messages <- semanticFallback currentUserID keywords targetUserID targetGroupID queryStart queryEnd (candidate_limit limit) ;;
  match messages with
  | [] =>
      r <- scall (Raw (Query.SearchHistoryMessages currentUserID targetUserID targetGroupID (Fields keywords)
                         queryStart queryEnd (candidate_limit limit))) ;;
      Ret (match r with Success l => l | Failure _ => [] end)
  | _ => Ret messages
  end.

Definition candidate (currentUserID targetUserID : Z) (targetUserName : string) (m : Messages) : string :=
  "[" +:+ resolveSenderName (mSenderId m) currentUserID targetUserID targetUserName +:+ "]: " +:+ mContent m.

Definition searchHistoryInvoker (user : option Z) (req : SearHistoryReq) : prog search (outcome string) :=
  match user with
  | None => Ret (Err "internal error: missing user context")
  | Some currentUserID =>
      if String.eqb (TargetUser req) "" && String.eqb (TargetGroup req) "" then
        Ret (Err "请指定搜索对象：用户名或群名称")
      else if String.eqb (Keywords req) "" then Ret (Err "请提供搜索关键词，多个词用空格分隔")
      else
        target <- find_user (TargetUser req) ;;
        match target with
        | Ok (targetUserID, targetUserName) =>
            group <- find_group (TargetGroup req) ;;
            match group with
            | Ok targetGroupID =>
                now <- scall Now ;;
                let '(queryStart, queryEnd) := Time.ResolveTime Parse AddDate now (StartTime req) (EndTime req) in
                ok <- allowed targetGroupID currentUserID ;;
                if negb ok then Ret (Err "你不在该群中")
                else
                  messages <- search_messages currentUserID targetUserID targetGroupID queryStart queryEnd
                                (Keywords req) (Limit req) ;;
                  match messages with
                  | [] => Ret (Ok "未找到匹配的聊天记录，建议调整关键词或扩大时间范围")
                  | _ =>
                      Ret (Ok ("以下是相关聊天记录，请根据用户的需求进行总结或提取:" +:+ String (byte 10) "" +:+
                               write_docs 0 (Limit req) (candidate currentUserID targetUserID targetUserName <$> messages)))
                  end
            | Err e => Ret (Err e)
            | Panic e => Ret (Panic e)
            end
        | Err e => Ret (Err e)
        | Panic e => Ret (Panic e)
        end
  end.

(** *** mcp/search_chat.go: the user is an argument *)
Variable int64_of : float64 -> Z.
Variable int_of : float64 -> Z.

Definition semanticMCP (currentUserID : Z) (keywords : string) (targetUserID targetGroupID queryStart queryEnd limit : Z)
  : prog search (list Messages) :=
  e <- scall GetEmbedder ;;
  match e with
  | Ok _ =>
      r <- scall (GetRetriever limit) ;;
      match r with
      | Ok _ =>
          docs <- scall (Retrieve keywords (filterExpr (convID currentUserID targetUserID targetGroupID) queryStart queryEnd)) ;;
          match docs with
          | Ok docs =>
              match Threshold.FilterDocumentsByScore docs Threshold.MinMessageSemanticScore with
              | [] => Ret []
              | docs =>
                  msgs <- GetMessagesByIDs (parse_ids docs) ;;
                  Ret (rows_of keywords (parse_ids docs) (match msgs with Success l => l | Failure _ => [] end))
              end
          | _ => Ret []
          end
      | _ => Ret []
      end
  | _ => Ret []
  end.

Definition mcp_line (currentUserID targetUserID : Z) (targetUserName : string) (m : Messages) : string :=
  let name :=
    if mSenderId m =? currentUserID then "你"
    else if negb (targetUserID =? 0) && (mSenderId m =? targetUserID) then targetUserName
    else "用户" +:+ Itoa (mSenderId m) in
  "[" +:+ Format "01-02 15:04" (mCreateTime m) +:+ "] " +:+ name +:+ " | " +:+ mContent m.

(** The loop over the messages with its break. *)
Fixpoint take_lines (index limit : Z) (lines : list string) : list string :=
  match lines with
  | [] => []
  | l :: lines => if limit <=? index then [] else l :: take_lines (index + 1) limit lines
  end.

Definition mcp_target_user (name : option string) : prog search (string + (Z * string)) :=
  match name with
  | Some v =>
      if String.eqb v "" then Ret (inr no_user)
      else
        u <- scall (FindUserByName v) ;;
        Ret (match u with
             | Success u => inr (usUserId u, usUsername u)
             | Failure _ => inl ("未找到用户: " +:+ v)
             end)
  | None => Ret (inr no_user)
  end.
Definition mcp_target_group (name : option string) : prog search (string + Z) :=
  match name with
  | Some v =>
      if String.eqb v "" then Ret (inr 0)
      else
        g <- scall (FindGroupByName v) ;;
        Ret (match g with
             | Success g => inr (gGroupID g)
             | Failure _ => inl ("未找到群: " +:+ v)
             end)
  | None => Ret (inr 0)
  end.

Definition mcp_messages (currentUserID targetUserID targetGroupID queryStart queryEnd : Z) (kwStr : string) (limit : Z)
  : prog search (list Messages) :=
  msgs <- semanticMCP currentUserID kwStr targetUserID targetGroupID queryStart queryEnd (candidate_limit limit) ;;
  match msgs with
  | [] =>
      r <- scall (Raw (Query.SearchHistoryMessages currentUserID targetUserID targetGroupID (Fields kwStr)
                         queryStart queryEnd (candidate_limit limit))) ;;
      Ret (match r with Success l => l | Failure _ => [] end)
  | _ => Ret msgs
  end.

(** The handler; an error of the tool or its text. *)
Definition mcp_search (arguments : option (gmap string any)) : prog search (outcome (string + string)) :=
  match arguments with
  | None => Ret (Ok (inl "参数格式错误，arguments 必须为 JSON 对象"))
  | Some args =>
      match must (number args "current_user_id") with
      | Ok u =>
          let currentUserID := int64_of u in
          user <- mcp_target_user (text args "target_user") ;;
          match user with
          | inl e => Ret (Ok (inl e))
          | inr (targetUserID, targetUserName) =>
              group <- mcp_target_group (text args "target_group") ;;
              match group with
              | inl e => Ret (Ok (inl e))
              | inr targetGroupID =>
                  if (targetUserID =? 0) && (targetGroupID =? 0) then Ret (Ok (inl "请指定搜索对象"))
                  else
                    ok <- allowed targetGroupID currentUserID ;;
                    if negb ok then Ret (Ok (inl "你不在该群中"))
                    else
                      now <- scall Now ;;
                      let '(queryStart, queryEnd) := Time.ResolveTime Parse AddDate now
                        (default "" (text args "start_time")) (default "" (text args "end_time")) in
                      let kwStr := default "" (text args "keywords") in
                      let limit := from_option int_of 50 (number args "limit") in
                      msgs <- mcp_messages currentUserID targetUserID targetGroupID queryStart queryEnd kwStr limit ;;
                      match msgs with
                      | [] => Ret (Ok (inr "未找到匹配的聊天记录"))
                      | _ =>
                          Ret (Ok (inr (Join (take_lines 0 limit (mcp_line currentUserID targetUserID targetUserName <$> msgs))
                                          (String (byte 10) ""))))
                      end
              end
          end
      | Err e => Ret (Err e)
      | Panic m => Ret (Panic m)
      end
  end.

(** *** What is read *)

(** The commands that read messages; the targets and memberships found so far. *)
Definition reads (e : event search) : list search_cmd :=
  match projT1 e with Retrieve _ _ | Raw _ | GetMessagesWhereID _ | FindMessages _ _ => [projT1 e] | _ => [] end.
Definition users_found (e : event search) : list Z :=
  match e with existT (FindUserByName _) (Success u) => [usUserId u] | _ => [] end.
Definition groups_found (e : event search) : list Z :=
  match e with existT (FindGroupByName _) (Success g) => [gGroupID g] | _ => [] end.
Definition memberships (e : event search) : list (Z * Z) :=
  match e with existT (MemberQuery g u) (Success true) => [(g, u)] | _ => [] end.
Notation seen v past := (view (S := search) v past).

(** The person and the group asked about, 0 for none. *)
Definition user_of (past : list (event search)) : Z := default 0 (last (seen users_found past)).
Definition group_of (past : list (event search)) : Z := default 0 (last (seen groups_found past)).
Definition may_read (u : Z) (past : list (event search)) : Prop :=
  group_of past = 0 \/ (group_of past, u) ∈ seen memberships past.

(** What may be read for user [u], who names the person [user] and the group [group]: the
    two are looked up before anything is read; the vector search and the statement are
    about the user's conversation with that person or with that group, of which the user
    is then a member; and rows are read by their ids only when the vector search
    answered these. *)
Definition reads_own (u : Z) (user group : string) (past : list (event search)) (e : event search) : Prop :=
  match e with
  | existT (FindUserByName name) _ => name = user /\ seen reads past = []
  | existT (FindGroupByName name) _ => name = group /\ seen reads past = []
  | existT (Retrieve _ f) _ =>
      may_read u past /\ exists s e, f = filterExpr (convID u (user_of past) (group_of past)) s e
  | existT (Raw q) _ =>
      may_read u past /\ exists kws s e l, q = Query.SearchHistoryMessages u (user_of past) (group_of past) kws s e l
  | existT (GetMessagesWhereID ids) _ => exists q f docs, @ev search (Retrieve q f) (Ok docs) ∈ past /\
      ids = parse_ids (Threshold.FilterDocumentsByScore docs Threshold.MinMessageSemanticScore)
  | existT (FindMessages _ _) _ => False
  | _ => True
  end.

(** A row that was read: one of the ids asked for, or one the statement selected. *)
Definition was_read (past : list (event search)) (m : Messages) : Prop :=
  (exists ids rows, @ev search (GetMessagesWhereID ids) (Success rows) ∈ past /\ m ∈ rows /\ mMsgId m ∈ ids) \/
  (exists q rows, @ev search (Raw q) (Success rows) ∈ past /\ m ∈ rows).

Section reading.
Variable u : Z.
Variables user group : string.
Notation sat := (sat (S := search) (reads_own u user group)).

(** Nothing has been looked up yet, or the person, or both. *)
Definition at_targets (t g : Z) (past : list (event search)) : Prop := user_of past = t /\ group_of past = g.
Ltac looked := unfold at_targets, user_of, group_of, may_read in *; autorewrite with go; cbn; rewrite ?app_nil_r.

(** Commands that look nothing up keep the targets. *)
Lemma asks_snoc past t g e : seen users_found [e] = [] -> seen groups_found [e] = [] ->
  at_targets t g past /\ may_read u past -> at_targets t g (past ++ [e]) /\ may_read u (past ++ [e]).
Proof.
  unfold at_targets, may_read, user_of, group_of. rewrite !view_app. intros -> ->. rewrite !app_nil_r.
  intros [[-> ->] Hm]. split_and!; [done | done |].
  destruct Hm as [Hm | Hm]; [by left | right]. apply elem_of_app. by left.
Qed.

Lemma find_user_sat past :
  past = [] -> sat past (find_user user) (fun past' r => seen reads past' = [] /\
    forall t n, r = Ok (t, n) -> at_targets t 0 past').
Proof.
  intros ->. unfold find_user. case_match; [by split; [| intros t n [= <- <-]] |].
  unfold call. cbn [bind Effects.sat]. intros r. split; [done |]. destruct r as [usr |]; (split; [done |]); [| done].
  by intros t n [= <- <-].
Qed.

Lemma find_group_sat past t : seen reads past = [] -> at_targets t 0 past ->
  sat past (find_group group) (fun past' r => seen reads past' = [] /\ forall g, r = Ok g -> at_targets t g past').
Proof.
  intros Hr [Ht Hg]. unfold find_group. case_match; [by split; [| intros g [= <-]] |].
  unfold call. cbn [bind Effects.sat]. intros r. split; [done |]. split; [by looked; rewrite Hr |].
  destruct r as [grp |]; [| done]. intros g [= <-]. looked. by rewrite last_snoc.
Qed.

Lemma allowed_sat past t g : at_targets t g past ->
  sat past (allowed g u) (fun past' ok => at_targets t g past' /\ (ok = true -> may_read u past')).
Proof.
  intros [Ht Hg]. unfold allowed, is_member. destruct (Z.eqb_spec g 0) as [E | E].
  { split; [done |]. intros _. left. congruence. }
  unfold call. cbn [bind Effects.sat]. intros r. split; [done |]. split; [by looked |].
  destruct r as [[] |]; [| done..]. intros _. right. looked. unfold group_of in Hg. rewrite Hg.
  apply elem_of_app. right. by left.
Qed.

Lemma rows_of_read past ids rows keywords m :
  @ev search (GetMessagesWhereID ids) (Success rows) ∈ past -> m ∈ rows_of keywords ids rows -> was_read past m.
Proof.
  intros He Hm. unfold rows_of in Hm. case_match; [| by apply not_elem_of_nil in Hm].
  apply Fusion.ordered_found in Hm as [? ?]. left. by exists ids, rows.
Qed.

Lemma fetch_sat past q f docs ids : @ev search (Retrieve q f) (Ok docs) ∈ past ->
  ids = parse_ids (Threshold.FilterDocumentsByScore docs Threshold.MinMessageSemanticScore) ->
  sat past (GetMessagesByIDs ids) (fun past' r => at_targets (user_of past) (group_of past) past' /\
    (may_read u past -> may_read u past') /\
    forall keywords m, m ∈ rows_of keywords ids (match r with Success rows => rows | Failure _ => [] end) -> was_read past' m).
Proof.
  intros He E.
  assert (forall past kw m, m ∈ rows_of kw ids [] -> was_read past m) as Hnone.
  { intros past' kw m Hm. unfold rows_of in Hm. case_match; [| by apply not_elem_of_nil in Hm].
    apply Fusion.ordered_found in Hm as [Hm _]. by apply not_elem_of_nil in Hm. }
  unfold GetMessagesByIDs. destruct ids as [| id ids]; [split_and!; [done | done | apply Hnone] |].
  unfold call. cbn [bind Effects.sat]. intros r. split; [by exists q, f, docs |].
  split; [by looked |]. split.
  { intros Hm. by apply (asks_snoc past (user_of past) (group_of past)). }
  destruct r as [rows | e]; [| apply Hnone]. intros kw m Hm. eapply rows_of_read; [| exact Hm].
  apply elem_of_app. right. by left.
Qed.

Section searching.
Variables t g s e : Z.
Notation asks past := (at_targets t g past /\ may_read u past).

Lemma fulltext_sat past kws l : asks past ->
  sat past (r <- scall (Raw (Query.SearchHistoryMessages u t g kws s e l)) ;;
            Ret (match r with Success ms => ms | Failure _ => [] end))
    (fun past' ms => forall m, m ∈ ms -> was_read past' m).
Proof.
  intros [[Ht Hg] Hm]. unfold call. cbn [bind Effects.sat]. intros r. split; [cbn; rewrite Ht, Hg; eauto 10 |].
  intros m Hin. destruct r as [rows |]; [| by apply not_elem_of_nil in Hin]. right. exists (Query.SearchHistoryMessages u t g kws s e l), rows.
  split; [| done]. apply elem_of_app. right. by left.
Qed.

(** What the vector search answers, and then the rest. *)
Lemma vector_sat {B} past kw l (f : list (option Threshold.Document) -> prog search B) (none : B) P :
  asks past ->
  (forall past', asks past' -> P past' none) ->
  (forall past' docs, asks past' ->
     @ev search (Retrieve kw (filterExpr (convID u t g) s e)) (Ok docs) ∈ past' -> sat past' (f docs) P) ->
  sat past (x <- scall GetEmbedder ;;
    match x with
    | Ok _ =>
        y <- scall (GetRetriever l) ;;
        match y with
        | Ok _ =>
            z <- scall (Retrieve kw (filterExpr (convID u t g) s e)) ;;
            match z with Ok docs => f docs | _ => Ret none end
        | _ => Ret none
        end
    | _ => Ret none
    end) P.
Proof.
  intros Ha Hn Hf. unfold call. cbn [bind Effects.sat].
  intros x. split; [done |]. apply (asks_snoc _ _ _ (@ev search GetEmbedder x)) in Ha; [| done..].
  destruct x; cbn [bind Effects.sat]; [| by apply Hn..].
  intros y. split; [done |]. apply (asks_snoc _ _ _ (@ev search (GetRetriever l) y)) in Ha; [| done..].
  destruct y; cbn [bind Effects.sat]; [| by apply Hn..].
  intros z. split; [destruct Ha as [[Ht Hg] Hm]; cbn; rewrite Ht, Hg; eauto |].
  set (q := filterExpr (convID u t g) s e). apply (asks_snoc _ _ _ (@ev search (Retrieve kw q) z)) in Ha; [| done..].
  destruct z as [docs | |]; cbn [bind Effects.sat]; [| by apply Hn..].
  apply Hf; [done |]. apply elem_of_app. right. by left.
Qed.

Notation shows past ms := (asks past /\ forall m : Messages, m ∈ ms -> was_read past m).
Lemma shows_nothing past : asks past -> shows past [].
Proof. intros H. split; [done |]. by intros m ?%not_elem_of_nil. Qed.

Lemma semanticFallback_sat past kw l : asks past ->
  sat past (semanticFallback u kw t g s e l) (fun past' ms => shows past' ms).
Proof.
  intros Ha. unfold semanticFallback. apply vector_sat; [done | by apply shows_nothing |].
  intros past' docs Ha' He. destruct (Threshold.FilterDocumentsByScore _ _) as [| d ds] eqn:Ed; [by apply shows_nothing |].
  destruct (parse_ids (d :: ds)) as [| id ids] eqn:Ei; [by apply shows_nothing |].
  eapply sat_bind; [eapply fetch_sat; [exact He | by rewrite Ed, Ei] |].
  intros past2 r (Ht & Hm & Hr). assert (asks past2) as Ha2 by (split; [by destruct Ha' as [[<- <-] _] | by apply Hm, Ha']).
  destruct r as [rows |]; cbn [Effects.sat]; [| by apply shows_nothing]. split; [done | apply Hr].
Qed.
Lemma semanticMCP_sat past kw l : asks past ->
  sat past (semanticMCP u kw t g s e l) (fun past' ms => shows past' ms).
Proof.
  intros Ha. unfold semanticMCP. apply vector_sat; [done | by apply shows_nothing |].
  intros past' docs Ha' He. destruct (Threshold.FilterDocumentsByScore _ _) as [| d ds] eqn:Ed; [by apply shows_nothing |].
  eapply sat_bind; [eapply fetch_sat; [exact He | by rewrite Ed] |].
  intros past2 r (Ht & Hm & Hr). split; [split; [by destruct Ha' as [[<- <-] _] | by apply Hm, Ha'] | apply Hr].
Qed.

Lemma search_messages_sat past kw l : asks past ->
  sat past (search_messages u t g s e kw l) (fun past' ms => forall m, m ∈ ms -> was_read past' m).
Proof.
  intros Ha. unfold search_messages. eapply sat_bind; [by apply semanticFallback_sat |].
  intros past' [| m ms] [Ha' Hm]; [by apply fulltext_sat | exact Hm].
Qed.
Lemma mcp_messages_sat past kw l : asks past ->
  sat past (mcp_messages u t g s e kw l) (fun past' ms => forall m, m ∈ ms -> was_read past' m).
Proof.
  intros Ha. unfold mcp_messages. eapply sat_bind; [by apply semanticMCP_sat |].
  intros past' [| m ms] [Ha' Hm]; [by apply fulltext_sat | exact Hm].
Qed.
End searching.
End reading.

Lemma take_lines_spec index limit lines : 0 <= index ->
  take_lines index limit lines = take (Z.to_nat (limit - index)) lines.
Proof.
  revert index. induction lines as [| l lines IH]; intros index Hi; cbn [take_lines]; [by rewrite take_nil |].
  destruct (Z.leb_spec limit index).
  - replace (Z.to_nat (limit - index)) with O by lia. done.
  - rewrite IH by lia. replace (Z.to_nat (limit - index)) with (S (Z.to_nat (limit - (index + 1)))) by lia. done.
Qed.

(** The tool shows one message more than the limit, the MCP tool as many. *)
Lemma write_docs_shows_one_more i limit docs : 0 <= i -> 0 < limit ->
  write_docs i limit docs =
    foldr (fun d s => d +:+ String (byte 10) "" +:+ s) "" (take (S (Z.to_nat (limit - i))) docs).
Proof.
  intros Hi Hl. revert i Hi. induction docs as [| d docs IH]; intros i Hi; cbn [write_docs]; [done |].
  cbn [take foldr]. destruct (Z.leb_spec limit i); destruct (Z.ltb_spec 0 limit); try lia; cbn [andb].
  - replace (Z.to_nat (limit - i)) with O by lia. done.
  - rewrite IH by lia. replace (Z.to_nat (limit - i)) with (S (Z.to_nat (limit - (i + 1)))) by lia. done.
Qed.

(** What the model is told: nothing was found, or a line for each row shown. *)
Definition tells_rows (u limit : Z) (past : list (event search)) (out : outcome string) : Prop :=
  forall text, out = Ok text ->
    text = "未找到匹配的聊天记录，建议调整关键词或扩大时间范围" \/
    exists t name ms, (forall m, m ∈ ms -> was_read past m) /\
      text = "以下是相关聊天记录，请根据用户的需求进行总结或提取:" +:+ String (byte 10) "" +:+
             write_docs 0 limit (candidate u t name <$> ms).

(** C13: Whatever the model asks for and whatever is answered, the search tool reads
    messages of one conversation only: the person and the group it names are looked up
    before anything is read; the vector search and the statement ask for the
    conversation of the user with that person, or for that group, and then only after
    the user was found to be a member; rows are fetched by id only when this vector
    search answered these ids; and what the model is told are rows so read. The rows
    of the ids are taken as the database gives them, without asking whose they are. *)
Theorem search_reads_own_conversation {W} (h : env search W) u req :
  always h (searchHistoryInvoker (Some u) req) (fun out tr =>
    (forall before e after, tr = before ++ e :: after -> reads_own u (TargetUser req) (TargetGroup req) before e) /\
    tells_rows u (Limit req) tr out).
Proof.
  eapply always_impl; [apply (sat_always h (reads_own u (TargetUser req) (TargetGroup req)) []) with
    (P := fun past out => tells_rows u (Limit req) past out) |]; [| by intros out tr [H1 H2]].
  unfold searchHistoryInvoker. case_match; [done |]. case_match; [done |].
  eapply sat_bind; [by apply find_user_sat |]. intros past1 [[t name] | e | e] [R1 H1]; [| done..].
  specialize (H1 _ _ eq_refl). eapply sat_bind; [by apply find_group_sat |].
  intros past2 [g | e | e] [R2 H2]; [| done..]. specialize (H2 _ eq_refl).
  unfold call. cbn [bind Effects.sat]. intros now. split; [done |]. destruct (Time.ResolveTime _ _ _ _ _) as [s e].
  eapply sat_bind; [apply (allowed_sat _ _ _ _ t g) |].
  { destruct H2 as [<- <-]. unfold at_targets, user_of, group_of. rewrite !view_app. cbn. by rewrite !app_nil_r. }
  intros past3 ok [H3 Hok]. destruct ok; cbn [negb]; [| done].
  eapply sat_bind; [by apply search_messages_sat; auto |]. intros past4 ms Hms.
  destruct ms as [| m ms]; intros text [= <-]; [by left | right; eauto].
Qed.

Section mcp.
Variable u : Z.
Variable args : gmap string any.
Let user := default "" (text args "target_user").
Let group := default "" (text args "target_group").
Notation sat := (sat (S := search) (reads_own u user group)).

Lemma mcp_target_user_sat : sat [] (mcp_target_user (text args "target_user")) (fun past r =>
  seen reads past = [] /\ forall t n, r = inr (t, n) -> at_targets t 0 past).
Proof.
  unfold mcp_target_user. subst user. destruct (text args "target_user") as [v |]; [| by split; [| intros t n [= <- <-]]].
  case_match; [by split; [| intros t n [= <- <-]] |].
  unfold call. cbn [bind Effects.sat]. intros r. split; [done |]. destruct r as [usr |]; (split; [done |]); [| done].
  by intros t n [= <- <-].
Qed.
Lemma mcp_target_group_sat past t : seen reads past = [] -> at_targets t 0 past ->
  sat past (mcp_target_group (text args "target_group")) (fun past' r =>
    seen reads past' = [] /\ forall g, r = inr g -> at_targets t g past').
Proof.
  intros Hr [Ht Hg]. unfold mcp_target_group. subst group.
  destruct (text args "target_group") as [v |]; [| by split; [| intros g [= <-]]].
  case_match; [by split; [| intros g [= <-]] |].
  unfold call. cbn [bind Effects.sat]. intros r. split; [done |]. unfold at_targets, user_of, group_of in *. rewrite !view_app, Hr.
  split; [done |]. destruct r as [grp |]; [| done]. intros g [= <-]. cbn. by rewrite app_nil_r, last_snoc.
Qed.
End mcp.

(** The MCP tool keeps to the conversations of whatever user the arguments name. *)
Lemma mcp_search_reads_own {W} (h : env search W) args f :
  number args "current_user_id" = Some f ->
  always h (mcp_search (Some args)) (fun _ tr => forall before e after, tr = before ++ e :: after ->
    reads_own (int64_of f) (default "" (text args "target_user")) (default "" (text args "target_group")) before e).
Proof.
  intros Hu. set (user := default "" (text args "target_user")). set (group := default "" (text args "target_group")).
  eapply always_impl; [apply (sat_always h (reads_own (int64_of f) user group) []) with (P := fun _ _ => True) |];
    [| by intros out tr [_ H]].
  unfold mcp_search. rewrite Hu. cbn [must]. cbv zeta.
  eapply sat_bind; [apply mcp_target_user_sat |]. intros past1 [e | [t name]] [R1 H1]; [done |].
  specialize (H1 _ _ eq_refl). eapply sat_bind; [by apply mcp_target_group_sat |].
  intros past2 [e | g] [R2 H2]; [done |]. specialize (H2 _ eq_refl). case_match; [done |].
  eapply sat_bind; [by apply (allowed_sat _ _ _ _ t g) |]. intros past3 ok [H3 Hok]. destruct ok; cbn [negb]; [| done].
  unfold call. cbn [bind Effects.sat]. intros now. split; [done |]. destruct (Time.ResolveTime _ _ _ _ _) as [s e].
  eapply sat_bind; [apply mcp_messages_sat; by apply asks_snoc; auto |]. intros past4 ms _. by destruct ms.
Qed.
End search.

(** A user who is a member of group 9 searches it; the vector search answers one id that
    is good enough. *)
Definition sample_search : env search unit := fun c _ =>
  (match c return search_res c with
   | FindUserByName _ => Failure "record not found"
   | FindGroupByName name => Success (mkGroup 9 name 5 5 0)
   | MemberQuery g u => Success true
   | Now => 0
   | Raw _ | FindMessages _ _ => Success []
   | GetMessagesWhereID ids => Success [mkMessages 5 1 8 7 9 false "lunch at noon" 0 50]
   | GetEmbedder | GetRetriever _ => Ok tt
   | Retrieve _ _ => Ok [Some (Threshold.mkDoc "5" "" f1); Some (Threshold.mkDoc "6" "" f0)]
   end, tt).
Notation sample_invoker := (searchHistoryInvoker (fun _ => Err "") (fun t _ _ _ => t) id (Some 7)).
Definition sample_req : SearHistoryReq := mkReq "" "cooks" "" "" "lunch" 10.

Lemma search_reads_own_conversation_witness :
  let x := run sample_search (sample_invoker sample_req) tt in
  view (S := search) reads (trace x) =
    [Retrieve "lunch" (filterExpr "group_9" 0 0); GetMessagesWhereID [5]] /\
  result x = Ok ("以下是相关聊天记录，请根据用户的需求进行总结或提取:" +:+ String (byte 10) "" +:+
                 "[用户8]: lunch at noon" +:+ String (byte 10) "") /\
  (forall before e after, trace x = before ++ e :: after -> reads_own 7 "" "cooks" before e) /\
  tells_rows 7 10 (trace x) (result x).
Proof.
  intros x. split; [vm_compute; reflexivity |]. split; [vm_compute; reflexivity |].
  exact (search_reads_own_conversation (fun _ => Err "") (fun t _ _ _ => t) id sample_search 7 sample_req tt).
Defined.
End Search.

Module Summarize.
Section summarize.
Variable Parse : string -> outcome Z.
Variable AddDate : Z -> Z -> Z -> Z -> Z.
Variable Format : string -> Z -> string.

(** SummarizeGroupReq *)
Record SummarizeGroupReq := mkReq { GroupName : string; StartTime : string; EndTime : string; MaxMessages : Z }.

Definition resolveGroupSender (m : Messages) (currentUserID : Z) : string :=
  if mSenderId m =? currentUserID then "你" else "用户" +:+ Itoa (mSenderId m).

Definition line (currentUserID : Z) (m : Messages) : string :=
  "[" +:+ Format "01-02 15:04" (mCreateTime m) +:+ "] " +:+ resolveGroupSender m currentUserID +:+ ": " +:+
  mContent m +:+ String (byte 10) "".

Definition limit_of (req : SummarizeGroupReq) : Z :=
  if (MaxMessages req <=? 0) || (500 <? MaxMessages req) then 200 else MaxMessages req.

Definition summarizeGroupInvoker (user : option Z) (req : SummarizeGroupReq) : prog search (outcome string) :=
  match user with
  | None => Ret (Err "internal error: missing user context")
  | Some currentUserID =>
      group <- scall (FindGroupByName (GroupName req)) ;;
      match group with
      | Failure _ => Ret (Err ("未找到群 '" +:+ GroupName req +:+ "'，请确认群名称"))
      | Success group =>
          exists_ <- is_member (gGroupID group) currentUserID ;;
          if negb exists_ then Ret (Err ("你不在群 '" +:+ GroupName req +:+ "' 中，无法查看消息"))
          else
            now <- scall Now ;;
            let '(queryStart, queryEnd) := Time.ResolveTime Parse AddDate now (StartTime req) (EndTime req) in
            let '(conds, limit) := Query.GetGroupMessages currentUserID (gGroupID group) queryStart queryEnd (limit_of req) in
            msgs <- scall (FindMessages conds limit) ;;
            match msgs with
            | Failure e => Ret (Err ("拉取群消息失败: " +:+ e))
            | Success [] => Ret (Ok "该时间段内无群聊消息")
            | Success msgs =>
                let nl := String (byte 10) "" in
                Ret (Ok ("群聊「" +:+ GroupName req +:+ "」最近 " +:+ Itoa (Z.of_nat (length msgs)) +:+ " 条消息：" +:+ nl +:+ nl +:+
                         foldr (fun m t => line currentUserID m +:+ t) "" (reverse msgs)))
            end
      end
  end.

(** The queries of messages, as what they select and how many. *)
Definition selected (e : event search) : list (list Query.cond * Z) :=
  match projT1 e with FindMessages c l => [(c, l)] | _ => [] end.

(** Nothing is read unless the user is a member of the group, and then one query,
    of the user's own copies in that group and at most 200 of them. *)
Theorem summary_reads_own_group {W} (h : env search W) u req :
  always h (summarizeGroupInvoker (Some u) req) (fun _ tr =>
    view (S := search) selected tr = [] \/
    exists g s e limit, view (S := search) selected tr = [([Query.CGroup g; Query.CReceiver u; Query.CTime s e], limit)] /\
      view (S := search) Search.groups_found tr = [g] /\ view (S := search) Search.memberships tr = [(g, u)] /\
      0 < limit <= 200).
Proof.
  unfold summarizeGroupInvoker, is_member. apply always_Do. intros [group | e]; cbn [bind]; [| by apply always_Ret; left].
  apply always_Do. intros [[] | e]; cbn [bind negb]; [| by apply always_Ret; left ..].
  apply always_Do. intros now. cbn [bind]. destruct (Time.ResolveTime _ _ _ _ _) as [s e].
  cbn [Query.GetGroupMessages]. pose proof (Query.clamp_range (limit_of req)) as Hl.
  apply always_Do. intros [[| m ms] | e']; cbn [bind]; apply always_Ret; right; eexists _, _, _, _; done.
Qed.

(** The schema of the tool allows 500 messages, but more than 200 are cut to 200. *)
Lemma asked_500_gets_200 : Query.clamp (limit_of (mkReq "g" "" "" 500)) 200 = 200.
Proof. reflexivity. Qed.
End summarize.
End Summarize.
