(* ===== verification/AgentChat.v ===== *)
(** * The agent's HTTP side: apps/agent/handler, engine/session_channel.go

    Module SessionChannel: how a decision on an interrupted tool call gets from the
    approval endpoint to the waiting stream (session_channel.go; RegisterSessionChan
    and the wait are in chat_sse.go, the push in approve.go). Module Runner
    (engine/runner.go: the cached runner). Module Sse (chat_sse.go): the stream of a
    question. Module Approve (approve.go). Module Index (document.go): indexing a
    document. *)
From S2P Require Import Prelude GoStd GoText Effects AgentSchema Dao AgentMiddleware Graph.
#[local] Open Scope prog_scope.

Module SessionChannel.

(** Channels (of capacity one) are numbered as they are made. *)
Record State := mkState {
  sessionChans : gmap string nat;
  next : nat;
  made_for : gmap nat string;                    (* the checkpoint a channel was made for *)
  buffer : gmap nat ApprovalResult;
  pushing : list (nat * ApprovalResult);         (* pushes past the lock, before their send *)
  accepted : list (string * ApprovalResult);     (* pushes that returned or will return true *)
  received : list (nat * ApprovalResult);
}.

Definition init : State := mkState ∅ 0 ∅ ∅ [] [] [].

(** RegisterSessionChan *)
Definition RegisterSessionChan (cp : string) (s : State) : nat * State :=
  (next s, mkState (<[cp := next s]> (sessionChans s)) (S (next s)) (<[next s := cp]> (made_for s))
             (buffer s) (pushing s) (accepted s) (received s)).

(** PushSessionDecision up to the unlock; [false] when there is no channel. *)
Definition take_channel (cp : string) (r : ApprovalResult) (s : State) : bool * State :=
  match sessionChans s !! cp with
  | None => (false, mkState (delete cp (sessionChans s)) (next s) (made_for s) (buffer s) (pushing s) (accepted s) (received s))
  | Some ch =>
      (true, mkState (delete cp (sessionChans s)) (next s) (made_for s) (buffer s) ((ch, r) :: pushing s)
               ((cp, r) :: accepted s) (received s))
  end.

(** The critical sections, the send (which waits for an empty buffer) and the
    receive of the stream. A stream whose request ends stops waiting, which changes
    nothing here. *)
Inductive step : State -> State -> Prop :=
| step_register cp s : step s (RegisterSessionChan cp s).2
| step_take cp r s : step s (take_channel cp r s).2
| step_send ch r l1 l2 s :
    pushing s = l1 ++ (ch, r) :: l2 -> buffer s !! ch = None ->
    step s (mkState (sessionChans s) (next s) (made_for s) (<[ch := r]> (buffer s)) (l1 ++ l2) (accepted s) (received s))
| step_receive ch r s :
    buffer s !! ch = Some r ->
    step s (mkState (sessionChans s) (next s) (made_for s) (delete ch (buffer s)) (pushing s) (accepted s)
              ((ch, r) :: received s)).

(** A decision was accepted for the checkpoint of channel [ch]. *)
Definition decided (s : State) (ch : nat) (r : ApprovalResult) : Prop :=
  exists cp, made_for s !! ch = Some cp /\ (cp, r) ∈ accepted s.

Definition Inv (s : State) : Prop :=
  (forall cp ch, sessionChans s !! cp = Some ch ->
     made_for s !! ch = Some cp /\ ch ∉ (pushing s).*1 /\ buffer s !! ch = None /\ ch ∉ (received s).*1) /\
  NoDup ((pushing s).*1) /\
  (forall ch r, (ch, r) ∈ pushing s -> decided s ch r /\ buffer s !! ch = None /\ ch ∉ (received s).*1) /\
  (forall ch r, buffer s !! ch = Some r -> decided s ch r /\ ch ∉ (received s).*1) /\
  NoDup ((received s).*1) /\
  (forall ch r, (ch, r) ∈ received s -> decided s ch r) /\
  (forall ch cp, made_for s !! ch = Some cp -> (ch < next s)%nat).

Lemma elem_fst {A B} (a : A) (b : B) l : (a, b) ∈ l -> a ∈ l.*1.
Proof. intros H. apply list_elem_of_fmap. by exists (a, b). Qed.

Lemma not_elem_fst {A B} (a : A) (l : list (A * B)) : (forall b, (a, b) ∉ l) -> a ∉ l.*1.
Proof. intros H ((a' & b) & Heq & Hin)%list_elem_of_fmap. cbn in Heq. subst a'. by apply (H b). Qed.

Lemma Inv_init : Inv init.
Proof.
  unfold Inv, init; cbn. split_and!; try (by constructor); intros *;
    rewrite ?lookup_empty; try done; intros H; by apply elem_of_nil in H.
Qed.

Lemma register_Inv cp s : Inv s -> Inv (RegisterSessionChan cp s).2.
Proof.
  intros (I1 & I2 & I3 & I4 & I5 & I6 & I7). cbn.
  assert (forall ch r, decided s ch r ->
    decided (mkState (<[cp := next s]> (sessionChans s)) (S (next s)) (<[next s := cp]> (made_for s))
      (buffer s) (pushing s) (accepted s) (received s)) ch r) as Hd.
  { intros ch r (cp' & H & Ha). exists cp'. cbn. split; [| done]. rewrite lookup_insert_ne; [done |].
    apply I7 in H. lia. }
  assert (forall ch r, decided s ch r -> ch <> next s) as Hne.
  { intros ch r (cp' & H & _) ->. apply I7 in H. lia. }
  unfold Inv. cbn. split_and!.
  - intros cp' ch [[<- <-] | [Hcp H]]%lookup_insert_Some.
    + rewrite lookup_insert_eq. split_and!; [done | | |].
      * apply not_elem_fst. intros r Hin. by destruct (I3 _ _ Hin) as [?%Hne _].
      * destruct (buffer s !! next s) eqn:E; [| done]. by destruct (I4 _ _ E) as [?%Hne _].
      * apply not_elem_fst. intros r Hin. by apply I6, Hne in Hin.
    + destruct (I1 _ _ H) as (H1 & H2). rewrite lookup_insert_ne; [done |]. apply I7 in H1. lia.
  - done.
  - intros ch r Hin. destruct (I3 _ _ Hin) as (H1 & H2). auto.
  - intros ch r Hin. destruct (I4 _ _ Hin) as (H1 & H2). auto.
  - done.
  - auto.
  - intros ch cp' [[<- <-] | [_ H]]%lookup_insert_Some; [lia | apply I7 in H; lia].
Qed.

Lemma take_Inv cp r s : Inv s -> Inv (take_channel cp r s).2.
Proof.
  intros (I1 & I2 & I3 & I4 & I5 & I6 & I7). unfold take_channel.
  destruct (sessionChans s !! cp) as [ch |] eqn:E; cbn.
  - destruct (I1 _ _ E) as (H1 & H2 & H3 & H4).
    assert (forall ch' r', decided s ch' r' ->
      decided (mkState (delete cp (sessionChans s)) (next s) (made_for s) (buffer s) ((ch, r) :: pushing s)
        ((cp, r) :: accepted s) (received s)) ch' r') as Hd.
    { intros ch' r' (cp' & H & Ha). exists cp'. split; [done | by right]. }
    unfold Inv. cbn. split_and!; auto.
    + intros cp' ch' [Hne H]%lookup_delete_Some. destruct (I1 _ _ H) as (G1 & G2 & G3 & G4).
      split_and!; try done. apply not_elem_of_cons. split; [| done]. intros ->. congruence.
    + by constructor.
    + intros ch' r' [[= -> ->] | Hin]%elem_of_cons.
      * split_and!; try done. exists cp. split; [done | by left].
      * destruct (I3 _ _ Hin) as (G1 & G2). auto.
    + intros ch' r' Hin. destruct (I4 _ _ Hin) as (G1 & G2). auto.
  - unfold Inv. cbn. split_and!; auto. intros cp' ch' [Hne H]%lookup_delete_Some. by apply I1.
Qed.

Lemma send_Inv ch r l1 l2 s :
  Inv s -> pushing s = l1 ++ (ch, r) :: l2 ->
  Inv (mkState (sessionChans s) (next s) (made_for s) (<[ch := r]> (buffer s)) (l1 ++ l2) (accepted s) (received s)).
Proof.
  intros (I1 & I2 & I3 & I4 & I5 & I6 & I7) Hp. rewrite Hp in *.
  assert ((ch, r) ∈ l1 ++ (ch, r) :: l2) as Hin by (apply elem_of_app; right; by left).
  assert (forall x, x ∈ l1 ++ l2 -> x ∈ l1 ++ (ch, r) :: l2) as Hsub.
  { intros x. rewrite !elem_of_app, elem_of_cons. tauto. }
  assert (ch ∉ (l1 ++ l2).*1 /\ NoDup ((l1 ++ l2).*1)) as [Hch Hnd].
  { rewrite fmap_app in *. rewrite fmap_cons in I2. cbn in I2. split.
    - apply NoDup_app in I2 as (_ & H & H2). apply NoDup_cons in H2 as [H2 _].
      rewrite not_elem_of_app. split; [| done]. intros Hx. apply (H ch Hx). by left.
    - apply NoDup_app in I2 as (G1 & G2 & G3). apply NoDup_cons in G3 as [G3 G4].
      apply NoDup_app. split_and!; [done | | done]. intros x Hx Hx'. apply (G2 x Hx). by right. }
  unfold Inv. cbn. split_and!; auto.
  - intros cp ch' H. destruct (I1 _ _ H) as (G1 & G2 & G3 & G4).
    assert (ch' <> ch) by (intros ->; apply G2, list_elem_of_fmap; by exists (ch, r)).
    split_and!; [done | | by rewrite lookup_insert_ne | done].
    apply not_elem_fst. intros r' Hx. by apply G2, (elem_fst _ r'), Hsub.
  - intros ch' r' Hx. destruct (I3 _ _ (Hsub _ Hx)) as (G1 & G2 & G3). split_and!; [done | | done].
    rewrite lookup_insert_ne; [done |]. intros <-. by apply Hch, (elem_fst _ r').
  - intros ch' r' [[<- <-] | [_ H]]%lookup_insert_Some; [| by apply I4].
    destruct (I3 _ _ Hin) as (G1 & G2 & G3). done.
Qed.

Lemma receive_Inv ch r s :
  Inv s -> buffer s !! ch = Some r ->
  Inv (mkState (sessionChans s) (next s) (made_for s) (delete ch (buffer s)) (pushing s) (accepted s) ((ch, r) :: received s)).
Proof.
  intros (I1 & I2 & I3 & I4 & I5 & I6 & I7) Hb. destruct (I4 _ _ Hb) as [Hd Hr].
  unfold Inv. cbn. split_and!; auto.
  - intros cp ch' H. destruct (I1 _ _ H) as (G1 & G2 & G3 & G4). assert (ch' <> ch) by congruence.
    split_and!; [done | done | by rewrite lookup_delete_ne |]. by apply not_elem_of_cons.
  - intros ch' r' H. destruct (I3 _ _ H) as (G1 & G2 & G3). assert (ch' <> ch) by congruence.
    split_and!; [done | by rewrite lookup_delete_ne |]. by apply not_elem_of_cons.
  - intros ch' r' [Hne H]%lookup_delete_Some. destruct (I4 _ _ H) as (G1 & G2). split; [done |].
    by apply not_elem_of_cons.
  - by constructor.
  - intros ch' r' [[= -> ->] | H]%elem_of_cons; [done | by apply I6].
Qed.

Lemma step_Inv s s' : Inv s -> step s s' -> Inv s'.
Proof.
  intros HI Hs. destruct Hs.
  - by apply register_Inv.
  - by apply take_Inv.
  - by eapply send_Inv.
  - by apply receive_Inv.
Qed.

(** C23: In every reachable state: the endpoint never blocks on its send; a channel
    gives its stream at most one decision, and that is one accepted for its own
    checkpoint. *)
Theorem decisions_delivered_once s :
  rtc step init s ->
  (forall ch r, (ch, r) ∈ pushing s -> exists s', step s s' /\ buffer s' !! ch = Some r) /\
  NoDup ((received s).*1) /\
  (forall ch r, (ch, r) ∈ received s -> exists cp, made_for s !! ch = Some cp /\ (cp, r) ∈ accepted s).
Proof.
  intros Hr. destruct (invariant_rtc step Inv step_Inv init s Inv_init Hr) as (I1 & I2 & I3 & I4 & I5 & I6 & I7).
  split_and!; [| done | exact I6]. intros ch r Hin. pose proof Hin as Hin'.
  apply list_elem_of_split in Hin as (l1 & l2 & Hl). destruct (I3 _ _ Hin') as (_ & Hb & _).
  eexists. split; [by apply (step_send ch r l1 l2) |]. cbn. by rewrite lookup_insert_eq.
Qed.

Lemma decisions_delivered_once_witness :
  let r := mkApprovalResult true "" in
  let s0 := (RegisterSessionChan "c" init).2 in
  let s1 := (take_channel "c" r s0).2 in
  pushing s1 = [(O, r)] /\ exists s', step s1 s' /\ buffer s' !! O = Some r.
Proof.
  intros r s0 s1. split; [reflexivity |].
  assert (rtc step init s1) as Hr.
  { eapply rtc_l; [apply (step_register "c") |]. eapply rtc_l; [apply (step_take "c" r) |]. apply rtc_refl. }
  apply (proj1 (decisions_delivered_once s1 Hr)). by left.
Defined.

(** The stream tells the client of the interrupt before it registers the channel:
    a decision that comes in between is refused and the stream waits for another. *)
Lemma early_decision_is_lost cp r :
  let (ok, s1) := take_channel cp r init in
  let (ch, s2) := RegisterSessionChan cp s1 in
  ok = false /\ pushing s2 = [] /\ buffer s2 !! ch = None.
Proof. unfold take_channel. cbn. by rewrite lookup_empty. Qed.
End SessionChannel.

Module Runner.
(** engine/runner.go: the cached runner, built under the lock by the first that
    needs it; [build] is buildRunner. *)
Definition GetAgentGraphRunner {R} (build : outcome R) (cacheRunner : option R) : outcome R * option R :=
  match cacheRunner with
  | Some r => (Ok r, cacheRunner)
  | None => match build with Ok r => (Ok r, Some r) | e => (e, None) end
  end.
Definition ClearCachedRunner {R} (cacheRunner : option R) : option R := None.

(** ModelRetryConfig.IsRetryAble *)
Definition IsRetryAble (err : string) : bool :=
  Contains err "429" || Contains err "Too Many Requests" || Contains err "qpm limit".

(** The error SafeAgent makes of a model error is retried as the error itself. *)
Lemma wrapped_error_retried : IsRetryAble ("[model error] " +:+ "status code: 429") = true.
Proof. reflexivity. Qed.
End Runner.

Module Sse.

(** event/types.go *)
Inductive EventType :=
| EventStreamChunk | EventReasoningChunk | EventToolCall | EventToolResult | EventInterrupt | EventError | EventDone.

(** The data of an event; its JSON text is encoding/json's. *)
Inductive payload :=
| PNil
| PText (s : string)
| PTool (tool args : string)
| PResult (tool result : string)
| PInterrupt (checkpoint tool args : string).

(** adk.InterruptCtx: its id, whether the interrupt started there, and its Info
    where that is an ApprovalInfo. *)
Record InterruptCtx := mkInterruptCtx { icID : string; IsRootCause : bool; icInfo : option ApprovalInfo }.

(** MessageVariant: a stream is the frames it yields before it ends or breaks. *)
Record MessageVariant := mkVariant {
  mvRole : RoleType;
  mvIsStreaming : bool;
  mvFrames : list Message;
  mvMessage : option Message;
  mvToolName : string;
}.

(** adk.AgentEvent *)
Record AgentEvent := mkEvent {
  aeErr : bool;
  aeInterrupted : option (list InterruptCtx);
  aeOutput : option MessageVariant;
}.

(** What the handler talks to: the client, the engine and the runner (whose events
    come as a list), the channel of the session, the goroutine that stores. *)
Inductive sse_cmd :=
| AbortWithStatus (code : Z)
| Write (t : EventType) (p : payload)
| PrepareAgentContext (senderID : Z) (message : string)
| NowNano
| Run (checkPointID : string)
| RegisterChan (checkPointID : string)
| Wait
| Resume (checkPointID : string) (targets : gmap string ApprovalResult)
| Go_store (senderID : Z) (text : string).

Definition sse_res (c : sse_cmd) : Type :=
  match c with
  | AbortWithStatus _ | RegisterChan _ | Go_store _ _ => unit
  | Write _ _ => bool                                  (* false: the client is gone *)
  | PrepareAgentContext _ _ => outcome string          (* the id of the session *)
  | NowNano => Z
  | Run _ => list AgentEvent
  | Wait => option ApprovalResult                      (* None: the request ended *)
  | Resume _ _ => outcome (list AgentEvent)
  end.
Definition sse : Sig := mkSig sse_cmd sse_res.
Notation hcall c := (call (S := sse) c).

(** What a part of the loop ends with: the text so far, the end of the handler, or
    a nil dereference. *)
Inductive flow := Continue (fullText : string) | Return | Crash.

(** Write each, until the client is gone. *)
Fixpoint write_all (l : list (EventType * payload)) : prog sse bool :=
  match l with
  | [] => Ret true
  | (t, p) :: l => ok <- hcall (Write t p) ;; if ok : bool then write_all l else Ret false
  end.

Definition call_events (calls : list ToolCall) : list (EventType * payload) :=
  (fun tc => (EventToolCall, PTool (tcName tc) (tcArguments tc))) <$> calls.

Definition frame_events (f : Message) : list (EventType * payload) :=
  (if String.eqb (ReasoningContent f) "" then [] else [(EventReasoningChunk, PText (ReasoningContent f))]) ++
  (if String.eqb (Content f) "" then [] else [(EventStreamChunk, PText (Content f))]).

(** The frames of a stream, then the tool calls of the last one. *)
Fixpoint on_frames (fullText : string) (fullMsg : option Message) (frames : list Message) : prog sse flow :=
  match frames with
  | [] =>
      ok <- write_all (call_events (from_option ToolCalls [] fullMsg)) ;;
      Ret (if ok : bool then Continue fullText else Return)
  | f :: frames =>
      ok <- write_all (frame_events f) ;;
      if ok : bool then on_frames (fullText +:+ Content f) (Some f) frames else Ret Return
  end.

Definition on_output (mv : MessageVariant) (fullText : string) : prog sse flow :=
  match mvRole mv with
  | Assistant =>
      if mvIsStreaming mv then on_frames fullText None (mvFrames mv)
      else match mvMessage mv with
           | Some m =>
               ok <- write_all ((EventStreamChunk, PText (Content m)) :: call_events (ToolCalls m)) ;;
               Ret (if ok : bool then Continue (fullText +:+ Content m) else Return)
           | None => Ret (Continue fullText)
           end
  | Tool =>
      match mvMessage mv with
      | Some m =>
          ok <- write_all [(EventToolResult, PResult (mvToolName mv) (Content m))] ;;
          Ret (if ok : bool then Continue fullText else Return)
      | None => Ret Crash
      end
  | _ => Ret (Continue fullText)
  end.

(** buildTargets *)
Definition buildTargets (interrupts : list InterruptCtx) (r : ApprovalResult) : gmap string ApprovalResult :=
  foldl (fun t ic => if IsRootCause ic then <[icID ic := r]> t else t) ∅ interrupts.

(** sendInterruptEvent *)
Definition interrupt_events (checkPointID : string) (interrupts : list InterruptCtx) : list (EventType * payload) :=
  omap (fun ic => (fun i => (EventInterrupt, PInterrupt checkPointID (infoTool i) (infoArguments i))) <$> icInfo ic)
    interrupts.

(** An interrupt, up to the events of the resumed run; [None] leaves the loop with
    the text so far, [inr] ends the handler. *)
Definition on_interrupt (checkPointID : string) (interrupts : list InterruptCtx) : prog sse (option (list AgentEvent) + unit) :=
  ok <- write_all (interrupt_events checkPointID interrupts) ;;
  if negb (ok : bool) then Ret (inr tt)
  else
    _ <- hcall (RegisterChan checkPointID) ;;
    result <- hcall Wait ;;
    match result with
    | None => Ret (inr tt)
    | Some result =>
        events <- hcall (Resume checkPointID (buildTargets interrupts result)) ;;
        Ret (inl (match events with Ok l => Some l | _ => None end))
    end.

(** The events up to the first interrupt. *)
Fixpoint consume (fullText : string) (events : list AgentEvent) : prog sse (flow + string * list InterruptCtx) :=
  match events with
  | [] => Ret (inl (Continue fullText))
  | e :: events =>
      if aeErr e then consume fullText events
      else match aeInterrupted e with
           | Some interrupts => Ret (inr (fullText, interrupts))
           | None =>
               match aeOutput e with
               | None => consume fullText events
               | Some mv =>
                   r <- on_output mv fullText ;;
                   match r with Continue fullText => consume fullText events | r => Ret (inl r) end
               end
           end
  end.

(** The loop, for as many resumes as [fuel]; [None] when there are more. *)
Fixpoint event_loop (fuel : nat) (checkPointID fullText : string) (events : list AgentEvent) : prog sse (option flow) :=
  r <- consume fullText events ;;
  match r with
  | inl r => Ret (Some r)
  | inr (fullText, interrupts) =>
      match fuel with
      | O => Ret None
      | S fuel =>
          r <- on_interrupt checkPointID interrupts ;;
          match r with
          | inr _ => Ret (Some Return)
          | inl None => Ret (Some (Continue fullText))
          | inl (Some events) => event_loop fuel checkPointID fullText events
          end
      end
  end.

(** From the done event on. *)
Definition finish (senderId : Z) (r : flow) : prog sse unit :=
  match r with
  | Continue fullText =>
      ok <- hcall (Write EventDone PNil) ;;
      if negb (ok : bool) then Ret tt
      else if String.eqb fullText "" then Ret tt
      else hcall (Go_store senderId fullText)
  | _ => Ret tt
  end.

(** ChatSSE for the two query parameters; [flusher]: the writer can flush. *)
Definition ChatSSE (fuel : nat) (user_id message : string) (flusher : bool) : prog sse bool :=
  let senderId := ParseInt_value user_id in
  if negb flusher then _ <- hcall (AbortWithStatus 500) ;; Ret true
  else
    session <- hcall (PrepareAgentContext senderId message) ;;
    match session with
    | Ok sessionID =>
        now <- hcall NowNano ;;
        let checkPointID := sessionID +:+ ":" +:+ Itoa now in
        events <- hcall (Run checkPointID) ;;
        r <- event_loop fuel checkPointID "" events ;;
        match r with
        | Some r => _ <- finish senderId r ;; Ret true
        | None => Ret false
        end
    | _ =>
        _ <- hcall (Write EventError (PText "AI服务初始化失败，请稍后重试")) ;;
        _ <- hcall (Write EventDone PNil) ;;
        Ret true
    end.

(** *** What the client sees and what is stored *)

Definition chunks (e : event sse) : list string :=
  match e with existT (Write EventStreamChunk (PText s)) true => [s] | _ => [] end.
Definition finals (e : event sse) : list (option (Z * string)) :=
  match e with
  | existT (Write EventDone _) _ => [None]
  | existT (Go_store u t) _ => [Some (u, t)]
  | _ => []
  end.
Definition resumes (e : event sse) : list string :=
  match e with existT (Resume cp _) _ => [cp] | _ => [] end.

Definition cat (l : list string) : string := foldr String.append "" l.
Lemma cat_app l k : cat (l ++ k) = cat l +:+ cat k.
Proof.
  induction l as [| s l IH]; [done |]. cbn [cat app foldr] in *. unfold cat in IH. rewrite IH.
  apply string_app_assoc.
Qed.

(** A part of the loop that adds to the text exactly what it streamed, and neither
    ends the stream nor stores anything. *)
Definition streams (fullText fullText' : string) (tr : list (event sse)) : Prop :=
  fullText' = fullText +:+ cat (view (S := sse) chunks tr).
Definition no_finals (tr : list (event sse)) : Prop := view (S := sse) finals tr = [].

Definition chunk_of (w : EventType * payload) : list string :=
  match w with (EventStreamChunk, PText s) => [s] | _ => [] end.

Lemma write_all_spec {W} (h : env sse W) l :
  Forall (fun w => w.1 <> EventDone) l ->
  always h (write_all l) (fun ok tr => no_finals tr /\ view (S := sse) resumes tr = [] /\
    (ok = true -> view (S := sse) chunks tr = l ≫= chunk_of)).
Proof.
  induction 1 as [| [t p] l Ht Hl IH]; cbn [write_all]; [by apply always_Ret |].
  apply always_Do. intros [|]; cbn [bind].
  - eapply always_impl; [exact IH |]. intros ok tr (H1 & H2 & H3). unfold no_finals in *.
    autorewrite with go. rewrite H1, H2. split_and!; [by destruct t | done |].
    intros Hok. rewrite (H3 Hok), bind_cons. f_equal. by destruct t, p.
  - apply always_Ret. split_and!; [by destruct t | done | done].
Qed.

Lemma calls_not_done calls : Forall (fun w => w.1 <> EventDone) (call_events calls).
Proof. unfold call_events. apply Forall_fmap, Forall_true. done. Qed.
Lemma calls_no_chunk calls : call_events calls ≫= chunk_of = [].
Proof. induction calls as [| c calls IH]; [done |]. exact IH. Qed.
Lemma frame_not_done f : Forall (fun w => w.1 <> EventDone) (frame_events f).
Proof. unfold frame_events. apply Forall_app. split; case_match; by repeat constructor. Qed.
Lemma frame_chunks f : cat (frame_events f ≫= chunk_of) = Content f.
Proof.
  unfold frame_events. rewrite bind_app, cat_app.
  destruct (String.eqb (ReasoningContent f) ""); destruct (String.eqb_spec (Content f) "") as [-> |]; cbn;
    autorewrite with str; done.
Qed.

(** [r] continues with what [fullText] and the trace say. *)
Definition flow_ok (fullText : string) (r : flow) (tr : list (event sse)) : Prop :=
  no_finals tr /\ view (S := sse) resumes tr = [] /\
  match r with Continue t => streams fullText t tr | _ => True end.

Lemma streams_app a b c tr tr' : streams a b tr -> streams b c tr' -> streams a c (tr ++ tr').
Proof. unfold streams. intros -> ->. by rewrite view_app, cat_app, string_app_assoc. Qed.

Lemma on_frames_spec {W} (h : env sse W) frames fullText fullMsg :
  always h (on_frames fullText fullMsg frames) (flow_ok fullText).
Proof.
  revert fullText fullMsg. induction frames as [| f frames IH]; intros t m; cbn [on_frames].
  - eapply always_bind; [apply write_all_spec, calls_not_done |]. intros ok tr (H1 & H2 & H3).
    apply always_Ret. rewrite app_nil_r. split_and!; [done | done |]. destruct ok; [| done].
    unfold streams. rewrite (H3 eq_refl), calls_no_chunk. cbn. by rewrite string_app_nil.
  - eapply always_bind; [apply write_all_spec, frame_not_done |]. intros ok tr (H1 & H2 & H3).
    destruct ok; [| apply always_Ret; rewrite app_nil_r; done].
    eapply always_impl; [apply IH |]. intros r tr' (G1 & G2 & G3). unfold flow_ok, no_finals in *.
    rewrite !view_app, H1, H2, G1, G2. split_and!; [done | done |]. destruct r; [| done | done].
    eapply streams_app; [| exact G3]. unfold streams. by rewrite (H3 eq_refl), frame_chunks.
Qed.

Lemma on_output_spec {W} (h : env sse W) mv fullText : always h (on_output mv fullText) (flow_ok fullText).
Proof.
  assert (forall r, match r with Continue t => t = fullText | _ => True end ->
    always h (Ret r) (flow_ok fullText)) as Hret.
  { intros r Hr. apply always_Ret. split_and!; [done | done |]. destruct r; [| done | done].
    subst. unfold streams. cbn. by rewrite string_app_nil. }
  unfold on_output. destruct (mvRole mv); [| by apply Hret .. |].
  - destruct (mvIsStreaming mv); [apply on_frames_spec |]. destruct (mvMessage mv) as [m |]; [| by apply Hret].
    eapply always_bind; [apply write_all_spec; constructor; [done | apply calls_not_done] |].
    intros ok tr (H1 & H2 & H3). apply always_Ret. rewrite app_nil_r. split_and!; [done | done |].
    destruct ok; [| done]. unfold streams. rewrite (H3 eq_refl), bind_cons, calls_no_chunk. cbn.
    by rewrite string_app_nil.
  - destruct (mvMessage mv) as [m |]; [| by apply Hret].
    eapply always_bind; [apply write_all_spec; by repeat constructor |].
    intros ok tr (H1 & H2 & H3). apply always_Ret. rewrite app_nil_r. split_and!; [done | done |].
    destruct ok; [| done]. unfold streams. rewrite (H3 eq_refl). cbn. by rewrite string_app_nil.
Qed.

Lemma consume_spec {W} (h : env sse W) events fullText :
  always h (consume fullText events) (fun r tr => no_finals tr /\ view (S := sse) resumes tr = [] /\
    match r with inl (Continue t) | inr (t, _) => streams fullText t tr | _ => True end).
Proof.
  assert (forall t, streams t t []) as Hnil by (intros t; unfold streams; cbn; by rewrite string_app_nil).
  revert fullText. induction events as [| e events IH]; intros t; cbn [consume]; [by apply always_Ret |].
  destruct (aeErr e); [apply IH |]. destruct (aeInterrupted e); [by apply always_Ret |].
  destruct (aeOutput e) as [mv |]; [| apply IH].
  eapply always_bind; [apply on_output_spec |]. intros r tr (H1 & H2 & H3).
  destruct r as [t' | |]; [| apply always_Ret; by rewrite app_nil_r ..].
  eapply always_impl; [apply IH |]. intros r tr' (G1 & G2 & G3). unfold no_finals in *.
  rewrite !view_app, H1, H2, G1, G2. split_and!; [done | done |].
  destruct r as [[t'' | |] | [t'' i]]; try done; by eapply streams_app.
Qed.

Lemma on_interrupt_spec {W} (h : env sse W) cp interrupts :
  always h (on_interrupt cp interrupts) (fun r tr => no_finals tr /\
    match r with inl _ => view (S := sse) chunks tr = [] /\ view (S := sse) resumes tr = [cp] | inr _ => True end).
Proof.
  unfold on_interrupt. assert (Forall (fun w => w.1 <> EventDone) (interrupt_events cp interrupts) /\
    interrupt_events cp interrupts ≫= chunk_of = []) as [Hd Hc].
  { induction interrupts as [| i l [IH1 IH2]]; [done |]. unfold interrupt_events in *. cbn.
    destruct (icInfo i); cbn; [split; [by constructor | exact IH2] | done]. }
  eapply always_bind; [by apply write_all_spec |]. intros ok tr (H1 & H2 & H3).
  destruct ok; cbn [negb]; [| apply always_Ret; by rewrite app_nil_r].
  rewrite Hc in H3. apply always_Do. intros u. apply always_Do. intros [r |]; cbn [bind].
  - apply always_Do. intros events. apply always_Ret. unfold no_finals in *.
    autorewrite with go. by rewrite H1, H2, (H3 eq_refl).
  - apply always_Ret. unfold no_finals in *. autorewrite with go. by rewrite H1.
Qed.

Lemma event_loop_spec {W} (h : env sse W) fuel cp fullText events :
  always h (event_loop fuel cp fullText events) (fun r tr => no_finals tr /\
    match r with
    | Some (Continue t) => streams fullText t tr
    | None => view (S := sse) resumes tr = replicate fuel cp
    | _ => True
    end).
Proof.
  revert fullText events. induction fuel as [| fuel IH]; intros t events; cbn [event_loop];
    (eapply always_bind; [apply consume_spec |]); intros r tr (H1 & H2 & H3);
    destruct r as [r | [t' interrupts]];
    try (apply always_Ret; rewrite app_nil_r; split; [done |]; destruct r; done).
  - apply always_Ret. rewrite app_nil_r. done.
  - eapply always_bind; [apply on_interrupt_spec |]. intros r tr' (G1 & G2). unfold no_finals in *.
    destruct r as [[events' |] | u].
    + destruct G2 as [G2 G3]. eapply always_impl; [apply IH |]. intros r tr2 (F1 & F2). unfold no_finals in *.
      rewrite !view_app, H1, G1, F1. split; [done |]. destruct r as [[t2 | |] |]; try done.
      * eapply streams_app; [exact H3 |]. eapply streams_app; [| exact F2].
        unfold streams. rewrite G2. cbn. by rewrite string_app_nil.
      * by rewrite H2, G3, F2.
    + destruct G2 as [G2 G3]. apply always_Ret. rewrite app_nil_r, !view_app, H1, G1. split; [done |].
      eapply streams_app; [exact H3 |]. unfold streams. rewrite G2. cbn. by rewrite string_app_nil.
    + apply always_Ret. by rewrite app_nil_r, !view_app, H1, G1.
Qed.

(** C24: A question ends with at most one done event, the text stored afterwards is the
    concatenation of the chunks the client got, and the handler is through unless
    the model was interrupted and resumed more than [fuel] times. *)
Theorem stored_is_what_was_streamed {W} (h : env sse W) fuel user_id message flusher :
  always h (ChatSSE fuel user_id message flusher) (fun ok tr =>
    (ok = true \/ length (view (S := sse) resumes tr) = fuel) /\
    (view (S := sse) finals tr = [] \/ view (S := sse) finals tr = [None] \/
     view (S := sse) finals tr = [None; Some (ParseInt_value user_id, cat (view (S := sse) chunks tr))] /\
       cat (view (S := sse) chunks tr) <> "")).
Proof.
  unfold ChatSSE. destruct flusher; cbn [negb]; [| apply always_Do; intros u; apply always_Ret; auto].
  apply always_Do. intros [sessionID | e | e]; cbn [bind];
    [| apply always_Do; intros u; apply always_Do; intros u'; apply always_Ret; cbn; auto ..].
  apply always_Do. intros now. apply always_Do. intros events. cbn [bind].
  eapply always_bind; [apply event_loop_spec |]. intros r tr (H1 & H2). unfold no_finals in *.
  destruct r as [r |].
  - destruct r as [t | |]; cbn [finish bind];
      [| apply always_Ret; rewrite app_nil_r; autorewrite with go; rewrite H1; auto ..].
    apply always_Do. intros [|]; cbn [bind negb].
    + destruct (String.eqb_spec t "") as [-> | Ht].
      * apply always_Ret. autorewrite with go. rewrite H1. auto.
      * apply always_Do. intros u. apply always_Ret. split; [by left |]. right. right.
        autorewrite with go. rewrite H1. unfold streams in H2. cbn in H2. rewrite string_app_empty in H2. subst t.
        cbn. rewrite app_nil_r. done.
    + apply always_Ret. autorewrite with go. rewrite H1. auto.
  - apply always_Ret. rewrite app_nil_r. autorewrite with go. rewrite H1, H2. cbn. rewrite length_replicate. auto.
Qed.

(** Exactly the interrupts that started there are resumed, each with the decision. *)
Theorem decision_reaches_root_causes interrupts r id :
  buildTargets interrupts r !! id =
    if existsb (fun ic => IsRootCause ic && String.eqb (icID ic) id) interrupts then Some r else None.
Proof.
  unfold buildTargets. assert (forall t : gmap string ApprovalResult,
    foldl (fun t ic => if IsRootCause ic then <[icID ic := r]> t else t) t interrupts !! id =
    if existsb (fun ic => IsRootCause ic && String.eqb (icID ic) id) interrupts then Some r else t !! id) as H.
  { induction interrupts as [| ic l IH]; intros t; cbn; [done |]. rewrite IH.
    destruct (IsRootCause ic); cbn; [| done]. destruct (String.eqb_spec (icID ic) id) as [-> | Hne]; cbn.
    - rewrite lookup_insert_eq. by destruct (existsb _ l).
    - by rewrite lookup_insert_ne. }
  rewrite H. by rewrite lookup_empty.
Qed.

(** A tool result that comes as a stream has no message: the handler dereferences
    nil. *)
Lemma streamed_tool_result_crashes fullText frames name :
  on_output (mkVariant Tool true frames None name) fullText = Ret Crash.
Proof. reflexivity. Qed.
End Sse.

Module Approve.
(** strconv.ParseBool: [None] is an error, which the handler drops. *)
Definition ParseBool (s : string) : option bool :=
  if existsb (String.eqb s) ["1"; "t"; "T"; "true"; "TRUE"; "True"] then Some true
  else if existsb (String.eqb s) ["0"; "f"; "F"; "false"; "FALSE"; "False"] then Some false
  else None.

(** ApproveSSE: the decision made of the query, pushed; the status and body. *)
Definition decision_of (approved reason : string) : ApprovalResult :=
  let approved := default false (ParseBool approved) in
  mkApprovalResult approved (if approved then "" else reason).

Definition ApproveSSE (checkpointID approved reason : string) (s : SessionChannel.State)
  : (Z * string) * SessionChannel.State :=
  let '(ok, s) := SessionChannel.take_channel checkpointID (decision_of approved reason) s in
  (if ok then (200, "ok") else (404, "session not found or expired"), s).

(** Only an explicit yes approves; everything else, and what cannot be read, is a
    refusal. *)
Lemma only_yes_approves approved reason :
  Approved (decision_of approved reason) = true <-> approved ∈ ["1"; "t"; "T"; "true"; "TRUE"; "True"].
Proof.
  unfold decision_of, ParseBool. cbn [Approved].
  destruct (existsb (String.eqb approved) ["1"; "t"; "T"; "true"; "TRUE"; "True"]) eqn:E.
  - split; [intros _ | done]. apply existsb_exists in E as (x & Hx & ->%String.eqb_eq).
    by apply list_elem_of_In.
  - split; [by case_match |]. intros Hin. exfalso. assert (existsb (String.eqb approved)
      ["1"; "t"; "T"; "true"; "TRUE"; "True"] = true); [| congruence].
    apply existsb_exists. exists approved. rewrite String.eqb_refl. split; [by apply list_elem_of_In | done].
Qed.
End Approve.

Module Index.

(** IndexDocumentReq; the binding requires every field, so a zero group is refused. *)
Record IndexDocumentReq := mkReq { FilePath : string; GroupID : Z; FileName : string }.

(** schema.Document as it is stored *)
Record Doc := mkDoc { dID : string; dContent : string; dGroup : Z; dFile : string; dIdx : Z; dTime : Z }.

Inductive index_cmd :=
| ShouldBindJSON
| ReadFile (path : string)
| GetEmbedder
| GetIndexer
| NewUUID
| Now
| Store (docs : list Doc)
| Respond (status : Z) (msg : string) (data : option (Z * Z)).
Definition index_res (c : index_cmd) : Type :=
  match c with
  | ShouldBindJSON => outcome IndexDocumentReq
  | ReadFile _ => outcome string
  | GetEmbedder | GetIndexer | Store _ => outcome unit
  | NewUUID => string
  | Now => Z
  | Respond _ _ _ => unit
  end.
Definition index : Sig := mkSig index_cmd index_res.
Notation icall c := (call (S := index) c).

Fixpoint make_docs (req : IndexDocumentReq) (i : Z) (chunks : list string) : prog index (list Doc) :=
  match chunks with
  | [] => Ret []
  | c :: chunks =>
      id <- icall NewUUID ;;
      now <- icall Now ;;
      docs <- make_docs req (i + 1) chunks ;;
      Ret (mkDoc id c (GroupID req) (FileName req) i now :: docs)
  end.

Definition batchSize : nat := 10.

(** The batches from [start] on; [fuel] is the number of documents left, and each
    batch takes one at least. *)
Fixpoint store_batches (fuel : nat) (start : nat) (docs : list Doc) : prog index (outcome unit) :=
  match fuel with
  | O => Ret (Ok tt)
  | S fuel =>
      if (length docs <=? start)%nat then Ret (Ok tt)
      else
        let end_ := (if length docs <? start + batchSize then length docs else start + batchSize)%nat in
        r <- icall (Store (take (end_ - start) (drop start docs))) ;;
        match r with
        | Ok _ => store_batches fuel (start + batchSize) docs
        | Err e | Panic e =>
            Ret (Err ("向量化失败 [" +:+ Itoa (Z.of_nat start) +:+ ":" +:+ Itoa (Z.of_nat end_) +:+ "]: " +:+ e))
        end
  end.

Definition IndexDocumentHandler : prog index unit :=
  req <- icall ShouldBindJSON ;;
  match req with
  | Ok req =>
      content <- icall (ReadFile (FilePath req)) ;;
      match content with
      | Ok content =>
          if String.eqb (TrimSpace content) "" then icall (Respond 400 "文件内容为空" None)
          else
            match Chunker.Chunk (Chunker.NewFixedSizeChunker 512 50) content with
            | Some chunks =>
                e <- icall GetEmbedder ;;
                match e with
                | Ok _ =>
                    i <- icall GetIndexer ;;
                    match i with
                    | Ok _ =>
                        docs <- make_docs req 0 chunks ;;
                        r <- store_batches (length docs) 0 docs ;;
                        match r with
                        | Ok _ =>
                            icall (Respond 200 "文档索引完成"
                              (Some (Z.of_nat (length docs), Z.of_nat (String.length content))))
                        | Err e | Panic e => icall (Respond 500 e None)
                        end
                    | _ => icall (Respond 500 "Indexer 初始化失败" None)
                    end
                | _ => icall (Respond 500 "Embedder 初始化失败" None)
                end
            | None => Ret tt
            end
      | Err e | Panic e => icall (Respond 500 ("文件读取失败: " +:+ e) None)
      end
  | _ => icall (Respond 400 "参数错误" None)
  end.

(** *** What is stored *)
Definition stored (e : event index) : list (list Doc) :=
  match e with existT (Store docs) (Ok _) => [docs] | _ => [] end.
Definition statuses (e : event index) : list Z :=
  match e with existT (Respond st _ _) _ => [st] | _ => [] end.
Definition files (e : event index) : list string :=
  match e with existT (ReadFile _) (Ok c) => [c] | _ => [] end.

Definition silent (tr : list (event index)) : Prop :=
  view (S := index) statuses tr = [] /\ view (S := index) files tr = [].

Lemma make_docs_spec {W} (h : env index W) req i chunks :
  always h (make_docs req i chunks) (fun docs tr =>
    silent tr /\ view (S := index) stored tr = [] /\ (dContent <$> docs) = chunks /\
    Forall (fun d => dGroup d = GroupID req) docs).
Proof.
  revert i. induction chunks as [| c chunks IH]; intros i; cbn [make_docs]; [by apply always_Ret |].
  apply always_Do. intros id. apply always_Do. intros now. cbn [bind].
  eapply always_bind; [apply IH |]. intros docs tr ((H1 & H2) & H3 & H4 & H5). apply always_Ret.
  rewrite app_nil_r. unfold silent. autorewrite with go. rewrite H1, H2, H3. cbn. rewrite H4.
  split_and!; [done | done | done | done |]. by constructor.
Qed.

Lemma store_batches_spec {W} (h : env index W) fuel start docs :
  (length docs <= start + fuel)%nat ->
  always h (store_batches fuel start docs) (fun r tr =>
    silent tr /\ Forall (fun b => 0 < length b <= batchSize)%nat (view (S := index) stored tr) /\
    (r = Ok tt -> concat (view (S := index) stored tr) = drop start docs)).
Proof.
  revert start. induction fuel as [| fuel IH]; intros start Hf; cbn [store_batches].
  { apply always_Ret. split_and!; [done | constructor |]. intros _. rewrite drop_ge by lia. done. }
  destruct (Nat.leb_spec (length docs) start) as [Hl | Hl].
  { apply always_Ret. split_and!; [done | constructor |]. intros _. by rewrite drop_ge. }
  set (end_ := (if (length docs <? start + batchSize)%nat then _ else _)).
  assert (start < end_ <= start + batchSize /\ (end_ = start + batchSize \/ end_ = length docs))%nat as [He He'].
  { unfold end_, batchSize in *. destruct (Nat.ltb_spec (length docs) (start + 10)); lia. }
  assert (end_ <= length docs)%nat as He2.
  { unfold end_, batchSize in *. destruct (Nat.ltb_spec (length docs) (start + 10)); lia. }
  apply always_Do. intros [[] | e | e]; cbn [bind]; [| apply always_Ret; split_and!; [done | constructor | done] ..].
  eapply always_impl; [apply IH; unfold batchSize; lia |]. intros r tr ((H1 & H2) & H3 & H4).
  unfold silent. autorewrite with go. rewrite H1, H2. cbn [stored ev app]. split_and!; [done | done | |].
  - constructor; [| done]. rewrite length_take, length_drop. unfold batchSize in *. lia.
  - intros Hr. cbn [concat]. rewrite (H4 Hr). destruct He' as [-> | ->].
    + rewrite <- (take_drop batchSize (drop start docs)) at 2. rewrite drop_drop. f_equal. f_equal. lia.
    + rewrite (drop_ge docs (start + batchSize)) by lia. rewrite app_nil_r, take_ge; [done |].
      rewrite length_drop. lia.
Qed.

Ltac answered :=
  apply always_Do; intros ?; apply always_Ret; cbn; split_and!; [by eexists | by constructor | done].

(** The request is answered once, and with success only when every chunk of the
    file was stored, in order, in batches of one to ten, under the group asked for. *)
Theorem indexed_completely {W} (h : env index W) :
  always h IndexDocumentHandler (fun _ tr =>
    (exists st, view (S := index) statuses tr = [st]) /\
    Forall (fun b => 0 < length b <= batchSize)%nat (view (S := index) stored tr) /\
    (view (S := index) statuses tr = [200] ->
       exists content, view (S := index) files tr = [content] /\
         Chunker.Chunk (Chunker.NewFixedSizeChunker 512 50) content =
           Some (dContent <$> concat (view (S := index) stored tr)))).
Proof.
  unfold IndexDocumentHandler. apply always_Do. intros [req | e | e]; cbn [bind];
    [| answered ..].
  apply always_Do. intros [content | e | e]; cbn [bind];
    [| answered ..].
  case_match; [answered |].
  destruct (Chunker.Chunk_returns 512 50 content) as [chunks Ec]. rewrite Ec.
  apply always_Do. intros [u | e | e]; cbn [bind];
    [| answered ..].
  apply always_Do. intros [u' | e | e]; cbn [bind];
    [| answered ..].
  eapply always_bind; [apply make_docs_spec |]. intros docs tr ((H1 & H2) & H3 & H4 & _).
  eapply always_bind; [apply (store_batches_spec h (length docs) 0 docs); lia |].
  intros r tr' ((G1 & G2) & G3 & G4).
  destruct r as [[] | e | e]; apply always_Do; intros u''; apply always_Ret; autorewrite with go;
    rewrite H1, H2, H3, G1, G2; cbn; rewrite ?app_nil_r; (split_and!; [eauto | done |]); [| done | done].
  intros _. exists content. split; [done |]. rewrite (G4 eq_refl), drop_0, H4. exact Ec.
Qed.
End Index.
