(* ===== verification/Config.v ===== *)
(** * Configuration and hot reload: apps/pkg/config, and the caches that follow it

    Module Files (config.go, hotreload.go): finding and loading the file, the key
    and the provider of the agent. Module Reload: config.Reload with its hooks
    against the requests that fill the caches of agent/engine/runner.go and
    agent/memory/summarizer.go, as a step relation. *)
From S2P Require Import Prelude GoStd GoText.

Module Files.

(** ** config.go *)
Record ServerConfig := mkServer {
  GatewayPort : Z; LogicPort : Z; AgentPort : Z;
  GatewaySnowflakeNode : Z; LogicSnowflakeNode : Z; AgentSnowflakeNode : Z;
  AgentAddr : string; GatewayAddr : string; LogicAddr : string;
  EtcdEndpoints : list string;
}.
Record MySQLConfig := mkMySQL { DSN : string; MaxIdleConns : Z; MaxOpenConns : Z }.
Record RedisConfig := mkRedis { RedisAddr : string; RedisPassword : string; RedisDB : Z }.
Record RabbitMQConfig := mkRabbit { URL : string; Exchange : string }.
Record MilvusConfig := mkMilvus { MilvusAddr : string; MilvusAPIKey : string; MilvusModelName : string }.
Record ProviderConfig := mkProvider { APIKey : string; BaseURL : string; ModelName : string }.
Record TraceConfig := mkTrace { WorkSpaceId : string; APIToken : string }.
Record MCPConfig := mkMCP { ExternalURL : string; ServerPort : Z }.
Record AgentConfig := mkAgent {
  Default : string;
  Providers : gmap string ProviderConfig;
  Trace : TraceConfig;
  MCP : MCPConfig;
}.
Record LogConfig := mkLog {
  Level : string; Filename : string; MaxSize : Z; MaxBackups : Z; MaxAge : Z; Compress : bool;
}.
Record Config := mkConfig {
  Server : ServerConfig; MySQL : MySQLConfig; Redis : RedisConfig; Agent : AgentConfig;
  Log : LogConfig; RabbitMQ : RabbitMQConfig; Milvus : MilvusConfig;
}.

Section files.
(** os.Getenv; filepath.Abs; whether os.Stat finds a file that is no directory; what
    viper reads from a file and makes of it; strings.ToUpper. *)
Variable Getenv : string -> string.
Variable Abs : string -> outcome string.
Variable is_file : string -> bool.
Context {V : Type}.
Variable ReadInConfig : string -> outcome V.
Variable Unmarshal : V -> outcome Config.
Variable ToUpper : string -> string.

Definition non_empty (s : string) : list string := if String.eqb s "" then [] else [s].

Definition candidates (configPath : string) : list string :=
  non_empty configPath ++ non_empty (TrimSpace (Getenv "APP_CONFIG")) ++
  ["./apps/config.yaml"; "./config.yaml"; "../apps/config.yaml"; "../config.yaml";
   "../../apps/config.yaml"; "../../config.yaml"].

Fixpoint first_file (l : list string) : outcome string :=
  match l with
  | [] => Err "未找到配置文件，请通过参数传入路径或设置 APP_CONFIG 环境变量"
  | candidate :: l =>
      match Abs candidate with
      | Ok absPath => if is_file absPath then Ok absPath else first_file l
      | _ => first_file l
      end
  end.

Definition resolveConfigPath (configPath : string) : outcome string := first_file (candidates configPath).

Definition loadConfigFromFile (configPath : string) : outcome Config :=
  (path <-! resolveConfigPath configPath ;
  match ReadInConfig path with
  | Ok v =>
      match Unmarshal v with
      | Ok cfg => Ok cfg
      | Err e => Err ("解析配置失败: " +:+ e)
      | Panic m => Panic m
      end
  | Err e => Err ("读取配置文件失败: " +:+ e)
  | Panic m => Panic m
  end)%go.

(** GetDefaultAgent; [None]: log.Fatalf ended the process. *)
Definition GetDefaultAgent (c : Config) : option ProviderConfig := Providers (Agent c) !! Default (Agent c).

Definition ResolveAgentAPIKey (c : Config) (defaultAgent : ProviderConfig) : string :=
  let own := TrimSpace (APIKey defaultAgent) in
  if negb (String.eqb own "") then own
  else
    let defaultName := ToUpper (TrimSpace (Default (Agent c))) in
    let named := if negb (String.eqb defaultName "")
                 then TrimSpace (Getenv ("AGENT_PROVIDERS_" +:+ defaultName +:+ "_API_KEY")) else "" in
    if negb (String.eqb named "") then named
    else
      let key := TrimSpace (Getenv "DEEPSEEK_API_KEY") in
      if negb (String.eqb key "") then key else "".

(** What buildChatModel and getSummaryChatModel ask of the model library: the key,
    the model and the address, or the error for an empty key. *)
Definition chat_model (empty : string) (c : Config) : option (outcome (string * string * string)) :=
  match GetDefaultAgent c with
  | None => None
  | Some defaultAgent =>
      let apiKey := ResolveAgentAPIKey c defaultAgent in
      Some (if String.eqb apiKey "" then Err empty
            else Ok (apiKey, ModelName defaultAgent, BaseURL defaultAgent))
  end.

(** ** What they find *)
Definition hit (candidate : string) : option string :=
  match Abs candidate with Ok f => if is_file f then Some f else None | _ => None end.

Lemma first_file_spec l :
  first_file l = match omap hit l with f :: _ => Ok f | [] => first_file [] end.
Proof.
  induction l as [| c l IH]; [done |]. cbn [first_file omap list_omap]. unfold hit at 1.
  destruct (Abs c) as [f | e | e]; [destruct (is_file f); [done | exact IH] | exact IH ..].
Qed.

(** The configuration comes from the first candidate that is a file, the path that
    was asked for before all others. *)
Theorem config_path_first configPath f :
  resolveConfigPath configPath = Ok f <-> head (omap hit (candidates configPath)) = Some f.
Proof.
  unfold resolveConfigPath. rewrite first_file_spec. destruct (omap hit _) as [| g l]; cbn.
  - split; intros H; discriminate.
  - split; congruence.
Qed.

(** The keys in the order in which they are tried. *)
Definition keys (c : Config) (defaultAgent : ProviderConfig) : list string :=
  let defaultName := ToUpper (TrimSpace (Default (Agent c))) in
  non_empty (TrimSpace (APIKey defaultAgent)) ++
  (if String.eqb defaultName "" then [] else non_empty (TrimSpace (Getenv ("AGENT_PROVIDERS_" +:+ defaultName +:+ "_API_KEY")))) ++
  non_empty (TrimSpace (Getenv "DEEPSEEK_API_KEY")).

(** The key is the first that is not blank, and empty only if all are. *)
Theorem api_key_order c defaultAgent :
  ResolveAgentAPIKey c defaultAgent = default "" (head (keys c defaultAgent)).
Proof.
  unfold ResolveAgentAPIKey, keys, non_empty. cbv zeta.
  destruct (String.eqb (TrimSpace (APIKey defaultAgent)) ""); [| done].
  destruct (String.eqb (ToUpper _) ""); cbn [negb app].
  - change (String.eqb "" "") with true. cbn [negb]. by destruct (String.eqb (TrimSpace (Getenv "DEEPSEEK_API_KEY")) "").
  - set (named := TrimSpace (Getenv (_ +:+ _))). destruct (String.eqb named ""); [| done]. cbn [negb app].
    by destruct (String.eqb (TrimSpace (Getenv "DEEPSEEK_API_KEY")) "").
Qed.

(** No model is built with an empty key. *)
Lemma chat_model_has_key empty c key model url :
  chat_model empty c = Some (Ok (key, model, url)) -> key <> "".
Proof.
  unfold chat_model. destruct (GetDefaultAgent c) as [a |]; [| done].
  destruct (String.eqb_spec (ResolveAgentAPIKey c a) ""); [done | by intros [= <- _ _]].
Qed.
End files.

Lemma config_path_first_witness :
  resolveConfigPath (fun _ => "  app.yaml ") Ok (fun f => String.eqb f "app.yaml" || String.eqb f "./config.yaml") "" = Ok "app.yaml".
Proof. apply (config_path_first (fun _ => "  app.yaml ")). reflexivity. Defined.
End Files.

Module Reload.

(** The two caches built from the configuration, each under a mutex of its own:
    cacheRunner (agent/engine/runner.go) and cacheSummaryCM
    (agent/memory/summarizer.go). *)
Inductive cache := Runner | SummaryCM.
#[export] Instance cache_eq_dec : EqDecision cache.
Proof. solve_decision. Defined.
#[export] Instance cache_countable : Countable cache.
Proof.
  apply (inj_countable' (fun c => match c with Runner => true | SummaryCM => false end)
           (fun b => if b : bool then Runner else SummaryCM)). by intros [].
Defined.

(** A request in GetAgentGraphRunner or getSummaryChatModel. On the fast path it has
    seen that the cache is filled and reads it again to return it, without the mutex;
    on the slow path it waits for the mutex, holds it, or builds from the
    configuration it has read ([injected]: graph.SetChatModel is done). *)
Inductive request :=
| Checked (c : cache)
| Waiting (c : cache)
| Holding (c : cache)
| Building (c : cache) (v : nat) (injected : bool).

(** config.Reload: the hooks still to be run, and graph.ResetOrchestrator at the end
    of ClearCachedRunner. *)
Inductive reload := Idle | Hooks (hs : list cache) | Resetting (hs : list cache).

(** The order in which the packages register their hooks: memory is imported by
    engine. *)
Definition reloadHooks : list cache := [SummaryCM; Runner].

(** A configuration is its version. [served]: what was handed out ([None]: a nil
    pointer), whether its hook was still to be run, and the version then current. A
    build reads the configuration once: the provider it starts from; what it reads
    later (the address of the MCP server, of a blank key the default name) is not
    told apart. *)
Record State := mkState {
  config : nat;
  cached : gmap cache nat;
  holder : gmap cache nat;
  requests : gmap nat request;
  orch : option nat;
  orchOnce : bool;
  phase : reload;
  served : list (option nat * bool * nat);
}.
Definition init : State := mkState 0 ∅ ∅ ∅ None false Idle [].

Definition hooks (s : State) : list cache :=
  match phase s with Idle => [] | Hooks hs | Resetting hs => hs end.
Definition serve (c : cache) (got : option nat) (s : State) : list (option nat * bool * nat) :=
  (got, bool_decide (c ∈ hooks s), config s) :: served s.

Definition set_request (t : nat) (r : request) (s : State) : State :=
  mkState (config s) (cached s) (holder s) (<[t := r]> (requests s)) (orch s) (orchOnce s) (phase s) (served s).

(** The end of the critical section: [got] is cached and handed out. *)
Definition leave (t : nat) (c : cache) (got : option nat) (s : State) : State :=
  mkState (config s) (match got with Some v => <[c := v]> (cached s) | None => cached s end)
    (delete c (holder s)) (delete t (requests s)) (orch s) (orchOnce s) (phase s)
    (match got with Some v => serve c (Some v) s | None => served s end).

(** graph.SetChatModel *)
Definition SetChatModel (v : nat) (s : State) : State :=
  mkState (config s) (cached s) (holder s) (requests s) (if orchOnce s then orch s else Some v) true (phase s) (served s).

(** ClearCachedSummaryCM, and ClearCachedRunner up to the unlock. *)
Definition clear (c : cache) (hs : list cache) (s : State) : State :=
  mkState (config s) (delete c (cached s)) (holder s) (requests s) (orch s) (orchOnce s)
    (match c with Runner => Resetting hs | SummaryCM => Hooks hs end) (served s).

(** graph.ResetOrchestrator *)
Definition ResetOrchestrator (hs : list cache) (s : State) : State :=
  mkState (config s) (cached s) (holder s) (requests s) None false (Hooks hs) (served s).

Inductive step : State -> State -> Prop :=
| step_check t c s : requests s !! t = None -> is_Some (cached s !! c) -> step s (set_request t (Checked c) s)
| step_hit t c s :
    requests s !! t = Some (Checked c) ->
    step s (mkState (config s) (cached s) (holder s) (delete t (requests s)) (orch s) (orchOnce s) (phase s)
              (serve c (cached s !! c) s))
| step_miss t c s : requests s !! t = None -> cached s !! c = None -> step s (set_request t (Waiting c) s)
| step_lock t c s :
    requests s !! t = Some (Waiting c) -> holder s !! c = None ->
    step s (set_request t (Holding c)
              (mkState (config s) (cached s) (<[c := t]> (holder s)) (requests s) (orch s) (orchOnce s) (phase s) (served s)))
| step_recheck t c v s :
    requests s !! t = Some (Holding c) -> cached s !! c = Some v -> step s (leave t c (Some v) s)
| step_read t c s :
    requests s !! t = Some (Holding c) -> cached s !! c = None -> step s (set_request t (Building c (config s) false) s)
| step_inject t v s :
    requests s !! t = Some (Building Runner v false) ->
    step s (set_request t (Building Runner v true) (SetChatModel v s))
| step_fail t c v b s : requests s !! t = Some (Building c v b) -> step s (leave t c None s)
| step_store t c v b s :
    requests s !! t = Some (Building c v b) -> (c = Runner -> b = true) -> step s (leave t c (Some v) s)
| step_load s :
    phase s = Idle ->
    step s (mkState (S (config s)) (cached s) (holder s) (requests s) (orch s) (orchOnce s) (Hooks reloadHooks) (served s))
| step_clear c hs s : phase s = Hooks (c :: hs) -> holder s !! c = None -> step s (clear c hs s)
| step_reset hs s : phase s = Resetting hs -> step s (ResetOrchestrator hs s)
| step_done s :
    phase s = Hooks [] ->
    step s (mkState (config s) (cached s) (holder s) (requests s) (orch s) (orchOnce s) Idle (served s)).

(** ** What the lock protects *)
Definition inside (r : request) (c : cache) : Prop :=
  match r with Checked _ | Waiting _ => False | Holding c' | Building c' _ _ => c' = c end.

(** Whoever is inside holds the mutex; and once the hook of a cache is run, what it
    holds and what is being built for it comes from the current configuration. *)
Definition Inv (s : State) : Prop :=
  (forall t r c, requests s !! t = Some r -> inside r c -> holder s !! c = Some t) /\
  (forall c v, c ∉ hooks s -> cached s !! c = Some v -> v = config s) /\
  (forall t c v b, c ∉ hooks s -> requests s !! t = Some (Building c v b) -> v = config s) /\
  (forall v w, (Some v, false, w) ∈ served s -> v = w).

Lemma reload_Inv_init : Inv init.
Proof. split_and!; cbn; intros *; rewrite ?lookup_empty, ?elem_of_nil; done. Qed.

(** Handing out what a good state has cached. *)
Lemma serve_ok c got s :
  Inv s -> (forall v, got = Some v -> c ∉ hooks s -> v = config s) ->
  forall v' w, (Some v', false, w) ∈ serve c got s -> v' = w.
Proof.
  intros (_ & _ & _ & I4) Hv v' w [[= <- Hb ->] | Hin]%elem_of_cons; [| by apply (I4 v' w)].
  symmetry in Hb. apply bool_decide_eq_false in Hb. auto.
Qed.

(** A request that is not inside anything, or goes on inside the cache it is in. *)
Lemma set_request_ok t r s :
  Inv s -> (forall c, inside r c -> holder s !! c = Some t) ->
  (forall c v b, c ∉ hooks s -> r = Building c v b -> v = config s) -> Inv (set_request t r s).
Proof.
  intros (I1 & I2 & I3 & I4) Hin Hb. split_and!; cbn; [| exact I2 | | exact I4].
  - intros t' r' c [[<- <-] | [Hne H]]%lookup_insert_Some Hi; eauto.
  - intros t' c v b Hc [[<- Hr] | [Hne H]]%lookup_insert_Some; [by eapply Hb | by eapply I3].
Qed.

(** Leaving with a value of the current configuration, or with none. *)
Lemma leave_ok t c got s :
  Inv s -> holder s !! c = Some t -> (forall v, got = Some v -> c ∉ hooks s -> v = config s) -> Inv (leave t c got s).
Proof.
  intros HI Hh Hv. pose proof HI as (I1 & I2 & I3 & I4). split_and!; cbn [leave requests holder config].
  - intros t' r c' [Hne H]%lookup_delete_Some Hi. apply lookup_delete_Some. split; [| by eapply I1].
    intros <-. pose proof (I1 _ _ _ H Hi). congruence.
  - intros c' v Hc H. change (c' ∉ hooks s) in Hc. destruct got as [g |]; [| by eapply I2].
    cbn in H. apply lookup_insert_Some in H as [[<- <-] | [Hne H]]; [by apply Hv | by eapply I2].
  - intros t' c' v b Hc [Hne H]%lookup_delete_Some. by eapply I3.
  - destruct got as [g |]; cbn; [| exact I4]. apply serve_ok; [done |]. intros ? [= <-] Hc. by apply Hv.
Qed.

Lemma reload_step_Inv s s' : Inv s -> step s s' -> Inv s'.
Proof.
  intros HI H. pose proof HI as (I1 & I2 & I3 & I4). destruct H.
  - apply set_request_ok; done.
  - split_and!; cbn; [| exact I2 | | by apply serve_ok; [| intros; eapply I2]].
    + intros t' r c' [_ Hr]%lookup_delete_Some. by eapply I1.
    + intros t' c' v b Hc [_ Hr]%lookup_delete_Some. by eapply I3.
  - apply set_request_ok; done.
  - apply set_request_ok; cbn; [| intros ? <-; by rewrite lookup_insert_eq | done].
    split_and!; cbn; [| exact I2 | exact I3 | exact I4].
    intros t' r c' Hr Hi. rewrite lookup_insert_ne; [by eapply I1 |]. intros <-.
    pose proof (I1 _ _ _ Hr Hi). congruence.
  - apply leave_ok; [done | by eapply I1 | intros ? [= <-] ?; by eapply I2].
  - apply set_request_ok; [done | intros c' ->; by eapply I1 | by intros ? ? ? _ [= <- <- _]].
  - apply set_request_ok; cbn; [done | intros c' <-; by eapply I1 |].
    intros c' v' b Hc [= <- <- _]. by eapply I3.
  - apply leave_ok; [done | by eapply I1 | done].
  - apply leave_ok; [done | by eapply I1 | intros ? [= <-] ?; by eapply I3].
  - split_and!; [exact I1 | | | exact I4]; intros *; cbn; intros Hc; destruct Hc; destruct c; set_solver.
  - assert (forall c', c' ∉ hooks (clear c hs s) -> c' <> c -> c' ∉ hooks s) as Hh.
    { intros c' Hc' Hne. unfold hooks. rewrite H. replace (hooks (clear c hs s)) with hs in Hc' by by destruct c.
      set_solver. }
    split_and!; cbn; [exact I1 | | | exact I4].
    + intros c' v Hc [Hne Hl]%lookup_delete_Some. eapply I2; eauto.
    + intros t' c' v b Hc Hr. destruct (decide (c' = c)) as [-> | Hne]; [| eapply I3; eauto].
      pose proof (I1 _ _ c Hr eq_refl). congruence.
  - assert (hooks (ResetOrchestrator hs s) = hooks s) as Hh by (unfold hooks; by rewrite H).
    split_and!; [exact I1 | | | exact I4]; rewrite Hh; [exact I2 | exact I3].
  - assert (hooks s = []) as Hh by (unfold hooks; by rewrite H).
    rewrite Hh in *. split_and!; [exact I1 | exact I2 | exact I3 | exact I4].
Qed.

(** C26: However requests and reloads interleave: between two reloads what is cached comes
    from the current configuration, and so does everything that was handed out but
    by a reload that had not run the hook of its cache yet; and never two requests
    build for the same cache. *)
Theorem reload_takes_effect s :
  rtc step init s ->
  (phase s = Idle -> forall c v, cached s !! c = Some v -> v = config s) /\
  (forall v w, (Some v, false, w) ∈ served s -> v = w) /\
  (forall t t' c v v' b b', requests s !! t = Some (Building c v b) ->
     requests s !! t' = Some (Building c v' b') -> t = t').
Proof.
  intros Hr. destruct (invariant_rtc step Inv reload_step_Inv init s reload_Inv_init Hr) as (I1 & I2 & _ & I4).
  split_and!; [| exact I4 |].
  - intros Hp c v. apply I2. unfold hooks. rewrite Hp. apply not_elem_of_nil.
  - intros * H1 H2. pose proof (I1 _ _ c H1 eq_refl). pose proof (I1 _ _ c H2 eq_refl). congruence.
Qed.

Ltac go S := eapply rtc_l; [eapply S; vm_compute; first [reflexivity | done | by eexists] |].
Ltac build t := go (step_miss t Runner); go (step_lock t Runner); go (step_read t Runner); go (step_inject t).

Lemma reload_takes_effect_witness :
  exists s, rtc step init s /\ phase s = Idle /\ config s = 1%nat /\
    forall c v, cached s !! c = Some v -> v = config s.
Proof.
  assert (exists s, rtc step init s /\ phase s = Idle /\ config s = 1%nat) as (s & Hr & Hp & Hc).
  { eexists. split.
    { build 1%nat. go (step_store 1 Runner). go step_load. go (step_clear SummaryCM).
      go (step_miss 2 SummaryCM). go (step_clear Runner). go step_reset. go step_done. apply rtc_refl. }
    split; reflexivity. }
  exists s. split_and!; [exact Hr | exact Hp | exact Hc |].
  apply (proj1 (reload_takes_effect s Hr)). exact Hp.
Defined.

(** The fast path reads the cache a second time to return it: when the hook clears it
    in between, the caller gets nil without an error. *)
Lemma fast_path_returns_nil :
  exists s, rtc step init s /\ head (served s) = Some (None, false, config s).
Proof.
  eexists. split.
  { build 1%nat. go (step_store 1 Runner). go (step_check 2 Runner). go step_load. go (step_clear SummaryCM).
    go (step_clear Runner). go step_reset. go (step_hit 2 Runner). apply rtc_refl. }
  reflexivity.
Qed.

(** A request that builds between the hook's unlock and ResetOrchestrator finds the
    pipeline still there and leaves it; then it is reset, and as the runner is
    cached nothing sets it again before the next reload. *)
Lemma pipeline_lost :
  exists s, rtc step init s /\ phase s = Idle /\ cached s !! Runner = Some (config s) /\ orch s = None.
Proof.
  eexists. split.
  { build 1%nat. go (step_store 1 Runner). go step_load. go (step_clear SummaryCM). go (step_clear Runner).
    build 2%nat. go (step_store 2 Runner). go step_reset. go step_done. apply rtc_refl. }
  split_and!; reflexivity.
Qed.
End Reload.
