(* ===== verification/VectorDb.v ===== *)
(** * The vector database: apps/pkg/vector_db

    Module Columns (indexer.go, group_doc_collection.go, retriever.go): documents to
    columns and back, against the fields of the collections. Module Init (milvus.go
    and the three collection files): connecting and creating the collections. Module
    Clients (retriever.go, indexer.go): what retrievers and indexers are configured with. *)
From S2P Require Import Prelude GoStd GoText GoFloat Effects Retrieval Graph Dao AgentMemory AgentTools AgentChat.

(** ** float32 *)
Definition float32 : Type := spec_float.
(** float32(v), float64(v) *)
Definition float32_of (v : float64) : float32 :=
  match v with S754_finite s m e => binary_round 24 128 s m e | _ => v end.
Definition float64_of (v : float32) : float64 :=
  match v with S754_finite s m e => binary_round 53 1024 s m e | _ => v end.

Module Columns.

(** A value of MetaData: int64, string, or another type. *)
Inductive value := VInt (z : Z) | VText (s : string) | VOther.

(** schema.Document *)
Record Document := mkDoc {
  ID : string;
  Content : string;
  MetaData : gmap string value;
  Score : option float64;
}.

(** v.(int64), v.(string); of a missing key, too, a panic. *)
Definition as_int (v : option value) : outcome Z :=
  match v with Some (VInt z) => Ok z | _ => Panic "interface conversion" end.
Definition as_text (v : option value) : outcome string :=
  match v with Some (VText s) => Ok s | _ => Panic "interface conversion" end.

(** column.Column *)
Inductive column :=
| VarChar (name : string) (l : list string)
| Int64 (name : string) (l : list Z)
| FloatVector (name : string) (dim : Z) (l : list (list float32)).

(** The vector as it is stored. *)
Definition embedding (v : list float64) : list float32 := float32_of <$> v.

Definition Name (c : column) : string := match c with VarChar n _ | Int64 n _ | FloatVector n _ _ => n end.

Definition VectorDim : Z := 1024.

(** What one document and its vector give: [row] reads the document first. *)
Fixpoint rows {R} (row : Document -> outcome R) (docs : list Document) (vectors : list (list float64))
  : outcome (list (R * list float32)) :=
  match docs with
  | [] => Ok []
  | d :: docs =>
      (r <-! row d ;
       match vectors with
       | [] => Panic "index out of range"
       | v :: vectors => rs <-! rows row docs vectors ; Ok ((r, embedding v) :: rs)
       end)%go
  end.

(** MessageDocumentConverter *)
Record message_row := mkMessageRow { msg_id : string; conv_id : string; sender_id : Z; send_time : Z }.
Definition message_of (d : Document) : outcome message_row :=
  (m <-! as_text (MetaData d !! "msg_id") ;
   c <-! as_text (MetaData d !! "conv_id") ;
   s <-! as_int (MetaData d !! "sender_id") ;
   t <-! as_int (MetaData d !! "send_time") ;
   Ok (mkMessageRow m c s t))%go.
Definition MessageDocumentConverter (docs : list Document) (vectors : list (list float64)) : outcome (list column) :=
  outcome_map (fun rs =>
    [VarChar "msg_id" (msg_id <$> rs.*1); VarChar "conv_id" (conv_id <$> rs.*1);
     Int64 "sender_id" (sender_id <$> rs.*1); Int64 "send_time" (send_time <$> rs.*1);
     FloatVector "embedding" VectorDim rs.*2])
    (rows message_of docs vectors).

(** MemoryDocumentConverter *)
Record memory_row := mkMemoryRow {
  memory_id : string; summary : string; user_id : Z; session_id : string; create_time : Z;
  importance : Z; memory_type : string;
}.
Definition memory_of (d : Document) : outcome memory_row :=
  (u <-! as_int (MetaData d !! "user_id") ;
   s <-! as_text (MetaData d !! "session_id") ;
   t <-! as_int (MetaData d !! "create_time") ;
   i <-! match MetaData d !! "importance" with Some v => as_int (Some v) | None => Ok 0 end ;
   k <-! match MetaData d !! "memory_type" with Some v => as_text (Some v) | None => Ok "general" end ;
   Ok (mkMemoryRow (ID d) (Content d) u s t i k))%go.
Definition MemoryDocumentConverter (docs : list Document) (vectors : list (list float64)) : outcome (list column) :=
  outcome_map (fun rs =>
    [VarChar "memory_id" (memory_id <$> rs.*1); Int64 "user_id" (user_id <$> rs.*1);
     VarChar "session_id" (session_id <$> rs.*1); VarChar "summary" (summary <$> rs.*1);
     Int64 "importance" (importance <$> rs.*1); VarChar "memory_type" (memory_type <$> rs.*1);
     Int64 "create_time" (create_time <$> rs.*1); FloatVector "embedding" VectorDim rs.*2])
    (rows memory_of docs vectors).

(** GroupDocConverter *)
Record chunk_row := mkChunkRow {
  chunk_id : string; content : string; group_id : Z; file_name : string; chunk_idx : Z; upload_time : Z;
}.
Definition chunk_of (d : Document) : outcome chunk_row :=
  (g <-! as_int (MetaData d !! "group_id") ;
   f <-! as_text (MetaData d !! "file_name") ;
   i <-! as_int (MetaData d !! "chunk_idx") ;
   t <-! as_int (MetaData d !! "upload_time") ;
   Ok (mkChunkRow (ID d) (Content d) g f i t))%go.
Definition GroupDocConverter (docs : list Document) (vectors : list (list float64)) : outcome (list column) :=
  outcome_map (fun rs =>
    [VarChar "chunk_id" (chunk_id <$> rs.*1); Int64 "group_id" (group_id <$> rs.*1);
     VarChar "file_name" (file_name <$> rs.*1); Int64 "chunk_idx" (chunk_idx <$> rs.*1);
     VarChar "content" (content <$> rs.*1); Int64 "upload_time" (upload_time <$> rs.*1);
     FloatVector "embedding" VectorDim rs.*2])
    (rows chunk_of docs vectors).

(** ** The fields of the collections *)
Inductive field_type := FVarChar (max_length : Z) | FInt64 | FFloatVector (dim : Z).
Definition fields : Type := list (string * field_type).

Definition MessageFields : fields :=
  [("msg_id", FVarChar 64); ("conv_id", FVarChar 64); ("sender_id", FInt64); ("send_time", FInt64);
   ("embedding", FFloatVector VectorDim)].
Definition MemoryFields : fields :=
  [("memory_id", FVarChar 64); ("user_id", FInt64); ("session_id", FVarChar 64); ("summary", FVarChar 512);
   ("importance", FInt64); ("memory_type", FVarChar 32); ("create_time", FInt64); ("embedding", FFloatVector VectorDim)].
Definition GroupDocFields : fields :=
  [("chunk_id", FVarChar 64); ("group_id", FInt64); ("file_name", FVarChar 128); ("chunk_idx", FInt64);
   ("content", FVarChar 1024); ("upload_time", FInt64); ("embedding", FFloatVector VectorDim)].

(** A column of a field, with [n] rows. *)
Definition column_fits (n : nat) (f : string * field_type) (c : column) : Prop :=
  Name c = f.1 /\
  match f.2, c with
  | FVarChar _, VarChar _ l => length l = n
  | FInt64, Int64 _ l => length l = n
  | FFloatVector dim, FloatVector _ dim' l => dim = dim' /\ length l = n
  | _, _ => False
  end.

(** What Milvus takes: text up to its field's length, in bytes. *)
Definition accepted (f : string * field_type) (c : column) : Prop :=
  match f.2, c with
  | FVarChar max, VarChar _ l => Forall (fun s => Z.of_nat (String.length s) <= max) l
  | _, _ => True
  end.

Lemma rows_Ok {R} (row : Document -> outcome R) docs vectors rs :
  rows row docs vectors = Ok rs ->
  Forall2 (fun d r => row d = Ok r) docs rs.*1 /\ length rs = length docs /\
  rs.*2 = embedding <$> take (length docs) vectors.
Proof.
  revert vectors rs. induction docs as [| d docs IH]; intros vectors rs; cbn [rows].
  { intros [= <-]. done. }
  destruct (row d) as [r | |] eqn:Er; cbn [outcome_bind]; try done.
  destruct vectors as [| v vectors]; [done |].
  destruct (rows row docs vectors) as [rs' | |] eqn:E; cbn [outcome_bind]; try done.
  intros [= <-]. destruct (IH _ _ E) as (H1 & H2 & H3). cbn. split_and!; [by constructor | by f_equal | by f_equal].
Qed.

Lemma outcome_map_Ok {A B} (f : A -> B) m b : outcome_map f m = Ok b -> exists a, m = Ok a /\ b = f a.
Proof. destruct m as [a | |]; [intros [= <-]; by exists a | done ..]. Qed.

(** The columns a converter makes are those of its collection, name by name, type by
    type and in order, with one row for each document. *)
Theorem columns_match_fields docs vectors cols :
  (MessageDocumentConverter docs vectors = Ok cols -> Forall2 (column_fits (length docs)) MessageFields cols) /\
  (MemoryDocumentConverter docs vectors = Ok cols -> Forall2 (column_fits (length docs)) MemoryFields cols) /\
  (GroupDocConverter docs vectors = Ok cols -> Forall2 (column_fits (length docs)) GroupDocFields cols).
Proof.
  split_and!; intros (rs & Hr & ->)%outcome_map_Ok; destruct (rows_Ok _ _ _ _ Hr) as (_ & Hn & _);
    repeat constructor; cbn; by rewrite !length_fmap.
Qed.

(** ** What the program stores *)

(** The document of embeddingMemoryToMilvus. *)
Definition memory_document (id summary : string) (userID : Z) (sessionID memoryType : string) (importance now : Z) : Document :=
  mkDoc id summary
    {["user_id" := VInt userID; "session_id" := VText sessionID; "memory_type" := VText memoryType;
      "importance" := VInt importance; "create_time" := VInt now]} None.

(** The document of a chunk in IndexDocumentHandler. *)
Definition group_document (d : Index.Doc) : Document :=
  mkDoc (Index.dID d) (Index.dContent d)
    {["group_id" := VInt (Index.dGroup d); "file_name" := VText (Index.dFile d);
      "chunk_idx" := VInt (Index.dIdx d); "upload_time" := VInt (Index.dTime d)]} None.

(** The chunks of a file become rows without a panic, each with its text, group,
    file and number, when the embedder gave a vector for each. *)
Theorem chunks_stored_as_sent docs vectors :
  (length docs <= length vectors)%nat ->
  exists vs, GroupDocConverter (group_document <$> docs) vectors =
       Ok [VarChar "chunk_id" (Index.dID <$> docs); Int64 "group_id" (Index.dGroup <$> docs);
            VarChar "file_name" (Index.dFile <$> docs); Int64 "chunk_idx" (Index.dIdx <$> docs);
            VarChar "content" (Index.dContent <$> docs); Int64 "upload_time" (Index.dTime <$> docs);
            FloatVector "embedding" VectorDim vs].
Proof.
  intros Hl. unfold GroupDocConverter.
  set (row_of := fun d : Index.Doc => mkChunkRow (Index.dID d) (Index.dContent d) (Index.dGroup d) (Index.dFile d) (Index.dIdx d) (Index.dTime d)).
  assert (exists rs, rows chunk_of (group_document <$> docs) vectors = Ok rs /\ rs.*1 = row_of <$> docs) as (rs & -> & H1).
  { revert vectors Hl. induction docs as [| d docs IH]; intros vectors Hl; [by exists [] |].
    destruct vectors as [| v vectors]; [cbn in Hl; lia |]. rewrite fmap_cons. cbn [rows].
    destruct (IH vectors) as (rs & Hrs & Hf); [cbn in Hl; lia |].
    replace (chunk_of (group_document d)) with (Ok (row_of d)) by reflexivity. cbn [outcome_bind].
    rewrite Hrs.
    eexists. split; [reflexivity |]. by rewrite !fmap_cons, Hf. }
  exists rs.*2. cbn. by rewrite H1, <- !list_fmap_compose.
Qed.

Lemma memory_stored_as_sent id summary userID sessionID memoryType importance now v :
  MemoryDocumentConverter [memory_document id summary userID sessionID memoryType importance now] [v] =
  Ok [VarChar "memory_id" [id]; Int64 "user_id" [userID]; VarChar "session_id" [sessionID]; VarChar "summary" [summary];
      Int64 "importance" [importance]; VarChar "memory_type" [memoryType]; Int64 "create_time" [now];
      FloatVector "embedding" VectorDim [embedding v]].
Proof. reflexivity. Qed.

(** A chunk of 512 runes has up to 2048 bytes, the field takes 1024: what the chunker
    makes of Chinese text is refused. *)
Definition chinese_page : string := Nat.iter 512 (String.append "中") "".

Lemma chinese_chunk_refused :
  Chunker.Chunk (Chunker.NewFixedSizeChunker 512 50) chinese_page = Some [chinese_page] /\
  forall doc v cols, Index.dContent doc = chinese_page ->
    GroupDocConverter [group_document doc] [v] = Ok cols -> ~ Forall2 accepted GroupDocFields cols.
Proof.
  split; [by vm_compute |]. intros doc v cols Hd. destruct (chunks_stored_as_sent [doc] [v] (le_n _)) as (vs & E).
  change (group_document <$> [doc]) with [group_document doc] in E. rewrite E. intros [= <-] HF.
  do 4 (apply Forall2_cons in HF as [_ HF]). apply Forall2_cons in HF as [HF _]. cbn in HF. rewrite Hd in HF.
  apply Forall_cons in HF as [HF _]. revert HF. apply Z.lt_nge. by vm_compute.
Qed.

(** ** From the result of a search *)

(** milvusclient.ResultSet *)
Record ResultSet := mkResult { ResultCount : nat; Scores : list float32; Fields : list column }.

(** column.Get and GetAsString: the value of a row, if there is one. *)
Definition Get (c : column) (i : nat) : option value :=
  match c with
  | VarChar _ l => VText <$> l !! i
  | Int64 _ l => VInt <$> l !! i
  | FloatVector _ _ l => (fun _ => VOther) <$> l !! i
  end.
Definition GetAsString (c : column) (i : nat) : option string :=
  match c with VarChar _ l => l !! i | _ => None end.

Definition read_field (i : nat) (doc : Document) (field : column) : Document :=
  match Get field i with
  | None => doc
  | Some value =>
      mkDoc (if String.eqb (Name field) "msg_id" then default (ID doc) (GetAsString field i) else ID doc)
        (Content doc) (<[Name field := value]> (MetaData doc)) (Score doc)
  end.

Definition result_document (result : ResultSet) (i : nat) : Document :=
  foldl (read_field i) (mkDoc "" "" ∅ (float64_of <$> Scores result !! i)) (Fields result).

Definition messageResultConverter (result : ResultSet) : list Document :=
  result_document result <$> seq 0 (ResultCount result).

(** What the search reads of a document. *)
Definition found (d : Document) : option Threshold.Document :=
  Some (Threshold.mkDoc (ID d) (Content d) (default f0 (Score d))).

(** The document a message is stored as, in the shape the converter asks for. *)
Definition message_document (id : Z) (conv : string) (sender time : Z) : Document :=
  mkDoc (Itoa id) ""
    {["msg_id" := VText (Itoa id); "conv_id" := VText conv; "sender_id" := VInt sender; "send_time" := VInt time]} None.

Lemma result_ID ids ss ts scores i k :
  ids !! i = Some k ->
  ID (result_document (mkResult (length ids) scores [VarChar "msg_id" ids; Int64 "sender_id" ss; Int64 "send_time" ts]) i) = k.
Proof.
  intros Hi. unfold result_document. cbn [Fields foldl].
  unfold read_field. cbn [Get GetAsString Name]. rewrite Hi.
  change (String.eqb "msg_id" "msg_id") with true. change (String.eqb "send_time" "msg_id") with false.
  change (String.eqb "sender_id" "msg_id") with false. by destruct (ss !! i), (ts !! i).
Qed.

Lemma parse_ids_Itoa (docs : list Document) ids :
  Forall is_int64 ids -> ID <$> docs = Itoa <$> ids -> Search.parse_ids (found <$> docs) = ids.
Proof.
  intros Hf. revert docs. induction Hf as [| id ids Hid Hids IH]; intros [| d docs]; try done.
  rewrite !fmap_cons. intros [= Hd Hds]. unfold Search.parse_ids. cbn. rewrite Hd, ParseInt_Itoa by done.
  f_equal. by apply IH.
Qed.

(** Messages stored through the converter and found by a search that returns the
    stored columns come back under the ids the message table has, in order. *)
Theorem stored_messages_found ms vectors scores :
  Forall (fun m => is_int64 m.1.1.1) ms -> (length ms <= length vectors)%nat ->
  exists msg conv sender time emb,
    MessageDocumentConverter ((fun '(id, conv, sender, time) => message_document id conv sender time) <$> ms) vectors =
      Ok [msg; conv; sender; time; emb] /\
    Search.parse_ids (found <$> messageResultConverter (mkResult (length ms) scores [msg; sender; time])) =
      (fun m => m.1.1.1) <$> ms.
Proof.
  intros Hms Hl. unfold MessageDocumentConverter.
  set (row_of := fun m : Z * string * Z * Z => mkMessageRow (Itoa m.1.1.1) m.1.1.2 m.1.2 m.2).
  set (doc_of := fun '(id, conv, sender, time) => message_document id conv sender time).
  assert (exists rs, rows message_of (doc_of <$> ms) vectors = Ok rs /\ rs.*1 = row_of <$> ms) as (rs & -> & H1).
  { clear Hms. revert vectors Hl. induction ms as [| m ms IH]; intros vectors Hl; [by exists [] |].
    destruct vectors as [| v vectors]; [cbn in Hl; lia |]. rewrite fmap_cons. cbn [rows].
    destruct (IH vectors) as (rs & Hrs & Hf); [cbn in Hl; lia |].
    replace (message_of (doc_of m)) with (Ok (row_of m)) by by destruct m as [[[? ?] ?] ?].
    cbn [outcome_bind]. rewrite Hrs. eexists. split; [reflexivity |]. by rewrite !fmap_cons, Hf. }
  do 5 eexists. split; [reflexivity |]. rewrite H1, <- !list_fmap_compose.
  apply parse_ids_Itoa; [by apply Forall_fmap |].
  set (ids := (_ ∘ row_of) <$> ms). assert (length ms = length ids) as -> by (unfold ids; by rewrite length_fmap).
  unfold messageResultConverter. cbn [ResultCount].
  transitivity ids; [| unfold ids; by rewrite <- list_fmap_compose].
  apply list_eq. intros i. rewrite !list_lookup_fmap. destruct (decide (i < length ids)%nat) as [Hi | Hi].
  - rewrite lookup_seq_lt by done. cbn. apply lookup_lt_is_Some in Hi as [id Hid]. rewrite Hid. f_equal. by apply result_ID.
  - rewrite lookup_seq_ge by lia. rewrite lookup_ge_None_2 by lia. done.
Qed.

Lemma stored_messages_found_witness :
  exists msg conv sender time emb,
    MessageDocumentConverter [message_document 7 "1:2" 1 100; message_document 9 "1:2" 2 101] [[f1]; [f1]] =
      Ok [msg; conv; sender; time; emb] /\
    Search.parse_ids (found <$> messageResultConverter (mkResult 2 [f1] [msg; sender; time])) = [7; 9].
Proof.
  apply (stored_messages_found [(7, "1:2", 1, 100); (9, "1:2", 2, 101)] [[f1]; [f1]] [f1]).
  - repeat constructor; by vm_compute.
  - cbn. lia.
Defined.

Lemma chunks_stored_as_sent_witness :
  exists vs, GroupDocConverter (group_document <$> [Index.mkDoc "u" "text" 3 "a.txt" 0 100]) [[f1]] =
    Ok [VarChar "chunk_id" ["u"]; Int64 "group_id" [3]; VarChar "file_name" ["a.txt"]; Int64 "chunk_idx" [0];
        VarChar "content" ["text"]; Int64 "upload_time" [100]; FloatVector "embedding" VectorDim vs].
Proof. apply (chunks_stored_as_sent [Index.mkDoc "u" "text" 3 "a.txt" 0 100] [[f1]]). cbn. lia. Defined.
End Columns.

Module Init.
Import Columns.
#[local] Open Scope prog_scope.

Inductive vdb_cmd :=
| New (addr : string)
| Sleep
| HasCollection (name : string)
| CreateCollection (name : string) (fs : fields)
| CreateIndex (name : string)
| LoadCollection (name : string)
| Await (name : string).
Definition vdb_res (c : vdb_cmd) : Type :=
  match c with
  | Sleep => unit
  | HasCollection _ => answer bool
  | _ => answer unit
  end.
Definition vdb : Sig := mkSig vdb_cmd vdb_res.
Notation vcall c := (call (S := vdb) c).

Definition MessageCollection : string := "message_vectors".
Definition MemoryCollection : string := "memory_vectors".
Definition GroupDocCollection : string := "group_docs".

(** The body the three collection files share. *)
Definition init_collection (name : string) (fs : fields) : prog vdb (answer unit) :=
  exists_ <- vcall (HasCollection name) ;;
  match exists_ with
  | Failure e => Ret (Failure e)
  | Success true => Ret (Success tt)
  | Success false =>
      r <- vcall (CreateCollection name fs) ;;
      match r with
      | Failure e => Ret (Failure e)
      | Success _ =>
          r <- vcall (CreateIndex name) ;;
          match r with
          | Failure e => Ret (Failure e)
          | Success _ =>
              r <- vcall (LoadCollection name) ;;
              match r with
              | Failure e => Ret (Failure e)
              | Success _ => vcall (Await name)
              end
          end
      end
  end.
Definition InitMessageCollection : prog vdb (answer unit) := init_collection MessageCollection MessageFields.
Definition InitMemoryCollection : prog vdb (answer unit) := init_collection MemoryCollection MemoryFields.
Definition InitGroupDocCollection : prog vdb (answer unit) := init_collection GroupDocCollection GroupDocFields.

(** At most [n] attempts to connect; [last] is the error of the one before. *)
Fixpoint connect (n : nat) (addr : string) (last : answer unit) : prog vdb (answer unit) :=
  match n with
  | O => Ret last
  | S n =>
      r <- vcall (New addr) ;;
      match r with
      | Success _ => Ret (Success tt)
      | Failure e => _ <- vcall Sleep ;; connect n addr (Failure e)
      end
  end.

(** The sync.Once and initErr. *)
Record Once := mkOnce { done : bool; initErr : answer unit }.

Definition InitClient (addr : string) (once : Once) : prog vdb (answer unit * Once) :=
  if done once then Ret (initErr once, once)
  else
    r <- connect 15 addr (Success tt) ;;
    match r with
    | Failure e => Ret (Failure e, mkOnce true (Failure e))
    | Success _ =>
        _ <- InitMessageCollection ;;
        _ <- InitMemoryCollection ;;
        err <- InitGroupDocCollection ;;
        Ret (err, mkOnce true err)
    end.

(** ** What it does to the database *)
Definition created (e : event vdb) : list string := match e with existT (CreateCollection n _) _ => [n] | _ => [] end.
Definition absent (e : event vdb) : list string :=
  match e with existT (HasCollection n) r => match r with Success false => [n] | _ => [] end | _ => [] end.
Definition attempts (e : event vdb) : list (answer unit) := match e with existT (New _) r => [r] | _ => [] end.

Definition careful (tr : list (event vdb)) : Prop :=
  view (S := vdb) created tr = view (S := vdb) absent tr /\ view (S := vdb) attempts tr = [].

Lemma init_collection_careful {W} (h : env vdb W) name fs : always h (init_collection name fs) (fun _ tr => careful tr).
Proof.
  unfold init_collection. apply always_Do. intros [[|] | e]; cbn [bind]; try by apply always_Ret.
  repeat (apply always_Do; intros [[] | ?]; cbn [bind]; try by apply always_Ret).
Qed.

Lemma connect_attempts {W} (h : env vdb W) n addr last :
  always h (connect n addr last) (fun out tr =>
    view (S := vdb) created tr = [] /\ view (S := vdb) absent tr = [] /\
    (length (view (S := vdb) attempts tr) <= n)%nat /\
    (out = Success tt -> n = O /\ last = Success tt \/ exists l, view (S := vdb) attempts tr = l ++ [Success tt])).
Proof.
  revert last. induction n as [| n IH]; intros last; cbn [connect].
  { apply always_Ret. cbn. split_and!; auto. }
  apply always_Do. intros [[] | e]; cbn [bind].
  - apply always_Ret. cbn. split_and!; try done; [lia | intros _; right; by exists []].
  - apply always_Do. intros []. cbn [bind]. eapply always_impl; [apply IH |].
    intros out tr (H1 & H2 & H3 & H4). rewrite !(view_cons (S := vdb)). unfold ev. cbn [created absent attempts app length].
    split_and!; try done; [lia |]. intros Ho. right. destruct (H4 Ho) as [[_ ?] | [l ->]]; [done |].
    by exists (Failure e :: l).
Qed.

(** A start makes at most fifteen attempts to connect and never creates a collection
    that exists or that it could not ask for; when it succeeds it has connected and
    the collection of documents is ready; later starts do nothing. *)
Theorem starts_carefully {W} (h : env vdb W) addr once :
  always h (InitClient addr once) (fun '(err, once') tr =>
    view (S := vdb) created tr = view (S := vdb) absent tr /\
    (length (view (S := vdb) attempts tr) <= 15)%nat /\
    done once' = true /\ initErr once' = err /\
    (done once = true -> once' = once /\ tr = []) /\
    (done once = false -> err = Success tt -> exists l, view (S := vdb) attempts tr = l ++ [Success tt])).
Proof.
  unfold InitClient. destruct (done once) eqn:Ed.
  { apply always_Ret. cbn. split_and!; try done. lia. }
  eapply always_bind; [apply connect_attempts |]. intros [[] | e] tr (H1 & H2 & H3 & H4).
  2: { apply always_Ret. rewrite app_nil_r, H1, H2. cbn. split_and!; done. }
  do 2 (eapply always_bind; [apply init_collection_careful |]; intros ? ? [? ?]).
  eapply always_bind; [apply init_collection_careful |]. intros err ? [? ?]. apply always_Ret.
  rewrite app_nil_r, !(view_app (S := vdb)). cbn [done initErr].
  repeat match goal with H : view _ _ = _ |- _ => rewrite H end. rewrite !app_nil_r.
  split_and!; try done. intros _ _. by destruct (H4 eq_refl) as [[? _] | ?].
Qed.

(** The error of one collection is overwritten by the next. *)
Definition no_messages : forall c, vdb_res c := fun c =>
  match c as c return vdb_res c with
  | Sleep => tt
  | HasCollection n => if String.eqb n MessageCollection then Failure "deadline exceeded" else Success true
  | _ => Success tt
  end.

Definition flaky : env vdb unit := fun c w => (no_messages c, w).

Lemma message_failure_hidden :
  let out := run flaky (InitClient "milvus" (mkOnce false (Success tt))) tt in
  (result out).1 = Success tt /\
  result (run flaky InitMessageCollection tt) = Failure "deadline exceeded".
Proof. split; reflexivity. Qed.

(** A collection that was created but not indexed or loaded, because the start broke
    off, is taken for ready by every later start. *)
Lemma half_created_stays {W} (h : env vdb W) name fs w :
  (h (HasCollection name) w).1 = Success true ->
  result (run h (init_collection name fs) w) = Success tt /\
  trace (run h (init_collection name fs) w) = [ev (S := vdb) (HasCollection name) (Success true)].
Proof. intros Hh. cbn. destruct (h (HasCollection name) w) as [r w']. cbn in Hh. subst r. done. Qed.
End Init.

(** ** The retriever and the indexer of a collection: retriever.go, indexer.go *)
Module Clients.
Import Columns Init.

Section clients.
Context {Client Embedder : Type}.

(** The client that InitClient leaves behind. *)
Definition GetMilvus (milvusCli : option Client) : outcome Client :=
  match milvusCli with Some c => Ok c | None => Panic "milvus not initialized" end.

(** milvusret.RetrieverConfig, with the COSINE metric *)
Record RetrieverConfig := mkRetriever {
  rClient : Client;
  rCollection : string;
  rVectorField : string;
  rOutputFields : list string;
  rTopK : Z;
  rEmbedding : Embedder;
  rDocumentConverter : option (ResultSet -> list Document);
  rStrong : bool;                       (* ConsistencyLevelStrong *)
}.
Definition GetRetriever (milvusCli : option Client) (collectionName vectorField : string) (outputFields : list string) (topK : Z)
    (embedder : Embedder) : outcome RetrieverConfig :=
  outcome_map (fun c =>
    let own := String.eqb collectionName MessageCollection in
    mkRetriever c collectionName vectorField outputFields topK embedder (if own then Some messageResultConverter else None) own)
  (GetMilvus milvusCli).

(** milvusidex.IndexerConfig, with the COSINE metric and an HNSW index; the library
    refuses a missing client. *)
Record IndexerConfig := mkIndexer {
  iClient : option Client;
  iCollection : string;
  iVectorField : string;
  iDimension : Z;
  iEmbedding : Embedder;
  iDocumentConverter : list Document -> list (list float64) -> outcome (list column);
}.
Definition GetIndxer (milvusCli : option Client) (collectionName : string) (embedder : Embedder)
    (documentConverter : list Document -> list (list float64) -> outcome (list column)) : IndexerConfig :=
  mkIndexer milvusCli collectionName "embedding" VectorDim embedder documentConverter.

(** How the agent asks for them. *)
Definition message_retriever (cli : option Client) (limit : Z) (e : Embedder) : outcome RetrieverConfig :=
  GetRetriever cli MessageCollection "embedding" ["msg_id"; "sender_id"; "send_time"] limit e.
Definition memory_retriever (cli : option Client) (topK : Z) (e : Embedder) : outcome RetrieverConfig :=
  GetRetriever cli MemoryCollection "embedding" ["memory_id"; "summary"; "importance"] (topK * 2) e.

Definition schema_of (collection : string) : fields :=
  if String.eqb collection MessageCollection then MessageFields
  else if String.eqb collection MemoryCollection then MemoryFields
  else if String.eqb collection GroupDocCollection then GroupDocFields else [].

(** What is asked for is there: a retriever reads fields its collection has, by a vector
    of the dimension of the collection, and never the vector itself; before the client
    there is none. Messages are read as soon as they are written, under their own ids. *)
Theorem retrievers_fit cli topK e r :
  message_retriever cli topK e = Ok r \/ memory_retriever cli topK e = Ok r ->
  (forall f, f ∈ rOutputFields r -> exists t, (f, t) ∈ schema_of (rCollection r)) /\
  (rVectorField r, FFloatVector (iDimension (GetIndxer cli (rCollection r) e MessageDocumentConverter))) ∈ schema_of (rCollection r) /\
  rVectorField r ∉ rOutputFields r /\ cli = Some (rClient r) /\
  (rCollection r = MessageCollection -> rStrong r = true /\ rDocumentConverter r = Some messageResultConverter).
Proof.
  assert (forall (f : string) (l : fields), existsb (fun x => String.eqb x.1 f) l = true -> exists t, (f, t) ∈ l) as Hf.
  { intros f l ([g t] & Hin & <-%String.eqb_eq)%existsb_exists. exists t. by apply list_elem_of_In. }
  destruct cli as [c |]; [| by intros [|]].
  intros [[= <-] | [= <-]]; cbn [rOutputFields rCollection rVectorField rClient rStrong rDocumentConverter iDimension GetIndxer]; split_and!;
    try (intros f Hin; rewrite !elem_of_cons in Hin; apply Hf; by destruct Hin as [-> | [-> | [-> | ?%elem_of_nil]]]);
    try done; try (by rewrite !elem_of_cons, elem_of_nil; naive_solver).
  - apply (list_elem_of_lookup_2 _ 4%nat). reflexivity.
  - apply (list_elem_of_lookup_2 _ 7%nat). reflexivity.
Qed.

Lemma retrievers_fit_witness (c : Client) (e : Embedder) :
  exists r, message_retriever (Some c) 5 e = Ok r /\ rVectorField r ∉ rOutputFields r.
Proof. eexists. split; [reflexivity |]. eapply (retrievers_fit (Some c) 5 e). by left. Defined.
End clients.
End Clients.
