(* ===== verification/Eval.v ===== *)
(** * Offline evaluation of the searches: apps/agent/eval

    Module Metrics (evaluator.go): recall, reciprocal rank, NDCG and the groups of
    results. Module Searches (runner.go): the four searches that are compared and the
    loop over the data set. Module Reports (report.go, dataset.go): the tables. Module
    Print (report.go): their text. *)
From S2P Require Import Prelude GoStd GoText GoFloat GoSort Ids Effects AgentSchema Dao Retrieval AgentTools.
#[local] Open Scope prog_scope.

(** EvalQuery; an EvalDataset is its list *)
Record EvalQuery := mkQuery {
  qID : string;
  Query : string;
  qTargetUser : string;
  qTargetGroup : string;
  qKeywords : string;
  Topic : string;
  Difficulty : string;
  ExpectedMsgIDs : list Z;
  Description : string;
}.
Notation EvalDataset := (list EvalQuery) (only parsing).

(** StrategyResult *)
Record StrategyResult := mkResult {
  QueryID : string;
  Strategy : string;
  ExpectedIDs : list Z;
  ReturnedIDs : list Z;
  RecallAt1 : float64;
  RecallAt3 : float64;
  RecallAt5 : float64;
  MRR : float64;
  Hit : bool;
}.

Module Metrics.

(** -1: nothing is expected. *)
Definition unlabelled : float64 := of_Z (-1).

Definition toSet (ids : list Z) : gset Z := list_to_set ids.

(** The first [k] that were returned. *)
Definition top (k : nat) (returnedIDs : list Z) : list Z := take (Nat.min k (length returnedIDs)) returnedIDs.

Definition hits (expected : gset Z) (ids : list Z) : nat :=
  foldl (fun hit id => if decide (id ∈ expected) then S hit else hit) O ids.

Definition computeRecall (returnedIDs expectedIDs : list Z) (k : nat) : float64 :=
  match expectedIDs with
  | [] => unlabelled
  | _ => fdiv (of_Z (Z.of_nat (hits (toSet expectedIDs) (top k returnedIDs)))) (of_Z (Z.of_nat (length expectedIDs)))
  end.

Fixpoint reciprocal (expected : gset Z) (i : Z) (ids : list Z) : float64 :=
  match ids with
  | [] => f0
  | id :: ids => if decide (id ∈ expected) then fdiv f1 (of_Z (i + 1)) else reciprocal expected (i + 1) ids
  end.
Definition computeMRR (returnedIDs expectedIDs : list Z) : float64 :=
  match expectedIDs with [] => unlabelled | _ => reciprocal (toSet expectedIDs) 0 returnedIDs end.

Section ndcg.
(** math.Log2 *)
Variable Log2 : float64 -> float64.

Definition gain (i : Z) : float64 := fdiv f1 (Log2 (of_Z (i + 2))).
Fixpoint dcg (expected : gset Z) (i : Z) (ids : list Z) (sum : float64) : float64 :=
  match ids with
  | [] => sum
  | id :: ids => dcg expected (i + 1) ids (if decide (id ∈ expected) then fadd sum (gain i) else sum)
  end.
Definition idcg (idealCount : nat) : float64 := foldl (fun sum i => fadd sum (gain i)) f0 (seqZ 0 (Z.of_nat idealCount)).

Definition computeNDCG (returnedIDs expectedIDs : list Z) (k : nat) : float64 :=
  match expectedIDs with
  | [] => unlabelled
  | _ =>
      let limit := Nat.min k (length returnedIDs) in
      let ideal := idcg (Nat.min (length expectedIDs) limit) in
      if feq ideal f0 then f0 else fdiv (dcg (toSet expectedIDs) 0 (take limit returnedIDs) f0) ideal
  end.
End ndcg.

(** groups[key] = append(groups[key], r) *)
Definition append_to (key : StrategyResult -> string) (groups : gmap string (list StrategyResult)) (r : StrategyResult)
  : gmap string (list StrategyResult) :=
  <[key r := default [] (groups !! key r) ++ [r]]> groups.
Definition group_by (key : StrategyResult -> string) (results : list StrategyResult) : gmap string (list StrategyResult) :=
  foldl (append_to key) ∅ results.

Definition query_field (field : EvalQuery -> string) (dataset : EvalDataset) : gmap string string :=
  foldl (fun t q => <[qID q := field q]> t) ∅ dataset.
Definition field_of (field : EvalQuery -> string) (dataset : EvalDataset) (r : StrategyResult) : string :=
  default "" (query_field field dataset !! QueryID r).

Definition GroupByStrategy : list StrategyResult -> gmap string (list StrategyResult) := group_by Strategy.
Definition GroupByTopic (results : list StrategyResult) (dataset : EvalDataset) : gmap string (list StrategyResult) :=
  group_by (field_of Topic dataset) results.
Definition GroupByDifficulty (results : list StrategyResult) (dataset : EvalDataset) : gmap string (list StrategyResult) :=
  group_by (field_of Difficulty dataset) results.

Definition average (values : list float64) : float64 :=
  match values with [] => f0 | _ => fdiv (foldl fadd f0 values) (of_Z (Z.of_nat (length values))) end.

(** sort.Float64s: NaN before the numbers. *)
Definition float_less (x y : float64) : bool := flt x y || is_nan x && negb (is_nan y).
Definition median (values : list float64) : float64 :=
  match values with
  | [] => f0
  | _ =>
      let sorted := sort_Slice float_less values in
      let mid := (length sorted / 2)%nat in
      if Nat.even (length sorted) then fdiv (fadd (nth (mid - 1) sorted f0) (nth mid sorted f0)) (of_Z 2)
      else nth mid sorted f0
  end.

(** ** What the numbers count *)
Lemma hits_filter expected ids : hits expected ids = length (filter (fun id => id ∈ expected) ids).
Proof.
  assert (forall n, foldl (fun hit id => if decide (id ∈ expected) then S hit else hit) n ids =
    (n + length (filter (fun id => id ∈ expected) ids))%nat) as H; [| apply (H O)].
  induction ids as [| id ids IH]; intros n; cbn [foldl]; [cbn; lia |].
  rewrite IH, filter_cons. destruct (decide (id ∈ expected)); cbn; lia.
Qed.

(** Of ids that were returned once each, no more count than are expected. *)
Lemma hits_bounded returned expected k :
  NoDup returned -> (hits (toSet expected) (top k returned) <= length expected)%nat.
Proof.
  intros Hn. rewrite hits_filter. apply submseteq_length, NoDup_submseteq.
  - apply NoDup_filter. unfold top. rewrite <- (take_drop (Nat.min k (length returned)) returned) in Hn.
    by apply NoDup_app in Hn as [? _].
  - intros id [Hid _]%list_elem_of_filter. unfold toSet in Hid. by apply elem_of_list_to_set in Hid.
Qed.

Lemma reciprocal_spec expected i ids :
  (forall id, id ∈ ids -> id ∉ expected) /\ reciprocal expected i ids = f0 \/
  exists before id after, ids = before ++ id :: after /\ id ∈ expected /\
    (forall id', id' ∈ before -> id' ∉ expected) /\
    reciprocal expected i ids = fdiv f1 (of_Z (i + 1 + Z.of_nat (length before))).
Proof.
  revert i. induction ids as [| id ids IH]; intros i; cbn [reciprocal].
  { left. split; [| done]. intros id H. by apply elem_of_nil in H. }
  destruct (decide (id ∈ expected)) as [Hin | Hin].
  { right. exists [], id, ids. split_and!; [done | done | intros ? H; by apply elem_of_nil in H |].
    cbn. do 2 f_equal. lia. }
  destruct (IH (i + 1)) as [[H1 H2] | (before & x & after & -> & Hx & Hb & Hr)]; [left | right].
  - split; [| exact H2]. intros y [-> | Hy]%elem_of_cons; auto.
  - exists (id :: before), x, after. split_and!; [done | done | intros y [-> | Hy]%elem_of_cons; auto |].
    rewrite Hr. do 2 f_equal. cbn [length]. lia.
Qed.

(** The reciprocal of a rank is a positive number; ranks go up to 1000 here, and the
    searches return 55 ids at most. *)
Lemma reciprocal_positive n : 1 <= n <= 1000 -> flt f0 (fdiv f1 (of_Z n)) = true.
Proof.
  intros Hn. assert (forallb (fun n => flt f0 (fdiv f1 (of_Z n))) (seqZ 1 1000) = true) as H by by vm_compute.
  rewrite forallb_forall in H. apply H, list_elem_of_In, elem_of_seqZ. lia.
Qed.

Lemma hit_means_found returned expected :
  expected <> [] -> (length returned <= 1000)%nat ->
  flt f0 (computeMRR returned expected) = true <-> exists id, id ∈ returned /\ id ∈ expected.
Proof.
  intros He Hl. 
  replace (computeMRR returned expected) with (reciprocal (toSet expected) 0 returned) by by destruct expected.
  assert (forall id, id ∈ toSet expected <-> id ∈ expected) as Hs by (intros id; apply elem_of_list_to_set).
  destruct (reciprocal_spec (toSet expected) 0 returned) as [[H1 ->] | (before & id & after & -> & Hin & Hb & ->)].
  - split; [by intros H | intros (id & Hr & Hx)]. by destruct (H1 id Hr); apply Hs.
  - split; [intros _; exists id; split; [set_solver | by apply Hs] | intros _].
    rewrite length_app in Hl. cbn in Hl. apply reciprocal_positive. lia.
Qed.
Lemma group_by_lookup key results name :
  group_by key results !! name =
    match filter (fun r => key r = name) results with [] => None | group => Some group end.
Proof.
  unfold group_by. induction results as [| r results IH] using rev_ind; [done |].
  rewrite foldl_app, filter_app. cbn [foldl]. unfold append_to at 1. rewrite filter_cons, filter_nil.
  destruct (decide (key r = name)) as [<- |]; [| by rewrite lookup_insert_ne, app_nil_r].
  rewrite lookup_insert_eq, IH. by destruct (filter _ results).
Qed.

(** Nothing is lost or counted twice. *)
Lemma group_by_sizes key results : sum_list (length <$> (map_to_list (group_by key results)).*2) = length results.
Proof.
  unfold group_by. induction results as [| r results IH] using rev_ind; [by cbn; rewrite map_to_list_empty |].
  rewrite foldl_app, length_app, <- IH. cbn [foldl length]. unfold append_to at 1.
  set (g := foldl _ _ results). destruct (g !! key r) as [l |] eqn:E; cbn [default].
  - rewrite <- insert_delete_eq. rewrite <- (insert_delete_id g (key r) l E) at 2.
    rewrite !map_to_list_insert by apply lookup_delete_eq.
    cbn. rewrite length_app. cbn. lia.
  - rewrite map_to_list_insert by done. rewrite !fmap_cons. cbn. lia.
Qed.
End Metrics.

Module Searches.
Import Metrics.

Section searches.
Variable Parse : string -> outcome Z.
Variable AddDate : Z -> Z -> Z -> Z -> Z.
Variable ToLower : string -> string.

(** Both searches look for the user and the group first; [None]: no result. *)
Definition targets (q : EvalQuery) : prog search (option (Z * Z)) :=
  user <- Search.find_user (qTargetUser q) ;;
  match user with
  | Ok (targetUserID, _) =>
      group <- Search.find_group (qTargetGroup q) ;;
      Ret (match group with Ok targetGroupID => Some (targetUserID, targetGroupID) | _ => None end)
  | _ => Ret None
  end.

Definition currentUserID : Z := 1.

Definition fulltextSearch (q : EvalQuery) : prog search (list Z) :=
  t <- targets q ;;
  match t with
  | None => Ret []
  | Some (targetUserID, targetGroupID) =>
      now <- call (S := search) Now ;;
      let '(startTime, endTime) := Time.ResolveTime Parse AddDate now "" "" in
      r <- call (S := search) (Raw (Query.SearchHistoryMessages currentUserID targetUserID targetGroupID
             (Fields (qKeywords q)) startTime endTime 50)) ;;
      Ret (match r with Success messages => mMsgId <$> messages | Failure _ => [] end)
  end.

Definition filterExpr (convID : string) : string :=
  "conv_id == " +:+ String (byte 34) "" +:+ convID +:+ String (byte 34) "".

(** A panic, of a client that was never made, is recovered. The error of the lookup
    in MySQL is dropped, with no messages then. *)
Definition milvusSearch (q : EvalQuery) : prog search (list Z) :=
  t <- targets q ;;
  match t with
  | None => Ret []
  | Some (targetUserID, targetGroupID) =>
      e <- call (S := search) GetEmbedder ;;
      match e with
      | Ok _ =>
          r <- call (S := search) (GetRetriever 5) ;;
          match r with
          | Ok _ =>
              results <- call (S := search) (Retrieve (qKeywords q)
                (filterExpr (Search.convID currentUserID targetUserID targetGroupID))) ;;
              match results with
              | Ok results =>
                  match Threshold.FilterDocumentsByScore results Threshold.MinMessageSemanticScore with
                  | [] => Ret []
                  | results =>
                      r <- GetMessagesByIDs (Search.parse_ids results) ;;
                      let messages := match r with Success messages => messages | Failure _ => [] end in
                      Ret (if Threshold.HasContentKeywordCoverage ToLower (mContent <$> messages) (Fields (qKeywords q))
                           then mMsgId <$> messages else [])
                  end
              | _ => Ret []
              end
          | _ => Ret []
          end
      | _ => Ret []
      end
  end.

Definition semanticFirstSearch (q : EvalQuery) : prog search (list Z) :=
  ids <- milvusSearch q ;;
  match ids with [] => fulltextSearch q | _ => Ret ids end.

(** The two searches run at the same time and only read: here one after the other. *)
Definition rrfSearch (q : EvalQuery) : prog search (list Z) :=
  fulltext <- fulltextSearch q ;;
  milvus <- milvusSearch q ;;
  Ret (Fusion.fID <$> Fusion.FuseRankedIDs Fusion.DefaultRRFK
         [Fusion.mkRanked "fulltext" fulltext; Fusion.mkRanked "milvus" milvus]).

(** The StrategyResult of a query. *)
Definition judge (strategy : string) (q : EvalQuery) (returnedIDs : list Z) : StrategyResult :=
  let mrr := computeMRR returnedIDs (ExpectedMsgIDs q) in
  mkResult (qID q) strategy (ExpectedMsgIDs q) returnedIDs
    (computeRecall returnedIDs (ExpectedMsgIDs q) 1) (computeRecall returnedIDs (ExpectedMsgIDs q) 3)
    (computeRecall returnedIDs (ExpectedMsgIDs q) 5) mrr (flt f0 mrr).

Fixpoint evaluateStrategy (strategy : string) (dataset : EvalDataset) (searchFn : EvalQuery -> prog search (list Z))
  : prog search (list StrategyResult) :=
  match dataset with
  | [] => Ret []
  | q :: dataset =>
      match ExpectedMsgIDs q with
      | [] => evaluateStrategy strategy dataset searchFn
      | _ =>
          returnedIDs <- searchFn q ;;
          results <- evaluateStrategy strategy dataset searchFn ;;
          Ret (judge strategy q returnedIDs :: results)
      end
  end.

Definition strategies : list (string * (EvalQuery -> prog search (list Z))) :=
  [("FULLTEXT", fulltextSearch); ("Milvus+Filter", milvusSearch); ("SemanticFirstFallback", semanticFirstSearch);
   ("RRF", rrfSearch)].

Fixpoint run_all (l : list (string * (EvalQuery -> prog search (list Z)))) (dataset : EvalDataset)
  : prog search (list StrategyResult) :=
  match l with
  | [] => Ret []
  | (strategy, searchFn) :: l =>
      rs <- evaluateStrategy strategy dataset searchFn ;;
      results <- run_all l dataset ;;
      Ret (rs ++ results)
  end.

(** ** What the loop leaves *)
Definition labelled (dataset : EvalDataset) : EvalDataset :=
  filter (fun q => ExpectedMsgIDs q <> []) dataset.

(** Each result is the judgement of some answer for its strategy and its query. *)
Definition judged (sq : string * EvalQuery) (r : StrategyResult) : Prop := exists ids, r = judge sq.1 sq.2 ids.

Lemma evaluateStrategy_judges {W} (h : env search W) strategy dataset f :
  always h (evaluateStrategy strategy dataset f) (fun rs _ =>
    Forall2 judged (pair strategy <$> labelled dataset) rs).
Proof.
  induction dataset as [| q dataset IH]; cbn [evaluateStrategy]; [apply always_Ret; constructor |].
  unfold labelled. rewrite filter_cons. fold (labelled dataset).
  destruct (ExpectedMsgIDs q) as [| id ids] eqn:E; [by rewrite decide_False by (intros H; by apply H) |].
  rewrite decide_True by done. clear id ids E.
  eapply (always_bind h _ _ (fun _ _ => True)); [by intros ? |]. intros ids tr _.
  eapply always_bind; [exact IH |]. intros rs tr' Hrs. apply always_Ret.
  rewrite fmap_cons. constructor; [by exists ids | exact Hrs].
Qed.

Lemma run_all_judges {W} (h : env search W) l dataset :
  always h (run_all l dataset) (fun rs _ =>
    Forall2 judged (s ← l; pair s.1 <$> labelled dataset) rs).
Proof.
  induction l as [| [s f] l IH]; cbn [run_all]; [apply always_Ret; constructor |].
  eapply always_bind; [apply evaluateStrategy_judges |]. intros rs tr Hrs.
  eapply always_bind; [exact IH |]. intros rs' tr' Hrs'. apply always_Ret. by apply Forall2_app.
Qed.
End searches.
End Searches.

Module Reports.
Import Metrics Searches.

(** DimensionReport, Report *)
Record DimensionReport := mkDimension {
  Name : string;
  Count : nat;
  dRecallAt1 : float64;
  dRecallAt3 : float64;
  dRecallAt5 : float64;
  dMRR : float64;
  NDCGAt5 : float64;
  HitRate : float64;
}.
Record Report := mkReport {
  DatasetPath : string;
  TotalQueries : nat;
  LabeledQueries : nat;
  ByStrategy : list DimensionReport;
  ByTopic : list DimensionReport;
  ByDifficulty : list DimensionReport;
  Details : list StrategyResult;
}.

Section report.
Variable Log2 : float64 -> float64.
(** The order in which a range goes through a map. *)
Variable iteration : gmap string (list StrategyResult) -> list (string * list StrategyResult).
Hypothesis iteration_perm : forall groups, iteration groups ≡ₚ map_to_list groups.

(** The values of those that have one. *)
Definition values (value : StrategyResult -> float64) (results : list StrategyResult) : list float64 :=
  filter (fun v => fle f0 v) (value <$> results).

Definition aggregate (name : string) (results : list StrategyResult) : DimensionReport :=
  let counted := filter (fun r => fle f0 (MRR r)) results in
  mkDimension name (length results) (average (values RecallAt1 results)) (average (values RecallAt3 results))
    (average (values RecallAt5 results)) (average (values MRR results))
    (average ((fun r => computeNDCG Log2 (ReturnedIDs r) (ExpectedIDs r) 5) <$> counted))
    (average (omap (fun r => if Hit r then Some f1 else if fle f0 (MRR r) then Some f0 else None) results)).

Definition table (groups : gmap string (list StrategyResult)) : list DimensionReport :=
  (fun '(name, group) => aggregate name group) <$> iteration groups.

Definition BuildReport (results : list StrategyResult) (dataset : EvalDataset) : Report :=
  mkReport "" (length dataset) (length (labelled dataset)) (table (GroupByStrategy results))
    (table (GroupByTopic results dataset)) (table (GroupByDifficulty results dataset)) results.

(** os.ReadFile and json.Unmarshal; whether the database is open. *)
Variable ReadFile : string -> outcome string.
Variable Unmarshal : string -> outcome EvalDataset.

Definition LoadDataset (path : string) : outcome EvalDataset :=
  match ReadFile path with
  | Ok data =>
      match Unmarshal data with
      | Ok queries => Ok queries
      | Err e => Err ("解析数据集 JSON 失败: " +:+ e)
      | Panic e => Panic e
      end
  | Err e => Err ("读取数据集文件失败: " +:+ e)
  | Panic e => Panic e
  end.

Variable Parse : string -> outcome Z.
Variable AddDate : Z -> Z -> Z -> Z -> Z.
Variable ToLower : string -> string.

Definition RunEvaluation (has_db : bool) (datasetPath : string) : prog search (outcome Report) :=
  match LoadDataset datasetPath with
  | Ok dataset =>
      if negb has_db then Ret (Err "数据库未初始化，请确保 MySQL 可用")
      else
        results <- run_all (strategies Parse AddDate ToLower) dataset ;;
        Ret (Ok (BuildReport results dataset))
  | Err e => Ret (Err ("加载数据集失败: " +:+ e))
  | Panic e => Ret (Panic e)
  end.

(** *** The tables *)
Lemma table_complete key results :
  let t := table (group_by key results) in
  NoDup (Name <$> t) /\ (forall r, r ∈ results -> key r ∈ (Name <$> t)) /\
  sum_list (Count <$> t) = length results.
Proof.
  intros t. unfold t, table. set (g := group_by key results).
  assert (Name <$> ((fun '(name, group) => aggregate name group) <$> iteration g) = (iteration g).*1) as ->.
  { rewrite <- list_fmap_compose. apply list_fmap_ext. by intros ? [? ?] _. }
  assert (Count <$> ((fun '(name, group) => aggregate name group) <$> iteration g) = length <$> (iteration g).*2) as ->.
  { rewrite <- !list_fmap_compose. apply list_fmap_ext. by intros ? [? ?] _. }
  pose proof (iteration_perm g) as Hp. split_and!.
  - rewrite Hp. apply NoDup_fst_map_to_list.
  - intros r Hr. rewrite Hp. apply list_elem_of_fmap. exists (key r, filter (fun x => key x = key r) results).
    split; [done |]. apply elem_of_map_to_list. unfold g. rewrite group_by_lookup.
    destruct (filter _ results) eqn:E; [| done].
    assert (r ∈ filter (fun x => key x = key r) results) as Hin by (by apply list_elem_of_filter).
    rewrite E in Hin. by apply elem_of_nil in Hin.
  - rewrite <- (group_by_sizes key results). fold g. by rewrite Hp.
Qed.

(** Each labelled query is judged once for each of the four searches, in the order of
    the data set, and the others not at all; a query is a hit when an expected message
    was returned; and in each table the names differ and every result is counted in
    one row, that of its name. *)
Theorem report_covers_dataset {W} (h : env search W) has_db path dataset :
  LoadDataset path = Ok dataset -> has_db = true ->
  always h (RunEvaluation has_db path) (fun out _ => exists report,
    out = Ok report /\ LabeledQueries report = length (labelled dataset) /\
    (fun r => (Strategy r, QueryID r, ExpectedIDs r)) <$> Details report =
      (s ← ["FULLTEXT"; "Milvus+Filter"; "SemanticFirstFallback"; "RRF"];
       (fun q => (s, qID q, ExpectedMsgIDs q)) <$> labelled dataset) /\
    (forall r, r ∈ Details report -> (length (ReturnedIDs r) <= 1000)%nat ->
       Hit r = true <-> exists id, id ∈ ReturnedIDs r /\ id ∈ ExpectedIDs r) /\
    (forall t key, (t, key) ∈ [(ByStrategy report, Strategy); (ByTopic report, field_of Topic dataset);
                               (ByDifficulty report, field_of Difficulty dataset)] ->
       NoDup (Name <$> t) /\ (forall r, r ∈ Details report -> key r ∈ (Name <$> t)) /\
       sum_list (Count <$> t) = length (Details report))).
Proof.
  intros Hl ->. unfold RunEvaluation. rewrite Hl. cbn [negb].
  eapply always_bind; [apply run_all_judges |]. intros rs tr Hrs. apply always_Ret.
  eexists. split; [reflexivity |]. cbn [LabeledQueries Details ByStrategy ByTopic ByDifficulty BuildReport].
  split_and!; [done | | |].
  - set (f := fun r => (Strategy r, QueryID r, ExpectedIDs r)).
    transitivity ((fun sq => (sq.1, qID sq.2, ExpectedMsgIDs sq.2)) <$>
      (s ← strategies Parse AddDate ToLower; pair s.1 <$> labelled dataset)).
    + clear -Hrs. induction Hrs as [| sq r sqs rs [ids ->] _ IH]; [done |]. by rewrite !fmap_cons, IH.
    + cbn. rewrite !fmap_app, <- !list_fmap_compose. reflexivity.
  - intros r Hr Hle. apply list_elem_of_lookup in Hr as [i Hi].
    destruct (Forall2_lookup_r _ _ _ _ _ Hrs Hi) as ([s q] & Hsq & ids & ->).
    apply (hit_means_found ids (ExpectedMsgIDs q)); [| exact Hle]. apply list_elem_of_lookup_2 in Hsq. clear -Hsq.
    apply list_elem_of_bind in Hsq as (sf & (q' & [= _ ->] & Hq)%list_elem_of_fmap & _).
    by apply list_elem_of_filter in Hq as [? _].
  - intros t key Hin. rewrite !elem_of_cons, elem_of_nil in Hin.
    destruct Hin as [[= -> ->] | [[= -> ->] | [[= -> ->] | []]]]; apply table_complete.
Qed.
End report.

(** A database with one user and two messages, of which the vector search ranks the
    older one first. *)
Definition two_messages : env search unit := fun c w =>
  (match c as c return search_res c with
   | FindUserByName n => Success (mkUser 2 n "" "" "")
   | FindGroupByName _ => Failure "群聊不存在"
   | MemberQuery _ _ => Success false
   | Now => 0
   | Raw _ => Success []
   | GetMessagesWhereID _ | FindMessages _ _ =>
       Success [mkMessages 7 0 1 2 0 false "lunch at noon" 200 200; mkMessages 5 0 2 1 0 false "lunch?" 100 100]
   | GetEmbedder | GetRetriever _ => Ok tt
   | Retrieve _ _ => Ok [Some (Threshold.mkDoc "5" "" f1); Some (Threshold.mkDoc "7" "" (flit 8 10))]
   end, w).

Definition lunch : EvalQuery := mkQuery "q1" "when do we eat" "bob" "" "lunch" "food" "easy" [5] "".

Definition in_order (groups : gmap string (list StrategyResult)) : list (string * list StrategyResult) := map_to_list groups.

Lemma report_covers_dataset_witness :
  always two_messages (RunEvaluation (fun _ => f1) in_order (fun _ => Ok "[]") (fun _ => Ok [lunch]) (fun _ => Err "")
    (fun t _ _ _ => t) id true "queries.json") (fun out _ => exists report, out = Ok report /\ LabeledQueries report = 1%nat).
Proof.
  eapply always_impl.
  - apply (report_covers_dataset (fun _ => f1) in_order (fun _ => Permutation_refl _) (fun _ => Ok "[]")
      (fun _ => Ok [lunch]) (fun _ => Err "") (fun t _ _ _ => t) id two_messages true "queries.json" [lunch]); reflexivity.
  - intros out tr (report & H1 & H2 & _). by exists report.
Defined.

(** The evaluation takes the messages in the order of the table, the agent in that of
    their rank: the message asked for comes second here and first there. *)
Lemma milvus_loses_rank :
  result (run two_messages (milvusSearch id lunch) tt) = [7; 5] /\
  mMsgId <$> result (run two_messages (Search.semanticFallback id 1 "lunch" 2 0 0 0 5) tt) = [5; 7].
Proof. split; reflexivity. Qed.

(** One of three expected messages is found: the recall is a third, the NDCG is 1, as
    the ideal has no more messages than were returned. *)
Lemma ndcg_ignores_missing Log2 :
  Log2 (of_Z 2) = f1 ->
  computeNDCG Log2 [1] [1; 2; 3] 5 = f1 /\ computeRecall [1] [1; 2; 3] 5 = fdiv f1 (of_Z 3).
Proof.
  intros H. assert (gain Log2 0 = f1) as Hg by (unfold gain; change (0 + 2) with 2; by rewrite H).
  split; [| by vm_compute]. unfold computeNDCG, idcg.
  change (seqZ 0 _) with [0]. cbn [foldl dcg take Nat.min length]. by rewrite Hg, decide_True by set_solver.
Qed.
End Reports.

(** ** report.go: the text of a report *)
Module Print.
Import Reports.

Definition nl : string := String "010" "".
Fixpoint spaces (n : nat) : string := match n with O => "" | S n => " " +:+ spaces n end.
(** %-ns and %ns count runes and never cut. *)
Definition pad_right (w : nat) (s : string) : string := s +:+ spaces (w - length (runes s)).
Definition pad_left (w : nat) (s : string) : string := spaces (w - length (runes s)) +:+ s.

(** The hundredths of [m * 2^e], rounded to the nearest, a tie to the even one, as
    strconv does with the exact value. *)
Definition hundredths (m e : Z) : Z :=
  if 0 <=? e then 100 * m * 2 ^ e
  else
    let d := 2 ^ (- e) in
    let q := 100 * m / d in
    let r := 100 * m mod d in
    if 2 * r <? d then q else if d <? 2 * r then q + 1 else if Z.even q then q else q + 1.
Definition digits2 (n : Z) : string := Itoa (n / 100) +:+ "." +:+ Itoa (n / 10 mod 10) +:+ Itoa (n mod 10).
Definition sign (neg : bool) : string := if neg then "-" else "".
(** %.2f *)
Definition fixed2 (a : float64) : string :=
  match a with
  | S754_nan => "NaN"
  | S754_infinity neg => if neg then "-Inf" else "+Inf"
  | S754_zero neg => sign neg +:+ digits2 0
  | S754_finite neg m e => sign neg +:+ digits2 (hundredths (Z.pos m) e)
  end.

Definition row (r : DimensionReport) : string :=
  "  " +:+ pad_right 20 (Name r) +:+ " " +:+ pad_left 5 (fixed2 (dRecallAt1 r)) +:+ " " +:+ pad_left 5 (fixed2 (dRecallAt3 r)) +:+ " "
    +:+ pad_left 5 (fixed2 (dRecallAt5 r)) +:+ " " +:+ pad_left 5 (fixed2 (dMRR r)) +:+ " " +:+ pad_left 5 (fixed2 (NDCGAt5 r)).
Definition columns : string :=
  "  " +:+ pad_right 20 "Name" +:+ " " +:+ pad_left 6 "R@1" +:+ " " +:+ pad_left 6 "R@3" +:+ " " +:+ pad_left 6 "R@5" +:+ " "
    +:+ pad_left 6 "MRR" +:+ " " +:+ pad_left 6 "NDCG@5".
Definition text_lines (ls : list string) : string := foldr (fun l s => l +:+ nl +:+ s) "" ls.
Definition writeTable (title : string) (rows : list DimensionReport) : string :=
  text_lines (("┌─ " +:+ title +:+ " ──────────────────────────────┐") :: columns :: (row <$> rows)
    ++ ["└──────────────────────────────────────┘"]).

Definition detail (d : StrategyResult) : string :=
  QueryID d +:+ " | " +:+ pad_right 10 (Strategy d) +:+ " | " +:+ pad_left 5 (fixed2 (RecallAt1 d)) +:+ " | "
    +:+ pad_left 5 (fixed2 (RecallAt3 d)) +:+ " | " +:+ pad_left 5 (fixed2 (RecallAt5 d)) +:+ " | "
    +:+ pad_left 4 (fixed2 (MRR d)) +:+ " | " +:+ (if Hit d then "true" else "false").
Definition Format (r : Report) : string :=
  text_lines ["RAG 离线评测报告";
    "数据集: " +:+ Itoa (Z.of_nat (TotalQueries r)) +:+ " 条查询，其中 " +:+ Itoa (Z.of_nat (LabeledQueries r)) +:+ " 条有人工相关性标注"; ""]
  +:+ writeTable "按策略" (ByStrategy r) +:+ nl +:+ writeTable "按主题" (ByTopic r) +:+ nl
  +:+ writeTable "按难度" (ByDifficulty r) +:+ nl
  +:+ text_lines ("详细结果:" :: "ID | 策略 | Recall@1 | Recall@3 | Recall@5 | MRR | Hit" :: (detail <$> Details r)).

(** What is printed is within half a hundredth of the value: [n / 100] for [m / d]. *)
Lemma hundredths_close m e :
  0 <= m -> let n := hundredths m e in
  if 0 <=? e then n = 100 * (m * 2 ^ e) else 2 * Z.abs (n * 2 ^ (- e) - 100 * m) <= 2 ^ (- e).
Proof.
  intros Hm. cbn. unfold hundredths. destruct (Z.leb_spec 0 e) as [He | He]; [lia |].
  set (d := 2 ^ (- e)). assert (0 < d) as Hd by (unfold d; lia). clearbody d.
  pose proof (Z.div_mod (100 * m) d) as E. pose proof (Z.mod_pos_bound (100 * m) d Hd).
  set (q := 100 * m / d) in *. set (r := (100 * m) mod d) in *. clearbody q r.
  assert (100 * m = d * q + r) as -> by lia.
  destruct (Z.ltb_spec (2 * r) d); [nia |]. destruct (Z.ltb_spec d (2 * r)); [nia |]. destruct (Z.even q); nia.
Qed.

(** Rates from 0 to 1 take four characters. *)
Definition rate (a : float64) : bool :=
  match a with S754_zero false => true | S754_finite false m e => hundredths (Z.pos m) e <=? 100 | _ => false end.
Lemma digits2_length n : 0 <= n <= 100 -> length (runes (digits2 n)) = 4%nat.
Proof.
  intros H. assert (forallb (fun n => Nat.eqb (length (runes (digits2 (Z.of_nat n)))) 4) (List.seq 0 101) = true) as Hall by (vm_compute; reflexivity).
  rewrite forallb_forall in Hall. apply Nat.eqb_eq. replace n with (Z.of_nat (Z.to_nat n)) by lia. apply Hall. apply in_seq. lia.
Qed.
Lemma rate_width a : rate a = true -> length (runes (fixed2 a)) = 4%nat.
Proof.
  destruct a as [[] | | | [] m e]; try done. unfold rate, fixed2, sign. rewrite string_app_empty. intros H%Z.leb_le. apply digits2_length.
  split; [| exact H]. unfold hundredths. destruct (Z.leb_spec 0 e) as [He | He]; [lia |].
  assert (0 < 2 ^ (- e)) by lia. assert (0 <= 100 * Z.pos m / 2 ^ (- e)) by (apply Z.div_pos; lia). repeat case_match; lia.
Qed.

(** The columns of the rows are narrower than those of the heading: the heading of a
    table is five characters longer than a row of rates. *)
Lemma heading_is_wider :
  length (runes columns) = 57%nat /\
  length (runes (row (mkDimension "RRF" 3 f1 f1 f1 f1 f1 f1))) = 52%nat.
Proof. split; vm_compute; reflexivity. Qed.

Example prints_halves_to_even : fixed2 (flit 1 8) = "0.12" /\ fixed2 (flit 3 8) = "0.38" /\ fixed2 (flit 2 3) = "0.67".
Proof. split_and!; vm_compute; reflexivity. Qed.
End Print.
