(* ===== verification/Users.v ===== *)
(** * Users: logic/service/user_service.go, logic/dao/users.go, pkg/utils

    Module Token (jwt.go): the tokens of the gateway. Module Password (crypto.go).
    Module Table (dao/users.go, models/users.go): the statements on the users
    table. Module Service (user_service.go): the five methods. *)
From S2P Require Import Prelude GoStd GoText Dao.

Module Token.

(** CustomClaims with the registered claims the code sets; times in seconds. *)
Record CustomClaims := mkClaims { UserID : Z; ExpiresAt : Z; IssuedAt : Z; Issuer : string }.

(** What jwt.ParseWithClaims says of a token. *)
Inductive verdict := Valid (c : CustomClaims) | Expired | Invalid.

Definition JwtSecret : string := "NexusGo-super-secret-key-2026".
Definition week : Z := 7 * 24 * 3600.

(** golang-jwt: signing with HS256 and parsing at a time (in seconds). *)
Class Jwt := {
  SignedString : string -> CustomClaims -> outcome string;
  ParseWithClaims : string -> Z -> string -> verdict;
}.
(** A token made with the key is parsed until it expires. *)
Class JwtLaws `{Jwt} : Prop :=
  parse_signed key c t now : SignedString key c = Ok t ->
    ParseWithClaims key now t = if now <? ExpiresAt c then Valid c else Expired.

Section token.
Context `{Jwt}.

(** NewNumericDate truncates to seconds; [now] is in nanoseconds. *)
Definition seconds (t : Z) : Z := t / 10 ^ 9.

Definition GenerateToken (now userID : Z) : outcome string :=
  SignedString JwtSecret (mkClaims userID (seconds (now + week * 10 ^ 9)) (seconds now) "go-im-gateway").

Definition ParseToken (now : Z) (tokenString : string) : outcome Z :=
  match ParseWithClaims JwtSecret (seconds now) tokenString with
  | Expired => Err "token 已过期，请重新登录"
  | Invalid => Err "无效的 token"
  | Valid c => Ok (UserID c)
  end.

(** The token of a user names that user for seven days, and no longer. *)
Theorem token_names_user `{!JwtLaws} now later userID t :
  GenerateToken now userID = Ok t ->
  ParseToken later t =
    if seconds later <? seconds now + week then Ok userID else Err "token 已过期，请重新登录".
Proof.
  unfold GenerateToken, ParseToken. intros Ht. rewrite (parse_signed _ _ _ _ Ht). cbn [ExpiresAt].
  assert (seconds (now + week * 10 ^ 9) = seconds now + week) as ->.
  { unfold seconds. by rewrite Z.div_add. }
  by destruct (_ <? _).
Qed.
End token.

(** A signature that is the key itself, for the witnesses. *)
Definition toy_sign (key : string) (c : CustomClaims) : outcome string :=
  Ok ((key +:+ ".") +:+ pretty (N.pos (encode (UserID c, ExpiresAt c, IssuedAt c, Issuer c)))).
Definition toy_parse (key : string) (now : Z) (t : string) : verdict :=
  if HasPrefix t (key +:+ ".") then
    match ParseUint (TrimPrefix t (key +:+ ".")) with
    | Some (Z.pos p) =>
        match decode (A := Z * Z * Z * string) p with
        | Some (u, e, i, issuer) => if now <? e then Valid (mkClaims u e i issuer) else Expired
        | None => Invalid
        end
    | _ => Invalid
    end
  else Invalid.
Definition toy : Jwt := {| SignedString := toy_sign; ParseWithClaims := toy_parse |}.
#[export] Instance toy_laws : @JwtLaws toy.
Proof.
  intros key [u e i s] t now. cbn. unfold toy_sign, toy_parse. intros [= <-].
  unfold HasPrefix. rewrite prefix_app, TrimPrefix_app, ParseUint_pretty. cbn [Z.of_N].
  by rewrite decode_encode.
Qed.

Lemma token_names_user_witness :
  exists t, @GenerateToken toy 0 7 = Ok t /\ @ParseToken toy 1000000000 t = Ok 7.
Proof.
  eexists. split; [reflexivity |]. exact (@token_names_user toy toy_laws 0 1000000000 7 _ eq_refl).
Defined.
End Token.

Module Password.
(** bcrypt, with the salt it draws. *)
Class Bcrypt := {
  GenerateFromPassword : string -> string -> outcome string;
  CompareHashAndPassword : string -> string -> bool;
}.
(** What bcrypt reads of a password: 72 bytes of it and a NUL, over and over. *)
Fixpoint cycle (n : nat) (whole rest : string) : string :=
  match n, rest, whole with
  | O, _, _ => ""
  | S n, String c rest, _ => String c (cycle n whole rest)
  | S n, EmptyString, String c again => String c (cycle n whole again)
  | S n, EmptyString, EmptyString => ""
  end.
Definition key (password : string) : string :=
  let whole := password +:+ String (byte 0) "" in cycle 72 whole whole.

(** A hash is matched by the passwords bcrypt cannot tell from its own. *)
Class BcryptLaws `{Bcrypt} : Prop :=
  compare_hash salt p h q : GenerateFromPassword salt p = Ok h -> CompareHashAndPassword h q = true <-> key q = key p.

Fixpoint plain (s : string) : Prop :=
  match s with EmptyString => True | String c s => c <> byte 0 /\ plain s end.

Lemma cycle_inj n w v p q : plain p -> plain q -> (String.length p <= n)%nat -> (String.length q <= n)%nat ->
  cycle n w (p +:+ String (byte 0) "") = cycle n v (q +:+ String (byte 0) "") -> p = q.
Proof.
  revert p q. induction n as [| n IH]; intros [| c p] [| d q] Hp Hq Lp Lq E; cbn in *; try done; try lia.
  - injection E as Ec _. destruct Hq as [Hd _]. by rewrite <- Ec in Hd.
  - injection E as Ec _. destruct Hp as [Hc _]. by rewrite Ec in Hc.
  - injection E as -> E. destruct Hp as [_ Hp], Hq as [_ Hq]. f_equal. apply IH; try done; lia.
Qed.

(** Passwords of at most 72 bytes without a NUL are told apart. *)
Lemma key_inj p q : plain p -> plain q -> (String.length p <= 72)%nat -> (String.length q <= 72)%nat ->
  key p = key q -> p = q.
Proof. apply cycle_inj. Qed.

Definition HashPassword `{Bcrypt} (salt password : string) : outcome string := GenerateFromPassword salt password.
Definition CheckPasswordHash `{Bcrypt} (password hash : string) : bool := CompareHashAndPassword hash password.

(** A hash for the witnesses, with bcrypt's limit of 72 bytes. *)
Definition toy : Bcrypt := {|
  GenerateFromPassword := fun salt p => if (72 <? String.length p)%nat then Err "too long" else Ok (String "$" (key p));
  CompareHashAndPassword := fun h p => String.eqb h (String "$" (key p));
|}.
#[export] Instance toy_laws : @BcryptLaws toy.
Proof.
  intros salt p h q. cbn [toy GenerateFromPassword CompareHashAndPassword]. case_match; [done |].
  intros [= <-]. rewrite String.eqb_eq. split; [by intros [= Heq] | by intros ->].
Qed.
End Password.

Module Table.

(** The users table and its auto-increment counter. *)
Record UserTable := mkTable { rows : gmap Z User; next_id : Z }.

Section table.
(** When the unique index takes two names for the same (the column's collation),
    the full-text search (which can fail) and LIKE. *)
Variable same_name : string -> string -> bool.
Variable matches : string -> User -> outcome bool.
Variable like : string -> string -> bool.

(** models.NewUser *)
Definition NewUser (userId : Z) (username password nickname avatar : string) : User :=
  mkUser userId username password nickname avatar.

Definition named (name : string) (u : User) : bool := same_name (usUsername u) name.

Definition FindUserByName (userName : string) (t : UserTable) : outcome User :=
  match select (named userName) (rows t) with
  | u :: _ => Ok u
  | [] => Err "用户不存在"
  end.

Definition GetUserByID (userID : Z) (t : UserTable) : outcome User :=
  match rows t !! userID with Some u => Ok u | None => Err "record not found" end.

(** Create: a zero id is the counter's; the default of an empty nickname. *)
Definition with_defaults (id : Z) (u : User) : User :=
  mkUser id (usUsername u) (usPassword u) (if String.eqb (usNickname u) "" then "用户" else usNickname u) (usAvatar u).

Definition InsertUser (u : User) (t : UserTable) : answer unit * UserTable :=
  let id := if usUserId u =? 0 then next_id t else usUserId u in
  match rows t !! id, select (named (usUsername u)) (rows t) with
  | None, [] => (Success tt, mkTable (<[id := with_defaults id u]> (rows t)) (next_id t `max` (id + 1)))
  | _, _ => (Failure duplicate_entry, t)
  end.

(** The columns of an update; [None] is not in the map. *)
Record updates := mkUpdates { upNickname : option string; upAvatar : option string; upPassword : option string }.

Definition apply_updates (up : updates) (u : User) : User :=
  mkUser (usUserId u) (usUsername u) (default (usPassword u) (upPassword up))
    (default (usNickname u) (upNickname up)) (default (usAvatar u) (upAvatar up)).

Definition UpdateUser (userID : Z) (up : updates) (t : UserTable) : UserTable :=
  mkTable (alter (apply_updates up) userID (rows t)) (next_id t).

(** The full-text query over the table: an error of any row is the query's. *)
Definition fulltext (q : string) (t : UserTable) : outcome (list User) :=
  foldr (fun u r => match matches q u, r with
                    | Ok b, Ok l => Ok (if b : bool then u :: l else l)
                    | Ok _, e => e
                    | Err e, _ => Err e
                    | Panic m, _ => Panic m
                    end) (Ok []) (select (fun _ => true) (rows t)).

Definition SearchUsers (keyword : string) (t : UserTable) : outcome (list User) :=
  match fulltext (keyword +:+ "*") t with
  | Ok ((_ :: _) as users) => Ok users
  | _ =>
      let pattern := "%" +:+ keyword +:+ "%" in
      Ok (select (fun u => like pattern (usUsername u) || like pattern (usNickname u)) (rows t))
  end.

(** *** The table stays well formed *)
Definition table_ok (t : UserTable) : Prop :=
  (forall id u, rows t !! id = Some u -> usUserId u = id /\ id < next_id t) /\
  (forall id id' u u', rows t !! id = Some u -> rows t !! id' = Some u' ->
     same_name (usUsername u) (usUsername u') = true -> id = id').

Context (Hrefl : forall a, same_name a a = true) (Hsym : forall a b, same_name a b = same_name b a).

Lemma select_nil {K} `{Countable K} (p : User -> bool) (t : gmap K User) :
  select p t = [] -> forall k u, t !! k = Some u -> p u = false.
Proof.
  intros Hs k u Hu. destruct (p u) eqn:E; [| done].
  assert (u ∈ select p t) as Hin by (apply elem_of_select; split; [done | by exists k]).
  rewrite Hs in Hin. by apply elem_of_nil in Hin.
Qed.

Lemma InsertUser_ok u t : table_ok t -> table_ok (InsertUser u t).2.
Proof.
  intros [H1 H2]. unfold InsertUser. set (id := if usUserId u =? 0 then _ else _).
  destruct (rows t !! id) as [v |] eqn:Ei; [done |].
  destruct (select (named (usUsername u)) (rows t)) as [| v l] eqn:Es; [| done].
  pose proof (select_nil _ _ Es) as Hn. split; cbn.
  - intros k v [[<- <-] | [_ Hv]]%lookup_insert_Some; [cbn; split; [done | lia] |].
    destruct (H1 _ _ Hv). split; [done | lia].
  - intros k k' v v' [[<- <-] | [Hk Hv]]%lookup_insert_Some [[<- <-] | [Hk' Hv']]%lookup_insert_Some Hsame;
      try done; cbn in Hsame.
    + rewrite Hsym in Hsame. specialize (Hn _ _ Hv'). unfold named in Hn. congruence.
    + specialize (Hn _ _ Hv). unfold named in Hn. congruence.
    + by eapply H2.
Qed.

Lemma UpdateUser_ok userID up t : table_ok t -> table_ok (UpdateUser userID up t).
Proof.
  intros [H1 H2].
  assert (forall k v, rows (UpdateUser userID up t) !! k = Some v ->
    exists v0, rows t !! k = Some v0 /\ usUserId v = usUserId v0 /\ usUsername v = usUsername v0) as Hback.
  { intros k v. cbn. rewrite lookup_alter_Some. intros [(<- & v0 & Hv & ->) | [_ Hv]]; by eexists. }
  split.
  - intros k v (v0 & Hv & -> & _)%Hback. by apply H1.
  - intros k k' v v' (v0 & Hv & _ & ->)%Hback (v0' & Hv' & _ & ->)%Hback Hs. by eapply H2.
Qed.

(** A name finds its user. *)
Lemma FindUserByName_unique t id u name :
  table_ok t -> (forall a b c, same_name a b = true -> same_name b c = true -> same_name a c = true) ->
  rows t !! id = Some u -> same_name (usUsername u) name = true -> FindUserByName name t = Ok u.
Proof.
  intros [H1 H2] Htrans Hu Hs. unfold FindUserByName.
  assert (u ∈ select (named name) (rows t)) as Hin by (apply elem_of_select; split; [done | by exists id]).
  destruct (select (named name) (rows t)) as [| v l] eqn:E; [by apply elem_of_nil in Hin |].
  assert (v ∈ select (named name) (rows t)) as Hv by (rewrite E; by left).
  apply elem_of_select in Hv as [Hn [id' Hv]]. unfold named in Hn.
  assert (id' = id) as ->; [| congruence]. eapply H2; [done.. |].
  eapply Htrans; [exact Hn |]. by rewrite Hsym.
Qed.
End table.
End Table.

Module Service.
Import Token Password Table.

Section service.
Context `{Jwt, Bcrypt}.
Variable same_name : string -> string -> bool.
Variable matches : string -> User -> outcome bool.
Variable like : string -> string -> bool.

(** UserLogin at time [now]: the id and the token. *)
Definition UserLogin (now : Z) (userName password : string) (t : UserTable) : outcome (Z * string) :=
  match FindUserByName same_name userName t with
  | Ok user =>
      if negb (CheckPasswordHash password (usPassword user)) then Err "密码错误"
      else match GenerateToken now (usUserId user) with
           | Ok token => Ok (usUserId user, token)
           | _ => Err "token生成失败"
           end
  | _ => Err "用户不存在"
  end.

Record RegisterArgs := mkRegister {
  rgUserId : Z;
  rgUserName : string;
  rgPassword : string;
  rgNickname : string;
  rgAvatar : string;
}.

Definition UserRegister (salt : string) (req : RegisterArgs) (t : UserTable) : outcome bool * UserTable :=
  match HashPassword salt (rgPassword req) with
  | Ok password =>
      let user := NewUser (rgUserId req) (rgUserName req) password (rgNickname req) (rgAvatar req) in
      match InsertUser same_name user t with
      | (Success _, t) => (Ok true, t)
      | (Failure err, t) =>
          (Err (if Contains err "1062" || Contains err "Duplicate entry" then "用户名已存在" else err), t)
      end
  | Err e => (Err e, t)
  | Panic m => (Panic m, t)
  end.

(** GetUserInfoReply and SearchUserItem *)
Record UserItem := mkItem { uiUserId : Z; uiUsername : string; uiNickname : string; uiAvatar : string }.
Definition item (u : User) : UserItem := mkItem (usUserId u) (usUsername u) (usNickname u) (usAvatar u).

Definition GetUserInfo (userId : Z) (t : UserTable) : outcome UserItem := outcome_map item (GetUserByID userId t).

Definition SearchUser (keyword : string) (t : UserTable) : outcome (list UserItem) :=
  outcome_map (fmap item) (SearchUsers matches like keyword t).

Definition given (s : string) : option string := if String.eqb s "" then None else Some s.

Definition UpdateUserInfo (salt : string) (userId : Z) (nickname avatar password : string) (t : UserTable)
  : outcome bool * UserTable :=
  let store (hashed : option string) :=
    match given nickname, given avatar, hashed with
    | None, None, None => (Ok true, t)
    | n, a, p => (Ok true, UpdateUser userId (mkUpdates n a p) t)
    end in
  match given password with
  | None => store None
  | Some password =>
      match HashPassword salt password with
      | Ok hashed => store (Some hashed)
      | Err e => (Err e, t)
      | Panic m => (Panic m, t)
      end
  end.

(** *** The properties *)
Context (Hrefl : forall a, same_name a a = true) (Hsym : forall a b, same_name a b = same_name b a).
Context (Htrans : forall a b c, same_name a b = true -> same_name b c = true -> same_name a c = true).

Lemma UserRegister_ok salt reg t : table_ok same_name t -> table_ok same_name (UserRegister salt reg t).2.
Proof.
  intros Ht. unfold UserRegister. destruct (HashPassword salt (rgPassword reg)) as [p | |]; [| done | done].
  pose proof (InsertUser_ok same_name Hsym (NewUser (rgUserId reg) (rgUserName reg) p (rgNickname reg) (rgAvatar reg)) t Ht) as Hi.
  by destruct (InsertUser _ _ t) as [[] t'].
Qed.

(** C30: The table every method leaves: ids are keys below the counter, and no two users
    have the same name. *)
Theorem users_well_formed salt reg userId nickname avatar password t :
  table_ok same_name t ->
  table_ok same_name (UserRegister salt reg t).2 /\
  table_ok same_name (UpdateUserInfo salt userId nickname avatar password t).2.
Proof.
  intros Ht. split; [by apply UserRegister_ok |].
  unfold UpdateUserInfo. repeat case_match; try exact Ht; by apply UpdateUser_ok.
Qed.

(** C29: A user who registered logs in with that password and with no other bcrypt can
    tell from it (so with no other one of at most 72 bytes), and gets a token of the
    id the table gave; the name is taken from then on. *)
Theorem register_then_login `{!BcryptLaws} salt reg t t' :
  table_ok same_name t -> UserRegister salt reg t = (Ok true, t') ->
  exists id, (forall now password, UserLogin now (rgUserName reg) password t' =
      if decide (Password.key password = Password.key (rgPassword reg)) then
        match GenerateToken now id with Ok token => Ok (id, token) | _ => Err "token生成失败" end
      else Err "密码错误") /\
    (exists u, rows t' !! id = Some u /\ rows t !! id = None) /\
    (forall reg', rgUserName reg' = rgUserName reg -> is_Some (match HashPassword salt (rgPassword reg') with Ok p => Some p | _ => None end) ->
       UserRegister salt reg' t' = (Err "用户名已存在", t')).
Proof.
  intros Ht Hr. pose proof (UserRegister_ok salt reg t Ht) as Ht'. rewrite Hr in Ht'. cbn in Ht'.
  unfold UserRegister in Hr. destruct (HashPassword salt (rgPassword reg)) as [h | |] eqn:Eh; [| done | done].
  unfold InsertUser in Hr. set (id := if usUserId _ =? 0 then _ else _) in Hr.
  destruct (rows t !! id) eqn:Ei; [done |]. destruct (select _ (rows t)) as [| v l] eqn:Es; [| done].
  injection Hr as <-. set (u := with_defaults id _) in *.
  assert (FindUserByName same_name (rgUserName reg) (mkTable (<[id := u]> (rows t)) (next_id t `max` (id + 1))) = Ok u) as Hf.
  { apply (FindUserByName_unique same_name Hsym _ id u _ Ht' Htrans); [| by apply Hrefl]. cbn. by rewrite lookup_insert_eq. }
  exists id. split_and!.
  - intros now q. unfold UserLogin. rewrite Hf. unfold CheckPasswordHash. cbn [usPassword u with_defaults NewUser].
    pose proof (compare_hash salt (rgPassword reg) h q Eh) as Hc.
    destruct (CompareHashAndPassword h q); cbn [negb]; case_decide as Hq; try done.
    + by destruct Hq, Hc as [-> _].
    + by destruct Hc as [_ Hc]; specialize (Hc Hq).
  - exists u. cbn. by rewrite lookup_insert_eq.
  - intros reg' Hn [p Hp]. unfold UserRegister. destruct (HashPassword salt (rgPassword reg')) as [p' | |]; [| done | done].
    unfold InsertUser. cbn [usUsername NewUser rows].
    assert (select (named same_name (rgUserName reg')) (<[id := u]> (rows t)) <> []) as Hne.
    { unfold FindUserByName in Hf. cbn [rows] in Hf. rewrite Hn. intros Hnil. by rewrite Hnil in Hf. }
    cbv zeta. match goal with |- context [?m !! ?k] => destruct (m !! k) end; [reflexivity |].
    by destruct (select (named same_name (rgUserName reg')) (<[id := u]> (rows t))).
Qed.
End service.

Lemma String_eqb_trans a b c : String.eqb a b = true -> String.eqb b c = true -> String.eqb a c = true.
Proof. by intros ->%String.eqb_eq. Qed.

Definition bob : RegisterArgs := mkRegister 0 "bob" "secret" "" "".
Lemma empty_ok : table_ok String.eqb (mkTable ∅ 1).
Proof. split; cbn; intros * H; by rewrite lookup_empty in H. Qed.

Lemma users_well_formed_witness :
  table_ok String.eqb (@UserRegister Password.toy String.eqb "" bob (mkTable ∅ 1)).2.
Proof. exact (proj1 (@users_well_formed Password.toy String.eqb String.eqb_sym "" bob 0 "" "" "" _ empty_ok)). Defined.

Lemma register_then_login_witness :
  exists t', @UserRegister Password.toy String.eqb "" bob (mkTable ∅ 1) = (Ok true, t') /\
    exists id, @UserLogin Token.toy Password.toy String.eqb 0 "bob" "guess" t' = Err "密码错误" /\
      is_Some (rows t' !! id).
Proof.
  eexists. split; [reflexivity |].
  destruct (@register_then_login Token.toy Password.toy String.eqb String.eqb_refl String.eqb_sym String_eqb_trans
    Password.toy_laws "" bob (mkTable ∅ 1) _ empty_ok eq_refl) as (id & H1 & (u & H2 & _) & _).
  exists id. split; [exact (H1 0 "guess") | by exists u].
Defined.
End Service.
