(* ===== verification/Api.v ===== *)
(** * The HTTP side of the gateway: apps/gateway/api, router, rpcclient

    The RPC calls of the services (the .proto files under pkg/proto), the JSON
    answers, and one handler per route: Module User (user_api), Friend (friend_api),
    Chat (chat_api), Group (group_api), Upload (upload_api, upload_doc.go). Module
    Router: the token middleware (router/middleware/jwt.go) and the routes
    (router/router.go). *)
From S2P Require Import Prelude GoStd GoText Effects Mq Dao Services Users.
#[local] Open Scope prog_scope.

(** ** The calls to the logic service *)
Inductive rpc :=
| UserLogin (userId : Z) (userName password : string)
| UserRegister (userId : Z) (userName password nickname avatar : string)
| GetUserInfo (userId : Z)
| UpdateUserInfo (userId : Z) (nickname avatar password : string)
| SearchUser (keyword : string)
| ApplyFriend (userId friendId : Z) (applyMsg : string)
| ResolveFriend (userId friendId : Z) (action : string)
| GetFriendList (userId : Z)
| DeleteFriend (userId friendId : Z)
| GetPendingRequests (userId : Z)
| GetConversations (userId : Z)
| GetChatHistory (userId targetId cursor limit : Z)
| MarkMessageRead (userId targetId lastReadMsgId sessionType : Z)
| CreateGroup (userId : Z) (groupName : string) (memberIds : list Z)
| GetGroupList (userId : Z)
| GetGroupInfo (groupId : Z)
| GetGroupMembers (groupId : Z)
| JoinGroup (userId groupId : Z)
| LeaveGroup (userId groupId : Z)
| DissolveGroup (userId groupId : Z)
| GetGroupHistory (groupId userId cursor limit : Z)
| SearchGroup (keyword : string).

Definition reply (c : rpc) : Type :=
  match c with
  | UserLogin _ _ _ => Z * string
  | GetUserInfo _ => Service.UserItem
  | SearchUser _ => list Service.UserItem
  | GetFriendList _ => list FriendItem
  | GetPendingRequests _ => list PendingRequestItem
  | GetConversations _ => list ConversationItem
  | GetChatHistory _ _ _ _ | GetGroupHistory _ _ _ _ => HistoryReply
  | CreateGroup _ _ _ => Z
  | GetGroupList _ | SearchGroup _ => list GroupItem
  | GetGroupInfo _ => GroupItem
  | GetGroupMembers _ => list GroupMemberItem
  | _ => bool
  end.

(** An answer's body; the order of the fields of an object is not observed. *)
Inductive json := JNull | JBool (b : bool) | JInt (z : Z) | JStr (s : string) | JObj (l : list (string * json)) | JArr (l : list json).

(** A nil slice is null. *)
Definition array {A} (f : A -> list (string * json)) (l : list A) : json :=
  match l with [] => JNull | _ => JArr ((JObj ∘ f) <$> l) end.

Record file := mkFile { Filename : string; Size : Z }.

(** What the handlers talk to: the logic service (with the routing key of the
    context), Redis, the broker, the client, and for uploads the form, the clock
    and the file system. *)
Inductive http_cmd :=
| Rpc (key : string) (c : rpc)
| RouteOf (key : string)
| PublishDown (gateway : string) (dp : DownPayload)
| Respond (status : Z) (body : json)
| FormFile (name : string)
| MkdirAll (dir : string)
| NowNano
| Create (path : string)
| Copy.
Definition http_res (c : http_cmd) : Type :=
  match c with
  | Rpc _ c => outcome (reply c)
  | RouteOf _ => string                    (* Get().Result() with its error dropped *)
  | PublishDown _ _ | Respond _ _ => unit
  | FormFile _ => outcome file
  | MkdirAll _ | Create _ | Copy => outcome unit
  | NowNano => Z
  end.
Definition http : Sig := mkSig http_cmd http_res.
Notation gcall c := (call (S := http) c).

(** What a handler reads of a request: the query (a missing parameter is empty),
    the body, the parameter of the path, and the user the middleware set. *)
Record Request := mkRequest {
  query : gmap string string;
  body : string;
  param_id : string;
  user_id : option Z;
}.
Definition Query (r : Request) (k : string) : string := default "" (query r !! k).

(** A handler ends, or panics (which gin turns into a 500). *)
Definition handler : Type := Request -> prog http (outcome unit).

Definition respond (status : Z) (fields : list (string * json)) : prog http (outcome unit) :=
  _ <- gcall (Respond status (JObj fields)) ;; Ret (Ok tt).

Definition ok_data (msg : string) (data : json) : prog http (outcome unit) :=
  respond 200 [("code", JInt 200); ("msg", JStr msg); ("data", data)].
Definition ok_msg (msg : string) : prog http (outcome unit) := respond 200 [("code", JInt 200); ("msg", JStr msg)].
Definition bad (status : Z) (msg : string) : prog http (outcome unit) :=
  respond status [("code", JInt status); ("msg", JStr msg)].
Definition failed (msg err : string) : prog http (outcome unit) :=
  respond 500 [("code", JInt 500); ("msg", JStr msg); ("error", JStr err)].

(** userID.(int64) *)
Definition with_user (r : Request) (k : Z -> prog http (outcome unit)) : prog http (outcome unit) :=
  match user_id r with Some u => k u | None => Ret (Panic "interface conversion") end.

(** ShouldBindJSON into the handler's struct: encoding/json. *)
Definition bind_or {A} (decode : string -> outcome A) (r : Request) (k : A -> prog http (outcome unit)) : prog http (outcome unit) :=
  match decode (body r) with Ok a => k a | _ => bad 400 "参数错误" end.

(** rpcclient.WithUserRoutingKey *)
Definition WithUserRoutingKey (u : Z) : string := Itoa u.

(** A call for user [u], and the answer when it fails. *)
Definition call_or (u : Z) (c : rpc) (msg : string) (k : reply c -> prog http (outcome unit)) : prog http (outcome unit) :=
  r <- gcall (Rpc (WithUserRoutingKey u) c) ;;
  match r with Ok a => k a | Err e | Panic e => failed msg e end.

Module User.
Record LoginReq := mkLogin { liUserID : Z; liUserName : string; liPassword : string }.
Record RegisterReq := mkRegister { rrUserID : Z; rrUserName : string; rrPassword : string; rrNickname : string; rrAvatar : string }.
Record UpdateReq := mkUpdate { urNickname : string; urAvatar : string; urPassword : string }.
Section handlers.
Variable decode_login : string -> outcome LoginReq.
Variable decode_register : string -> outcome RegisterReq.
Variable decode_update : string -> outcome UpdateReq.

Definition UserLoginHandler : handler := fun r =>
  match decode_login (body r) with
  | Ok req =>
      rep <- gcall (Rpc (liUserName req) (UserLogin (liUserID req) (liUserName req) (liPassword req))) ;;
      match rep with
      | Ok (id, token) => ok_data "登录成功" (JObj [("user_id", JInt id); ("token", JStr token)])
      | Err e | Panic e => respond 401 [("code", JInt 401); ("error", JStr e)]
      end
  | _ => respond 400 [("error", JStr "参数错误")]
  end.

Definition UserRegisterHandler : handler := fun r =>
  match decode_register (body r) with
  | Ok req =>
      rep <- gcall (Rpc (rrUserName req)
        (UserRegister (rrUserID req) (rrUserName req) (rrPassword req) (rrNickname req) (rrAvatar req))) ;;
      match rep with
      | Ok success => ok_data "注册成功" (JBool success)
      | Err e | Panic e => respond 400 [("code", JInt 400); ("error", JStr e)]
      end
  | _ => respond 400 [("error", JStr "参数错误")]
  end.

Definition user_fields (u : Service.UserItem) : list (string * json) :=
  [("user_id", JInt (Service.uiUserId u)); ("username", JStr (Service.uiUsername u));
   ("nickname", JStr (Service.uiNickname u)); ("avatar", JStr (Service.uiAvatar u))].

Definition GetUserInfoHandler : handler := fun r =>
  with_user r (fun u =>
  let qid := Query r "user_id" in
  let targetID := if String.eqb qid "" then u else match ParseInt qid with Ok id => id | _ => u end in
  call_or targetID (GetUserInfo targetID) "获取用户信息失败" (fun rep => ok_data "success" (JObj (user_fields rep)))).

Definition UpdateUserInfoHandler : handler := fun r =>
  bind_or decode_update r (fun req =>
  with_user r (fun u =>
  call_or u (UpdateUserInfo u (urNickname req) (urAvatar req) (urPassword req)) "更新失败" (fun _ => ok_msg "更新成功"))).

Definition SearchUserHandler : handler := fun r =>
  let keyword := Query r "keyword" in
  if String.eqb keyword "" then bad 400 "请输入搜索关键字"
  else
    with_user r (fun u =>
    call_or u (SearchUser keyword) "搜索失败" (fun rep => ok_data "success" (array user_fields rep))).
End handlers.
End User.

Module Friend.
Record ApplyReq := mkApply { aFriendID : Z; aApplyMsg : string }.
Record ResolveReq := mkResolve { rFriendID : Z; rAction : string }.
Record DeleteReq := mkDelete { dFriendID : Z }.
Section handlers.
Variable decode_apply : string -> outcome ApplyReq.
Variable decode_resolve : string -> outcome ResolveReq.
Variable decode_delete : string -> outcome DeleteReq.

Definition ApplyFriendHandler : handler := fun r =>
  bind_or decode_apply r (fun req =>
  with_user r (fun u =>
  call_or u (ApplyFriend u (aFriendID req) (aApplyMsg req)) "申请失败" (fun _ => ok_msg "好友申请已发送"))).

Definition ResolveFriendHandler : handler := fun r =>
  bind_or decode_resolve r (fun req =>
  with_user r (fun u =>
  call_or u (ResolveFriend u (rFriendID req) (rAction req)) "处理失败" (fun _ => ok_msg "处理成功"))).

Definition friend_fields (f : FriendItem) : list (string * json) :=
  [("friend_id", JInt (fiFriendId f)); ("nickname", JStr (fiNickname f)); ("avatar", JStr (fiAvatar f));
   ("status", JInt (fiStatus f))].

Definition GetFriendListHandler : handler := fun r =>
  with_user r (fun u =>
  call_or u (GetFriendList u) "获取列表失败" (fun rep => ok_data "success" (array friend_fields rep))).

Definition DeleteFriendHandler : handler := fun r =>
  bind_or decode_delete r (fun req =>
  with_user r (fun u =>
  call_or u (DeleteFriend u (dFriendID req)) "删除失败" (fun _ => ok_msg "删除成功"))).

Definition pending_fields (p : PendingRequestItem) : list (string * json) :=
  [("user_id", JInt (priUserId p)); ("username", JStr (priUsername p)); ("nickname", JStr (priNickname p));
   ("avatar", JStr (priAvatar p)); ("apply_msg", JStr (priApplyMsg p)); ("created_at", JStr (priCreatedAt p))].

Definition GetPendingRequestsHandler : handler := fun r =>
  with_user r (fun u =>
  call_or u (GetPendingRequests u) "获取申请列表失败" (fun rep => ok_data "success" (array pending_fields rep))).
End handlers.
End Friend.

Module Chat.
Record ReadReq := mkRead { mrTargetID : Z; mrLastReadMsgID : Z; mrSessionType : Z }.
Section handlers.
Variable decode_read : string -> outcome ReadReq.

Definition conversation_fields (c : ConversationItem) : list (string * json) :=
  [("target_id", JInt (ciTargetId c)); ("session_type", JInt (ciSessionType c));
   ("unread_count", JInt (ciUnreadCount c)); ("owner_id", JInt (ciOwnerId c))].

Definition GetConversationsHandler : handler := fun r =>
  with_user r (fun u =>
  call_or u (GetConversations u) "获取列表失败" (fun rep => ok_data "success" (array conversation_fields rep))).

Definition message_fields (m : MessageItem) : list (string * json) :=
  [("msg_id", JInt (iMsgId m)); ("sender_id", JInt (iSenderId m)); ("content", JStr (iContent m));
   ("create_time", JStr (iCreateTime m))].

Definition page_limit (r : Request) : Z :=
  let limit := ParseInt_value (Query r "limit") in if limit <=? 0 then 20 else limit.

Definition GetChatMessagesHandler : handler := fun r =>
  let targetID := ParseInt_value (Query r "target_id") in
  let cursor := ParseInt_value (Query r "cursor") in
  with_user r (fun u =>
  call_or u (GetChatHistory u targetID cursor (page_limit r)) "拉取历史消息失败" (fun rep =>
  ok_data "success" (JObj [("messages", array message_fields (hMessages rep)); ("next_cursor", JInt (hNextCursor rep));
                           ("has_more", JBool (hHasMore rep)); ("target_id", JInt (hTargetId rep))]))).

Definition MarkMessageReadHandler : handler := fun r =>
  bind_or decode_read r (fun req =>
  with_user r (fun u =>
  call_or u (MarkMessageRead u (mrTargetID req) (mrLastReadMsgID req) (int32 (mrSessionType req))) "更新已读状态失败"
    (fun _ => ok_msg "已读状态更新成功"))).
End handlers.
End Chat.

(** ** path/filepath, on paths with slashes *)
Module Path.
Fixpoint clean_parts (rooted : bool) (acc parts : list string) : list string :=
  match parts with
  | [] => reverse acc
  | p :: parts =>
      if String.eqb p "" || String.eqb p "." then clean_parts rooted acc parts
      else if String.eqb p ".." then
        match acc with
        | q :: acc' => if String.eqb q ".." then clean_parts rooted (p :: acc) parts else clean_parts rooted acc' parts
        | [] => if rooted then clean_parts rooted acc parts else clean_parts rooted [p] parts
        end
      else clean_parts rooted (p :: acc) parts
  end.
Definition Clean (path : string) : string :=
  let rooted := HasPrefix path "/" in
  let body := Join (clean_parts rooted [] (Split path "/")) "/" in
  if rooted then "/" +:+ body else if String.eqb body "" then "." else body.
Definition Join (elems : list string) : string :=
  match List.filter (fun e => negb (String.eqb e "")) elems with [] => "" | l => Clean (GoStd.Join l "/") end.
(** The suffix from the last dot of the last element. *)
Definition Ext (path : string) : string :=
  let name := match LastIndexByte path "/" with Some i => string_drop (S i) path | None => path end in
  match LastIndexByte name "." with Some i => string_drop i name | None => "" end.
End Path.

Module Group.
Record CreateReq := mkCreate { cGroupName : string; cMemberIDs : list Z }.
Record GroupReq := mkGroupReq { gGroupID : Z }.
Record ApproveReq := mkApprove { apGroupID : Z; apUserID : Z; apAction : string }.
Section handlers.
Variable decode_create : string -> outcome CreateReq.
Variable decode_group : string -> outcome GroupReq.
Variable decode_approve : string -> outcome ApproveReq.

Definition CreateGroupHandler : handler := fun r =>
  bind_or decode_create r (fun req =>
  with_user r (fun u =>
  call_or u (CreateGroup u (cGroupName req) (cMemberIDs req)) "创建失败" (fun id =>
  ok_data "群聊创建成功" (JObj [("group_id", JInt id); ("creator_id", JInt u)])))).

Definition group_fields (g : GroupItem) : list (string * json) :=
  [("group_id", JInt (giGroupId g)); ("group_name", JStr (giGroupName g)); ("owner_id", JInt (giOwnerId g))].

Definition GetGroupListHandler : handler := fun r =>
  with_user r (fun u =>
  call_or u (GetGroupList u) "获取群列表失败" (fun rep => ok_data "success" (array group_fields rep))).

Definition GetGroupInfoHandler : handler := fun r =>
  let groupID := ParseInt_value (Query r "group_id") in
  with_user r (fun u =>
  call_or u (GetGroupInfo groupID) "获取群信息失败" (fun rep => ok_data "success" (JObj (group_fields rep)))).

Definition member_fields (groupID : Z) (m : GroupMemberItem) : list (string * json) :=
  [("group_id", JInt groupID); ("user_id", JInt (gmiUserId m)); ("role", JInt (gmiRole m)); ("nickname", JStr (gmiNickname m))].

Definition GetGroupMembersHandler : handler := fun r =>
  let groupID := ParseInt_value (Query r "group_id") in
  with_user r (fun u =>
  call_or u (GetGroupMembers groupID) "获取群成员失败" (fun rep => ok_data "success" (array (member_fields groupID) rep))).

Definition JoinGroupHandler : handler := fun r =>
  bind_or decode_group r (fun req =>
  with_user r (fun u => call_or u (JoinGroup u (gGroupID req)) "加群失败" (fun _ => ok_msg "加群成功"))).

Definition LeaveGroupHandler : handler := fun r =>
  bind_or decode_group r (fun req =>
  with_user r (fun u => call_or u (LeaveGroup u (gGroupID req)) "退群失败" (fun _ => ok_msg "退群成功"))).

Definition DissolveGroupHandler : handler := fun r =>
  bind_or decode_group r (fun req =>
  with_user r (fun u => call_or u (DissolveGroup u (gGroupID req)) "解散群聊失败" (fun _ => ok_msg "群聊已解散"))).

Definition GetGroupMessagesHandler : handler := fun r =>
  let groupID := ParseInt_value (Query r "group_id") in
  let cursor := ParseInt_value (Query r "cursor") in
  with_user r (fun u =>
  call_or u (GetGroupHistory groupID u cursor (Chat.page_limit r)) "拉取群消息失败" (fun rep =>
  ok_data "success" (JObj [("messages", array Chat.message_fields (hMessages rep)); ("next_cursor", JInt (hNextCursor rep));
                           ("has_more", JBool (hHasMore rep)); ("group_id", JInt groupID)]))).

Definition SearchGroupHandler : handler := fun r =>
  let keyword := Query r "keyword" in
  if String.eqb keyword "" then bad 400 "请输入搜索关键词"
  else
    with_user r (fun u =>
    call_or u (SearchGroup keyword) "搜索失败" (fun rep => ok_data "success" (array group_fields rep))).

(** Tell a connected user. *)
Definition tell (u receiver groupID : Z) (ct : ChatType) : prog http unit :=
  gw <- gcall (RouteOf ("route:user:" +:+ Itoa receiver)) ;;
  if String.eqb gw "" then Ret tt
  else gcall (PublishDown gw (mkDown 0 0 groupID u receiver (Itoa groupID) ct)).

Definition RequestJoinGroupHandler : handler := fun r =>
  bind_or decode_group r (fun req =>
  with_user r (fun u =>
  call_or u (GetGroupInfo (gGroupID req)) "查群信息失败" (fun info =>
  _ <- tell u (giOwnerId info) (gGroupID req) ChatTypeGroupJoinRequest ;;
  ok_msg "加群申请已发送"))).

(** The group's owner is not asked for. *)
Definition ApproveJoinGroupHandler : handler := fun r =>
  bind_or decode_approve r (fun req =>
  if String.eqb (apAction req) "accept" then
    with_user r (fun u =>
    call_or u (JoinGroup (apUserID req) (apGroupID req)) "加群失败" (fun _ =>
    _ <- tell u (apUserID req) (apGroupID req) ChatTypeGroupJoinApproved ;;
    ok_msg "处理完成"))
  else ok_msg "处理完成").
End handlers.
End Group.

Module Upload.
(** strings.ToLower *)
Section upload.
Variable ToLower : string -> string.

Definition AllowedDocExt : list string := [".txt"; ".md"].
Definition maxDocSize : Z := Z.shiftl 10 20.

(** Create, copy, answer: the end of both handlers. *)
Definition save (dst : string) (k : prog http (outcome unit)) : prog http (outcome unit) :=
  out <- gcall (Create dst) ;;
  match out with
  | Ok _ =>
      c <- gcall Copy ;;
      match c with Ok _ => k | _ => bad 500 "文件写入失败" end
  | _ => bad 500 "文件保存失败"
  end.

Definition UploadDocHandler : handler := fun r =>
  match ParseInt (param_id r) with
  | Ok groupID =>
      with_user r (fun uid =>
      info <- gcall (Rpc (WithUserRoutingKey uid) (GetGroupInfo groupID)) ;;
      match info with
      | Ok info =>
          if giGroupId info =? 0 then bad 404 "群不存在"
          else
            f <- gcall (FormFile "file") ;;
            match f with
            | Ok f =>
                let ext := ToLower (Path.Ext (Filename f)) in
                if negb (existsb (String.eqb ext) AllowedDocExt) then
                  bad 400 ("不支持的文件类型 " +:+ ext +:+ "，仅支持: txt, md")
                else if maxDocSize <? Size f then bad 400 "文件大小不能超过 10MB"
                else
                  let dir := Path.Join ["uploads"; "groups"; Itoa groupID] in
                  d <- gcall (MkdirAll dir) ;;
                  match d with
                  | Ok _ =>
                      now <- gcall NowNano ;;
                      let dst := Path.Join [dir; Itoa now +:+ "_" +:+ Filename f] in
                      save dst (ok_data "上传成功"
                        (JObj [("file_name", JStr (Filename f)); ("file_path", JStr dst); ("file_size", JInt (Size f));
                               ("content_type", JStr ext)]))
                  | _ => bad 500 "创建存储目录失败"
                  end
            | _ => bad 400 "未找到上传文件"
            end
      | _ => bad 404 "群不存在"
      end)
  | _ => bad 400 "无效的群ID"
  end.

(** [uploadDir] is set by InitUploadDir. *)
Definition UploadHandler (uploadDir : string) : handler := fun r =>
  f <- gcall (FormFile "file") ;;
  match f with
  | Ok f =>
      let ext := Path.Ext (Filename f) in
      let ext := if String.eqb ext "" then ".bin" else ext in
      now <- gcall NowNano ;;
      let filename := Itoa now +:+ ext in
      save (Path.Join [uploadDir; filename]) (ok_data "上传成功" (JObj [("url", JStr ("/uploads/" +:+ filename))]))
  | _ => bad 400 "未找到上传文件"
  end.
End upload.
End Upload.

Module Router.

Inductive endpoint :=
| ELogin | ERegister
| EUserInfo | EUserSearch | EUserUpdate
| EFriendApply | EFriendResolve | EFriendList | EFriendPending | EFriendDelete
| EConversations | EMessages | ERead
| EGroupCreate | EGroupList | EGroupInfo | EGroupMembers | EGroupJoin | EGroupLeave | EGroupDissolve
| EGroupSearch | EGroupRequestJoin | EGroupApproveJoin | EGroupMessages
| EUpload | EUploadDoc.

(** SetupRouter: the routes under /api; those of the second group need a token. *)
Definition routes : list (string * string * endpoint) :=
  [("POST", "/api/login", ELogin); ("POST", "/api/register", ERegister);
   ("GET", "/api/user/info", EUserInfo); ("GET", "/api/user/search", EUserSearch);
   ("POST", "/api/user/update", EUserUpdate);
   ("POST", "/api/friend/apply", EFriendApply); ("POST", "/api/friend/resolve", EFriendResolve);
   ("GET", "/api/friend/list", EFriendList); ("GET", "/api/friend/pending", EFriendPending);
   ("POST", "/api/friend/delete", EFriendDelete);
   ("GET", "/api/chat/conversations", EConversations); ("GET", "/api/chat/messages", EMessages);
   ("POST", "/api/chat/read", ERead);
   ("POST", "/api/group/create", EGroupCreate); ("GET", "/api/group/list", EGroupList);
   ("GET", "/api/group/info", EGroupInfo); ("GET", "/api/group/members", EGroupMembers);
   ("POST", "/api/group/join", EGroupJoin); ("POST", "/api/group/leave", EGroupLeave);
   ("POST", "/api/group/dissolve", EGroupDissolve); ("GET", "/api/group/search", EGroupSearch);
   ("POST", "/api/group/request_join", EGroupRequestJoin); ("POST", "/api/group/approve_join", EGroupApproveJoin);
   ("GET", "/api/group/messages", EGroupMessages);
   ("POST", "/api/upload", EUpload); ("POST", "/api/group/:id/documents", EUploadDoc)].

Definition public (e : endpoint) : bool := match e with ELogin | ERegister => true | _ => false end.

(** A path against a pattern, segment by segment; ":id" takes any non-empty one. *)
Fixpoint match_path (pattern path : list string) : option string :=
  match pattern, path with
  | [], [] => Some ""
  | p :: pattern, s :: path =>
      if String.eqb p ":id" then
        if String.eqb s "" then None
        else match match_path pattern path with Some _ => Some s | None => None end
      else if String.eqb p s then match_path pattern path else None
  | _, _ => None
  end.

Fixpoint route_in (l : list (string * string * endpoint)) (method path : string) : option (endpoint * string) :=
  match l with
  | [] => None
  | (m, p, e) :: l =>
      match (if String.eqb m method then match_path (Split p "/") (Split path "/") else None) with
      | Some id => Some (e, id)
      | None => route_in l method path
      end
  end.
Definition route : string -> string -> option (endpoint * string) := route_in routes.

Section serve.
Context `{Token.Jwt}.
Variable ToLower : string -> string.
Variable uploadDir : string.
Variable decode_login : string -> outcome User.LoginReq.
Variable decode_register : string -> outcome User.RegisterReq.
Variable decode_update : string -> outcome User.UpdateReq.
Variable decode_apply : string -> outcome Friend.ApplyReq.
Variable decode_resolve : string -> outcome Friend.ResolveReq.
Variable decode_delete : string -> outcome Friend.DeleteReq.
Variable decode_read : string -> outcome Chat.ReadReq.
Variable decode_create : string -> outcome Group.CreateReq.
Variable decode_group : string -> outcome Group.GroupReq.
Variable decode_approve : string -> outcome Group.ApproveReq.

Definition handle (e : endpoint) : handler :=
  match e with
  | ELogin => User.UserLoginHandler decode_login
  | ERegister => User.UserRegisterHandler decode_register
  | EUserInfo => User.GetUserInfoHandler
  | EUserSearch => User.SearchUserHandler
  | EUserUpdate => User.UpdateUserInfoHandler decode_update
  | EFriendApply => Friend.ApplyFriendHandler decode_apply
  | EFriendResolve => Friend.ResolveFriendHandler decode_resolve
  | EFriendList => Friend.GetFriendListHandler
  | EFriendPending => Friend.GetPendingRequestsHandler
  | EFriendDelete => Friend.DeleteFriendHandler decode_delete
  | EConversations => Chat.GetConversationsHandler
  | EMessages => Chat.GetChatMessagesHandler
  | ERead => Chat.MarkMessageReadHandler decode_read
  | EGroupCreate => Group.CreateGroupHandler decode_create
  | EGroupList => Group.GetGroupListHandler
  | EGroupInfo => Group.GetGroupInfoHandler
  | EGroupMembers => Group.GetGroupMembersHandler
  | EGroupJoin => Group.JoinGroupHandler decode_group
  | EGroupLeave => Group.LeaveGroupHandler decode_group
  | EGroupDissolve => Group.DissolveGroupHandler decode_group
  | EGroupSearch => Group.SearchGroupHandler
  | EGroupRequestJoin => Group.RequestJoinGroupHandler decode_group
  | EGroupApproveJoin => Group.ApproveJoinGroupHandler decode_approve
  | EGroupMessages => Group.GetGroupMessagesHandler
  | EUpload => Upload.UploadHandler uploadDir
  | EUploadDoc => Upload.UploadDocHandler ToLower
  end.

(** JWTAuthMiddleware at time [now]: the user, or the message of the 401. *)
Definition authenticate (now : Z) (authHeader : string) : Z + string :=
  if String.eqb authHeader "" then inr "请求头中缺少 Authorization"
  else match SplitN2 authHeader " " with
       | [scheme; tokenString] =>
           if String.eqb scheme "Bearer" then
             match Token.ParseToken now tokenString with
             | Ok u => inl u
             | Err e | Panic e => inr e
             end
           else inr "Authorization 格式错误"
       | _ => inr "Authorization 格式错误"
       end.

Definition with_ctx (r : Request) (id : string) (u : option Z) : Request := mkRequest (query r) (body r) id u.

(** A request: the CORS middleware, the route, the token, the handler. *)
Definition serve (now : Z) (method path authHeader : string) (r : Request) : prog http (outcome unit) :=
  if String.eqb method "OPTIONS" then _ <- gcall (Respond 204 JNull) ;; Ret (Ok tt)
  else match route method path with
       | None => _ <- gcall (Respond 404 JNull) ;; Ret (Ok tt)
       | Some (e, id) =>
           if public e then handle e (with_ctx r id None)
           else match authenticate now authHeader with
                | inr msg => bad 401 msg
                | inl u => handle e (with_ctx r id (Some u))
                end
       end.

(** *** Whose calls they are *)

(** The calls a handler may make for user [u]: those that name a user name [u];
    the public ones are not among them. *)
Definition acts_as (u : Z) (c : rpc) : Prop :=
  match c with
  | UserLogin _ _ _ | UserRegister _ _ _ _ _ => False
  | UpdateUserInfo v _ _ _ | ApplyFriend v _ _ | ResolveFriend v _ _ | GetFriendList v | DeleteFriend v _
  | GetPendingRequests v | GetConversations v | GetChatHistory v _ _ _ | MarkMessageRead v _ _ _
  | CreateGroup v _ _ | GetGroupList v | JoinGroup v _ | LeaveGroup v _ | DissolveGroup v _
  | GetGroupHistory _ v _ _ => v = u
  | GetUserInfo _ | SearchUser _ | GetGroupInfo _ | GetGroupMembers _ | SearchGroup _ => True
  end.
Definition permitted (u : Z) (c : http_cmd) : Prop := match c with Rpc _ c => acts_as u c | _ => True end.
Definition statuses (e : event http) : list Z := match e with existT (Respond st _) _ => [st] | _ => [] end.

Create HintDb api.

Section serves.
Context {W : Type} (h : env http W) (P : http_cmd -> Prop).
Hypothesis HP : forall c, match c with Rpc _ _ => True | _ => P c end.

(** A handler that answers once, ends normally and makes only permitted calls. *)
Definition serves (p : prog http (outcome unit)) : Prop :=
  only (S := http) P p /\
  always h p (fun out tr => out = Ok tt /\ exists st, view (S := http) statuses tr = [st]).

Lemma serves_respond st f : serves (respond st f).
Proof.
  split; [split; [apply (HP (Respond _ _)) | done] |]. apply always_Do. intros r. apply always_Ret. cbn. eauto.
Qed.
Lemma serves_bad st msg : serves (bad st msg).
Proof. apply serves_respond. Qed.
Lemma serves_failed msg err : serves (failed msg err).
Proof. apply serves_respond. Qed.
Lemma serves_ok_msg msg : serves (ok_msg msg).
Proof. apply serves_respond. Qed.
Lemma serves_ok_data msg d : serves (ok_data msg d).
Proof. apply serves_respond. Qed.

Lemma serves_Do (c : cmd http) (k : res http c -> prog http (outcome unit)) :
  P c -> (forall r, statuses (ev (S := http) c r) = []) -> (forall r, serves (k r)) -> serves (Do (S := http) c k).
Proof.
  intros Hc Hs Hk. split; [split; [done | intros r; apply Hk] |].
  apply always_Do. intros r. eapply always_impl; [apply Hk |]. intros out tr [Ho [st Hst]].
  split; [done |]. exists st. by rewrite view_cons, Hs, Hst.
Qed.

Lemma serves_bind_or {A} (decode : string -> outcome A) r k :
  (forall a, serves (k a)) -> serves (bind_or decode r k).
Proof. intros Hk. unfold bind_or. destruct (decode (body r)); [apply Hk | apply serves_bad ..]. Qed.

Lemma serves_user r u k : user_id r = Some u -> serves (k u) -> serves (with_user r k).
Proof. intros Hu Hk. unfold with_user. by rewrite Hu. Qed.

Lemma serves_call u c msg k : P (Rpc (WithUserRoutingKey u) c) -> (forall a, serves (k a)) -> serves (call_or u c msg k).
Proof.
  intros Hc Hk. apply serves_Do; [done | done |]. intros [a | e | e]; cbn [bind]; [apply Hk | apply serves_failed ..].
Qed.

Lemma serves_tell u receiver g ct (k : prog http (outcome unit)) :
  serves k -> serves (_ <- Group.tell u receiver g ct ;; k).
Proof.
  intros Hk. unfold Group.tell. apply serves_Do; [apply (HP (RouteOf _)) | done |]. intros gw. cbn [bind].
  case_match; [exact Hk |]. apply serves_Do; [apply (HP (PublishDown _ _)) | done |]. by intros [].
Qed.

Lemma serves_save dst k : serves k -> serves (Upload.save dst k).
Proof.
  intros Hk. apply serves_Do; [apply (HP (Create _)) | done |]. intros [u | e | e]; cbn [bind]; [| apply serves_bad ..].
  apply serves_Do; [apply (HP Copy) | done |]. intros [u' | e | e]; cbn [bind]; [exact Hk | apply serves_bad ..].
Qed.

Lemma serves_upload dir r : serves (Upload.UploadHandler dir r).
Proof.
  apply serves_Do; [apply (HP (FormFile _)) | done |]. intros [f | e | e]; cbn [bind]; [| apply serves_bad ..].
  apply serves_Do; [apply (HP NowNano) | done |]. intros now. cbn [bind]. apply serves_save, serves_ok_data.
Qed.

Lemma serves_upload_doc lower r u :
  user_id r = Some u -> (forall k g, P (Rpc k (GetGroupInfo g))) -> serves (Upload.UploadDocHandler lower r).
Proof.
  intros Hu HG. unfold Upload.UploadDocHandler. destruct (ParseInt (param_id r)) as [g | |]; [| apply serves_bad ..].
  eapply serves_user; [exact Hu |]. apply serves_Do; [apply HG | done |].
  intros [info | e | e]; cbn [bind]; [| apply serves_bad ..]. case_match; [apply serves_bad |].
  apply serves_Do; [apply (HP (FormFile _)) | done |]. intros [f | e | e]; cbn [bind]; [| apply serves_bad ..].
  case_match; [apply serves_bad |]. case_match; [apply serves_bad |].
  apply serves_Do; [apply (HP (MkdirAll _)) | done |]. intros [d | e | e]; cbn [bind]; [| apply serves_bad ..].
  apply serves_Do; [apply (HP NowNano) | done |]. intros now. cbn [bind]. apply serves_save, serves_ok_data.
Qed.
End serves.

#[local] Hint Unfold User.GetUserInfoHandler User.SearchUserHandler User.UpdateUserInfoHandler
  Friend.ApplyFriendHandler Friend.ResolveFriendHandler Friend.GetFriendListHandler Friend.DeleteFriendHandler
  Friend.GetPendingRequestsHandler Chat.GetConversationsHandler Chat.GetChatMessagesHandler
  Chat.MarkMessageReadHandler Group.CreateGroupHandler Group.GetGroupListHandler Group.GetGroupInfoHandler
  Group.GetGroupMembersHandler Group.JoinGroupHandler Group.LeaveGroupHandler Group.DissolveGroupHandler
  Group.GetGroupMessagesHandler Group.SearchGroupHandler Group.RequestJoinGroupHandler
  Group.ApproveJoinGroupHandler : api.

(** The steps of the plain handlers. *)
Ltac serve_steps HP :=
  repeat first
    [ apply (serves_ok_msg _ _ HP) | apply (serves_ok_data _ _ HP) | apply (serves_bad _ _ HP)
    | apply (serves_bind_or _ _ HP); intros ?
    | eapply (serves_user _ _ ); [reflexivity |]
    | apply (serves_call _ _ HP); [| intros ?]
    | apply (serves_tell _ _ HP)
    | case_match ].

Lemma permitted_plain u c : match c with Rpc _ _ => True | _ => permitted u c end.
Proof. by destruct c. Qed.

Lemma handler_serves {W} (h : env http W) e r u :
  public e = false -> e <> EGroupApproveJoin -> user_id r = Some u -> serves h (permitted u) (handle e r).
Proof.
  intros Hp Ha Hu. pose proof (permitted_plain u) as HP. destruct r as [q b i u']. cbn in Hu. subst u'.
  destruct e; try discriminate Hp; try congruence; cbn [handle];
    try (by apply (serves_upload _ _ HP)); try (by eapply (serves_upload_doc _ _ HP));
    autounfold with api; serve_steps HP; done.
Qed.

Definition any_call (c : http_cmd) : Prop := True.
Lemma any_plain c : match c with Rpc _ _ => True | _ => any_call c end.
Proof. by destruct c. Qed.

Lemma handler_answers {W} (h : env http W) e r :
  (public e = false -> is_Some (user_id r)) -> serves h any_call (handle e r).
Proof.
  intros Hu. destruct (public e) eqn:Hp.
  - destruct e; try discriminate Hp; cbn [handle]; unfold User.UserLoginHandler, User.UserRegisterHandler;
      (case_match; [| apply (serves_respond _ _ any_plain) ..]); apply (serves_Do _ _ _ _ I);
      try done; intros [?v | ?e | ?e]; cbn [bind]; try case_match; apply (serves_respond _ _ any_plain).
  - destruct (Hu eq_refl) as [u Hu']. destruct r as [q b i u']. cbn in Hu'. subst u'.
    destruct e; try discriminate Hp; cbn [handle];
      try (by apply (serves_upload _ _ any_plain)); try (by eapply (serves_upload_doc _ _ any_plain));
      autounfold with api; serve_steps any_plain; done.
Qed.

(** Every request gets exactly one answer and no handler panics: the middleware has
    set the user wherever a handler asserts it. *)
Theorem one_answer {W} (h : env http W) now method path authHeader r :
  always h (serve now method path authHeader r) (fun out tr =>
    out = Ok tt /\ exists st, view (S := http) statuses tr = [st]).
Proof.
  unfold serve. case_match; [apply always_Do; intros u; apply always_Ret; cbn; eauto |].
  destruct (route method path) as [[e id] |]; [| apply always_Do; intros u; apply always_Ret; cbn; eauto].
  destruct (public e) eqn:Hp; [apply handler_answers; congruence |].
  destruct (authenticate now authHeader) as [u | msg]; [| apply (serves_bad h any_call any_plain)].
  apply handler_answers. by eexists.
Qed.

Definition rpcs (e : event http) : list rpc := match e with existT (Rpc _ c) _ => [c] | _ => [] end.

(** C12: Who a request acts for is decided by its token: without a valid one the logic
    service is not called, and with the token of [u] every call that names a user
    names [u] (but for the approval of a request to join). *)
Theorem token_decides_identity {W} (h : env http W) now method path authHeader r e id :
  method <> "OPTIONS" -> route method path = Some (e, id) -> public e = false -> e <> EGroupApproveJoin ->
  always h (serve now method path authHeader r) (fun _ tr =>
    match authenticate now authHeader with
    | inl u => Forall (acts_as u) (view (S := http) rpcs tr)
    | inr _ => view (S := http) rpcs tr = [] /\ view (S := http) statuses tr = [401]
    end).
Proof.
  intros Hm Hr Hp Ha. unfold serve. rewrite (proj2 (String.eqb_neq _ _) Hm), Hr, Hp.
  destruct (authenticate now authHeader) as [u | msg]; [| apply always_Do; intros v; by apply always_Ret].
  eapply always_impl; [apply (only_always (S := http) (permitted u) h); by apply (handler_serves h) |].
  intros out tr Htr. cbn beta in Htr |- *. induction Htr as [| [c res] tr Hc Htr IH]; [constructor |].
  rewrite (view_cons (S := http)). apply Forall_app. split; [| exact IH]. destruct c; try constructor; [exact Hc | constructor].
Qed.

(** Any user may let any other into any group: nobody asks whether it is theirs. *)
Lemma anyone_approves {W} (h : env http W) q b i u g v w :
  decode_approve b = Ok (Group.mkApprove g v "accept") ->
  exists tr, trace (run h (handle EGroupApproveJoin (mkRequest q b i (Some u))) w) =
    ev (S := http) (Rpc (Itoa u) (JoinGroup v g)) (h (Rpc (Itoa u) (JoinGroup v g)) w).1 :: tr.
Proof.
  intros Hd. cbn [handle]. unfold Group.ApproveJoinGroupHandler, bind_or. cbn [body]. rewrite Hd. cbn.
  unfold call_or, WithUserRoutingKey. cbn. destruct (h _ w) as [res w1]. cbn.
  destruct (run h _ w1) as [[a w2] tr]. by exists tr.
Qed.
End serve.

(** A gateway whose logic service is down and whose clients send no JSON. *)
Definition no_json {A} (_ : string) : outcome A := Err "json".
Definition down : env http unit := fun c w =>
  (match c as c return http_res c with
   | Rpc _ _ | FormFile _ | MkdirAll _ | Create _ | Copy => Err "down"
   | RouteOf _ => ""
   | PublishDown _ _ | Respond _ _ => tt
   | NowNano => 0
   end, w).
Definition friend_list (authHeader : string) : prog http (outcome unit) :=
  @serve Token.toy id "uploads" no_json no_json no_json no_json no_json no_json no_json no_json no_json no_json
    0 "GET" "/api/friend/list" authHeader (mkRequest ∅ "" "" None).

(** A token of user 7 and one that is none. *)
Definition token7 : string := match @Token.GenerateToken Token.toy 0 7 with Ok t => t | _ => "" end.

Lemma token_decides_identity_witness :
  Forall (acts_as 7) (view (S := http) rpcs (trace (run down (friend_list ("Bearer " +:+ token7)) tt))) /\
  view (S := http) statuses (trace (run down (friend_list "Bearer x") tt)) = [401].
Proof.
  assert (forall auth, let tr := trace (run down (friend_list auth) tt) in
    match @authenticate Token.toy 0 auth with
    | inl u => Forall (acts_as u) (view (S := http) rpcs tr)
    | inr _ => view (S := http) rpcs tr = [] /\ view (S := http) statuses tr = [401]
    end) as H.
  { intros auth. exact (@token_decides_identity Token.toy id "uploads" no_json no_json no_json no_json no_json no_json
      no_json no_json no_json no_json unit down 0 "GET" "/api/friend/list" auth (mkRequest ∅ "" "" None) EFriendList ""
      ltac:(discriminate) eq_refl eq_refl ltac:(discriminate) tt). }
  split; [exact (H ("Bearer " +:+ token7)) | exact (proj2 (H "Bearer x"))].
Defined.
End Router.
