(* ===== verification/Boot.v ===== *)
(** * Start and end of the services

    Module Setup: the connections a process opens once (pkg/db/mysql_client.go and
    migrate.go, pkg/cache/redis_client.go, pkg/logger/logger.go,
    agent/callback/cozeloop_trace.go, gateway/rpcclient/client.go) and what starts its
    goroutines (StartMQConsumer, StartUploadConsumer, StartCronJobs, Accept). Module
    Mains: the three main functions over them, as programs over the libraries they
    call; the programs of Mq, Registry and VectorDb are run as they are. Module
    Shutdown: how the agent ends, as a step relation. *)
From S2P Require Import Prelude GoStd Effects Ids Discovery Registry Codec RpcClient Config Dao VectorDb Mq System.
#[local] Open Scope prog_scope.

Module Setup.

Definition nil_pointer : string := "invalid memory address or nil pointer dereference".

(** ** What a process can start, and its package variables *)

(** A singleton: its sync.Once, its handle and the error of its initialisation. *)
Record Single := mkSingle { done : bool; handle : option nat; initErr : option string }.
Definition unset : Single := mkSingle false None None.
Definition result_of (s : Single) : outcome unit :=
  match initErr s with None => Ok tt | Some e => Err e end.

(** reliability.go *)
Record ReliabilityConfig := mkReliability {
  InitialBackoff : Z; MaxBackoff : Z; MaxRetry : Z; DedupWindow : Z;
}.
Record RedisReliabilityManager := mkManager { rdb : nat; config : ReliabilityConfig }.

(** The clients of rpcclient/client.go: one XClient under four service clients. *)
Inductive discovery := EtcdDiscovery (serviceName : string) | MultiServers (servers : list string).
Record XClientOf := mkXClient { disc : discovery; mode : SelectMode; opt : RpcClient.Option }.

Record Globals := mkGlobals {
  logger : option Z;                       (* the level of logger.Log *)
  mysql : Single;
  redis : Single;
  milvus : VectorDb.Init.Once;
  trace : Single;
  snow : Snowflake.PkgState;
  mq : Rabbit.Mq;
  rpc : option XClientOf;
  uploadDir : option string;
  reliability : option RedisReliabilityManager;
  delivered : bool;                        (* onTransportDelivered is set *)
  services : list string;                  (* registered with GrowRPC.DefaultServer *)
}.
Definition fresh : Globals :=
  mkGlobals None unset unset (VectorDb.Init.mkOnce false (Success tt)) unset Snowflake.pkg_init
    (Rabbit.mkMq false None [] 0) None None None false [].

Inductive task :=
| DownConsumer (i : nat)
| UploadConsumer (i : nat)
| BatchInsert (i : nat)
| KeepAliveLoop (r : Etcd.EtcdRegistry)
| ServeConn (conn : nat)
| HttpServer (port : Z)
| McpServer (port : Z).

(** ** The libraries *)
Inductive boot_cmd :=
| OpenLog (c : Files.LogConfig) (level : Z)
| GormOpen (dsn : string)
| GormDB (db : nat)
| SetPool (pool : nat) (idle open : Z)
| AutoMigrate (db : nat) (models : list string)
| HasTable (db : nat) (table : string)
| CountIndex (db : nat) (table index : string)
| AddFullText (db : nat) (table index : string)
| PoolClose (pool : nat)
| RedisNewClient (addr password : string) (database : Z)
| RedisPing (client : nat)
| RedisClose (client : nat)
| Milvus (c : VectorDb.Init.vdb_cmd)
| Amqp (c : Rabbit.amqp_cmd)
| EtcdNewClient (endpoints : list string)
| EtcdCall (c : Etcd.etcd_cmd)
| CozeNewClient (token workspace : string)
| AppendGlobalHandlers (client : nat)
| CozeClose (client : nat)
| CronAddFunc (spec : string)
| CronStart
| MkdirAll (dir : string)
| NetListen (port : Z)
| AcceptConn
| RunHTTP (port : Z) (g : Globals)     (* r.Run: serves until it fails *)
| Go (t : task) (g : Globals).         (* a goroutine, and the variables it finds *)

Definition boot_res (c : boot_cmd) : Type :=
  match c with
  | OpenLog _ _ | SetPool _ _ _ | AppendGlobalHandlers _ | CronStart | CozeClose _ | Go _ _ => unit
  | GormOpen _ => option nat * option string
  | GormDB _ => option nat
  | AutoMigrate _ _ | AddFullText _ _ _ | PoolClose _ | RedisClose _ | EtcdNewClient _ | CronAddFunc _
  | MkdirAll _ | NetListen _ | RunHTTP _ _ => outcome unit
  | HasTable _ _ => bool
  | CountIndex _ _ _ => outcome Z
  | RedisNewClient _ _ _ => nat
  | RedisPing _ => outcome string
  | Milvus c => VectorDb.Init.vdb_res c
  | Amqp c => Rabbit.amqp_res c
  | EtcdCall c => Etcd.etcd_res c
  | CozeNewClient _ _ | AcceptConn => outcome nat
  end.
Definition boot : Sig := mkSig boot_cmd boot_res.
Definition ask (c : boot_cmd) : prog boot (boot_res c) := call (S := boot) c.

Definition on_amqp (c : cmd Rabbit.amqp) : prog boot (res Rabbit.amqp c) := ask (Amqp c).
Definition on_etcd (c : cmd Etcd.etcd) : prog boot (res Etcd.etcd c) := ask (EtcdCall c).
Definition on_milvus (c : cmd VectorDb.Init.vdb) : prog boot (res VectorDb.Init.vdb c) := ask (Milvus c).

(** ** pkg/db *)
Definition InitMySQL (c : Files.MySQLConfig) (s : Single) : prog boot (outcome unit * Single) :=
  if done s then Ret (result_of s, s)
  else
    '(db, err) <- ask (GormOpen (Files.DSN c)) ;;
    let s := mkSingle true db err in
    match db with
    | None => Ret (Panic nil_pointer, s)
    | Some d =>
        pool <- ask (GormDB d) ;;
        match pool with
        | None => Ret (Panic nil_pointer, s)
        | Some p => ask (SetPool p (Files.MaxIdleConns c) (Files.MaxOpenConns c)) ;; Ret (result_of s, s)
        end
    end.

Definition GetDB (s : Single) : outcome nat :=
  match handle s with None => Panic "db not initialized" | Some d => Ok d end.

Definition CloseMySQL (s : Single) : prog boot (outcome unit) :=
  match handle s with
  | None => Ret (Panic nil_pointer)
  | Some d =>
      pool <- ask (GormDB d) ;;
      match pool with
      | None => Ret (Ok tt)
      | Some p => ask (PoolClose p) ;; Ret (Ok tt)
      end
  end.

Definition messages_table : string := "messages".
Definition indexName : string := "ft_messages_content".

Definition EnsureMessagesFullTextIndex (d : nat) : prog boot (outcome unit) :=
  count <- ask (CountIndex d messages_table indexName) ;;
  match count with
  | Ok n => if 0 <? n then Ret (Ok tt) else ask (AddFullText d messages_table indexName)
  | Err e => Ret (Err e)
  | Panic m => Ret (Panic m)
  end.

Definition AutoMigrateTables (models : list string) (s : Single) : prog boot (outcome unit) :=
  match handle s with
  | None => Ret (Panic "db not initialized, call InitMySQL first")
  | Some d =>
      r <- ask (AutoMigrate d models) ;;
      match r with
      | Ok _ =>
          has <- ask (HasTable d messages_table) ;;
          if has then EnsureMessagesFullTextIndex d else Ret (Ok tt)
      | _ => Ret r
      end
  end.

(** ** pkg/cache *)
Definition InitRedis (c : Files.RedisConfig) (s : Single) : prog boot (outcome unit * Single) :=
  if done s then Ret (result_of s, s)
  else
    client <- ask (RedisNewClient (Files.RedisAddr c) (Files.RedisPassword c) (Files.RedisDB c)) ;;
    pong <- ask (RedisPing client) ;;
    match pong with
    | Ok _ => Ret (Ok tt, mkSingle true (Some client) None)
    | Err e => Ret (Err e, mkSingle true (Some client) (Some e))
    | Panic m => Ret (Panic m, mkSingle true (Some client) None)
    end.

Definition GetCache (s : Single) : outcome nat :=
  match handle s with None => Panic "redis client not initialized" | Some c => Ok c end.

Definition CloseRedis (s : Single) : prog boot (outcome unit) :=
  match handle s with
  | None => Ret (Panic nil_pointer)
  | Some c => ask (RedisClose c) ;; Ret (Ok tt)
  end.

(** ** agent/callback/cozeloop_trace.go *)
Definition InitCozeLoop (c : Files.AgentConfig) (s : Single) : prog boot (outcome unit * Single) :=
  if done s then Ret (result_of s, s)
  else
    client <- ask (CozeNewClient (Files.APIToken (Files.Trace c)) (Files.WorkSpaceId (Files.Trace c))) ;;
    match client with
    | Ok n => ask (AppendGlobalHandlers n) ;; Ret (Ok tt, mkSingle true (Some n) None)
    | Err e => Ret (Err e, mkSingle true None (Some e))
    | Panic m => Ret (Panic m, mkSingle true None None)
    end.

Definition CloseTrace (s : Single) : prog boot (outcome unit) :=
  match handle s with
  | None => Ret (Panic nil_pointer)
  | Some n => ask (CozeClose n) ;; Ret (Ok tt)
  end.

(** ** ws/reliability.go *)
Definition NewRedisReliabilityManager (c : option ReliabilityConfig) (cache : Single) : outcome RedisReliabilityManager :=
  let c := default (mkReliability (10 ^ 9) (120 * 10 ^ 9) 8 (24 * 3600 * 10 ^ 9)) c in
  outcome_map (fun rdb => mkManager rdb c) (GetCache cache).

(** ** rpcclient/client.go *)
Definition InitRPCClient (endpoints : list string) : prog boot (outcome XClientOf) :=
  let opt := RpcClient.mkOption RpcClient.MagicNumber (Codec.type_name Codec.ProtobufType) (10 * 10 ^ 9) 0 in
  if 0 <? len endpoints then
    cli <- ask (EtcdNewClient endpoints) ;;
    match cli with
    | Ok _ => Ret (Ok (mkXClient (EtcdDiscovery "LogicService") ConsistentHashSelect opt))
    | Err e => Ret (Panic ("etcd client init failed: " +:+ e))
    | Panic m => Ret (Panic m)
    end
  else Ret (Ok (mkXClient (MultiServers ["tcp@localhost:8001"]) ConsistentHashSelect opt)).

(** ** What starts goroutines *)
Definition downWorkers : nat := 50.
Definition StartMQConsumer (gatewayAddr : string) (g : Globals) : prog boot (outcome unit) :=
  msgs <- interp on_amqp (Rabbit.ConsumeDownQueue ("gateway.queue." +:+ gatewayAddr) gatewayAddr (mq g)) ;;
  match msgs with
  | Ok _ => for_each (seq 0 downWorkers) (fun i => ask (Go (DownConsumer i) g)) ;; Ret (Ok tt)
  | Err e => Ret (Err ("MQ 消费者启动失败: " +:+ e))
  | Panic m => Ret (Panic m)
  end.

Definition StartUploadConsumer (g : Globals) : prog boot (outcome unit) :=
  msgs <- interp on_amqp (Rabbit.ConsumeUploadQueue "logic.upload.queue" Upload.bindingKey (mq g)) ;;
  match msgs with
  | Ok _ =>
      for_each (seq 0 Upload.numBatchWorkers) (fun i => ask (Go (BatchInsert i) g)) ;;
      for_each (seq 0 Upload.uploadWorkers) (fun i => ask (Go (UploadConsumer i) g)) ;;
      Ret (Ok tt)
  | Err e => Ret (Err ("上行消费者启动失败: " +:+ e))
  | Panic m => Ret (Panic m)
  end.

Definition StartCronJobs : prog boot (outcome unit) :=
  r <- ask (CronAddFunc "0 * * * * *") ;;
  match r with
  | Ok _ => ask CronStart ;; Ret (Ok tt)
  | Err e => Ret (Err ("启动定时任务失败: " +:+ e))
  | Panic m => Ret (Panic m)
  end.

(** Server.Accept: [n] bounds the connections; any error ends it. *)
Fixpoint Accept (n : nat) (g : Globals) : prog boot (outcome unit) :=
  match n with
  | O => Ret (Ok tt)
  | S n =>
      conn <- ask AcceptConn ;;
      match conn with
      | Ok c => ask (Go (ServeConn c) g) ;; Accept n g
      | _ => Ret (Ok tt)
      end
  end.

(** ** The index of the messages *)
Definition altered (e : event boot) : list (outcome unit) :=
  match e with existT (AddFullText _ _ _) r => [r] | _ => [] end.
Definition counted (e : event boot) : list (outcome Z) :=
  match e with existT (CountIndex _ _ _) r => [r] | _ => [] end.
Definition found (e : event boot) : list bool := match e with existT (HasTable _ _) r => [r] | _ => [] end.

(** The index is created only when the table is there and the index was counted and
    not found; a migration that succeeds leaves a table without messages, finds the
    index or has created it. *)
Theorem migration_indexes_once {W} (h : env boot W) models s :
  always h (AutoMigrateTables models s) (fun r tr =>
    let alters := view (S := boot) altered tr in let counts := view (S := boot) counted tr in
    let tables := view (S := boot) found tr in
    (alters = [] \/ exists a n, alters = [a] /\ tables = [true] /\ counts = [Ok n] /\ n <= 0) /\
    (r = Ok tt -> tables = [false] \/ (exists n, counts = [Ok n] /\ 0 < n) \/ alters = [Ok tt])).
Proof.
  unfold AutoMigrateTables, EnsureMessagesFullTextIndex, ask, call.
  destruct (handle s) as [d |]; [| by apply always_Ret; split; [left |]].
  apply always_Do. intros [[] | e | e]; cbn [bind]; [| by apply always_Ret; split; [left |]..].
  apply always_Do. intros [|]; cbn [bind]; [| by apply always_Ret; split; [left | left]].
  apply always_Do. intros [n | e | e]; cbn [bind]; [| by apply always_Ret; split; [left |]..].
  destruct (Z.ltb_spec 0 n).
  - apply always_Ret. cbn. split; [by left |]. intros _. right; left. by exists n.
  - apply always_Do. intros r. apply always_Ret. cbn. split; [right; by exists r, n |]. intros ->. by right; right.
Qed.
End Setup.

(** ** The three main functions *)
Module Mains.
Import Setup.

(** A step of a main function: it goes on, ends the process by Fatalf ([Err]) or
    panics, and leaves the package variables. *)
Definition step : Type := Globals -> prog boot (outcome unit * Globals).

Definition andthen (m k : step) : step := fun g =>
  '(r, g) <- m g ;;
  match r with
  | Ok _ => k g
  | _ => Ret (r, g)
  end.
Declare Scope step_scope.
Delimit Scope step_scope with step.
Bind Scope step_scope with step.
Notation "m >> k" := (andthen m k) (at level 60, right associativity) : step_scope.

(** if err := ...; err != nil { logger.Log.Fatalf(text, err) } *)
Definition fatal (text : string) (m : step) : step := fun g =>
  '(r, g) <- m g ;;
  Ret (match r with Err e => Err (text +:+ e) | _ => r end, g).

(** defer: also after a panic, but not after Fatalf, which ends the process. *)
Definition deferring (m : step) (cleanup : Globals -> prog boot unit) : step := fun g =>
  '(r, g) <- m g ;;
  match r with
  | Err _ => Ret (r, g)
  | _ => cleanup g ;; Ret (r, g)
  end.

Definition told (p : Globals -> prog boot (outcome unit)) : step := fun g => r <- p g ;; Ret (r, g).
Definition pure (f : Globals -> outcome Globals) : step := fun g =>
  match f g with Ok g => Ret (Ok tt, g) | Err e => Ret (Err e, g) | Panic m => Ret (Panic m, g) end.

(** *** Setting the package variables *)
Definition with_logger l (g : Globals) := mkGlobals (Some l) (mysql g) (redis g) (milvus g) (trace g) (snow g) (mq g)
  (rpc g) (uploadDir g) (reliability g) (delivered g) (services g).
Definition with_mysql s (g : Globals) := mkGlobals (logger g) s (redis g) (milvus g) (trace g) (snow g) (mq g)
  (rpc g) (uploadDir g) (reliability g) (delivered g) (services g).
Definition with_redis s (g : Globals) := mkGlobals (logger g) (mysql g) s (milvus g) (trace g) (snow g) (mq g)
  (rpc g) (uploadDir g) (reliability g) (delivered g) (services g).
Definition with_milvus o (g : Globals) := mkGlobals (logger g) (mysql g) (redis g) o (trace g) (snow g) (mq g)
  (rpc g) (uploadDir g) (reliability g) (delivered g) (services g).
Definition with_trace s (g : Globals) := mkGlobals (logger g) (mysql g) (redis g) (milvus g) s (snow g) (mq g)
  (rpc g) (uploadDir g) (reliability g) (delivered g) (services g).
Definition with_snow p (g : Globals) := mkGlobals (logger g) (mysql g) (redis g) (milvus g) (trace g) p (mq g)
  (rpc g) (uploadDir g) (reliability g) (delivered g) (services g).
Definition with_mq m (g : Globals) := mkGlobals (logger g) (mysql g) (redis g) (milvus g) (trace g) (snow g) m
  (rpc g) (uploadDir g) (reliability g) (delivered g) (services g).
Definition with_rpc x (g : Globals) := mkGlobals (logger g) (mysql g) (redis g) (milvus g) (trace g) (snow g) (mq g)
  (Some x) (uploadDir g) (reliability g) (delivered g) (services g).
Definition with_dir d (g : Globals) := mkGlobals (logger g) (mysql g) (redis g) (milvus g) (trace g) (snow g) (mq g)
  (rpc g) (Some d) (reliability g) (delivered g) (services g).
Definition with_reliability m (g : Globals) := mkGlobals (logger g) (mysql g) (redis g) (milvus g) (trace g) (snow g)
  (mq g) (rpc g) (uploadDir g) (Some m) (delivered g) (services g).
Definition with_delivered (g : Globals) := mkGlobals (logger g) (mysql g) (redis g) (milvus g) (trace g) (snow g)
  (mq g) (rpc g) (uploadDir g) (reliability g) true (services g).
Definition with_services l (g : Globals) := mkGlobals (logger g) (mysql g) (redis g) (milvus g) (trace g) (snow g)
  (mq g) (rpc g) (uploadDir g) (reliability g) (delivered g) l.

Section mains.
(** zapcore.Level.UnmarshalText; json.Marshal of the value registered in etcd. *)
Variable UnmarshalText : string -> option Z.
Variable Marshal : gmap string string -> string.

Definition InfoLevel : Z := 0.
Definition InitLogger (c : Files.LogConfig) : step := fun g =>
  let level := default InfoLevel (UnmarshalText (Files.Level c)) in
  ask (OpenLog c level) ;; Ret (Ok tt, with_logger level g).

Definition connect_mysql (c : Files.Config) : step := fun g =>
  '(r, s) <- InitMySQL (Files.MySQL c) (mysql g) ;; Ret (r, with_mysql s g).
Definition MustAutoMigrate (models : list string) : step :=
  fatal "[DB] AutoMigrate 失败，服务终止: " (told (fun g => AutoMigrateTables models (mysql g))).
Definition connect_redis (c : Files.Config) : step := fun g =>
  '(r, s) <- InitRedis (Files.Redis c) (redis g) ;; Ret (r, with_redis s g).
Definition connect_milvus (c : Files.Config) : step := fun g =>
  '(r, o) <- interp on_milvus (VectorDb.Init.InitClient (Files.MilvusAddr (Files.Milvus c)) (milvus g)) ;;
  Ret (match r with Success _ => Ok tt | Failure e => Err e end, with_milvus o g).
Definition connect_trace (c : Files.Config) : step := fun g =>
  '(r, s) <- InitCozeLoop (Files.Agent c) (trace g) ;; Ret (r, with_trace s g).
Definition init_snowflake (node : Z) : step := fun g =>
  let '(r, p) := Snowflake.InitSnowflake (int64 node) (snow g) in Ret (r, with_snow p g).
Definition connect_rabbit (c : Files.Config) : step := fun g =>
  '(r, m) <- interp on_amqp (Rabbit.InitRabbitMQ (Files.URL (Files.RabbitMQ c)) (mq g)) ;; Ret (r, with_mq m g).
Definition close_rabbit (g : Globals) : prog boot unit := interp on_amqp (Rabbit.Close (mq g)).
Definition connect_rpc (c : Files.Config) : step := fun g =>
  r <- InitRPCClient (Files.EtcdEndpoints (Files.Server c)) ;;
  match r with
  | Ok x => Ret (Ok tt, with_rpc x g)
  | Err e => Ret (Err e, g)
  | Panic m => Ret (Panic m, g)
  end.
Definition InitUploadDir (dir : string) : step := fun g =>
  r <- ask (MkdirAll dir) ;; Ret (r, with_dir dir g).
Definition InitGatewayReliability (c : ReliabilityConfig) : step :=
  pure (fun g => outcome_map (fun m => with_reliability m g) (NewRedisReliabilityManager (Some c) (redis g))).
Definition SetOnTransportDelivered : step := pure (fun g => Ok (with_delivered g)).

(** *** gateway/main.go *)
Definition run_gateway (c : Files.Config) : step :=
  (told (StartMQConsumer (Files.GatewayAddr (Files.Server c))) >>
   InitGatewayReliability (mkReliability (10 ^ 9) (120 * 10 ^ 9) 12 (24 * 3600 * 10 ^ 9)) >>
   SetOnTransportDelivered >>
   (fun g => _ <- ask (RunHTTP (Files.GatewayPort (Files.Server c)) g) ;; Ret (Ok tt, g)))%step.
Definition gateway_main (config : outcome Files.Config) : step :=
  match config with
  | Ok c =>
      (InitLogger (Files.Log c) >>
       fatal "连接数据库失败: " (connect_mysql c) >>
       fatal "连接缓存失败: " (connect_redis c) >>
       fatal "网关 Snowflake 初始化失败: " (init_snowflake (Files.GatewaySnowflakeNode (Files.Server c))) >>
       connect_rpc c >>
       fatal "初始化上传目录失败: " (InitUploadDir "./uploads") >>
       fatal "初始化 RabbitMQ 失败: " (connect_rabbit c) >>
       deferring (run_gateway c) close_rabbit)%step
  | Err e => fun g => Ret (Err ("配置初始化失败: " +:+ e), g)
  | Panic m => fun g => Ret (Panic m, g)
  end.

(** *** logic/main.go *)
Definition register_services : step :=
  pure (fun g => Ok (with_services ["UserService"; "MsgService"; "FriendService"; "GroupService"] g)).
Definition register_etcd (c : Files.Config) : step := fun g =>
  let endpoints := Files.EtcdEndpoints (Files.Server c) in
  if 0 <? len endpoints then
    client <- ask (EtcdNewClient endpoints) ;;
    match Etcd.NewEtcdRegistry client 10 with
    | Err e => Ret (Err ("etcd 注册中心连接失败: " +:+ e), g)
    | Panic m => Ret (Panic m, g)
    | Ok reg =>
        let addr := "tcp@localhost:" +:+ Itoa (Files.LogicPort (Files.Server c)) in
        '(r, reg) <- interp on_etcd (Etcd.Register Marshal "LogicService" addr None reg) ;;
        match r with
        | Ok _ => ask (Go (KeepAliveLoop reg) g) ;; Ret (Ok tt, g)
        | Err e => Ret (Err ("etcd 服务注册失败: " +:+ e), g)
        | Panic m => Ret (Panic m, g)
        end
    end
  else Ret (Ok tt, g).
Definition run_logic (n : nat) (c : Files.Config) : step :=
  (told StartUploadConsumer >> register_services >> register_etcd c >>
   fatal "network error:" (told (fun _ => ask (NetListen (Files.LogicPort (Files.Server c))))) >>
   told (Accept n))%step.
Definition logic_models : list string := ["User"; "Messages"; "Group"; "GroupMember"; "Friend"; "Conversation"].
(** [n] bounds the connections accepted. *)
Definition logic_main (n : nat) (config : outcome Files.Config) : step :=
  match config with
  | Ok c =>
      (InitLogger (Files.Log c) >>
       fatal "连接数据库失败: " (connect_mysql c) >>
       MustAutoMigrate logic_models >>
       fatal "连接缓存失败: " (connect_redis c) >>
       fatal "Logic Snowflake 初始化失败: " (init_snowflake (Files.LogicSnowflakeNode (Files.Server c))) >>
       fatal "初始化 RabbitMQ 失败: " (connect_rabbit c) >>
       deferring (run_logic n c) close_rabbit)%step
  | Err e => fun g => Ret (Err ("配置初始化失败: " +:+ e), g)
  | Panic m => fun g => Ret (Panic m, g)
  end.

(** *** agent/main.go, up to the wait for a signal *)
Definition agent_models : list string :=
  ["User"; "Messages"; "Group"; "GroupMember"; "AgentSummary"; "ScheduledMessages"].
Definition serve_agent (c : Files.Config) : step := fun g =>
  ask (Go (HttpServer (Files.AgentPort (Files.Server c))) g) ;;
  ask (Go (McpServer (Files.ServerPort (Files.MCP (Files.Agent c)))) g) ;;
  Ret (Ok tt, g).
Definition agent_main (config : outcome Files.Config) : step :=
  match config with
  | Ok c =>
      (InitLogger (Files.Log c) >>
       fatal "连接数据库失败: " (connect_mysql c) >>
       MustAutoMigrate agent_models >>
       fatal "连接缓存失败: " (connect_redis c) >>
       fatal "连接向量数据库失败: " (connect_milvus c) >>
       fatal "网关 Snowflake 初始化失败: " (init_snowflake (Files.AgentSnowflakeNode (Files.Server c))) >>
       told (fun _ => StartCronJobs) >>
       fatal "连接CoozLoop客户端失败: " (connect_trace c) >>
       serve_agent c)%step
  | Err e => fun g => Ret (Err ("配置初始化失败: " +:+ e), g)
  | Panic m => fun g => Ret (Panic m, g)
  end.

(** *** What has to be there before anything is served *)
Notation history := (list (event boot)).
Notation happened c r past := (@ev boot c r ∈ past).

Definition mysql_ok (past : history) (s : Single) : Prop :=
  exists d dsn, s = mkSingle true (Some d) None /\ happened (GormOpen dsn) (Some d, None) past.
Definition redis_ok (past : history) (s : Single) : Prop :=
  exists n pong, s = mkSingle true (Some n) None /\ happened (RedisPing n) (Ok pong) past.
Definition snow_ok (node : Z) (p : Snowflake.PkgState) : Prop :=
  Snowflake.GetSnowflake p = Ok (Snowflake.mkSnowflake 0 0 (int64 node)) /\ 0 <= int64 node <= 1023.
Definition migrated (past : history) : Prop := exists d models, happened (AutoMigrate d models) (Ok tt) past.
Definition consuming (past : history) : Prop := exists ch q n, happened (Amqp (Rabbit.Consume ch q)) (Ok n) past.

(** Before the port of the gateway is open. *)
Definition dark (e : event boot) : Prop := match e with existT (RunHTTP _ _) _ => False | _ => True end.

Definition gateway_ready (c : Files.Config) (past : history) (g : Globals) : Prop :=
  is_Some (logger g) /\ mysql_ok past (mysql g) /\ redis_ok past (redis g) /\
  snow_ok (Files.GatewaySnowflakeNode (Files.Server c)) (snow g) /\ is_Some (rpc g) /\
  uploadDir g = Some "./uploads" /\ Rabbit.ready (mq g) /\ consuming past.
Definition logic_ready (c : Files.Config) (past : history) (g : Globals) : Prop :=
  is_Some (logger g) /\ mysql_ok past (mysql g) /\ migrated past /\ redis_ok past (redis g) /\
  snow_ok (Files.LogicSnowflakeNode (Files.Server c)) (snow g) /\ Rabbit.ready (mq g) /\ consuming past.
Definition agent_ready (c : Files.Config) (past : history) (g : Globals) : Prop :=
  is_Some (logger g) /\ mysql_ok past (mysql g) /\ migrated past /\ redis_ok past (redis g) /\
  VectorDb.Init.initErr (milvus g) = Success tt /\ snow_ok (Files.AgentSnowflakeNode (Files.Server c)) (snow g) /\
  happened CronStart tt past /\ (exists n, trace g = mkSingle true (Some n) None).

(** What an event needs of the events before it. *)
Definition allowed (c : Files.Config) (past : history) (e : event boot) : Prop :=
  match e with
  | existT (Go t g) _ =>
      match t with
      | DownConsumer _ => gateway_ready c past g /\ delivered g = false /\ reliability g = None /\ Forall dark past
      | UploadConsumer _ | BatchInsert _ => logic_ready c past g
      | KeepAliveLoop r =>
          exists l, happened (EtcdCall (Etcd.Put (Etcd.key r) (Etcd.value r) l)) (Ok tt) past /\ Etcd.leaseID r = l
      | ServeConn _ =>
          logic_ready c past g /\ length (services g) = 4%nat /\
          happened (NetListen (Files.LogicPort (Files.Server c))) (Ok tt) past
      | HttpServer _ | McpServer _ => agent_ready c past g
      end
  | existT (RunHTTP _ g) _ =>
      gateway_ready c past g /\ delivered g = true /\
      (exists m, reliability g = Some m /\ GetCache (redis g) = Ok (rdb m)) /\
      forall i, (i < downWorkers)%nat -> exists g0, happened (Go (DownConsumer i) g0) tt past
  | _ => True
  end.

(** Commands that need nothing. *)
Definition quiet (c : cmd boot) : Prop := match c with Go _ _ | RunHTTP _ _ => False | _ => True end.
Lemma quiet_allowed c past (b : cmd boot) r : quiet b -> allowed c past (@ev boot b r).
Proof. by destruct b. Qed.
#[local] Hint Resolve quiet_allowed : core.

(** A past that went on with the port still closed. *)
Definition onto (past past' : history) : Prop := exists l, past' = past ++ l /\ Forall dark l.
Notation "past `onto` past'" := (onto past past') (at level 70).
#[local] Instance onto_preorder : PreOrder onto.
Proof.
  split.
  - intros l. exists []. by rewrite app_nil_r.
  - intros l _ _ (l1 & -> & H1) (l2 & -> & H2). exists (l1 ++ l2). rewrite app_assoc. split; [done | by apply Forall_app].
Qed.
Lemma dark_onto past past' : past `onto` past' -> Forall dark past -> Forall dark past'.
Proof. intros (l & -> & H) H'. by apply Forall_app. Qed.
Lemma onto_snoc (l : history) x : dark x -> l `onto` l ++ [x].
Proof. intros Hx. exists [x]. split; [done | by constructor]. Qed.
Lemma happened_later (e : event boot) past past' : past `onto` past' -> e ∈ past -> e ∈ past'.
Proof. intros (l & -> & _) H. apply elem_of_app. by left. Qed.
Lemma happened_now (e : event boot) past : e ∈ past ++ [e].
Proof. apply elem_of_app. right. by left. Qed.

Lemma mysql_ok_later past past' s : past `onto` past' -> mysql_ok past s -> mysql_ok past' s.
Proof. intros Hp (d & dsn & -> & H). exists d, dsn. eauto using happened_later. Qed.
Lemma redis_ok_later past past' s : past `onto` past' -> redis_ok past s -> redis_ok past' s.
Proof. intros Hp (n & v & -> & H). exists n, v. eauto using happened_later. Qed.
Lemma migrated_later past past' : past `onto` past' -> migrated past -> migrated past'.
Proof. intros Hp (d & ms & H). exists d, ms. eauto using happened_later. Qed.
Lemma consuming_later past past' : past `onto` past' -> consuming past -> consuming past'.
Proof. intros Hp (ch & q & n & H). exists ch, q, n. eauto using happened_later. Qed.

(** One command that needs nothing, whatever its answer. *)
Ltac quietly r :=
  unfold ask, call; cbn [bind sat]; intros r; split; [by apply quiet_allowed |]; cbn [bind].
Ltac by_prefix := cbn [sat]; rewrite <- ?app_assoc;
  first [done | eexists; split; [reflexivity | repeat first [apply Forall_nil; exact I | apply Forall_cons; split; [exact I |]]]].

Section proofs.
Variable c : Files.Config.
Notation sat := (sat (S := boot) (allowed c)).

Lemma sat_andthen past (m k : step) g P :
  sat past (m g) (fun past' x => match x.1 with Ok _ => sat past' (k x.2) P | _ => P past' x end) ->
  sat past (andthen m k g) P.
Proof. intros H. unfold andthen. eapply sat_bind; [exact H |]. by intros past' [[] g']. Qed.

Lemma sat_fatal past text (m : step) g (P : history -> outcome unit * Globals -> Prop) :
  (forall past' x, P past' x -> x.1 <> Ok tt -> forall r, r <> Ok tt -> P past' (r, x.2)) ->
  sat past (m g) P -> sat past (fatal text m g) P.
Proof.
  intros HP H. unfold fatal. eapply sat_bind; [exact H |]. intros past' [[[] | e | e] g'] Hx; cbn; [done | | done].
  by apply (HP _ _ Hx).
Qed.

Lemma amqp_quiet past (b : cmd Rabbit.amqp) : sat past (on_amqp b) (fun past' _ => past `onto` past').
Proof. unfold on_amqp. quietly r. by_prefix. Qed.
Lemma etcd_quiet past (b : cmd Etcd.etcd) : sat past (on_etcd b) (fun past' _ => past `onto` past').
Proof. unfold on_etcd. quietly r. by_prefix. Qed.
Lemma milvus_quiet past (b : cmd VectorDb.Init.vdb) : sat past (on_milvus b) (fun past' _ => past `onto` past').
Proof. unfold on_milvus. quietly r. by_prefix. Qed.

(** *** The steps *)
Definition sets {A} (with_ : A -> Globals -> Globals) (ok : history -> A -> Prop) (g : Globals)
    (past past' : history) (x : outcome unit * Globals) : Prop :=
  past `onto` past' /\ exists a, x.2 = with_ a g /\ (x.1 = Ok tt -> ok past' a).

Lemma sets_fatal {A} (with_ : A -> Globals -> Globals) ok g past past' x :
  sets with_ ok g past past' x -> x.1 <> Ok tt -> forall r, r <> Ok tt -> sets with_ ok g past past' (r, x.2).
Proof. intros (Hp & a & Ha & _) _ r Hr. split; [done |]. by exists a. Qed.

Lemma logger_sat past l g : sat past (InitLogger l g) (sets with_logger (fun _ _ => True) g past).
Proof. unfold InitLogger. quietly r. split; [by_prefix |]. by eexists. Qed.

Lemma mysql_sat past g : done (mysql g) = false -> sat past (connect_mysql c g) (sets with_mysql mysql_ok g past).
Proof.
  intros Hd. unfold connect_mysql, InitMySQL. rewrite Hd. quietly r. destruct r as [[d |] err].
  - quietly pool. destruct pool as [pl |]; [| split; [by_prefix | by eexists]].
    quietly u. split; [by_prefix |]. eexists. split; [done |]. unfold result_of. cbn. destruct err as [e |]; [done |]. intros _.
    exists d, (Files.DSN (Files.MySQL c)). split; [done |]. rewrite <- !app_assoc. apply elem_of_app. right. by left.
  - cbn. split; [by_prefix | by eexists].
Qed.

Lemma redis_sat past g : done (redis g) = false -> sat past (connect_redis c g) (sets with_redis redis_ok g past).
Proof.
  intros Hd. unfold connect_redis, InitRedis. rewrite Hd. quietly n. quietly pong.
  destruct pong as [v | e | e]; (split; [by_prefix |]); eexists; (split; [done |]); [| done..]. intros _.
  exists n, v. split; [done | apply happened_now].
Qed.

Lemma migrate_sat past models g :
  sat past (MustAutoMigrate models g) (fun past' x => past `onto` past' /\ x.2 = g /\ (x.1 = Ok tt -> migrated past')).
Proof.
  unfold MustAutoMigrate. apply sat_fatal; [by intros ? ? (? & ? & _) |].
  unfold told, AutoMigrateTables. destruct (handle (mysql g)) as [d |]; [| by cbn].
  quietly r. destruct r as [[] | e | e]; [| by split_and!; [by_prefix |..]..].
  assert (forall l, migrated (past ++ [@ev boot (AutoMigrate d models) (Ok tt)] ++ l)) as Hm.
  { intros l. exists d, models. apply elem_of_app. right. by left. }
  quietly has. destruct has; [| split_and!; [by_prefix | done |]; intros _; rewrite <- app_assoc; apply Hm].
  unfold EnsureMessagesFullTextIndex. quietly n.
  destruct n as [n | e | e]; [| by split_and!; [by_prefix |..]..].
  destruct (0 <? n); [| quietly r]; (split_and!; [by_prefix | done |]); intros _; rewrite <- !app_assoc; apply Hm.
Qed.

Lemma milvus_sat past g :
  sat past (connect_milvus c g) (sets with_milvus (fun _ o => VectorDb.Init.initErr o = Success tt) g past).
Proof.
  unfold connect_milvus. eapply sat_bind.
  - apply (interp_sat onto) with (P := fun x => x.1 = VectorDb.Init.initErr x.2); [intros; apply milvus_quiet |].
    unfold VectorDb.Init.InitClient. destruct (VectorDb.Init.done _); [done |].
    eapply ends_bind; [apply ends_True |]. intros [[] | e] _; [| done].
    do 2 (eapply ends_bind; [apply ends_True |]; intros ? _). eapply ends_bind; [apply ends_True |]. by intros.
  - cbn. intros past' [r o] [Hp Hr]. split; [done |]. exists o. split; [by destruct r |]. cbn in *. subst r.
    by destruct (VectorDb.Init.initErr o) as [[] |].
Qed.

Lemma trace_sat past g : done (trace g) = false ->
  sat past (connect_trace c g) (sets with_trace (fun _ s => exists n, s = mkSingle true (Some n) None) g past).
Proof.
  intros Hd. unfold connect_trace, InitCozeLoop. rewrite Hd. quietly r.
  destruct r as [n | e | e]; [quietly u | |]; (split; [by_prefix |]); eexists; (split; [done |]); [| done..]. eauto.
Qed.

Lemma snow_sat past node g : snow g = Snowflake.pkg_init ->
  sat past (init_snowflake node g) (sets with_snow (fun _ => snow_ok node) g past).
Proof.
  intros E. unfold init_snowflake, Snowflake.InitSnowflake. rewrite E. cbn.
  destruct ((int64 node <? 0) || (1023 <? int64 node)) eqn:En; cbn; (split; [done |]); eexists; (split; [done |]); [done |].
  intros _. apply orb_false_iff in En as [? ?]. split; [done | lia].
Qed.

Lemma rabbit_sat past g : is_uint64 (Rabbit.publishIdx (mq g)) ->
  sat past (connect_rabbit c g) (sets with_mq (fun _ => Rabbit.ready) g past).
Proof.
  intros Hi. unfold connect_rabbit. eapply sat_bind.
  - eapply (interp_sat onto); [intros; apply amqp_quiet |]. by apply Rabbit.InitRabbitMQ_ready.
  - cbn. intros past' [r m] [Hp Hr]. split; [done |]. by exists m.
Qed.

Lemma rpc_sat past g :
  sat past (connect_rpc c g) (fun past' x => past `onto` past' /\
    (x.1 = Ok tt -> exists a, x.2 = with_rpc a g)).
Proof.
  unfold connect_rpc, InitRPCClient. destruct (0 <? len _); [quietly r; destruct r | cbn]; (split; [try by_prefix |]); try done; eauto.
Qed.

Lemma dir_sat past dir g : sat past (InitUploadDir dir g) (sets with_dir (fun _ d => d = dir) g past).
Proof. unfold InitUploadDir. quietly r. split; [by_prefix |]. by eexists. Qed.

Lemma consume_sat past exchange called n dl q key m :
  sat past (interp on_amqp (Rabbit.consume_queue exchange called n dl q key m)) (fun past' r =>
    past `onto` past' /\ forall msgs, r = Ok msgs -> consuming past').
Proof.
  unfold Rabbit.consume_queue. destruct (Rabbit.channel m) as [ch |]; [| by cbn].
  unfold Rabbit.try. cbn [interp bind call Rabbit.queue_declare]. unfold on_amqp.
  quietly r. destruct r as [q' | |]; [| by split; [by_prefix |]..]. cbn [interp bind].
  quietly r. destruct r as [u | |]; [| by split; [by_prefix |]..]. cbn [interp bind].
  quietly r. destruct r as [u' | |]; [| by split; [by_prefix |]..]. cbn [interp bind].
  quietly r. destruct r as [k | |]; (split; [by_prefix |]); [| done..]. intros msgs _.
  exists ch, q', k. apply happened_now.
Qed.

(** *** Starting goroutines *)
Lemma go_all past (l : list nat) (t : nat -> task) g :
  (forall i past', past `onto` past' -> allowed c past' (@ev boot (Go (t i) g) tt)) ->
  sat past (for_each l (fun i => ask (Go (t i) g))) (fun past' _ =>
    past `onto` past' /\ forall i, i ∈ l -> happened (Go (t i) g) tt past').
Proof.
  intros Ht. revert past Ht. induction l as [| i l IH]; intros past Ht; cbn [for_each].
  - cbn. split; [done |]. by intros ? ?%not_elem_of_nil.
  - unfold ask at 1, call at 1. cbn [bind sat]. intros []. split; [by apply Ht |]. eapply sat_impl.
    + apply IH. intros j past' Hp. apply Ht. etrans; [| exact Hp]; by apply onto_snoc.
    + cbn. intros past' _ [Hp Hin]. split; [etrans; [| exact Hp]; by apply onto_snoc |].
      intros j [-> | Hj]%elem_of_cons; [| auto]. eapply happened_later; [exact Hp | apply happened_now].
Qed.

Lemma gateway_ready_later past past' g :
  past `onto` past' -> gateway_ready c past g -> gateway_ready c past' g.
Proof. intros Hp (? & ? & ? & ? & ? & ? & ? & ?). split_and!; eauto using mysql_ok_later, redis_ok_later, consuming_later. Qed.
Lemma logic_ready_later past past' g :
  past `onto` past' -> logic_ready c past g -> logic_ready c past' g.
Proof. intros Hp (? & ? & ? & ? & ? & ? & ?). split_and!; eauto using mysql_ok_later, redis_ok_later, migrated_later, consuming_later. Qed.

Lemma down_consumers_sat past addr g :
  Forall dark past -> delivered g = false -> reliability g = None ->
  (forall past', past `onto` past' -> consuming past' -> gateway_ready c past' g) ->
  sat past (StartMQConsumer addr g) (fun past' r => past `onto` past' /\
    (r = Ok tt -> gateway_ready c past' g /\ forall i, (i < downWorkers)%nat -> happened (Go (DownConsumer i) g) tt past')).
Proof.
  intros Hd Hn Hm Hg. unfold StartMQConsumer. eapply sat_bind; [apply consume_sat |]. cbn beta.
  intros past1 [msgs | e | e] [H1 Hc]; [| done..]. specialize (Hg past1 H1 (Hc _ eq_refl)).
  eapply sat_bind; [apply go_all |].
  { intros i past' Hp. cbn. split_and!; [by eapply gateway_ready_later | done | done |].
    eapply dark_onto; [| exact Hd]. by etrans. }
  cbn beta. intros past2 _ [H2 Hin]. cbn [sat]. split; [by etrans |]. intros _.
  split; [by eapply gateway_ready_later |]. intros i Hi. apply Hin, elem_of_seq. lia.
Qed.

Lemma upload_consumers_sat past g :
  (forall past', past `onto` past' -> consuming past' -> logic_ready c past' g) ->
  sat past (StartUploadConsumer g) (fun past' r => past `onto` past' /\ (r = Ok tt -> logic_ready c past' g)).
Proof.
  intros Hg. unfold StartUploadConsumer. eapply sat_bind; [apply consume_sat |]. cbn beta.
  intros past1 [msgs | e | e] [H1 Hc]; [| done..]. specialize (Hg past1 H1 (Hc _ eq_refl)).
  eapply sat_bind; [apply go_all; intros i past' Hp; by eapply logic_ready_later |].
  cbn beta. intros past2 _ [H2 _]. eapply sat_bind; [apply go_all; intros i past' Hp; apply (logic_ready_later past1); [by etrans | done] |].
  cbn beta. intros past3 _ [H3 _]. cbn [sat]. split; [by do 2 (etrans; [eassumption |]) |]. intros _.
  apply (logic_ready_later past1); [by etrans | done].
Qed.

Lemma accept_sat past n g :
  (forall past', past `onto` past' -> forall k, allowed c past' (@ev boot (Go (ServeConn k) g) tt)) ->
  sat past (Accept n g) (fun past' _ => past `onto` past').
Proof.
  revert past. induction n as [| n IH]; intros past Hg; cbn [Accept]; [by_prefix |].
  quietly r. destruct r as [k | e | e]; [| by_prefix..].
  unfold ask, call. cbn [bind sat]. intros []. split; [by apply Hg, onto_snoc |].
  eapply sat_impl; [apply IH |].
  - intros past' Hp. apply Hg. etrans; [| exact Hp]. by_prefix.
  - cbn. intros past' _ Hp. etrans; [| exact Hp]. by_prefix.
Qed.

Lemma register_sat past g :
  sat past (register_etcd c g) (fun past' x => past `onto` past' /\ (x.1 = Ok tt -> x.2 = g)).
Proof.
  unfold register_etcd. destruct (0 <? len _); [| by cbn].
  quietly r. destruct r as [[] | e | e]; cbn [Etcd.NewEtcdRegistry outcome_map]; [| by split; [by_prefix |]..].
  unfold Etcd.Register. cbn [interp bind Etcd.grant call]. unfold on_etcd.
  quietly r. destruct r as [l | e | e]; [| by split; [by_prefix |]..].
  cbn [interp bind Etcd.put call]. quietly r. destruct r as [[] | e | e]; [| by split; [by_prefix |]..].
  cbn [interp bind]. unfold ask, call. cbn [bind sat]. intros []. split; [| split; [by_prefix | done]].
  exists l. split; [apply happened_now | done].
Qed.

Lemma sat_deferring past (m : step) g :
  sat past (m g) (fun _ _ => True) ->
  sat past (deferring m close_rabbit g) (fun _ _ => True).
Proof.
  intros H. unfold deferring. eapply sat_bind; [exact H |]. cbn beta. intros past1 [r g1] _.
  assert (sat past1 (close_rabbit g1 ;; Ret (r, g1)) (fun _ _ => True)) as Hc.
  { eapply sat_bind; [apply (interp_sat onto) with (P := fun _ => True); [intros; apply amqp_quiet | apply ends_True] |].
    done. }
  by destruct r.
Qed.

(** One step of a main function that sets a variable, with what it has achieved. *)
Ltac boot_step spec Hp v H :=
  apply sat_andthen; eapply sat_impl;
    [first [apply spec; done | eapply sat_fatal; cycle 1; [apply spec; done | apply sets_fatal]] |];
  cbn beta; intros ? [[[] | ? | ?] ?] (Hp & v & -> & H); [cbn [fst snd] in *; specialize (H eq_refl) | done | done].

Lemma run_gateway_sat past g :
  Forall dark past -> delivered g = false -> reliability g = None ->
  (forall past', past `onto` past' -> consuming past' -> gateway_ready c past' g) ->
  sat past (run_gateway c g) (fun _ _ => True).
Proof.
  intros Hd Hn Hm Hg. unfold run_gateway. apply sat_andthen. unfold told at 1. eapply sat_bind; [by apply down_consumers_sat |].
  cbn beta. intros past1 r [P1 Hr]. cbn [sat fst snd]. destruct r as [[] | e | e]; [| done..].
  destruct (Hr eq_refl) as [Hready Hgo]. clear Hr.
  pose proof Hready as (_ & _ & (n & v & Hredis & _) & _).
  apply sat_andthen. unfold InitGatewayReliability, pure, NewRedisReliabilityManager, GetCache. rewrite Hredis.
  cbn [outcome_map sat fst snd handle]. apply sat_andthen. unfold SetOnTransportDelivered, pure. cbn [sat fst snd].
  unfold ask, call. cbn [bind sat]. intros r. split; [| done].
  split_and!; try done.
  - eexists. split; [done |]. cbn. by rewrite Hredis.
  - eauto.
Qed.

Lemma gateway_sat : sat [] (gateway_main (Ok c) fresh) (fun _ _ => True).
Proof.
  unfold gateway_main.
  boot_step logger_sat P1 level H1. boot_step mysql_sat P2 db H2. boot_step redis_sat P3 cache H3.
  boot_step snow_sat P4 sf H4.
  apply sat_andthen. eapply sat_impl; [apply rpc_sat |]. cbn beta. intros past5 [[[] | ? | ?] g5] (P5 & Hr);
    [| done..]. destruct (Hr eq_refl) as [xc ->]. cbn [fst snd] in *.
  boot_step dir_sat P6 dir H6. boot_step rabbit_sat P7 pool H7. subst dir.
  eapply sat_impl; [apply sat_deferring | done]. apply run_gateway_sat; [| done | done |].
  { eapply dark_onto; [| by apply Forall_nil]. by repeat (etrans; [eassumption |]). }
  intros later Hp Hc. unfold gateway_ready. cbn. split_and!; [by eexists | | | exact H4 | by eexists | done | exact H7 | done].
  - eapply mysql_ok_later; [| exact H2]. by repeat (etrans; [eassumption |]).
  - eapply redis_ok_later; [| exact H3]. by repeat (etrans; [eassumption |]).
Qed.

Lemma run_logic_sat past n g :
  (forall past', past `onto` past' -> consuming past' -> logic_ready c past' g) ->
  sat past (run_logic n c g) (fun past' _ => past `onto` past').
Proof.
  intros Hg. unfold run_logic. apply sat_andthen. unfold told at 1. eapply sat_bind; [by apply upload_consumers_sat |].
  cbn beta. intros past1 r [P1 Hr]. cbn [sat fst snd]. destruct r as [[] | e | e]; [| done..]. specialize (Hr eq_refl).
  apply sat_andthen. unfold register_services, pure. cbn [sat fst snd].
  set (g1 := with_services _ g). assert (logic_ready c past1 g1) as Hr1 by exact Hr.
  apply sat_andthen. eapply sat_impl; [apply register_sat |]. cbn beta. intros past2 [[[] | ? | ?] g2] [P2 E]; cbn [fst snd] in *;
    [rewrite (E eq_refl); clear E | by etrans..].
  apply sat_andthen, sat_fatal. { by intros past' [[[] | ? | ?] ?] H Hx [[] | ? | ?] Hne. }
  unfold told. quietly l. cbn [sat fst snd]. destruct l as [[] | e | e];
    [| by (etrans; [exact P1 | etrans; [exact P2 | by_prefix]])..].
  eapply sat_bind; [apply accept_sat |].
  - intros past' Hp k. cbn. split_and!; [| done |].
    + eapply logic_ready_later; [| exact Hr1]. etrans; [exact P2 |]. etrans; [| exact Hp]. by_prefix.
    + eapply happened_later; [exact Hp | apply happened_now].
  - cbn. intros past' _ Hp. etrans; [exact P1 |]. etrans; [exact P2 |]. etrans; [| exact Hp]. by_prefix.
Qed.

Lemma logic_sat n : sat [] (logic_main n (Ok c) fresh) (fun _ _ => True).
Proof.
  unfold logic_main.
  boot_step logger_sat P1 level H1. boot_step mysql_sat P2 db H2.
  apply sat_andthen. eapply sat_impl; [apply migrate_sat |]. cbn beta. intros past3 [[[] | ? | ?] g3] (P3 & E & Hm);
    [cbn [fst snd] in *; subst g3; specialize (Hm eq_refl) | done..].
  boot_step redis_sat P4 cache H4. boot_step snow_sat P5 sf H5. boot_step rabbit_sat P6 pool H6.
  eapply sat_impl; [apply sat_deferring | done]. eapply sat_impl; [apply run_logic_sat | done].
  intros later Hp Hc. unfold logic_ready. cbn. split_and!; [by eexists | | | | exact H5 | exact H6 | done].
  - eapply mysql_ok_later; [| exact H2]. by repeat (etrans; [eassumption |]).
  - eapply migrated_later; [| exact Hm]. by repeat (etrans; [eassumption |]).
  - eapply redis_ok_later; [| exact H4]. by repeat (etrans; [eassumption |]).
Qed.

Lemma agent_sat : sat [] (agent_main (Ok c) fresh) (fun _ _ => True).
Proof.
  unfold agent_main.
  boot_step logger_sat P1 level H1. boot_step mysql_sat P2 db H2.
  apply sat_andthen. eapply sat_impl; [apply migrate_sat |]. cbn beta. intros past3 [[[] | ? | ?] g3] (P3 & E & Hm);
    [cbn [fst snd] in *; subst g3; specialize (Hm eq_refl) | done..].
  boot_step redis_sat P4 cache H4. boot_step milvus_sat P5 vdb H5. boot_step snow_sat P6 sf H6.
  apply sat_andthen. unfold told at 1, StartCronJobs. quietly r. destruct r as [[] | e | e]; cbn [bind sat fst snd]; [| done..].
  quietly u. destruct u. cbn [sat fst snd].
  boot_step trace_sat P8 tr H8.
  match goal with |- Effects.sat _ ?past _ _ => assert (forall later, past `onto` later -> agent_ready c later
    (with_trace tr (with_snow sf (with_milvus vdb (with_redis cache (with_mysql db (with_logger level fresh))))))) as Hr end.
  { intros later Hp. unfold agent_ready. cbn. split_and!; [by eexists | | | | exact H5 | exact H6 | | exact H8].
    - eapply mysql_ok_later; [| exact H2]. do 4 (etrans; [eassumption |]). etrans; [| etrans; [exact P8 | exact Hp]]. by_prefix.
    - eapply migrated_later; [| exact Hm]. do 3 (etrans; [eassumption |]). etrans; [| etrans; [exact P8 | exact Hp]]. by_prefix.
    - eapply redis_ok_later; [| exact H4]. do 2 (etrans; [eassumption |]). etrans; [| etrans; [exact P8 | exact Hp]]. by_prefix.
    - eapply happened_later; [etrans; [exact P8 | exact Hp] | apply happened_now]. }
  unfold serve_agent, ask, call. cbn [bind sat]. intros []. split; [by apply Hr |].
  intros []. split; [| done]. by apply Hr, onto_snoc.
Qed.
End proofs.

End mains.

(** ** Runs *)

(** Libraries that answer: whether the index exists, whether the port is free, a counter. *)
Record Outside := mkOutside { indexed : bool; free : bool; counter : nat }.
Definition tick (w : Outside) : Outside := mkOutside (indexed w) (free w) (S (counter w)).
Definition vdb_answer (c : cmd VectorDb.Init.vdb) : res VectorDb.Init.vdb c :=
  match c as c return VectorDb.Init.vdb_res c with
  | VectorDb.Init.Sleep => tt
  | VectorDb.Init.HasCollection _ => Success true
  | _ => Success tt
  end.
Definition etcd_answer (c : cmd Etcd.etcd) : res Etcd.etcd c :=
  match c as c return Etcd.etcd_res c with
  | Etcd.Grant _ => Ok 7
  | Etcd.KaRecv => false
  | Etcd.CtxDone | Etcd.SleepOrDone _ => None
  | _ => Ok tt
  end.
Definition outside : env boot Outside := fun c w =>
  match c return boot_res c * Outside with
  | OpenLog _ _ | SetPool _ _ _ | AppendGlobalHandlers _ | CronStart | CozeClose _ | Go _ _ => (tt, w)
  | GormOpen _ => ((Some (counter w), None), tick w)
  | GormDB _ => (Some (counter w), tick w)
  | AutoMigrate _ _ | PoolClose _ | RedisClose _ | EtcdNewClient _ | CronAddFunc _ | MkdirAll _ => (Ok tt, w)
  | AddFullText _ _ _ =>
      if indexed w then (Err "Error 1061 (42000): Duplicate key name 'ft_messages_content'", w)
      else (Ok tt, mkOutside true (free w) (counter w))
  | HasTable _ _ => (true, w)
  | CountIndex _ _ _ => (Ok (if indexed w then 1 else 0), w)
  | RedisNewClient _ _ _ => (counter w, tick w)
  | RedisPing _ => (Ok "PONG", w)
  | Milvus c => (vdb_answer c, w)
  | Amqp c => let '(r, n) := broker_env c (counter w) in (r, mkOutside (indexed w) (free w) n)
  | EtcdCall c => (etcd_answer c, w)
  | CozeNewClient _ _ => (Ok (counter w), tick w)
  | AcceptConn => (Ok (counter w), tick w)
  | NetListen _ => (if free w then Ok tt else Err "bind: address already in use", w)
  | RunHTTP _ _ => (Ok tt, w)
  end.

Definition sample_config : Files.Config :=
  Files.mkConfig
    (Files.mkServer 8080 8001 8050 1 2 3 "localhost:8050" "localhost:8080" "localhost:8001" ["etcd:2379"])
    (Files.mkMySQL "dsn" 10 100) (Files.mkRedis "redis:6379" "" 0)
    (Files.mkAgent "deepseek" ∅ (Files.mkTrace "ws" "token") (Files.mkMCP "" 8051))
    (Files.mkLog "info" "app.log" 10 5 30 false) (Files.mkRabbit "amqp://localhost" "") (Files.mkMilvus "milvus" "" "").

Definition starts (e : event boot) : list (string * Globals) :=
  match e with
  | existT (RunHTTP _ g) _ => [("http", g)]
  | existT (Go t g) _ =>
      [(match t with DownConsumer _ => "down" | UploadConsumer _ => "upload" | BatchInsert _ => "batch"
        | KeepAliveLoop _ => "keepalive" | ServeConn _ => "conn" | HttpServer _ => "agent" | McpServer _ => "mcp" end, g)]
  | _ => []
  end.
Definition started (tr : list (event boot)) : list string := (view (S := boot) starts tr).*1.
Definition run_main (m : step) (w : Outside) : outcome unit * list string :=
  let out := run outside (m fresh) w in ((result out).1, started (Effects.trace out)).

(** When everything answers, the services do start: fifty consumers and the HTTP server;
    four batch workers, fifty consumers, the keep-alive and the connections; the agent. *)
Lemma services_start :
  let w := mkOutside false true 0 in
  run_main (gateway_main (fun _ => None) (Ok sample_config)) w = (Ok tt, replicate 50 "down" ++ ["http"]) /\
  run_main (logic_main (fun _ => None) (fun _ => "{}") 2 (Ok sample_config)) w =
    (Ok tt, replicate 4 "batch" ++ replicate 50 "upload" ++ ["keepalive"; "conn"; "conn"]) /\
  run_main (agent_main (fun _ => None) (Ok sample_config)) w = (Ok tt, ["agent"; "mcp"]).
Proof. split_and!; vm_compute; reflexivity. Qed.


(** The logic service is registered in etcd before its port is open: when the port is
    taken it ends, and its address stays registered until the lease runs out. *)
Lemma registered_before_listening :
  let out := run outside (logic_main (fun _ => None) (fun _ => "{}") 2 (Ok sample_config) fresh) (mkOutside true false 0) in
  (result out).1 = Err "network error:bind: address already in use" /\
  view (S := boot) (fun e => match e with
    | existT (EtcdCall (Etcd.Put k _ _)) _ => [k]
    | existT (EtcdCall (Etcd.Revoke _)) _ => ["revoked"]
    | _ => [] end) (Effects.trace out) = ["/services/LogicService/tcp@localhost:8001"].
Proof. split; vm_compute; reflexivity. Qed.

(** Two services that start together both count no index; the second to create it ends. *)
Inductive two_step : prog boot (outcome unit) * prog boot (outcome unit) * Outside ->
                     prog boot (outcome unit) * prog boot (outcome unit) * Outside -> Prop :=
| step_left b k p w : two_step (Do b k, p, w) (k (outside b w).1, p, (outside b w).2)
| step_right b k p w : two_step (p, Do b k, w) (p, k (outside b w).1, (outside b w).2).
Lemma concurrent_migration_fails :
  rtc two_step (EnsureMessagesFullTextIndex 0, EnsureMessagesFullTextIndex 0, mkOutside false true 0)
    (Ret (Ok tt), Ret (Err "Error 1061 (42000): Duplicate key name 'ft_messages_content'"), mkOutside true true 0).
Proof.
  eapply rtc_l; [apply step_left |]. eapply rtc_l; [apply step_right |].
  eapply rtc_l; [apply step_left |]. eapply rtc_l; [apply step_right |]. apply rtc_refl.
Qed.

(** A connection that cannot be accepted ends the logic service, without an error. *)
Lemma accept_error_ends_service {W} (h : env boot W) n g w e :
  (h AcceptConn w).1 = Err e -> result (run h (Accept (S n) g) w) = Ok tt /\ length (Effects.trace (run h (Accept (S n) g) w)) = 1%nat.
Proof. intros E. cbn. destruct (h AcceptConn w) as [r w']. cbn in E. subst r. done. Qed.
End Mains.

(** ** How the agent ends *)
Module Shutdown.

(** What main closes, in this order, once the HTTP server is down. *)
Inductive resource := TraceClient | Cron | MilvusClient | RedisClient | SqlPool.
Definition closing_order : list resource := [TraceClient; Cron; MilvusClient; RedisClient; SqlPool].

Inductive main_at := WaitSignal | StoppingHTTP | Closing (rest : list resource) | MainReturned.
Inductive server_at := Listening | Returned.

(** The process: [exit] is its exit code once it has ended. *)
Record State := mkState {
  signalled : bool;
  main : main_at;
  http : server_at;
  http_down : bool;              (* serve.Shutdown has been called *)
  mcp : server_at;
  mcp_down : bool;               (* sse.Shutdown has been called *)
  closed : list resource;
  exit : option Z;
}.
Definition init : State := mkState false WaitSignal Listening false Listening false [] None.

Definition set_main m (s : State) := mkState (signalled s) m (http s) (http_down s) (mcp s) (mcp_down s) (closed s) (exit s).
Definition set_http x (s : State) := mkState (signalled s) (main s) x (http_down s) (mcp s) (mcp_down s) (closed s) (exit s).
Definition set_mcp x (s : State) := mkState (signalled s) (main s) (http s) (http_down s) x (mcp_down s) (closed s) (exit s).
Definition exits code (s : State) :=
  mkState (signalled s) (main s) (http s) (http_down s) (mcp s) (mcp_down s) (closed s) (Some code).

Section shutdown.
(** What SSEServer.Start returns once Shutdown has been called. *)
Variable start_after_shutdown : outcome unit.

Inductive step : State -> State -> Prop :=
| step_signal s : exit s = None ->
    step s (mkState true (main s) (http s) (http_down s) (mcp s) (mcp_down s) (closed s) None)
(** ListenAndServe fails by itself: Fatalf. After Shutdown it returns ErrServerClosed, which is passed over. *)
| step_http_fails s : exit s = None -> http s = Listening -> http_down s = false -> step s (exits 1 s)
| step_http_closed s : exit s = None -> http s = Listening -> http_down s = true -> step s (set_http Returned s)
(** mcp.Start: a goroutine shuts the server down; whatever error Start returns is fatal. *)
| step_mcp_shutdown s : exit s = None -> signalled s = true ->
    step s (mkState true (main s) (http s) (http_down s) (mcp s) true (closed s) None)
| step_mcp_fails s : exit s = None -> mcp s = Listening -> mcp_down s = false -> step s (exits 1 s)
| step_mcp_returns s : exit s = None -> mcp s = Listening -> mcp_down s = true ->
    step s (match start_after_shutdown with Ok _ => set_mcp Returned s | _ => exits 1 s end)
(** main *)
| step_main_signalled s : exit s = None -> main s = WaitSignal -> signalled s = true ->
    step s (mkState true StoppingHTTP (http s) true (mcp s) (mcp_down s) (closed s) None)
| step_main_stopped s : exit s = None -> main s = StoppingHTTP -> step s (set_main (Closing closing_order) s)
| step_main_closes s r rest : exit s = None -> main s = Closing (r :: rest) ->
    step s (mkState (signalled s) (Closing rest) (http s) (http_down s) (mcp s) (mcp_down s) (closed s ++ [r]) None)
| step_main_returns s : exit s = None -> main s = Closing [] -> step s (exits 0 (set_main MainReturned s)).

Definition reachable (s : State) : Prop := rtc step init s.

Definition Inv (s : State) : Prop :=
  (main s <> WaitSignal -> signalled s = true /\ http_down s = true) /\
  match main s with
  | WaitSignal | StoppingHTTP => closed s = []
  | Closing rest => closed s ++ rest = closing_order
  | MainReturned => closed s = closing_order /\ exit s = Some 0
  end /\
  (exit s = Some 0 -> main s = MainReturned).

Lemma shutdown_step_Inv s s' : Inv s -> step s s' -> Inv s'.
Proof.
  intros (H1 & H2 & H3) Hst. destruct Hst; unfold Inv in *; cbn in *;
    repeat match goal with H : main _ = _ |- _ => rewrite H in * end; cbn in *;
    try match goal with |- context [start_after_shutdown] => destruct start_after_shutdown; cbn end; split_and!; cbn; auto; try done; try (intros; by apply H1);
    try (destruct (main s) eqn:?; naive_solver); try naive_solver.
  - by rewrite H2.
  - by rewrite <- app_assoc.
  - by rewrite app_nil_r in H2.
Qed.

(** However the process ends: what main closes it closes in order, each once, only after
    a signal and after the HTTP server was told to stop; it exits with 0 only when all
    of it is closed, and nothing happens after it has exited. *)
Theorem closes_in_order s :
  reachable s ->
  closed s `prefix_of` closing_order /\
  (closed s <> [] -> signalled s = true /\ http_down s = true) /\
  (exit s = Some 0 -> closed s = closing_order) /\
  (is_Some (exit s) -> forall s', ~ step s s').
Proof.
  intros Hr. assert (Inv s) as (H1 & H2 & H3).
  { revert s Hr. apply rtc_ind_r; [by split_and! | intros; by eapply shutdown_step_Inv]. }
  split_and!.
  - destruct (main s); try (rewrite H2; by eexists); [by eexists | destruct H2 as [-> _]; by eexists].
  - intros Hc. apply H1. intros E. by rewrite E in H2.
  - intros He. rewrite (H3 He) in H2. by destruct H2.
  - intros [code He] s' Hst. by inversion Hst; congruence.
Qed.
End shutdown.

(** net/http returns ErrServerClosed after a Shutdown, and SSEServer.Start returns that:
    the goroutine of the MCP server takes it for a failure and ends the process with
    code 1, before main has closed anything. *)
Lemma signal_ends_in_fatal :
  exists s, reachable (Err "http: Server closed") s /\ exit s = Some 1 /\ closed s = [] /\ http s = Listening.
Proof.
  eexists. split.
  - unfold reachable. eapply rtc_l; [by apply step_signal |]. eapply rtc_l; [by apply step_mcp_shutdown |].
    eapply rtc_l; [by apply step_mcp_returns |]. apply rtc_refl.
  - by split_and!.
Qed.

(** A whole shutdown of an agent whose MCP server returns nil. *)
Lemma closes_in_order_witness :
  exists s, reachable (Ok tt) s /\ exit s = Some 0 /\ closed s = closing_order.
Proof.
  assert (exists s, reachable (Ok tt) s /\ exit s = Some 0) as (s & Hr & He).
  { eexists. split; [unfold reachable |].
    - eapply rtc_l; [by apply step_signal |]. eapply rtc_l; [by apply step_main_signalled |].
      eapply rtc_l; [by apply step_main_stopped |].
      do 5 (eapply rtc_l; [by eapply step_main_closes |]). eapply rtc_l; [by apply step_main_returns |]. apply rtc_refl.
    - done. }
  exists s. split_and!; [exact Hr | exact He |]. by apply (closes_in_order _ _ Hr).
Defined.
End Shutdown.
