(* ===== verification/Schema.v ===== *)
(** * The schema: the tags of logic/models and agent/models, and pkg/db/migrate.go

    Both services migrate the one database when they start. The models are what the
    gorm tags of their structs declare; a migration creates what is missing and leaves
    what is there. Module Migration: what the tables look like after any sequence of
    starts, complete or broken off. Module Members: what the key of group_members
    allows, against the statements of Dao. *)
From S2P Require Import Prelude GoStd Effects Dao Boot.

(** A column, or an index with its columns in order; an index without a name is called
    idx_<table>_<column>. *)
Inductive part := Column (c : string) | Index (name : string).
#[export] Instance part_eq_dec : EqDecision part.
Proof. solve_decision. Defined.
#[export] Instance part_countable : Countable part.
Proof.
  refine (inj_countable' (fun p => match p with Column c => inl c | Index n => inr n end)
            (fun s => match s with inl c => Column c | inr n => Index n end) _).
  by intros [].
Defined.

Inductive kind := Plain | Unique | FullText.
Inductive shape := IsColumn | IsIndex (k : kind) (columns : list string).
#[export] Instance kind_eq_dec : EqDecision kind.
Proof. solve_decision. Defined.
#[export] Instance shape_eq_dec : EqDecision shape.
Proof. solve_decision. Defined.

Record Model := { mTable : string; mParts : list (part * shape) }.
Definition mkModel (table : string) (columns : list string) (indexes : list (string * (kind * list string))) : Model :=
  {| mTable := table;
     mParts := ((fun c => (Column c, IsColumn)) <$> columns) ++ ((fun i => (Index i.1, IsIndex i.2.1 i.2.2)) <$> indexes) |}.
Definition primary (c : string) : string * (kind * list string) := ("PRIMARY", (Unique, [c])).
Definition index (table c : string) : string * (kind * list string) := ("idx_" +:+ table +:+ "_" +:+ c, (Plain, [c])).
Definition unique (table c : string) : string * (kind * list string) := ("idx_" +:+ table +:+ "_" +:+ c, (Unique, [c])).

Module LogicModels.
Definition User : Model := mkModel "users"
  ["user_id"; "username"; "password"; "nickname"; "avatar"; "create_time"; "update_time"]
  [primary "user_id"; unique "users" "username"].
Definition Messages : Model := mkModel "messages"
  ["msg_id"; "seq_id"; "sender_id"; "receiver_id"; "group_id"; "is_read"; "content"; "send_status"; "create_time"]
  [primary "msg_id"; index "messages" "seq_id"; index "messages" "sender_id";
   index "messages" "receiver_id"; ("idx_receiver_read", (Plain, ["receiver_id"; "is_read"])); index "messages" "group_id"].
Definition Group : Model := mkModel "groups"
  ["group_id"; "group_name"; "owner_id"; "creator_id"; "create_time"]
  [primary "group_id"].
Definition GroupMember : Model := mkModel "group_members"
  ["id"; "group_id"; "user_id"; "role"; "join_time"]
  [primary "id"; ("uk_group_user", (Unique, ["group_id"; "user_id"]))].
Definition Friend : Model := mkModel "friends"
  ["id"; "user_id"; "friend_id"; "status"; "remark"; "create_time"; "update_time"]
  [primary "id"; ("uk_user_friend", (Unique, ["user_id"; "friend_id"])); index "friends" "status"].
Definition Conversation : Model := mkModel "conversations"
  ["id"; "owner_id"; "target_id"; "session_type"; "unread_count"; "last_message_id"; "is_top"; "update_time"]
  [primary "id"; ("uk_owner_target", (Unique, ["owner_id"; "target_id"; "session_type"])); index "conversations" "update_time"].
Definition all : list Model := [User; Messages; Group; GroupMember; Friend; Conversation].
End LogicModels.

Module AgentModels.
Definition User : Model := mkModel "users"
  ["user_id"; "username"; "password"; "nickname"; "avatar"; "create_time"; "update_time"]
  [primary "user_id"; unique "users" "username"].
Definition Messages : Model := mkModel "messages"
  ["msg_id"; "seq_id"; "sender_id"; "receiver_id"; "group_id"; "is_read"; "content"; "send_status"; "create_time"]
  [primary "msg_id"; index "messages" "seq_id"; index "messages" "sender_id";
   index "messages" "receiver_id"; ("idx_receiver_read", (Plain, ["receiver_id"; "is_read"])); index "messages" "group_id"].
Definition Group : Model := mkModel "groups"
  ["group_id"; "group_name"; "owner_id"; "creator_id"; "create_time"]
  [primary "group_id"].
Definition GroupMember : Model := mkModel "group_members"
  ["id"; "group_id"; "user_id"; "join_time"]
  [primary "id"; ("uk_group_user", (Unique, ["group_id"]))].
Definition AgentSummary : Model := mkModel "agent_summaries"
  ["id"; "user_id"; "session_id"; "summary"; "memory_type"; "tags"; "importance"; "create_time"]
  [primary "id"; ("idx_session", (Plain, ["user_id"; "session_id"])); index "agent_summaries" "memory_type";
   index "agent_summaries" "importance"].
Definition ScheduledMessages : Model := mkModel "scheduled_messages"
  ["msg_id"; "creator_id"; "receiver_id"; "group_id"; "content"; "scheduled_send_time"; "status"; "actual_send_time"; "fail_reason"; "create_time"; "update_time"]
  [primary "msg_id"; index "scheduled_messages" "creator_id"; index "scheduled_messages" "receiver_id";
   index "scheduled_messages" "group_id"].
Definition all : list Model := [User; Messages; Group; GroupMember; AgentSummary; ScheduledMessages].
End AgentModels.

Module Migration.

(** A table is the parts it has. *)
Notation Table := (gmap part shape).
Notation Schema := (gmap string (gmap part shape)).
Definition shape_of (db : Schema) (t : string) (p : part) : option shape := tb ← db !! t; tb !! p.

(** What gorm's AutoMigrate documents: a missing table is created, columns and indexes
    that are missing, by name, are added, and what is there is left as it is. *)
Definition extended (m : Model) (tb : Table) : Table := tb ∪ list_to_map (mParts m).
Definition migrated (db : Schema) (m : Model) : Schema := <[mTable m := extended m (default ∅ (db !! mTable m))]> db.

(** EnsureMessagesFullTextIndex, as far as the schema goes. *)
Definition full_text : shape := IsIndex FullText ["content"].
Definition indexed (db : Schema) : Schema :=
  alter (fun tb => tb ∪ {[Index Setup.indexName := full_text]}) Setup.messages_table db.

Inductive service := Logic | Agent.
Definition models (s : service) : list Model := match s with Logic => LogicModels.all | Agent => AgentModels.all end.

(** A start: how many models were migrated before it broke off, and whether the
    full-text index was seen to. *)
Record start := mkStart { who : service; upto : nat; ensured : bool }.
Definition complete (s : service) : start := mkStart s (length (models s)) true.
Definition begin (db : Schema) (s : start) : Schema :=
  let db' := foldl migrated db (take (upto s) (models (who s))) in if ensured s then indexed db' else db'.
Definition schema (history : list start) : Schema := foldl begin ∅ history.

Lemma shape_of_migrated db m t p :
  shape_of (migrated db m) t p =
    match shape_of db t p with
    | Some s => Some s
    | None => if decide (mTable m = t) then (list_to_map (mParts m) : Table) !! p else None
    end.
Proof.
  unfold shape_of, migrated, extended. case_decide as Ht.
  - subst t. rewrite lookup_insert_eq. cbn. destruct (db !! mTable m) as [tb |]; cbn.
    + rewrite lookup_union. destruct (tb !! p); cbn; [by destruct (list_to_map _ !! p) | by destruct (list_to_map _ !! p)].
    + by rewrite (left_id_L ∅ (∪)).
  - rewrite lookup_insert_ne by done. destruct (db !! t) as [tb |]; cbn; [by destruct (tb !! p) | done].
Qed.

Lemma shape_of_indexed db t p :
  shape_of (indexed db) t p =
    match shape_of db t p with
    | Some s => Some s
    | None => if decide (t = Setup.messages_table /\ is_Some (db !! t) /\ p = Index Setup.indexName) then Some full_text else None
    end.
Proof.
  unfold shape_of, indexed. destruct (decide (t = Setup.messages_table)) as [-> | Ht].
  - rewrite lookup_alter_eq. destruct (db !! Setup.messages_table) as [tb |] eqn:E; cbn; [| case_decide; naive_solver].
    rewrite lookup_union, lookup_singleton. destruct (tb !! p); cbn; repeat case_decide; naive_solver.
  - rewrite lookup_alter_ne by done. destruct (db !! t) as [tb |]; cbn; [destruct (tb !! p); [done |] |]; case_decide; naive_solver.
Qed.

(** ** What a migration keeps and brings *)
Lemma foldl_keeps ms db t p s : shape_of db t p = Some s -> shape_of (foldl migrated db ms) t p = Some s.
Proof.
  revert db. induction ms as [| m ms IH]; intros db H; [done |]. cbn. apply IH. by rewrite shape_of_migrated, H.
Qed.

Lemma begin_keeps db st t p s : shape_of db t p = Some s -> shape_of (begin db st) t p = Some s.
Proof.
  intros H. unfold begin. apply (foldl_keeps (take (upto st) (models (who st)))) in H.
  destruct (ensured st); [by rewrite shape_of_indexed, H | done].
Qed.

Lemma schema_keeps h db t p s : shape_of db t p = Some s -> shape_of (foldl begin db h) t p = Some s.
Proof. revert db. induction h as [| st h IH]; intros db H; [done |]. cbn. by apply IH, begin_keeps. Qed.

Lemma foldl_brings ms db m p s :
  m ∈ ms -> (p, s) ∈ mParts m -> is_Some (shape_of (foldl migrated db ms) (mTable m) p).
Proof.
  intros Hm Hp. revert db. induction ms as [| m' ms IH]; intros db; [set_solver |].
  apply elem_of_cons in Hm as [-> | Hm]; [| by apply IH]. cbn [foldl].
  destruct (shape_of (migrated db m') (mTable m') p) as [s' |] eqn:E; [exists s'; by apply foldl_keeps |].
  rewrite shape_of_migrated, decide_True in E by done. destruct (shape_of db _ _); [done |].
  apply not_elem_of_list_to_map_2 in E. destruct E. apply list_elem_of_fmap. by exists (p, s).
Qed.

(** A complete start leaves every column and index of its models, under any later history. *)
Lemma complete_brings h svc m p s :
  complete svc ∈ h -> m ∈ models svc -> (p, s) ∈ mParts m -> is_Some (shape_of (schema h) (mTable m) p).
Proof.
  unfold schema. generalize (∅ : Schema) as db. induction h as [| st h IH]; intros db Hc Hm Hp; [set_solver |].
  apply elem_of_cons in Hc as [<- | Hc]; [| by apply IH]. cbn [foldl].
  assert (is_Some (shape_of (begin db (complete svc)) (mTable m) p)) as [s' Hs'].
  { unfold begin, complete. cbn [upto who ensured]. rewrite firstn_all. destruct (foldl_brings (models svc) db m p s Hm Hp) as [s' E].
    exists s'. by rewrite shape_of_indexed, E. }
  exists s'. by apply schema_keeps.
Qed.

Lemma complete_indexed h svc :
  complete svc ∈ h -> is_Some (shape_of (schema h) Setup.messages_table (Index Setup.indexName)).
Proof.
  unfold schema. generalize (∅ : Schema) as db. induction h as [| st h IH]; intros db Hc; [set_solver |].
  apply elem_of_cons in Hc as [<- | Hc]; [| by apply IH]. cbn [foldl].
  assert (is_Some (shape_of (begin db (complete svc)) Setup.messages_table (Index Setup.indexName))) as [s' Hs'].
  { unfold begin, complete. cbn [upto who ensured]. rewrite firstn_all, shape_of_indexed.
    destruct (shape_of _ _ _) eqn:E; [by eexists |]. rewrite decide_True; [by eexists |]. split_and!; [done | | done].
    assert (exists m, m ∈ models svc /\ mTable m = Setup.messages_table /\ (Column "content", IsColumn) ∈ mParts m) as (m & Hm & Ht & Hp).
    { destruct svc; [exists LogicModels.Messages | exists AgentModels.Messages]; cbn; set_solver. }
    destruct (foldl_brings (models svc) db m _ _ Hm Hp) as [s' E']. rewrite Ht in E'. unfold shape_of in E'.
    destruct (foldl migrated db (models svc) !! Setup.messages_table); [by eexists | done]. }
  exists s'. by apply schema_keeps.
Qed.

(** ** The schema of the documented order: logic first, then the agent (README.md) *)
Definition documented : Schema := schema [complete Logic; complete Agent].
Definition disputed (t : string) (p : part) : bool :=
  bool_decide (t = "group_members") && bool_decide (p = Index "uk_group_user").

Lemma models_agree m p s :
  m ∈ models Logic ++ models Agent -> (p, s) ∈ mParts m -> disputed (mTable m) p = false ->
  shape_of documented (mTable m) p = Some s.
Proof.
  assert (Forall (fun m => Forall (fun x => disputed (mTable m) x.1 = false -> shape_of documented (mTable m) x.1 = Some x.2) (mParts m))
            (models Logic ++ models Agent)) as H by (apply (bool_decide_unpack _); vm_compute; exact I).
  rewrite Forall_forall in H. intros Hm Hp Hd. specialize (H m Hm). rewrite Forall_forall in H. by apply (H (p, s)).
Qed.

Definition agrees (db : Schema) : Prop :=
  forall t p s, shape_of db t p = Some s -> disputed t p = false -> shape_of documented t p = Some s.

Lemma migrated_agrees db m : m ∈ models Logic ++ models Agent -> agrees db -> agrees (migrated db m).
Proof.
  intros Hm Hdb t p s. rewrite shape_of_migrated. destruct (shape_of db t p) as [s' |] eqn:E; [intros [= ->]; by apply Hdb |].
  case_decide as Ht; [subst t | done]. intros Hp%elem_of_list_to_map_2. by apply models_agree.
Qed.

Lemma schema_agrees h : agrees (schema h).
Proof.
  unfold schema. assert (agrees ∅) as H0 by (intros t p s; unfold shape_of; by rewrite lookup_empty).
  revert H0. generalize (∅ : Schema) as db. induction h as [| st h IH]; intros db Hdb; [done |]. cbn [foldl]. apply IH.
  assert (Forall (fun m => m ∈ models Logic ++ models Agent) (take (upto st) (models (who st)))) as Hms.
  { apply Forall_take, Forall_forall. intros m Hm. apply elem_of_app. destruct (who st); [by left | by right]. }
  assert (agrees (foldl migrated db (take (upto st) (models (who st))))) as Hf.
  { revert db Hdb. induction Hms as [| m ms Hm _ IHm]; intros db Hdb; [done |]. cbn. by apply IHm, migrated_agrees. }
  unfold begin. destruct (ensured st); [| done]. intros t p s. rewrite shape_of_indexed.
  destruct (shape_of (foldl _ _ _) t p) eqn:E; [intros [= ->]; by apply Hf |].
  case_decide as Hd; [| done]. destruct Hd as (-> & _ & ->). intros [= <-] _. vm_compute. reflexivity.
Qed.

(** What the documented order leaves comes from a model or is the full-text index. *)
Lemma documented_parts t p s :
  shape_of documented t p = Some s -> (t = Setup.messages_table /\ p = Index Setup.indexName) \/
    exists svc m s', m ∈ models svc /\ mTable m = t /\ (p, s') ∈ mParts m.
Proof.
  assert (map_Forall (fun t tb => map_Forall (fun p (_ : shape) => (t = Setup.messages_table /\ p = Index Setup.indexName) \/
      Exists (fun m => mTable m = t /\ Exists (fun x => x.1 = p) (mParts m)) (models Logic ++ models Agent)) tb) documented)
    as H by (apply (bool_decide_unpack _); vm_compute; exact I).
  unfold shape_of. intros Hs. destruct (documented !! t) as [tb |] eqn:E; [| done]. specialize (H t tb E p s Hs). cbn beta in H.
  destruct H as [H | H]; [by left | right]. apply Exists_exists in H as (m & Hm & Ht & Hp).
  apply Exists_exists in Hp as ([p' s'] & Hp & Ep). cbn in Ep. subst p'.
  apply elem_of_app in Hm as [Hm | Hm]; [exists Logic | exists Agent]; by exists m, s'.
Qed.

Lemma histories_converge (h : list start) (t : string) (p : part) :
  complete Logic ∈ h -> complete Agent ∈ h -> disputed t p = false ->
  shape_of (schema h) t p = shape_of documented t p.
Proof.
  intros Hlogic Hagent Hd.
  destruct (shape_of documented t p) as [s |] eqn:E.
  - assert (is_Some (shape_of (schema h) t p)) as [s' Hs'].
    { destruct (documented_parts t p s E) as [[-> ->] | (svc & m & s' & Hm & <- & Hp)];
        [by apply (complete_indexed h Logic) | apply (complete_brings h svc m p s'); [by destruct svc | done | done]]. }
    pose proof (schema_agrees h t p s' Hs' Hd) as H. congruence.
  - destruct (shape_of (schema h) t p) as [s |] eqn:E'; [| done].
    pose proof (schema_agrees h t p s E' Hd). congruence.
Qed.

(** The key of group_members is that of the service whose models created it; no later
    start changes it. *)
Definition member_key (db : Schema) : option shape := shape_of db "group_members" (Index "uk_group_user").
Definition logic_key : shape := IsIndex Unique ["group_id"; "user_id"].
Definition agent_key : shape := IsIndex Unique ["group_id"].
Lemma key_of_first_start h :
  member_key (foldl begin (begin ∅ (complete Logic)) h) = Some logic_key /\
  member_key (foldl begin (begin ∅ (complete Agent)) h) = Some agent_key.
Proof. split; apply schema_keeps; vm_compute; reflexivity. Qed.

Definition is_full_text (s : shape) : bool := match s with IsIndex FullText _ => true | _ => false end.

(** No start creates the full-text index that SearchUsers asks for first (dao/users.go):
    it always goes on to LIKE. *)
Lemma users_have_no_full_text h name cols :
  shape_of (schema h) "users" (Index name) <> Some (IsIndex FullText cols).
Proof.
  intros H%schema_agrees. specialize (H eq_refl).
  assert (map_Forall (fun _ s => is_full_text s = false) (default ∅ (documented !! "users")))
    as Hd by (apply (bool_decide_unpack _); vm_compute; exact I).
  unfold shape_of in H. destruct (documented !! "users") as [tb |] eqn:Et; [| done].
  by specialize (Hd (Index name) _ H).
Qed.

(** ** The migration of Boot against a database *)
(** The models the main functions name are the models of this file. *)
Definition model_names (s : service) : list string := match s with Logic => Mains.logic_models | Agent => Mains.agent_models end.

Section database.
(** An environment of Boot with a database in its world: AutoMigrate works through the
    models and may break off, the other commands are what migrate.go asks of MySQL. *)
Context {W : Type} (h : env Setup.boot W) (schema_in : W -> Schema) (svc : service).

Record migrates : Prop := {
  migrates_auto : forall d w r w', h (Setup.AutoMigrate d (model_names svc)) w = (r, w') ->
    exists k, schema_in w' = foldl migrated (schema_in w) (take k (models svc)) /\
              (r = Ok tt -> schema_in w' = foldl migrated (schema_in w) (models svc));
  migrates_table : forall d t w b w', h (Setup.HasTable d t) w = (b, w') ->
    schema_in w' = schema_in w /\ b = bool_decide (is_Some (schema_in w !! t));
  migrates_count : forall d t i w r w', h (Setup.CountIndex d t i) w = (r, w') ->
    schema_in w' = schema_in w /\
    forall n, r = Ok n -> 0 < n <-> is_Some (shape_of (schema_in w) t (Index i));
  migrates_full_text : forall d w r w', h (Setup.AddFullText d Setup.messages_table Setup.indexName) w = (r, w') ->
    schema_in w' = (if decide (r = Ok tt) then indexed (schema_in w) else schema_in w);
}.

Lemma indexed_twice db : is_Some (shape_of db Setup.messages_table (Index Setup.indexName)) -> indexed db = db.
Proof.
  unfold shape_of, indexed. intros [s Hs]. apply map_eq. intros t.
  destruct (decide (t = Setup.messages_table)) as [-> | Ht]; [| by rewrite lookup_alter_ne].
  rewrite lookup_alter_eq. destruct (db !! Setup.messages_table) as [tb |]; [| done]. cbn in *. f_equal.
  apply map_eq. intros p. rewrite lookup_union, lookup_singleton. case_decide as E; [subst p; by rewrite Hs | by destruct (tb !! p)].
Qed.

Lemma indexed_without db : db !! Setup.messages_table = None -> indexed db = db.
Proof. intros H. unfold indexed. apply map_eq. intros t. destruct (decide (t = Setup.messages_table)) as [-> | Ht]; [by rewrite lookup_alter_eq, H | by rewrite lookup_alter_ne]. Qed.

(** What AutoMigrateTables does to the schema is a start, and a complete one when it
    reports no error. *)
Lemma migration_is_a_start (s : Setup.Single) w (Hh : migrates) :
  let '(r, w', _) := run h (Setup.AutoMigrateTables (model_names svc) s) w in
  exists st, who st = svc /\ schema_in w' = begin (schema_in w) st /\ (r = Ok tt -> st = complete svc).
Proof.
  destruct Hh as [Ha Ht Hc Hf]. unfold Setup.AutoMigrateTables, Setup.ask, call.
  destruct (Setup.handle s) as [d |]; [| exists (mkStart svc 0 false); by split_and!].
  cbn [run bind]. destruct (h (Setup.AutoMigrate d (model_names svc)) w) as [r w1] eqn:E1. apply Ha in E1 as (k & Ek & Hok).
  destruct r as [[] | e | e]; cbn [run bind].
  2, 3: exists (mkStart svc k false); by split_and!.
  specialize (Hok eq_refl). clear Ek k.
  assert (forall db, schema_in w1 = db -> begin (schema_in w) (mkStart svc (length (models svc)) false) = db) as Hfull.
  { intros db <-. unfold begin. cbn [upto who ensured]. by rewrite firstn_all, Hok. }
  assert (begin (schema_in w) (complete svc) = indexed (schema_in w1)) as Hcomp.
  { unfold begin, complete. cbn [upto who ensured]. by rewrite firstn_all, Hok. }
  destruct (h (Setup.HasTable d Setup.messages_table) w1) as [b w2] eqn:E2. apply Ht in E2 as [E2 ->].
  case_bool_decide as Hex; [| cbn; exists (complete svc); rewrite E2, Hcomp; split_and!; [done | | done]].
  2: { symmetry. apply indexed_without. by destruct (schema_in w1 !! _) eqn:?; [destruct Hex; eexists |]. }
  unfold Setup.EnsureMessagesFullTextIndex, Setup.ask, call. cbn [run bind].
  destruct (h (Setup.CountIndex _ _ _) w2) as [r w3] eqn:E3. apply Hc in E3 as [E3 Hn]. rewrite E2 in E3, Hn.
  destruct r as [n | e | e]; cbn [run bind].
  2, 3: exists (mkStart svc (length (models svc)) false); split_and!; [done | symmetry; by apply Hfull | done].
  specialize (Hn n eq_refl). destruct (Z.ltb_spec 0 n) as [Hpos | Hneg]; cbn [run].
  - exists (complete svc). rewrite E3, Hcomp, indexed_twice by tauto. by split_and!.
  - destruct (h (Setup.AddFullText _ _ _) w3) as [r w4] eqn:E4. apply Hf in E4. rewrite E3 in E4. cbn [run].
    case_decide as Hr; [exists (complete svc); rewrite Hcomp; by split_and! |].
    exists (mkStart svc (length (models svc)) false). split_and!; [done | symmetry; by apply Hfull |]. by intros ->.
Qed.
End database.

(** ** Any life of the database

    [lived db0 db done]: starts, each against a database that does what [migrates] says
    and may fail whenever it likes, have made [db] of [db0]; those of [done] reported no
    error. *)
Inductive lived (db0 : Schema) : Schema -> list service -> Prop :=
| lived_new : lived db0 db0 []
| lived_start {W : Type} (h : env Setup.boot W) schema_in svc s w r w' tr db done :
    lived db0 db done -> migrates h schema_in svc -> schema_in w = db ->
    run h (Setup.AutoMigrateTables (model_names svc) s) w = (r, w', tr) ->
    lived db0 (schema_in w') (if decide (r = Ok tt) then svc :: done else done).

Lemma lived_history db0 db done :
  lived db0 db done -> exists h, db = foldl begin db0 h /\ forall svc, svc ∈ done -> complete svc ∈ h.
Proof.
  induction 1 as [| W h schema_in svc s w r w' tr db done _ (hist & -> & Hdone) Hh Hw Hrun];
    [exists []; split; [done |]; intros svc H; by apply not_elem_of_nil in H |].
  pose proof (migration_is_a_start h schema_in svc s w Hh) as H. rewrite Hrun in H.
  destruct H as (st & _ & Hdb & Hst). exists (hist ++ [st]). split.
  - rewrite foldl_app. cbn. by rewrite Hdb, Hw.
  - intros svc' Hin. rewrite elem_of_app, list_elem_of_singleton. case_decide as Hr; [| left; by apply Hdone].
    apply elem_of_cons in Hin as [-> | Hin]; [right; symmetry; by apply Hst | left; by apply Hdone].
Qed.

(** C37: However the two services have been started and restarted, in whichever order and
    whatever failed or broke off: once each has migrated without an error, every table
    has the columns and indexes that the documented order gives it, but for the key of
    group_members, which the models of the two services declare differently. *)
Theorem schema_converges (db : Schema) (done : list service) (t : string) (p : part)
    (Hdb : lived ∅ db done) (Hlogic : Logic ∈ done) (Hagent : Agent ∈ done) (Hd : disputed t p = false) :
  shape_of db t p = shape_of documented t p.
Proof. destruct (lived_history ∅ db done Hdb) as (h & -> & Hdone). by apply (histories_converge h); auto. Qed.

(** A database that does what is asked. *)
Definition database (svc : service) : env Setup.boot (Mains.Outside * Schema) := fun c w =>
  match c return Setup.boot_res c * (Mains.Outside * Schema) with
  | Setup.AutoMigrate _ _ => (Ok tt, (w.1, foldl migrated w.2 (models svc)))
  | Setup.HasTable _ t => (bool_decide (is_Some (w.2 !! t)), w)
  | Setup.CountIndex _ t i => (Ok (if bool_decide (is_Some (shape_of w.2 t (Index i))) then 1 else 0), w)
  | Setup.AddFullText _ _ _ => (Ok tt, (w.1, indexed w.2))
  | c => let '(r, o) := Mains.outside c w.1 in (r, (o, w.2))
  end.

Lemma database_migrates svc : migrates (database svc) snd svc.
Proof.
  split; cbn.
  - intros d w r w' [= <- <-]. exists (length (models svc)). by rewrite firstn_all.
  - by intros d t w b w' [= <- <-].
  - intros d t i w r w' [= <- <-]. split; [done |]. intros n [= <-]. case_bool_decide; split; [done | lia | lia | done].
  - by intros d w r w' [= <- <-].
Qed.

Lemma migration_is_a_start_witness :
  let s := Setup.mkSingle true (Some 0%nat) None in let w := (Mains.mkOutside false true 0, ∅) in
  let '(r, w', _) := run (database Agent) (Setup.AutoMigrateTables (model_names Agent) s) w in
  (exists st, who st = Agent /\ w'.2 = begin ∅ st /\ (r = Ok tt -> st = complete Agent)) /\ r = Ok tt /\
  member_key w'.2 = Some agent_key.
Proof.
  intros s w. pose proof (migration_is_a_start (database Agent) snd Agent s w (database_migrates Agent)) as H.
  assert ((run (database Agent) (Setup.AutoMigrateTables (model_names Agent) s) w).1.1 = Ok tt) as Hr by (vm_compute; reflexivity).
  destruct (run _ _ w) as [[r w'] tr]. cbn in Hr. split; [exact H |]. split; [exact Hr |].
  destruct H as (st & _ & -> & Hst). rewrite (Hst Hr). vm_compute. reflexivity.
Defined.

Lemma database_lives svc db0 db done : lived db0 db done -> lived db0 (begin db (complete svc)) (svc :: done).
Proof.
  intros H. set (s := Setup.mkSingle true (Some 0%nat) None). set (w := (Mains.mkOutside false true 0, db)).
  destruct (run (database svc) (Setup.AutoMigrateTables (model_names svc) s) w) as [[r w'] tr] eqn:E.
  assert (r = Ok tt) as ->.
  { revert E. unfold Setup.AutoMigrateTables, Setup.EnsureMessagesFullTextIndex, Setup.ask, call. cbn.
    case_bool_decide; cbn; [case_bool_decide; cbn |]; by intros [= <- _ _]. }
  pose proof (migration_is_a_start (database svc) snd svc s w (database_migrates svc)) as Hs. rewrite E in Hs.
  destruct Hs as (st & _ & Hdb & Hst). specialize (Hst eq_refl). subst st. change (w'.2 = begin db (complete svc)) in Hdb. rewrite <- Hdb.
  by apply (lived_start db0 (database svc) snd svc s w (Ok tt) w' tr db done H (database_migrates svc) eq_refl).
Qed.

(** The agent is the first to start, then the logic service. *)
Lemma schema_converges_witness :
  let db := schema [complete Agent; complete Logic] in
  lived ∅ db [Logic; Agent] /\ disputed "messages" (Index Setup.indexName) = false /\
  shape_of db "messages" (Index Setup.indexName) = shape_of documented "messages" (Index Setup.indexName) /\
  shape_of db "messages" (Index Setup.indexName) = Some full_text /\ member_key db = Some agent_key.
Proof.
  intros db. assert (lived ∅ db [Logic; Agent]) as H by (apply database_lives, database_lives, lived_new).
  split; [exact H |]. split; [reflexivity |].
  split; [apply (schema_converges db [Logic; Agent]); [exact H | set_solver | set_solver | reflexivity] |].
  split; vm_compute; reflexivity.
Defined.
End Migration.

Module Members.
Import Migration.

(** The columns of a row of group_members that a key can name. *)
Definition cell (c : string) (m : GroupMember) : option Z :=
  if String.eqb c "group_id" then Some (gmGroupID m) else if String.eqb c "user_id" then Some (gmUserID m) else None.
(** Two rows that a unique key does not let stand together. *)
Definition clash (key : list string) (m m' : GroupMember) : bool := forallb (fun c => bool_decide (cell c m = cell c m')) key.

(** The INSERT of Dao, under a key. *)
Fixpoint insert_under (key : list string) (now groupID : Z) (ids : list Z) (rows : list GroupMember) : option (list GroupMember) :=
  match ids with
  | [] => Some rows
  | uid :: ids' =>
      let m := mkGroupMember groupID uid 0 now in
      if existsb (clash key m) rows then None else insert_under key now groupID ids' (m :: rows)
  end.

(** The rows of a table of Dao, which is keyed by group and user. *)
Definition represents (t : gmap (Z * Z) GroupMember) (rows : list GroupMember) : Prop :=
  (forall g u m, t !! (g, u) = Some m -> g = gmGroupID m /\ u = gmUserID m) /\
  forall m, m ∈ rows <-> t !! (gmGroupID m, gmUserID m) = Some m.

Lemma clash_logic m m' :
  clash ["group_id"; "user_id"] m m' = true <-> gmGroupID m = gmGroupID m' /\ gmUserID m = gmUserID m'.
Proof.
  unfold clash. cbn [forallb]. rewrite !andb_true_iff, !bool_decide_eq_true. unfold cell. cbn.
  split; [intros (H1 & H2 & _); by simplify_eq | intros [-> ->]; by split_and!].
Qed.

Lemma clash_agent m m' : clash ["group_id"] m m' = true <-> gmGroupID m = gmGroupID m'.
Proof.
  unfold clash. cbn [forallb]. rewrite !andb_true_iff, !bool_decide_eq_true. unfold cell. cbn.
  split; [intros [H _]; by simplify_eq | intros ->; by split].
Qed.

Lemma existsb_elem (f : GroupMember -> bool) rows : existsb f rows = true <-> exists m, m ∈ rows /\ f m = true.
Proof. rewrite existsb_exists. by setoid_rewrite list_elem_of_In. Qed.

Lemma insert_by_logic_key now g ids t rows :
  represents t rows ->
  match insert_under ["group_id"; "user_id"] now g ids rows, insert_members now g ids t with
  | Some rows', Some t' => represents t' rows'
  | None, None => True
  | _, _ => False
  end.
Proof.
  revert t rows. induction ids as [| u ids IH]; intros t rows HR; [exact HR |]. cbn [insert_under insert_members].
  destruct HR as [Hk HR]. destruct (t !! (g, u)) as [m |] eqn:E.
  - destruct (existsb _ rows) eqn:Ex; [done |]. exfalso. apply Bool.not_true_iff_false in Ex. apply Ex, existsb_elem.
    exists m. destruct (Hk g u m E) as [-> ->]. split; [by apply HR | by apply clash_logic].
  - destruct (existsb _ rows) eqn:Ex.
    { exfalso. apply existsb_elem in Ex as (m & Hm & Hc). apply clash_logic in Hc as [Hg Hu]. cbn in Hg, Hu. subst g u.
      apply HR in Hm. congruence. }
    apply IH. split.
    + intros g' u' m [[[= <- <-] <-] | [_ Hm]]%lookup_insert_Some; [done | by apply Hk].
    + intros m. rewrite elem_of_cons, HR, lookup_insert_Some. cbn. split.
      * intros [-> | Hm]; [by left | right]. split; [| done]. intros [= -> ->]. congruence.
      * intros [[[= -> ->] <-] | [_ ?]]; auto.
Qed.

Lemma insert_by_agent_key now g ids rows :
  (exists m, m ∈ rows /\ gmGroupID m = g) -> ids <> [] -> insert_under ["group_id"] now g ids rows = None.
Proof.
  intros (m & Hm & Hg) Hids. destruct ids as [| u ids]; [done |]. cbn [insert_under].
  rewrite (proj2 (existsb_elem _ rows)); [done |]. exists m. split; [done |]. by apply clash_agent.
Qed.
Lemma insert_two_by_agent_key now g u v ids rows : insert_under ["group_id"] now g (u :: v :: ids) rows = None.
Proof.
  cbn [insert_under]. destruct (existsb _ rows); [done |]. cbn [existsb].
  by rewrite (proj2 (clash_agent (mkGroupMember g v 0 now) (mkGroupMember g u 0 now)) eq_refl).
Qed.

(** Which service has first completed a start decides for good what can be done with
    groups. When it was logic, inserting members is the statement of Dao. When it was
    the agent, whose model leaves user_id out of the key, creating a group with two
    members fails, and nobody can join a group that has a member. *)
Theorem first_start_decides_groups (db : Schema) (done : list service) now g ids t rows (Ht : represents t rows) :
  (lived (begin ∅ (complete Logic)) db done -> exists key, member_key db = Some (IsIndex Unique key) /\
    match insert_under key now g ids rows, insert_members now g ids t with
    | Some rows', Some t' => represents t' rows'
    | None, None => True
    | _, _ => False
    end) /\
  (lived (begin ∅ (complete Agent)) db done -> exists key, member_key db = Some (IsIndex Unique key) /\
    (forall u v ids', ids = u :: v :: ids' -> insert_under key now g ids rows = None) /\
    ((exists m, m ∈ rows /\ gmGroupID m = g) -> ids <> [] -> insert_under key now g ids rows = None)).
Proof.
  split; intros (h & -> & _)%lived_history; destruct (key_of_first_start h) as [HL HA].
  - exists ["group_id"; "user_id"]. split; [exact HL | by apply insert_by_logic_key].
  - exists ["group_id"]. split; [exact HA |]. split; [intros u v ids' ->; apply insert_two_by_agent_key | apply insert_by_agent_key].
Qed.

(** A second member for a group of one. *)
Lemma first_start_decides_groups_witness :
  let row := mkGroupMember 5 7 0 100 in let t := {[ (5, 7) := row ]} in
  represents t [row] /\
  (exists key, member_key (schema [complete Logic; complete Agent]) = Some (IsIndex Unique key) /\
    insert_under key 200 5 [8] [row] = Some [mkGroupMember 5 8 0 200; row] /\
    match insert_under key 200 5 [8] [row], insert_members 200 5 [8] t with
    | Some rows', Some t' => represents t' rows' | None, None => True | _, _ => False end) /\
  (exists key, member_key (schema [complete Agent; complete Logic]) = Some (IsIndex Unique key) /\
    insert_under key 200 5 [8] [row] = None).
Proof.
  intros row t.
  assert (represents t [row]) as H.
  { split.
    - intros g u m [[= <- <-] <-]%lookup_singleton_Some. by split.
    - intros m. rewrite list_elem_of_singleton. unfold t. rewrite lookup_singleton_Some.
      split; [intros ->; by split | by intros [_ ->]]. }
  split; [exact H |]. split.
  - destruct (first_start_decides_groups (schema [complete Logic; complete Agent]) [Agent] 200 5 [8] t [row] H) as [HL _].
    destruct HL as (key & Hk & Hi); [apply database_lives, lived_new |].
    assert (key = ["group_id"; "user_id"]) as -> by (vm_compute in Hk; congruence).
    eexists. split; [exact Hk |]. split; [vm_compute; reflexivity | exact Hi].
  - destruct (first_start_decides_groups (schema [complete Agent; complete Logic]) [Logic] 200 5 [8] t [row] H) as [_ HA].
    destruct HA as (key & Hk & _ & Hi); [apply database_lives, lived_new |].
    exists key. split; [exact Hk |]. apply Hi; [| done]. exists row. split; [by apply list_elem_of_singleton | done].
Defined.
End Members.

(** ** agent/dao/{users,groups,group_members}.go: what the agent looks up by name *)
Module Lookup.
Import Migration.

(** [eq]: equality under the collation of the column. Find into a struct takes the first
    row; there is no ORDER BY, so which is the first is the database's choice (here: the
    order of the map). *)
Section lookup.
Context (eq : string -> string -> bool).
Definition FindUserByName (userName : string) (s : Store) : answer User :=
  match select (fun u => eq (usUsername u) userName) (users s) with
  | [] => Failure "用户不存在"
  | u :: _ => Success u
  end.
Definition FindGroupByName (groupName : string) (s : Store) : answer Group :=
  match select (fun g => eq (gGroupName g) groupName) (groups s) with
  | [] => Failure "群聊不存在"
  | g :: _ => Success g
  end.
Definition GetGroupMembers (groupID : Z) (s : Store) : answer (list Z) :=
  Success (gmUserID <$> select (fun m => gmGroupID m =? groupID) (group_members s)).
End lookup.

(** The name of a group is no key: no start makes it one. *)
Lemma group_names_not_unique h name cols :
  shape_of (schema h) "groups" (Index name) = Some (IsIndex Unique cols) -> cols = ["group_id"].
Proof.
  intros H%schema_agrees. specialize (H eq_refl).
  assert (map_Forall (fun _ s => forall cols, s = IsIndex Unique cols -> cols = ["group_id"]) (default ∅ (documented !! "groups"))) as Hd.
  { assert (map_Forall (fun _ s => match s with IsIndex Unique cols => bool_decide (cols = ["group_id"]) | _ => true end = true)
      (default ∅ (documented !! "groups"))) as H' by (apply (bool_decide_unpack _); vm_compute; exact I).
    intros p s Hs cols' ->. specialize (H' p _ Hs). cbn in H'. by apply bool_decide_eq_true in H'. }
  unfold shape_of in H. destruct (documented !! "groups") as [tb |]; [| done]. exact (Hd _ _ H _ eq_refl).
Qed.

(** So two groups may share a name, and then a name never reaches one of them. *)
Lemma namesake_out_of_reach eq g g' s :
  groups s !! gGroupID g = Some g -> groups s !! gGroupID g' = Some g' -> gGroupID g <> gGroupID g' ->
  gGroupName g = gGroupName g' ->
  exists lost, lost ∈ [g; g'] /\ FindGroupByName eq (gGroupName lost) s <> Success lost.
Proof.
  intros Hg Hg' Hne Hn. unfold FindGroupByName.
  destruct (select (fun x => eq (gGroupName x) (gGroupName g)) (groups s)) as [| g0 l] eqn:E.
  - exists g. split; [set_solver |]. by rewrite E.
  - destruct (decide (gGroupID g0 = gGroupID g)) as [Hd | Hd].
    + exists g'. split; [set_solver |]. rewrite <- Hn, E. intros [= ->]. congruence.
    + exists g. split; [set_solver |]. rewrite E. intros [= ->]. congruence.
Qed.
End Lookup.
