(* ===== verification/AgentWiring.v ===== *)
(** * What holds the agent together: agent/engine/runner.go, agent/mcp, agent/callback

    Module Callbacks (callback/trace_logger.go): the times and the token counts that
    are logged around each model and tool call, and the copies of streams the
    framework hands to a callback. Module Build (engine/runner.go, mcp/client.go, the
    constructors of the tools): building the model, the tools, the agent and its
    runner, over the commands of the libraries. *)
From S2P Require Import Prelude GoStd Effects Config AgentChat AgentMiddleware.
#[local] Open Scope prog_scope.

Module Callbacks.

(** components.Component, and the start times in the context. *)
Inductive component := ChatModel | Tool | OtherComponent.
#[export] Instance component_eq_dec : EqDecision component.
Proof. solve_decision. Defined.
Record Ctx := mkCtx { chat_model_start_time : option Z; tool_start_time : option Z }.

Record TokenUsage := mkUsage { PromptTokens : Z; CompletionTokens : Z; TotalTokens : Z }.
Inductive log_line :=
| FirstToken (d : Z)
| StreamDone (d : Z)
| StreamError (e : string)
| Tokens (u : TokenUsage)
| ToolDone (type : string) (d : Z)
| ModelDone (d : Z).

(** A chunk is what ConvCallbackOutput finds in it: a usage, if any. *)
Definition chunk : Type := option TokenUsage.

Inductive cb_cmd :=
| Now
| CloseInput
| CloseOutput
| Recv
| Log (l : log_line)
| Reader (startTime : Z).      (* the goroutine that reads the copy *)
Definition cb_res (c : cb_cmd) : Type :=
  match c with
  | Now => Z
  | Recv => option chunk * option string
  | _ => unit
  end.
Definition cb : Sig := mkSig cb_cmd cb_res.
Definition ask (c : cb_cmd) : prog cb (cb_res c) := call (S := cb) c.

Definition OnStartWithStreamInput (k : component) (ctx : Ctx) : prog cb Ctx :=
  if decide (k = ChatModel) then
    t <- ask Now ;; ask CloseInput ;; Ret (mkCtx (Some t) (tool_start_time ctx))
  else ask CloseInput ;; Ret ctx.

Definition OnStart (k : component) (ctx : Ctx) : prog cb Ctx :=
  match k with
  | ChatModel => t <- ask Now ;; Ret (mkCtx (Some t) (tool_start_time ctx))
  | Tool => t <- ask Now ;; Ret (mkCtx (chat_model_start_time ctx) (Some t))
  | OtherComponent => Ret ctx
  end.

Definition OnEndWithStreamOutput (k : component) (ctx : Ctx) : prog cb Ctx :=
  if decide (k = ChatModel) then
    match chat_model_start_time ctx with
    | None => ask CloseOutput ;; Ret ctx
    | Some startTime => ask (Reader startTime) ;; Ret ctx
    end
  else ask CloseOutput ;; Ret ctx.

(** The loop of the goroutine: [n] bounds what is received; [None] when the stream
    has not ended by then. *)
Fixpoint read_copy (n : nat) (startTime : Z) (isFirstToken : bool) (finalUsage : option TokenUsage) :
    prog cb (option (option TokenUsage)) :=
  match n with
  | O => Ret None
  | S n =>
      '(chunk, err) <- ask Recv ;;
      isFirstToken <- (match chunk with
        | Some _ => if isFirstToken then t <- ask Now ;; ask (Log (FirstToken (t - startTime))) ;; Ret false
                    else Ret isFirstToken
        | None => Ret isFirstToken
        end) ;;
      match err with
      | Some e =>
          (if String.eqb e "EOF" then t <- ask Now ;; ask (Log (StreamDone (t - startTime)))
           else ask (Log (StreamError e))) ;;
          Ret (Some finalUsage)
      | None =>
          read_copy n startTime isFirstToken
            (match chunk with Some (Some u) => Some u | _ => finalUsage end)
      end
  end.
Definition reader (n : nat) (startTime : Z) : prog cb bool :=
  finalUsage <- read_copy n startTime true None ;;
  match finalUsage with
  | None => Ret false
  | Some u =>
      (match u with Some u => ask (Log (Tokens u)) | None => Ret tt end) ;;
      ask CloseOutput ;; Ret true
  end.

Definition OnEnd (k : component) (type : string) (output : chunk) (ctx : Ctx) : prog cb Ctx :=
  (match k, tool_start_time ctx with
   | Tool, Some startTime => t <- ask Now ;; ask (Log (ToolDone type (t - startTime)))
   | _, _ => Ret tt
   end) ;;
  (match k with
   | ChatModel =>
       (match chat_model_start_time ctx with
        | Some startTime => t <- ask Now ;; ask (Log (ModelDone (t - startTime)))
        | None => Ret tt
        end) ;;
       (match output with Some u => ask (Log (Tokens u)) | None => Ret tt end)
   | _ => Ret tt
   end) ;;
  Ret ctx.

(** *** What a run shows *)
Definition closes (e : event cb) : list unit :=
  match e with existT CloseOutput _ => [tt] | _ => [] end.
Definition readers (e : event cb) : list Z := match e with existT (Reader t) _ => [t] | _ => [] end.
Definition logged (e : event cb) : list log_line := match e with existT (Log l) _ => [l] | _ => [] end.
Definition received (e : event cb) : list (option chunk * option string) :=
  match e with existT Recv r => [r] | _ => [] end.
Definition token_lines (l : list log_line) : list TokenUsage := omap (fun l => match l with Tokens u => Some u | _ => None end) l.
Definition first_lines (l : list log_line) : list Z := omap (fun l => match l with FirstToken d => Some d | _ => None end) l.

(** The usage of the last chunk that has one, of those before the stream ended. *)
Definition last_usage (start : option TokenUsage) (rs : list (option chunk * option string)) : option TokenUsage :=
  foldl (fun u r => match r with (Some (Some u'), None) => Some u' | _ => u end) start rs.

Lemma read_copy_spec {W} (h : env cb W) n startTime first usage :
  always h (read_copy n startTime first usage) (fun r tr =>
    view (S := cb) closes tr = [] /\
    token_lines (view (S := cb) logged tr) = [] /\
    (length (first_lines (view (S := cb) logged tr)) <= if first then 1 else 0)%nat /\
    match r with
    | None => length (view (S := cb) received tr) = n
    | Some u => u = last_usage usage (view (S := cb) received tr) /\
        exists l x e, view (S := cb) received tr = l ++ [(x, Some e)] /\ Forall (fun r => r.2 = None) l
    end).
Proof.
  revert first usage. induction n as [| n IH]; intros first usage; cbn [read_copy].
  { apply always_Ret. cbn. split_and!; [done | done | destruct first; lia | done]. }
  unfold ask at 1, call. cbn [bind]. apply always_Do. intros [c err]. cbn [bind].
  eapply always_bind with (P := fun b tr => view (S := cb) closes tr = [] /\ view (S := cb) received tr = [] /\
    token_lines (view (S := cb) logged tr) = [] /\
    (length (first_lines (view (S := cb) logged tr)) + (if b : bool then 1 else 0) <= if first then 1 else 0)%nat).
  { destruct c as [u |]; [destruct first |]; walk; cbn; split_and!; done || lia. }
  intros b tr (B1 & B2 & B3 & B4). destruct err as [e |].
  - eapply always_bind with (P := fun _ tr => view (S := cb) closes tr = [] /\ view (S := cb) received tr = [] /\
      token_lines (view (S := cb) logged tr) = [] /\ first_lines (view (S := cb) logged tr) = []).
    { destruct (String.eqb e "EOF"); unfold ask; walk; by cbn. }
    intros _ tr' (C1 & C2 & C3 & C4). apply always_Ret. unfold token_lines, first_lines in *.
    rewrite app_nil_r, !(view_cons (S := cb)), !(view_app (S := cb)), B1, B2, C1, C2, !omap_app, B3, C3, C4, length_app. cbn.
    split_and!; [done | done | rewrite ?app_nil_r; destruct b, first; lia | by destruct c as [[] |] |].
    by exists [], c, e.
  - eapply always_impl; [apply IH |]. cbn beta. intros r tr' (C1 & C2 & C3 & C4). unfold token_lines, first_lines in *.
    rewrite !(view_cons (S := cb)), !(view_app (S := cb)), B1, B2, C1, !omap_app, B3, C2, !length_app. cbn.
    split_and!; [done | done | destruct b, first; lia |]. destruct r as [u |]; [| lia]. destruct C4 as (-> & l & x & e & -> & Hl).
    split; [by destruct c as [[] |] |]. exists ((c, None) :: l), x, e. split; [done |]. by constructor.
Qed.

(** The copy of a stream that the framework hands to the callback is closed exactly
    once, whichever component it comes from: at once, or by the one goroutine that
    reads it, when the stream ends - with one line for the tokens at most, which is
    the usage of the last chunk that has one, and one for the first token at most. *)
Theorem stream_copy_closed_once {W} (h : env cb W) k ctx n startTime :
  always h (OnEndWithStreamOutput k ctx) (fun ctx' tr => ctx' = ctx /\
    length (view (S := cb) closes tr ++ (const tt <$> view (S := cb) readers tr)) = 1%nat /\
    (view (S := cb) readers tr <> [] -> k = ChatModel /\ view (S := cb) readers tr = option_list (chat_model_start_time ctx))) /\
  always h (reader n startTime) (fun ended tr =>
    let rs := view (S := cb) received tr in let lines := view (S := cb) logged tr in
    (length (first_lines lines) <= 1)%nat /\
    if ended : bool
    then length (view (S := cb) closes tr) = 1%nat /\ token_lines lines = option_list (last_usage None rs)
    else view (S := cb) closes tr = [] /\ length rs = n) /\
  always h (OnStartWithStreamInput k ctx) (fun _ tr =>
    length (view (S := cb) (fun e => match e with existT CloseInput _ => [tt] | _ => [] end) tr) = 1%nat).
Proof.
  split_and!.
  - unfold OnEndWithStreamOutput, ask. case_decide; [destruct (chat_model_start_time ctx) eqn:E |]; walk; cbn;
      split_and!; try done; rewrite ?E; try done.
  - unfold reader. eapply always_bind; [apply read_copy_spec |]. intros [u |] tr (H1 & H2 & H3 & H4).
    + destruct H4 as [-> _]. destruct (last_usage None _) as [u |] eqn:E; unfold ask; walk; cbn;
        unfold token_lines, first_lines in *; rewrite !(view_app (S := cb)), H1, !omap_app, H2; cbn;
        rewrite ?app_nil_r, E; by split_and!.
    + apply always_Ret. rewrite app_nil_r. by split_and!.
  - unfold OnStartWithStreamInput, ask. case_decide; walk; done.
Qed.
End Callbacks.

Module Build.

(** ** The libraries: models, tools, the MCP client, the agent framework *)

(** A tool under its name; [true]: it came from an MCP server. *)
Definition tool : Type := string * bool.
Inductive handler := PatchToolCalls | AutoContinue | TrimResult | RateLimit | Approval | SafeAgent.
Inductive tool_middleware := ToolFix.

(** adk.ChatModelAgentConfig and adk.RunnerConfig, as far as they are filled in. *)
Record AgentOf := mkAgentOf {
  model : nat;
  instruction : string;
  maxIterations : Z;
  handlers : list handler;
  tools : list tool;
  toolCallMiddlewares : list tool_middleware;
  maxRetries : Z;
  isRetryAble : string -> bool;
}.
Record Runner := mkRunner { agent : AgentOf; enableStreaming : bool; checkPoints : bool }.

Inductive lib_cmd :=
| NewChatModel (apiKey model baseURL : string)
| SetChatModel (cm : nat)                      (* graph.SetChatModel *)
| InferTool (name : string)
| NewSSEMCPClient (url : string)
| StartClient (cli : nat)
| Initialize (cli : nat)
| GetTools (cli : nat)
| PatchToolCallsNew
| NewChatModelAgent (a : AgentOf).
Definition lib_res (c : lib_cmd) : Type :=
  match c with
  | NewChatModel _ _ _ | NewSSEMCPClient _ => outcome nat
  | SetChatModel _ => unit
  | GetTools _ => outcome (list string)
  | _ => outcome unit
  end.
Definition lib : Sig := mkSig lib_cmd lib_res.
Definition ask (c : lib_cmd) : prog lib (lib_res c) := call (S := lib) c.

(** ** mcp/client.go *)
Definition GetExternalTools (serverURL : string) : prog lib (outcome (list tool)) :=
  if String.eqb serverURL "" then Ret (Ok [])
  else
    cli <- ask (NewSSEMCPClient serverURL) ;;
    match cli with
    | Err e => Ret (Err e)
    | Panic m => Ret (Panic m)
    | Ok cli =>
        r <- ask (StartClient cli) ;;
        match r with
        | Err e => Ret (Err e)
        | Panic m => Ret (Panic m)
        | Ok _ =>
            r <- ask (Initialize cli) ;;
            match r with
            | Err e => Ret (Err e)
            | Panic m => Ret (Panic m)
            | Ok _ => ts <- ask (GetTools cli) ;; Ret (outcome_map (fmap (fun t => (t, true))) ts)
            end
        end
    end.

(** ** The constructors of the tools: an error is a panic *)
Definition must_tool (text name : string) (k : tool -> prog lib (outcome AgentOf)) : prog lib (outcome AgentOf) :=
  r <- ask (InferTool name) ;;
  match r with
  | Ok _ => k (name, false)
  | Err e => Ret (Panic (text +:+ e))
  | Panic m => Ret (Panic m)
  end.
Definition MustSearchHistoryTool := must_tool "failed to init search history tool: " "search_chat_history".
Definition MustSchMessageTool := must_tool "MustSchMessageTool failed: " "schedule_message".
Definition MustSummarizeGroupTool := must_tool "MustSummarizeGroupTool failed: " "summarize_group".

Definition agent_handlers : list handler := [PatchToolCalls; AutoContinue; TrimResult; RateLimit; Approval; SafeAgent].
Definition agent_of (cm : nat) (toolList : list tool) : AgentOf :=
  mkAgentOf cm "You are a helpful assistant." 5 agent_handlers toolList [ToolFix] 5 Runner.IsRetryAble.

(** ** engine/runner.go *)
Definition buildAgent (externalURL : string) (cm : nat) : prog lib (outcome AgentOf) :=
  MustSearchHistoryTool (fun t1 =>
  MustSchMessageTool (fun t2 =>
  MustSummarizeGroupTool (fun t3 =>
    mcpTools <- GetExternalTools externalURL ;;
    match mcpTools with
    | Panic m => Ret (Panic m)
    | _ =>
        let toolList := [t1; t2; t3] ++ match mcpTools with Ok ts => ts | _ => [] end in
        patch <- ask PatchToolCallsNew ;;
        match patch with
        | Err e => Ret (Err ("初始化内置中间件失败: " +:+ e))
        | Panic m => Ret (Panic m)
        | Ok _ =>
            r <- ask (NewChatModelAgent (agent_of cm toolList)) ;;
            match r with
            | Ok _ => Ret (Ok (agent_of cm toolList))
            | Err e => Ret (Err ("初始化Agent失败: " +:+ e))
            | Panic m => Ret (Panic m)
            end
        end
    end))).

Section build.
Variable Getenv : string -> string.
Variable ToUpper : string -> string.

Definition empty_key (c : Files.Config) : string :=
  "AI API Key 为空，请在 apps/config.yaml 填写 agent.providers." +:+ Files.Default (Files.Agent c) +:+
  ".api_key 或设置环境变量 DEEPSEEK_API_KEY".

(** [None]: log.Fatalf ended the process, as the provider is not configured. *)
Definition buildChatModel (c : Files.Config) : prog lib (option (outcome nat)) :=
  match Files.chat_model Getenv ToUpper (empty_key c) c with
  | None => Ret None
  | Some (Err e) => Ret (Some (Err e))
  | Some (Panic m) => Ret (Some (Panic m))
  | Some (Ok (apiKey, name, baseURL)) =>
      cm <- ask (NewChatModel apiKey name baseURL) ;;
      match cm with
      | Ok cm => ask (SetChatModel cm) ;; Ret (Some (Ok cm))
      | Err e => Ret (Some (Err ("init model failed: " +:+ e)))
      | Panic m => Ret (Some (Panic m))
      end
  end.

Definition buildRunner (c : Files.Config) : prog lib (option (outcome Runner)) :=
  cm <- buildChatModel c ;;
  match cm with
  | None => Ret None
  | Some (Ok cm) =>
      a <- buildAgent (Files.ExternalURL (Files.MCP (Files.Agent c))) cm ;;
      Ret (Some (outcome_map (fun a => mkRunner a true true) a))
  | Some (Err e) => Ret (Some (Err e))
  | Some (Panic m) => Ret (Some (Panic m))
  end.

(** ** What is built *)
Definition models_set (e : event lib) : list nat := match e with existT (SetChatModel cm) _ => [cm] | _ => [] end.
Definition models_made (e : event lib) : list nat := match e with existT (NewChatModel _ _ _) (Ok cm) => [cm] | _ => [] end.
Definition keys_used (e : event lib) : list string := match e with existT (NewChatModel k _ _) _ => [k] | _ => [] end.
Definition clients_made (e : event lib) : list nat := match e with existT (NewSSEMCPClient _) (Ok c) => [c] | _ => [] end.

(** The three tools of the agent come first; tools of an MCP server follow when it
    could be reached, and never prevent the agent from being built. *)
Definition own_tools : list tool := [("search_chat_history", false); ("schedule_message", false); ("summarize_group", false)].
Definition well_built (a : AgentOf) : Prop :=
  exists external, a = agent_of (model a) (own_tools ++ external) /\ Forall (fun t => t.2 = true) external.

Lemma external_tools {W} (h : env lib W) url :
  always h (GetExternalTools url) (fun r tr => view (S := lib) models_set tr = [] /\ view (S := lib) models_made tr = [] /\
    view (S := lib) keys_used tr = [] /\
    (forall ts, r = Ok ts -> Forall (fun t => t.2 = true) ts) /\ (url = "" -> r = Ok [] /\ tr = [])).
Proof.
  unfold GetExternalTools, ask. destruct (String.eqb_spec url "") as [-> | Hu].
  - apply always_Ret. split_and!; try done. by intros ? [= <-].
  - walk; cbn; split_and!; try done. intros ts. match goal with |- outcome_map _ ?x = _ -> _ => destruct x end; [| done..].
    intros [= <-]. apply Forall_fmap, Forall_forall. done.
Qed.

(** A runner is handed out only when its model was made, with the key and the provider
    the configuration resolves to, and given to the RAG pipeline; its agent has the
    three tools of its own, followed by those of the MCP server if that answered, every
    tool behind the approval and the repair of arguments; and it streams with a store
    for its checkpoints. Without a key nothing is made. *)
Theorem runner_is_guarded {W} (h : env lib W) c :
  always h (buildRunner c) (fun r tr =>
    (forall runner, r = Some (Ok runner) ->
      well_built (agent runner) /\ Approval ∈ handlers (agent runner) /\ toolCallMiddlewares (agent runner) = [ToolFix] /\
      enableStreaming runner = true /\ checkPoints runner = true /\
      view (S := lib) models_set tr = [model (agent runner)] /\ view (S := lib) models_made tr = [model (agent runner)] /\
      exists key name url, Files.chat_model Getenv ToUpper (empty_key c) c = Some (Ok (key, name, url)) /\
        view (S := lib) keys_used tr = [key]) /\
    (Files.chat_model Getenv ToUpper (empty_key c) c = Some (Err (empty_key c)) -> r = Some (Err (empty_key c)) /\ tr = [])).
Proof.
  unfold buildRunner, buildChatModel.
  destruct (Files.chat_model Getenv ToUpper (empty_key c) c) as [[[[key name] url] | e | m] |] eqn:Ecm;
    [| (apply always_Ret; split; [done |]; intros [= ->]; done)
     | (apply always_Ret; split; done) | (apply always_Ret; split; done)].
  unfold ask at 1, call. cbn [bind]. apply always_Do. intros [cm | e | e]; cbn [bind];
    [| apply always_Ret; by split..].
  unfold ask at 1, call. cbn [bind]. apply always_Do. intros []. cbn [bind].
  eapply always_bind with (P := fun r tr => view (S := lib) models_set tr = [] /\ view (S := lib) models_made tr = [] /\
    view (S := lib) keys_used tr = [] /\ forall a, r = Ok a -> well_built a /\ model a = cm /\ handlers a = agent_handlers /\
      toolCallMiddlewares a = [ToolFix]).
  - unfold buildAgent, MustSearchHistoryTool, MustSchMessageTool, MustSummarizeGroupTool, must_tool, ask at 1 2 3, call.
    do 3 (cbn [bind]; apply always_Do; intros [[] | e | e]; cbn [bind]; [| by apply always_Ret..]).
    eapply always_bind; [apply external_tools |]. intros [ts | e | e] tr (E1 & E2 & E3 & E4 & _).
    3: { apply always_Ret. rewrite app_nil_r. by split_and!. }
    all: unfold ask, call; cbn [bind]; apply always_Do; intros [[] | e' | e']; cbn [bind];
      [| apply always_Ret; rewrite !(view_cons (S := lib)), !(view_app (S := lib)), E1, E2, E3; by split_and!..].
    all: apply always_Do; intros [[] | e' | e']; cbn [bind]; apply always_Ret;
      rewrite !(view_cons (S := lib)), !(view_app (S := lib)), E1, E2, E3; split_and!; try done; intros a [= <-]; split_and!; try done.
    + exists ts. split; [done | by apply E4].
    + exists []. done.
  - cbn beta. intros a tr (H1 & H2 & H3 & H4). apply always_Ret. rewrite app_nil_r. split; [| done].
    intros runner Hr. destruct a as [a | |]; [| done..]. cbn in Hr. injection Hr as <-.
    destruct (H4 a eq_refl) as (Hw & Hm & Hh & Ht). cbn [agent enableStreaming checkPoints].
    rewrite !(view_cons (S := lib)), H1, H2, H3, Hh, Hm. cbn.
    split_and!; try done; [unfold agent_handlers; set_solver |]. by exists key, name, url.
Qed.
End build.

(** Every build opens another connection to the MCP server; when starting it fails, or
    when the cached runner is dropped by a reload, nothing closes it: there is no
    command for it. *)
Lemma each_build_connects {W} (h : env lib W) url w cli :
  url <> "" -> (h (NewSSEMCPClient url) w).1 = Ok cli ->
  exists rest, view (S := lib) clients_made (trace (run h (GetExternalTools url) w)) = cli :: rest.
Proof.
  intros Hu Hn. unfold GetExternalTools. rewrite (proj2 (String.eqb_neq url "") Hu). unfold ask at 1, call. cbn [bind run].
  destruct (h (NewSSEMCPClient url) w) as [r w1]. cbn in Hn. subst r.
  destruct (run h _ w1) as [[a w2] tr]. cbn. by eexists.
Qed.
End Build.
