(* ===== verification/Stubs.v ===== *)
(** * The stubs: GrowRPC/cmd/protoc-gen-growrpc, and the services it was run on

    The plugin writes, for each service of a .proto file, an interface, a stub that
    implements nothing, the registration of an implementation and a client. What it
    writes is a list of lines; the names under which a client calls are read back
    from the lines, and are those the registration stores. The four services of
    pkg/proto, registered with a server of RpcServer, answer every call of the
    gateway. *)
From S2P Require Import Prelude GoStd GoText RpcServer Api Ws.

Module Generator.

(** protogen.File, Service, Method: the names the plugin reads. *)
Record Method := mkMethod { mName : string; Input : string; Output : string }.
Record Service := mkService { sName : string; Methods : list Method }.
Record File := mkFile {
  Generate : bool;
  GeneratedFilenamePrefix : string;
  GoPackageName : string;
  Services : list Service;
}.

(** A string literal of the written code. *)
Definition quoted (s : string) : string := String (byte 34) (s +:+ String (byte 34) "").

(** ** main.go *)
Definition header (pkg : string) : list string :=
  ["// Code generated by protoc-gen-growrpc. DO NOT EDIT."; "package " +:+ pkg; "";
   "import ("; quoted "context"; quoted "GrowRPC"; quoted "GrowRPC/xclient"; ")"; ""].

Definition server_interface (svc : Service) : list string :=
  ["type " +:+ sName svc +:+ "Server interface {"] ++
  ((fun m => mName m +:+ "(ctx context.Context, req *" +:+ Input m +:+ ", resp *" +:+ Output m +:+ ") error") <$> Methods svc) ++
  ["}"; ""].

Definition unimplemented (svc : Service) : list string :=
  ["type Unimplemented" +:+ sName svc +:+ "Server struct{}"] ++
  (Methods svc ≫= fun m =>
    ["func (Unimplemented" +:+ sName svc +:+ "Server) " +:+ mName m +:+ "(ctx context.Context, req *" +:+ Input m +:+
       ", resp *" +:+ Output m +:+ ") error {"; "return GrowRPC.ErrNotImplemented"; "}"]) ++
  [""].

Definition register (svc : Service) : list string :=
  ["func Register" +:+ sName svc +:+ "Server(server *GrowRPC.Server, impl " +:+ sName svc +:+ "Server) {"] ++
  ((fun m => "GrowRPC.RegisterMethod[" +:+ Input m +:+ ", " +:+ Output m +:+ "](server, " +:+
      quoted (sName svc +:+ "." +:+ mName m) +:+ ", impl." +:+ mName m +:+ ")") <$> Methods svc) ++
  ["}"; ""].

Definition client (svc : Service) : list string :=
  ["type " +:+ sName svc +:+ "Client struct {"; "xc *xclient.XClient"; "}"; "";
   "func New" +:+ sName svc +:+ "Client(xc *xclient.XClient) *" +:+ sName svc +:+ "Client {";
   "return &" +:+ sName svc +:+ "Client{xc: xc}"; "}"; ""] ++
  (Methods svc ≫= fun m =>
    ["func (c *" +:+ sName svc +:+ "Client) " +:+ mName m +:+ "(ctx context.Context, req *" +:+ Input m +:+ ") (*" +:+
       Output m +:+ ", error) {";
     "resp := &" +:+ Output m +:+ "{}";
     "err := c.xc.Call(ctx, " +:+ quoted (sName svc +:+ "." +:+ mName m) +:+ ", req, resp)";
     "return resp, err"; "}"]) ++
  [""].

(** The name of the file and its lines. *)
Definition generateFile (f : File) : string * list string :=
  (TrimSuffix (GeneratedFilenamePrefix f) ".pb" +:+ "_growrpc.pb.go",
   header (GoPackageName f) ++
   (Services f ≫= fun svc => server_interface svc ++ unimplemented svc ++ register svc ++ client svc)).

Definition plugin (files : list File) : list (string * list string) :=
  omap (fun f => if negb (Generate f) || (len (Services f) =? 0) then None else Some (generateFile f)) files.

(** ** The names in the lines *)

(** What stands between the first two quotes of a line. *)
Definition between_quotes (line : string) : option string :=
  match IndexByte line (byte 34) with
  | None => None
  | Some i =>
      let rest := string_drop (S i) line in
      match IndexByte rest (byte 34) with
      | None => None
      | Some j => Some (string_take j rest)
      end
  end.

(** The names of a .proto file are identifiers. *)
Definition plain (s : string) : Prop := no_byte (byte 34) s = true.
Record names_plain (svc : Service) : Prop := {
  service_plain : plain (sName svc);
  methods_plain : Forall (fun m => plain (mName m) /\ plain (Input m) /\ plain (Output m)) (Methods svc);
}.

Lemma plain_app s t : plain s -> plain t -> plain (s +:+ t).
Proof. unfold plain, no_byte. intros Hs Ht. by rewrite string_forallb_app, Hs, Ht. Qed.
Lemma plain_literal s : no_byte (byte 34) s = true -> plain s.
Proof. done. Qed.
Create HintDb plain.
#[local] Hint Resolve plain_app service_plain : plain.
#[local] Hint Extern 2 (plain _) => apply plain_literal; reflexivity : plain.

Lemma string_drop_after s a t : string_drop (S (String.length s)) (s +:+ String a t) = t.
Proof. induction s as [| b s IH]; [by destruct t | exact IH]. Qed.

Lemma between_quotes_found s name t :
  plain s -> plain name -> between_quotes (s +:+ quoted name +:+ t) = Some name.
Proof.
  intros Hs Hn. unfold between_quotes, quoted. rewrite string_app_cons, IndexByte_app by done.
  rewrite string_drop_after, <- string_app_assoc. change (String (byte 34) "" +:+ t) with (String (byte 34) t).
  by rewrite IndexByte_app, string_take_app.
Qed.

Lemma between_quotes_line line s name t :
  line = s +:+ quoted name +:+ t -> plain s -> plain name -> between_quotes line = Some name.
Proof. intros ->. apply between_quotes_found. Qed.

Ltac reassociate := rewrite <- ?string_app_assoc; reflexivity.

Lemma between_quotes_plain s : plain s -> between_quotes s = None.
Proof. intros Hs. unfold between_quotes. by rewrite IndexByte_no_byte. Qed.

(** The names a service's methods have on the wire. *)
Definition wire_names (svc : Service) : list string := (fun m => sName svc +:+ "." +:+ mName m) <$> Methods svc.

Section service.
Context (svc : Service).
Hypothesis Hplain : names_plain svc.

Lemma method_plain m : m ∈ Methods svc -> plain (sName svc) /\ plain (mName m) /\ plain (Input m) /\ plain (Output m).
Proof. intros Hm. destruct Hplain as [Hs Hms]. rewrite Forall_forall in Hms. auto. Qed.

(** Lines written per method, of which one carries the method's name. *)
Lemma names_of_lines (f : Method -> list string) :
  (forall m, m ∈ Methods svc -> omap between_quotes (f m) = [sName svc +:+ "." +:+ mName m]) ->
  omap between_quotes (Methods svc ≫= f) = wire_names svc.
Proof.
  unfold wire_names. intros Hf. induction (Methods svc) as [| m ms IH]; [done |].
  cbn [mbind list_bind]. rewrite omap_app, Hf by set_solver. cbn. f_equal. apply IH. set_solver.
Qed.

Lemma register_names : omap between_quotes (register svc) = wire_names svc.
Proof.
  unfold register. rewrite !omap_app. cbn [omap list_omap]. rewrite between_quotes_plain by eauto 8 with plain.
  change (between_quotes "}") with (@None string). change (between_quotes "") with (@None string).
  rewrite app_nil_r, app_nil_l.
  assert (forall g : Method -> string, g <$> Methods svc = Methods svc ≫= fun m => [g m]) as ->.
  { intros g. by induction (Methods svc) as [| m ms IH]; [| cbn; f_equal]. }
  apply names_of_lines. intros m Hm. destruct (method_plain m Hm) as (Hs & Hn & Hi & Ho).
  cbn [omap list_omap].
  rewrite (between_quotes_line _ ("GrowRPC.RegisterMethod[" +:+ Input m +:+ ", " +:+ Output m +:+ "](server, ")
             (sName svc +:+ "." +:+ mName m) (", impl." +:+ mName m +:+ ")")); [done | reassociate | eauto 12 with plain ..].
Qed.

Lemma client_names : omap between_quotes (client svc) = wire_names svc.
Proof.
  unfold client. rewrite !omap_app. cbn [omap list_omap]. rewrite !between_quotes_plain by eauto 12 with plain.
  rewrite app_nil_r, app_nil_l. apply names_of_lines. intros m Hm.
  destruct (method_plain m Hm) as (Hs & Hn & Hi & Ho). cbn [omap list_omap].
  rewrite !between_quotes_plain by eauto 16 with plain.
  rewrite (between_quotes_line _ "err := c.xc.Call(ctx, " (sName svc +:+ "." +:+ mName m) ", req, resp)");
    [done | reassociate | eauto 12 with plain ..].
Qed.
End service.

(** A client calls a service's methods under the names, and in the order, in which the
    generated registration stores them. *)
Theorem stubs_agree (svc : Service) (Hplain : names_plain svc) :
  omap between_quotes (client svc) = wire_names svc /\
  omap between_quotes (register svc) = omap between_quotes (client svc).
Proof. by rewrite register_names, client_names. Qed.

End Generator.

(** ** The services of pkg/proto *)
Module Protos.
Import Generator.

(** A method whose messages carry its name. *)
Definition named (m : string) : Method := mkMethod m (m +:+ "Args") (m +:+ "Reply").

Definition UserService : Service := mkService "UserService"
  [named "UserLogin"; named "UserRegister"; named "GetUserInfo";
   named "SearchUser"; named "UpdateUserInfo"].

Definition MsgService : Service := mkService "MsgService"
  [named "SyncUnread"; named "NotifyDelivered"; named "AckMessage";
   named "ReadMessages"; named "GetConversations"; named "GetChatHistory";
   mkMethod "MarkMessageRead" "MarkReadArgs" "MarkReadReply"].

Definition FriendService : Service := mkService "FriendService"
  [named "ApplyFriend"; named "ResolveFriend"; named "GetFriendList";
   named "DeleteFriend"; named "GetPendingRequests"].

Definition GroupService : Service := mkService "GroupService"
  [named "CreateGroup"; named "GetGroupList"; named "GetGroupInfo";
   named "GetGroupMembers"; named "JoinGroup"; named "LeaveGroup";
   named "GetGroupHistory"; named "DissolveGroup"; named "SearchGroup"].

Definition GroupService_copy : Service := mkService "GroupService"
  [named "CreateGroup"; named "GetGroupList"; named "GetGroupInfo";
   named "GetGroupMembers"; named "JoinGroup"; named "LeaveGroup";
   named "GetGroupHistory"; named "DissolveGroup"].

(** The plugin writes what is checked in. *)
Example registration_checked_in :
  register UserService =
  ["func RegisterUserServiceServer(server *GrowRPC.Server, impl UserServiceServer) {";
   "GrowRPC.RegisterMethod[UserLoginArgs, UserLoginReply](server, " +:+ quoted "UserService.UserLogin" +:+ ", impl.UserLogin)";
   "GrowRPC.RegisterMethod[UserRegisterArgs, UserRegisterReply](server, " +:+ quoted "UserService.UserRegister" +:+ ", impl.UserRegister)";
   "GrowRPC.RegisterMethod[GetUserInfoArgs, GetUserInfoReply](server, " +:+ quoted "UserService.GetUserInfo" +:+ ", impl.GetUserInfo)";
   "GrowRPC.RegisterMethod[SearchUserArgs, SearchUserReply](server, " +:+ quoted "UserService.SearchUser" +:+ ", impl.SearchUser)";
   "GrowRPC.RegisterMethod[UpdateUserInfoArgs, UpdateUserInfoReply](server, " +:+ quoted "UserService.UpdateUserInfo" +:+ ", impl.UpdateUserInfo)";
   "}";
   ""].
Proof. reflexivity. Qed.

Definition file_of (name pkg : string) (svc : Service) : File := mkFile true (name +:+ ".pb") pkg [svc].
Example names_of_files :
  fst <$> plugin [file_of "user" "pb_user" UserService; mkFile true "common.pb" "common" [];
                  file_of "msg" "pb_msg" MsgService] = ["user_growrpc.pb.go"; "msg_growrpc.pb.go"].
Proof. reflexivity. Qed.

Lemma stubs_agree_witness :
  names_plain GroupService /\ omap between_quotes (client GroupService) = wire_names GroupService /\
  omap between_quotes (register GroupService) = omap between_quotes (client GroupService).
Proof.
  assert (names_plain GroupService) as H by (split; repeat constructor).
  split; [exact H |]. exact (stubs_agree GroupService H).
Defined.

(** ** Registration and calls *)
(** What a method of a generated client passes to XClient.Call, for the calls of the
    handlers of gateway/api and for those of gateway/ws. *)
Definition user_client (c : Api.rpc) : option string :=
  match c with
  | Api.UserLogin _ _ _ => Some "UserService.UserLogin"
  | Api.UserRegister _ _ _ _ _ => Some "UserService.UserRegister"
  | Api.GetUserInfo _ => Some "UserService.GetUserInfo"
  | Api.UpdateUserInfo _ _ _ _ => Some "UserService.UpdateUserInfo"
  | Api.SearchUser _ => Some "UserService.SearchUser"
  | _ => None
  end.
Definition friend_client (c : Api.rpc) : option string :=
  match c with
  | Api.ApplyFriend _ _ _ => Some "FriendService.ApplyFriend"
  | Api.ResolveFriend _ _ _ => Some "FriendService.ResolveFriend"
  | Api.GetFriendList _ => Some "FriendService.GetFriendList"
  | Api.DeleteFriend _ _ => Some "FriendService.DeleteFriend"
  | Api.GetPendingRequests _ => Some "FriendService.GetPendingRequests"
  | _ => None
  end.
Definition msg_client (c : Api.rpc) : option string :=
  match c with
  | Api.GetConversations _ => Some "MsgService.GetConversations"
  | Api.GetChatHistory _ _ _ _ => Some "MsgService.GetChatHistory"
  | Api.MarkMessageRead _ _ _ _ => Some "MsgService.MarkMessageRead"
  | _ => None
  end.
Definition group_client (c : Api.rpc) : option string :=
  match c with
  | Api.CreateGroup _ _ _ => Some "GroupService.CreateGroup"
  | Api.GetGroupList _ => Some "GroupService.GetGroupList"
  | Api.GetGroupInfo _ => Some "GroupService.GetGroupInfo"
  | Api.GetGroupMembers _ => Some "GroupService.GetGroupMembers"
  | Api.JoinGroup _ _ => Some "GroupService.JoinGroup"
  | Api.LeaveGroup _ _ => Some "GroupService.LeaveGroup"
  | Api.DissolveGroup _ _ => Some "GroupService.DissolveGroup"
  | Api.GetGroupHistory _ _ _ _ => Some "GroupService.GetGroupHistory"
  | Api.SearchGroup _ => Some "GroupService.SearchGroup"
  | _ => None
  end.

Definition msg_client_ws (c : Ws.Gateway.ws_cmd) : option string :=
  match c with
  | Ws.Gateway.RpcSyncUnread _ _ => Some "MsgService.SyncUnread"
  | Ws.Gateway.RpcReadMessages _ _ => Some "MsgService.ReadMessages"
  | Ws.Gateway.RpcAckMessage _ _ => Some "MsgService.AckMessage"
  | Ws.Gateway.RpcNotifyDelivered _ _ => Some "MsgService.NotifyDelivered"
  | _ => None
  end.

(** The four clients of rpcclient, over one XClient. *)
Definition gateway_calls (name : string) : Prop :=
  (exists c client, client ∈ [user_client; msg_client; friend_client; group_client] /\ client c = Some name) \/
  (exists c, msg_client_ws c = Some name).

Section registration.
Context {Req Resp : Type}.
(** The methods of LogicService, and the reply a registration allocates. *)
Variable impl : string -> Handler.Ctx -> Req -> Resp -> outcome unit * Resp.
Variable zero : string -> Resp.

(** Register<Service>Server(server, impl). *)
Definition RegisterServer (svc : Service) (s : Handler.Server) : Handler.Server :=
  foldl (fun s m => Handler.RegisterMethod (sName svc +:+ "." +:+ mName m) (zero (Output m)) (impl (mName m)) s)
    s (Methods svc).

(** logic/main.go: the interceptors, then the four services. *)
Definition logic_server (is_ : list Handler.Interceptor) : Handler.Server :=
  foldl (fun s svc => RegisterServer svc s) (Handler.Use is_ Handler.NewServer)
    [UserService; MsgService; FriendService; GroupService].

(** What the stored closure does. *)
Definition answers (m : Method) (entry : Handler.MethodHandler) : Prop :=
  forall ctx req, entry ctx req = impl (mName m) ctx req (zero (Output m)).

Definition found (s : Handler.Server) (svc : Service) (m : Method) : Prop :=
  exists entry, Handler.findEntry (sName svc +:+ "." +:+ mName m) s = Ok entry /\ answers m entry.

Lemma register_keeps svc s k :
  k ∉ wire_names svc -> Handler.serviceMap (RegisterServer svc s) !! k = Handler.serviceMap s !! k.
Proof.
  unfold RegisterServer, wire_names. revert s. induction (Methods svc) as [| m ms IH]; intros s Hk; [done |].
  cbn [foldl]. cbn in Hk. rewrite not_elem_of_cons in Hk. rewrite IH by apply Hk. cbn.
  by rewrite lookup_insert_ne by naive_solver.
Qed.

Lemma found_keeps svc svc' s m :
  sName svc' +:+ "." +:+ mName m ∉ wire_names svc -> found s svc' m -> found (RegisterServer svc s) svc' m.
Proof.
  intros Hk (entry & He & Ha). exists entry. split; [| done]. revert He. unfold Handler.findEntry.
  by rewrite register_keeps.
Qed.

Lemma register_finds svc s m :
  NoDup (wire_names svc) -> m ∈ Methods svc -> found (RegisterServer svc s) svc m.
Proof.
  unfold RegisterServer, wire_names, found. revert s. induction (Methods svc) as [| m' ms IH]; intros s Hnd Hm; [set_solver |].
  cbn in Hnd. apply NoDup_cons in Hnd as [Hn Hnd]. apply elem_of_cons in Hm as [-> | Hm]; [| by apply IH].
  pose proof (register_keeps (mkService (sName svc) ms)
    (Handler.RegisterMethod (sName svc +:+ "." +:+ mName m') (zero (Output m')) (impl (mName m')) s) _ Hn) as Hk.
  cbn [foldl]. unfold RegisterServer in Hk. cbn [sName Methods] in Hk. unfold Handler.findEntry. rewrite Hk.
  cbn. rewrite lookup_insert_eq. eexists. split; [reflexivity |]. by intros ctx req.
Qed.

Definition services : list Service := [UserService; MsgService; FriendService; GroupService].

Lemma logic_server_finds is_ svc m : svc ∈ services -> m ∈ Methods svc -> found (logic_server is_) svc m.
Proof.
  intros Hs Hm. unfold logic_server. cbn [foldl].
  repeat (apply elem_of_cons in Hs as [-> | Hs]); [.. | set_solver];
    repeat first [apply register_finds; [apply (bool_decide_unpack _); vm_compute; exact I | exact Hm] | apply found_keeps].
  all: revert Hm; revert m; apply Forall_forall; apply (bool_decide_unpack _); vm_compute; exact I.
Qed.
Definition serves (svcs : list Service) (name : string) : bool := bool_decide (name ∈ svcs ≫= wire_names).

Lemma gateway_calls_served name : gateway_calls name -> serves services name = true.
Proof.
  intros [(c & client & Hin & Hc) | [c Hc]]; [| destruct c; by simplify_eq/=].
  repeat (apply elem_of_cons in Hin as [-> | Hin]); [.. | set_solver]; destruct c; by simplify_eq/=.
Qed.

(** Every RPC the gateway makes, from an HTTP handler or from the WebSocket side, is
    found by the logic server that main.go sets up, and what is found runs the method
    of LogicService of that name on a fresh reply of its type. *)
Theorem gateway_calls_answered (is_ : list Handler.Interceptor) (name : string) (Hcall : gateway_calls name) :
  exists svc m entry, svc ∈ services /\ m ∈ Methods svc /\ name = sName svc +:+ "." +:+ mName m /\
    Handler.findEntry name (logic_server is_) = Ok entry /\ answers m entry.
Proof.
  apply gateway_calls_served, bool_decide_eq_true, list_elem_of_bind in Hcall as (svc & Hname & Hsvc).
  apply list_elem_of_fmap in Hname as (m & -> & Hm).
  destruct (logic_server_finds is_ svc m Hsvc Hm) as (entry & ? & ?). exists svc, m, entry. auto.
Qed.

(** The copy under temp_group predates the search for groups: a server built from it
    would not know a call the gateway makes. *)
Lemma copy_lacks_search :
  gateway_calls "GroupService.SearchGroup" /\
  serves [UserService; MsgService; FriendService; GroupService_copy] "GroupService.SearchGroup" = false.
Proof. split; [left; exists (Api.SearchGroup ""), group_client; split; [set_solver | done] | reflexivity]. Qed.
End registration.

Lemma gateway_calls_answered_witness :
  let impl := fun (m : string) (_ : Handler.Ctx) (req resp : string) => (Ok tt, m +:+ "(" +:+ req +:+ ")") in
  let s := logic_server impl (fun _ => "") [] in
  gateway_calls "MsgService.SyncUnread" /\
  (exists svc m entry, svc ∈ services /\ m ∈ Methods svc /\ "MsgService.SyncUnread" = sName svc +:+ "." +:+ mName m /\
    Handler.findEntry "MsgService.SyncUnread" s = Ok entry /\ answers impl (fun _ => "") m entry) /\
  outcome_map (fun entry => entry None "7") (Handler.findEntry "MsgService.SyncUnread" s) = Ok (Ok tt, "SyncUnread(7)").
Proof.
  intros impl s.
  assert (gateway_calls "MsgService.SyncUnread") as H by (right; by exists (Ws.Gateway.RpcSyncUnread "" 7)).
  split; [exact H |]. split; [exact (gateway_calls_answered impl (fun _ => "") [] _ H) | vm_compute; reflexivity].
Defined.
End Protos.
