(* ===== verification/Integration.v ===== *)
(** * The integration test: pkg/proto/rpc_integration_test/main.go

    A server with the four services over replies that are fixed, and a client that calls
    it. The program is run over any network; over the connection of Rpc, a call that
    returns has passed its test. *)
From S2P Require Import Prelude GoStd Effects Codec RpcClient RpcServer Rpc Stubs.
#[local] Open Scope prog_scope.

Module Integration.
Import Generator Protos.

(** ** Messages: the fields of the .proto files *)
Inductive Args :=
| UserLoginArgs (userId : Z) (userName password : string)
| UserRegisterArgs (userId : Z) (userName password nickname avatar : string)
| GetUserInfoArgs (userId : Z)
| SearchUserArgs (keyword : string)
| UpdateUserInfoArgs (userId : Z) (nickname avatar password : string)
| SyncUnreadArgs (receiverId groupId : Z)
| NotifyDeliveredArgs (msgId : Z)
| AckMessageArgs (msgId : Z)
| ReadMessagesArgs (receiverId : Z)
| GetConversationsArgs (userId : Z)
| GetChatHistoryArgs (userId targetId cursor limit : Z)
| MarkReadArgs (userId targetId lastReadMsgId sessionType : Z)
| ApplyFriendArgs (userId friendId : Z) (applyMsg : string)
| ResolveFriendArgs (userId friendId : Z) (action : string)
| GetFriendListArgs (userId : Z)
| DeleteFriendArgs (userId friendId : Z)
| GetPendingRequestsArgs (userId : Z)
| CreateGroupArgs (userId : Z) (groupName : string) (memberIds : list Z)
| GetGroupListArgs (userId : Z)
| GetGroupInfoArgs (groupId : Z)
| GetGroupMembersArgs (groupId : Z)
| JoinGroupArgs (userId groupId : Z)
| LeaveGroupArgs (userId groupId : Z)
| GetGroupHistoryArgs (groupId userId cursor limit : Z)
| DissolveGroupArgs (userId groupId : Z)
| SearchGroupArgs (keyword : string).

Record SearchUserItem := mkUserItem { uUserId : Z; uUsername : string; uNickname : string; uAvatar : string }.
Record MessageItem := mkMessageItem {
  mMsgId : Z; mSenderId : Z; mGroupId : Z; mContent : string; mCreateTime : string; mSeqId : Z; mSendStatus : Z }.
Record ConversationItem := mkConversation { cTargetId : Z; cSessionType : Z; cUnreadCount : Z; cOwnerId : Z }.
Record FriendItem := mkFriend { fFriendId : Z; fNickname : string; fAvatar : string; fStatus : Z }.
Record PendingRequestItem := mkPending {
  pUserId : Z; pUsername : string; pNickname : string; pAvatar : string; pApplyMsg : string; pCreatedAt : string }.
Record GroupItem := mkGroup { gGroupId : Z; gGroupName : string; gOwnerId : Z }.
Record GroupMemberItem := mkMember { gmUserId : Z; gmRole : Z; gmNickname : string }.
Record GroupMsgItem := mkGroupMsg { gsMsgId : Z; gsSenderId : Z; gsContent : string; gsCreateTime : string }.

Inductive Reply :=
| UserLoginReply (userId : Z) (token : string)
| GetUserInfoReply (userId : Z) (username nickname avatar : string)
| SearchUserReply (users : list SearchUserItem)
| SyncUnreadReply (messages : list MessageItem)
| GetConversationsReply (conversations : list ConversationItem)
| GetChatHistoryReply (messages : list MessageItem) (nextCursor : Z) (hasMore : bool) (targetId : Z)
| GetFriendListReply (friends : list FriendItem)
| GetPendingRequestsReply (requests : list PendingRequestItem)
| CreateGroupReply (groupId : Z)
| GetGroupListReply (groups : list GroupItem)
| GetGroupInfoReply (groupId : Z) (groupName : string) (ownerId : Z)
| GetGroupMembersReply (members : list GroupMemberItem)
| GetGroupHistoryReply (messages : list GroupMsgItem) (nextCursor : Z) (hasMore : bool)
| SearchGroupReply (groups : list GroupItem)
| SuccessReply (success : bool).     (* the replies that have this field only *)

(** A new message of an output type. *)
Definition zero (output : string) : Reply :=
  if String.eqb output "UserLoginReply" then UserLoginReply 0 ""
  else if String.eqb output "GetUserInfoReply" then GetUserInfoReply 0 "" "" ""
  else if String.eqb output "SearchUserReply" then SearchUserReply []
  else if String.eqb output "SyncUnreadReply" then SyncUnreadReply []
  else if String.eqb output "GetConversationsReply" then GetConversationsReply []
  else if String.eqb output "GetChatHistoryReply" then GetChatHistoryReply [] 0 false 0
  else if String.eqb output "GetFriendListReply" then GetFriendListReply []
  else if String.eqb output "GetPendingRequestsReply" then GetPendingRequestsReply []
  else if String.eqb output "CreateGroupReply" then CreateGroupReply 0
  else if String.eqb output "GetGroupListReply" then GetGroupListReply []
  else if String.eqb output "GetGroupInfoReply" then GetGroupInfoReply 0 "" 0
  else if String.eqb output "GetGroupMembersReply" then GetGroupMembersReply []
  else if String.eqb output "GetGroupHistoryReply" then GetGroupHistoryReply [] 0 false
  else if String.eqb output "SearchGroupReply" then SearchGroupReply []
  else SuccessReply false.

(** The type of a request. *)
Definition args_type (q : Args) : string :=
  match q with
  | UserLoginArgs _ _ _ => "UserLoginArgs"
  | UserRegisterArgs _ _ _ _ _ => "UserRegisterArgs"
  | GetUserInfoArgs _ => "GetUserInfoArgs"
  | SearchUserArgs _ => "SearchUserArgs"
  | UpdateUserInfoArgs _ _ _ _ => "UpdateUserInfoArgs"
  | SyncUnreadArgs _ _ => "SyncUnreadArgs"
  | NotifyDeliveredArgs _ => "NotifyDeliveredArgs"
  | AckMessageArgs _ => "AckMessageArgs"
  | ReadMessagesArgs _ => "ReadMessagesArgs"
  | GetConversationsArgs _ => "GetConversationsArgs"
  | GetChatHistoryArgs _ _ _ _ => "GetChatHistoryArgs"
  | MarkReadArgs _ _ _ _ => "MarkReadArgs"
  | ApplyFriendArgs _ _ _ => "ApplyFriendArgs"
  | ResolveFriendArgs _ _ _ => "ResolveFriendArgs"
  | GetFriendListArgs _ => "GetFriendListArgs"
  | DeleteFriendArgs _ _ => "DeleteFriendArgs"
  | GetPendingRequestsArgs _ => "GetPendingRequestsArgs"
  | CreateGroupArgs _ _ _ => "CreateGroupArgs"
  | GetGroupListArgs _ => "GetGroupListArgs"
  | GetGroupInfoArgs _ => "GetGroupInfoArgs"
  | GetGroupMembersArgs _ => "GetGroupMembersArgs"
  | JoinGroupArgs _ _ => "JoinGroupArgs"
  | LeaveGroupArgs _ _ => "LeaveGroupArgs"
  | GetGroupHistoryArgs _ _ _ _ => "GetGroupHistoryArgs"
  | DissolveGroupArgs _ _ => "DissolveGroupArgs"
  | SearchGroupArgs _ => "SearchGroupArgs"
  end.

(** ** The mock service *)

(** A method gets its request and the reply to fill. *)
Definition UserLogin (userName password : string) (resp : Reply) : outcome unit * Reply :=
  if String.eqb userName "alice" && String.eqb password "secret" then (Ok tt, UserLoginReply 1 "mock-token-abc123")
  else (Err "用户不存在或密码错误", resp).
Definition UserRegister : outcome unit * Reply := (Ok tt, SuccessReply true).
Definition SyncUnread : outcome unit * Reply :=
  (Ok tt, SyncUnreadReply [mkMessageItem 1 2 0 "hello" "" 1 1; mkMessageItem 2 3 0 "world" "" 2 1]).
Definition NotifyDelivered : outcome unit * Reply := (Ok tt, SuccessReply true).
Definition AckMessage : outcome unit * Reply := (Ok tt, SuccessReply true).
Definition ReadMessages : outcome unit * Reply := (Ok tt, SuccessReply true).
Definition GetUserInfo : outcome unit * Reply := (Ok tt, GetUserInfoReply 1 "alice" "Alice" "").
Definition SearchUser (keyword : string) (users : list SearchUserItem) : outcome unit * Reply :=
  (Ok tt, SearchUserReply (users ++ [mkUserItem 1 keyword keyword ""])).
Definition GetConversations (userId : Z) (conversations : list ConversationItem) : outcome unit * Reply :=
  (Ok tt, GetConversationsReply (conversations ++ [mkConversation 2 1 3 userId])).
Definition GetChatHistory (userId targetId limit : Z) (messages : list MessageItem) (nextCursor : Z) (hasMore : bool) :
    outcome unit * Reply :=
  let messages := messages ++ [mkMessageItem 100 userId 0 "cached history" "2026-01-01 12:00:00" 0 0] in
  (Ok tt, if 1 <? limit then GetChatHistoryReply messages 99 true targetId
          else GetChatHistoryReply messages nextCursor hasMore targetId).
Definition MarkMessageRead : outcome unit * Reply := (Ok tt, SuccessReply true).
Definition ApplyFriend : outcome unit * Reply := (Ok tt, SuccessReply true).
Definition ResolveFriend : outcome unit * Reply := (Ok tt, SuccessReply true).
Definition GetFriendList (friends : list FriendItem) : outcome unit * Reply :=
  (Ok tt, GetFriendListReply (friends ++ [mkFriend 2 "Bob" "" 1])).
Definition DeleteFriend : outcome unit * Reply := (Ok tt, SuccessReply true).
Definition UpdateUserInfo : outcome unit * Reply := (Ok tt, SuccessReply true).
Definition GetPendingRequests (requests : list PendingRequestItem) : outcome unit * Reply :=
  (Ok tt, GetPendingRequestsReply (requests ++ [mkPending 3 "charlie" "Charlie" "" "hello" ""])).
Definition CreateGroup : outcome unit * Reply := (Ok tt, CreateGroupReply 100).
Definition GetGroupList (groups : list GroupItem) : outcome unit * Reply :=
  (Ok tt, GetGroupListReply (groups ++ [mkGroup 100 "TestGroup" 1])).
Definition GetGroupInfo (groupId : Z) : outcome unit * Reply := (Ok tt, GetGroupInfoReply groupId "TestGroup" 1).
Definition GetGroupMembers (members : list GroupMemberItem) : outcome unit * Reply :=
  (Ok tt, GetGroupMembersReply (members ++ [mkMember 1 0 "Alice"; mkMember 2 0 "Bob"])).
Definition JoinGroup : outcome unit * Reply := (Ok tt, SuccessReply true).
Definition LeaveGroup : outcome unit * Reply := (Ok tt, SuccessReply true).
Definition GetGroupHistory (limit : Z) (messages : list GroupMsgItem) (nextCursor : Z) (hasMore : bool) : outcome unit * Reply :=
  let messages := messages ++ [mkGroupMsg 200 1 "group msg" "2026-01-01 12:00:00"] in
  (Ok tt, if 1 <? limit then GetGroupHistoryReply messages 199 true else GetGroupHistoryReply messages nextCursor hasMore).
Definition DissolveGroup : outcome unit * Reply := (Ok tt, SuccessReply true).
Definition SearchGroup (keyword : string) (groups : list GroupItem) : outcome unit * Reply :=
  (Ok tt, SearchGroupReply (groups ++ [mkGroup 200 ("SearchResult" +:+ keyword) 1])).

(** The methods by the type of their request; the compiler rules the rest out. *)
Definition mockLogicService (_ : string) (_ : Handler.Ctx) (req : Args) (resp : Reply) : outcome unit * Reply :=
  match req, resp with
  | UserLoginArgs _ u p, UserLoginReply _ _ => UserLogin u p resp
  | UserRegisterArgs _ _ _ _ _, SuccessReply _ => UserRegister
  | GetUserInfoArgs _, GetUserInfoReply _ _ _ _ => GetUserInfo
  | SearchUserArgs k, SearchUserReply l => SearchUser k l
  | UpdateUserInfoArgs _ _ _ _, SuccessReply _ => UpdateUserInfo
  | SyncUnreadArgs _ _, SyncUnreadReply _ => SyncUnread
  | NotifyDeliveredArgs _, SuccessReply _ => NotifyDelivered
  | AckMessageArgs _, SuccessReply _ => AckMessage
  | ReadMessagesArgs _, SuccessReply _ => ReadMessages
  | GetConversationsArgs u, GetConversationsReply l => GetConversations u l
  | GetChatHistoryArgs u t _ n, GetChatHistoryReply l c m _ => GetChatHistory u t n l c m
  | MarkReadArgs _ _ _ _, SuccessReply _ => MarkMessageRead
  | ApplyFriendArgs _ _ _, SuccessReply _ => ApplyFriend
  | ResolveFriendArgs _ _ _, SuccessReply _ => ResolveFriend
  | GetFriendListArgs _, GetFriendListReply l => GetFriendList l
  | DeleteFriendArgs _ _, SuccessReply _ => DeleteFriend
  | GetPendingRequestsArgs _, GetPendingRequestsReply l => GetPendingRequests l
  | CreateGroupArgs _ _ _, CreateGroupReply _ => CreateGroup
  | GetGroupListArgs _, GetGroupListReply l => GetGroupList l
  | GetGroupInfoArgs g, GetGroupInfoReply _ _ _ => GetGroupInfo g
  | GetGroupMembersArgs _, GetGroupMembersReply l => GetGroupMembers l
  | JoinGroupArgs _ _, SuccessReply _ => JoinGroup
  | LeaveGroupArgs _ _, SuccessReply _ => LeaveGroup
  | GetGroupHistoryArgs _ _ _ n, GetGroupHistoryReply l c m => GetGroupHistory n l c m
  | DissolveGroupArgs _ _, SuccessReply _ => DissolveGroup
  | SearchGroupArgs k, SearchGroupReply l => SearchGroup k l
  | _, _ => (Panic "interface conversion", resp)
  end.

Definition mock_server : Handler.Server := logic_server mockLogicService zero [].

(** ** The tests *)
Record testcase := mkTest { tName : string; tArgs : Args; tCheck : Reply -> outcome unit }.

Section tests.
(** %+v of a reply. *)
Variable Sprint : Reply -> string.
Definition unexpected (reply : Reply) : string := "unexpected reply: " +:+ Sprint reply.

Definition user_tests : list testcase := [
  mkTest "UserService.UserLogin" (UserLoginArgs 0 "alice" "secret")
    (fun reply => match reply with
      | UserLoginReply u t => if (u =? 1) && String.eqb t "mock-token-abc123" then Ok tt else Err (unexpected reply)
      | _ => Err (unexpected reply) end);
  mkTest "UserService.UserRegister" (UserRegisterArgs 0 "bob" "pwd" "" "")
    (fun reply => match reply with SuccessReply true => Ok tt | _ => Err "expected success=true" end);
  mkTest "UserService.GetUserInfo" (GetUserInfoArgs 1)
    (fun reply => match reply with
      | GetUserInfoReply u n _ _ => if (u =? 1) && String.eqb n "alice" then Ok tt else Err (unexpected reply)
      | _ => Err (unexpected reply) end);
  mkTest "UserService.SearchUser" (SearchUserArgs "test")
    (fun reply => match reply with SearchUserReply (_ :: _) => Ok tt | _ => Err "expected at least one user" end)].
Definition msg_tests : list testcase := [
  mkTest "MsgService.SyncUnread" (SyncUnreadArgs 1 0)
    (fun reply => match reply with
      | SyncUnreadReply l => if len l =? 2 then Ok tt else Err ("expected 2 messages, got " +:+ Itoa (len l))
      | _ => Err (unexpected reply) end);
  mkTest "MsgService.NotifyDelivered" (NotifyDeliveredArgs 100)
    (fun reply => match reply with SuccessReply true => Ok tt | _ => Err "expected success=true" end);
  mkTest "MsgService.AckMessage" (AckMessageArgs 100)
    (fun reply => match reply with SuccessReply true => Ok tt | _ => Err "expected success=true" end);
  mkTest "MsgService.ReadMessages" (ReadMessagesArgs 1)
    (fun reply => match reply with SuccessReply true => Ok tt | _ => Err "expected success=true" end);
  mkTest "MsgService.GetConversations" (GetConversationsArgs 1)
    (fun reply => match reply with GetConversationsReply (_ :: _) => Ok tt | _ => Err "expected at least one conversation" end);
  mkTest "MsgService.GetChatHistory" (GetChatHistoryArgs 1 2 0 20)
    (fun reply => match reply with
      | GetChatHistoryReply _ _ _ t => if t =? 2 then Ok tt else Err ("expected target_id=2, got " +:+ Itoa t)
      | _ => Err (unexpected reply) end);
  mkTest "MsgService.MarkMessageRead" (MarkReadArgs 1 2 0 0)
    (fun reply => match reply with SuccessReply true => Ok tt | _ => Err "expected success=true" end)].
Definition friend_tests : list testcase := [
  mkTest "FriendService.ApplyFriend" (ApplyFriendArgs 1 2 "hello")
    (fun reply => match reply with SuccessReply true => Ok tt | _ => Err "expected success=true" end);
  mkTest "FriendService.ResolveFriend" (ResolveFriendArgs 1 2 "accept")
    (fun reply => match reply with SuccessReply true => Ok tt | _ => Err "expected success=true" end);
  mkTest "FriendService.GetFriendList" (GetFriendListArgs 1)
    (fun reply => match reply with GetFriendListReply (_ :: _) => Ok tt | _ => Err "expected at least one friend" end);
  mkTest "FriendService.DeleteFriend" (DeleteFriendArgs 1 2)
    (fun reply => match reply with SuccessReply true => Ok tt | _ => Err "expected success=true" end)].
Definition group_tests : list testcase := [
  mkTest "GroupService.CreateGroup" (CreateGroupArgs 1 "test" [2])
    (fun reply => match reply with
      | CreateGroupReply g => if g =? 0 then Err "expected non-zero group_id" else Ok tt
      | _ => Err (unexpected reply) end);
  mkTest "GroupService.GetGroupList" (GetGroupListArgs 1)
    (fun reply => match reply with GetGroupListReply (_ :: _) => Ok tt | _ => Err "expected at least one group" end);
  mkTest "GroupService.GetGroupInfo" (GetGroupInfoArgs 100)
    (fun reply => match reply with
      | GetGroupInfoReply g _ _ => if g =? 100 then Ok tt else Err ("expected group_id=100, got " +:+ Itoa g)
      | _ => Err (unexpected reply) end);
  mkTest "GroupService.GetGroupMembers" (GetGroupMembersArgs 100)
    (fun reply => match reply with
      | GetGroupMembersReply l => if len l =? 2 then Ok tt else Err ("expected 2 members, got " +:+ Itoa (len l))
      | _ => Err (unexpected reply) end);
  mkTest "GroupService.JoinGroup" (JoinGroupArgs 3 100)
    (fun reply => match reply with SuccessReply true => Ok tt | _ => Err "expected success=true" end);
  mkTest "GroupService.LeaveGroup" (LeaveGroupArgs 3 100)
    (fun reply => match reply with SuccessReply true => Ok tt | _ => Err "expected success=true" end);
  mkTest "GroupService.GetGroupHistory" (GetGroupHistoryArgs 100 0 0 20)
    (fun reply => match reply with GetGroupHistoryReply (_ :: _) _ _ => Ok tt | _ => Err "expected at least one message" end)].
Definition tests : list testcase := user_tests ++ msg_tests ++ friend_tests ++ group_tests.

(** ** main *)
Inductive main_cmd :=
| Listen (network address : string)
| GoAccept
| Sleep (d : Z)
| DialTo (network address : string) (opt : Option)
| CallRpc (serviceMethod : string) (args : Args)      (* with a new reply and no deadline *)
| CloseClient
| Print (line : string).
Definition main_res (c : main_cmd) : Type :=
  match c with
  | Listen _ _ => outcome string
  | DialTo _ _ _ => outcome unit
  | CallRpc _ _ => outcome Reply
  | _ => unit
  end.
Definition testing : Sig := mkSig main_cmd main_res.
Definition do (c : main_cmd) : prog testing (main_res c) := call (S := testing) c.

Definition opt : Option := mkOption MagicNumber (type_name ProtobufType) (2 * 10 ^ 9) 0.

Definition check (t : testcase) : prog testing (outcome unit) :=
  r <- do (CallRpc (tName t) (tArgs t)) ;;
  Ret (outcome_bind r (tCheck t)).

Definition newline : string := String (Ascii.ascii_of_nat 10) "".
Fixpoint run_tests (ts : list testcase) (allOk : bool) : prog testing bool :=
  match ts with
  | [] => Ret allOk
  | t :: ts =>
      do (Print ("[TEST] " +:+ tName t +:+ " ... ")) ;;
      r <- check t ;;
      match r with
      | Ok _ => do (Print ("PASS" +:+ newline)) ;; run_tests ts allOk
      | Err e | Panic e => do (Print ("FAIL: " +:+ e +:+ newline)) ;; run_tests ts false
      end
  end.

Definition verdict (allOk : bool) : string :=
  if allOk then newline +:+ "=== All 22 RPC tests PASSED ===" +:+ newline
  else newline +:+ "=== Some tests FAILED ===" +:+ newline.

Definition main : prog testing (outcome unit) :=
  l <- do (Listen "tcp" "127.0.0.1:0") ;;
  match l with
  | Ok addr =>
      do GoAccept ;;
      do (Sleep (100 * 10 ^ 6)) ;;
      client <- do (DialTo "tcp" addr opt) ;;
      match client with
      | Ok _ =>
          allOk <- run_tests tests true ;;
          do (Print (verdict allOk)) ;;
          do CloseClient ;;
          Ret (Ok tt)
      | Err e | Panic e => Ret (Panic ("dial: " +:+ e))
      end
  | Err e | Panic e => Ret (Panic ("listen: " +:+ e))
  end.

(** ** What a verdict says *)
Definition answers (tr : list (event testing)) : list (string * outcome Reply) :=
  view (fun e : event testing => match e return list (string * outcome Reply) with existT (CallRpc m _) r => [(m, r)] | _ => [] end) tr.
Definition printed (tr : list (event testing)) : list string :=
  view (fun e : event testing => match e with existT (Print line) _ => [line] | _ => [] end) tr.
Definition passed (t : testcase) (a : string * outcome Reply) : bool :=
  match outcome_bind a.2 (tCheck t) with Ok _ => true | _ => false end.
Fixpoint all_passed (ts : list testcase) (l : list (string * outcome Reply)) : bool :=
  match ts, l with t :: ts, a :: l => passed t a && all_passed ts l | _, _ => true end.

(** The events of one test. *)
Definition tested (t : testcase) (r : outcome Reply) (line : string) : list (event testing) :=
  [@ev testing (Print ("[TEST] " +:+ tName t +:+ " ... ")) tt; @ev testing (CallRpc (tName t) (tArgs t)) r; @ev testing (Print line) tt].
Lemma answers_tested t r line tr : answers (tested t r line ++ tr) = (tName t, r) :: answers tr.
Proof. done. Qed.
Lemma printed_tested t r line tr : length (printed (tested t r line ++ tr)) = S (S (length (printed tr))).
Proof. done. Qed.

Lemma run_tests_spec {W} (h : env testing W) ts b :
  always h (run_tests ts b) (fun ok tr =>
    (answers tr).*1 = tName <$> ts /\ ok = b && all_passed ts (answers tr) /\ length (printed tr) = (2 * length ts)%nat).
Proof.
  revert b. induction ts as [| t ts IH]; intros b; cbn [run_tests]; [apply always_Ret; by rewrite andb_true_r |].
  unfold check, do, call. cbn [bind]. apply always_Do. intros []. apply always_Do. intros r. cbn [bind].
  set (Q := fun (ok : bool) tr => (answers tr).*1 = tName <$> t :: ts /\ ok = b && all_passed (t :: ts) (answers tr) /\
    length (printed tr) = (2 * length (t :: ts))%nat).
  assert (forall b' line, (forall l, b' && all_passed ts l = b && (passed t (tName t, r) && all_passed ts l)) ->
    always h (run_tests ts b') (fun ok tr => Q ok (tested t r line ++ tr))) as H.
  { intros b' line Hb. eapply always_impl; [apply IH |]. cbn beta. intros ok tr (H1 & -> & H3).
    unfold Q. rewrite answers_tested, printed_tested, H3, Hb. cbn [all_passed fmap list_fmap length]. rewrite <- H1.
    split_and!; [done | done | lia]. }
  destruct (outcome_bind r (tCheck t)) as [[] | e | e] eqn:E; apply always_Do; intros []; cbn [bind];
    apply H; intros l; unfold passed; cbn [snd]; rewrite E; by destruct b.
Qed.

(** The program ends without a panic when it can listen and dial; then it has made the
    calls of all tests, in order, and its verdict is that no call failed and no reply
    was unexpected. *)
Lemma main_spec {W} (h : env testing W) :
  always h main (fun r tr => forall u, r = Ok u ->
    (answers tr).*1 = tName <$> tests /\
    printed tr !! (2 * length tests)%nat = Some (verdict (all_passed tests (answers tr)))).
Proof.
  unfold main, do, call. cbn [bind]. apply always_Do. intros [addr | e | e]; cbn [bind]; [| by apply always_Ret ..].
  apply always_Do. intros []. apply always_Do. intros []. apply always_Do. intros [[] | e | e]; cbn [bind]; [| by apply always_Ret ..].
  eapply always_bind; [apply run_tests_spec |]. cbn beta. intros ok tr (H1 & -> & H3).
  cbn [bind]. apply always_Do. intros []. apply always_Do. intros []. apply always_Ret. intros u _.
  set (l := tr ++ _). change (answers (_ :: _ :: _ :: _ :: l)) with (answers l). change (printed (_ :: _ :: _ :: _ :: l)) with (printed l).
  assert (answers l = answers tr) as -> by (unfold l, answers; rewrite view_app; apply app_nil_r).
  split; [exact H1 |]. unfold l, printed. rewrite view_app. fold (printed tr). rewrite lookup_app_r, H3 by lia.
  by rewrite Nat.sub_diag.
Qed.

(** ** Over a connection *)

(** A request is read as the type of the method; a missing body as a new reply. *)
Definition method_named (m : string) : option Method :=
  snd <$> list_find (fun x => x.1 = m) (services ≫= fun svc => (fun mt => (sName svc +:+ "." +:+ mName mt, mt)) <$> Methods svc) ≫=
    fun x => Some (x.1, x.2.2).
Definition DecodeReq (m : string) (q : Args) : outcome Args :=
  match method_named m with
  | Some mt => if String.eqb (args_type q) (Input mt) then Ok q else Err "proto: cannot parse invalid wire-format data"
  | None => Err "unknown method"
  end.
Definition DecodeReply (m : string) (b : Handle.RBody (Resp := Reply)) : outcome (option Reply) :=
  match b with
  | Handle.RespBody (Some v) => Ok (Some v)
  | _ => Ok (Some (match method_named m with Some mt => zero (Output mt) | None => zero "" end))
  end.

Definition handled_well (t : testcase) : Prop :=
  DecodeReq (tName t) (tArgs t) = Ok (tArgs t) /\
  exists entry reply, Handler.findEntry (tName t) mock_server = Ok entry /\ tCheck t reply = Ok tt /\
    forall ctx, entry ctx (tArgs t) = (Ok tt, reply).
Lemma tests_handled_well t : t ∈ tests -> handled_well t.
Proof.
  revert t. apply Forall_forall. unfold tests, user_tests, msg_tests, friend_tests, group_tests. cbn [app].
  repeat (apply Forall_cons; split); [.. | apply Forall_nil; exact I];
    (split; [vm_compute; reflexivity | do 2 eexists; split; [vm_compute; reflexivity |]; split; [| intros ctx; reflexivity]]);
    reflexivity.
Qed.

Lemma mock_returns t h : t ∈ tests -> ServiceMethod h = tName t ->
  exists reply, tCheck t reply = Ok tt /\
    forall r, EndToEnd.returns mock_server h (tArgs t) r <-> r = Ok (Some reply).
Proof.
  intros Ht Hh. destruct (tests_handled_well t Ht) as (_ & entry & reply & He & Hc & Hr). exists reply. split; [exact Hc |].
  intros r. unfold EndToEnd.returns. rewrite Hh, He.
  assert (forall req, Handler.serve_one mock_server entry h req =
    Handler.base_handler entry (Handler.mkCallInfo (Handler.request_ctx h) (ServiceMethod h) h req) (Handler.mkLocal None [])) as Hs by done.
  split.
  - intros (entry' & [= <-] & ->). rewrite Hs. unfold Handler.base_handler. cbn. by rewrite Hr.
  - intros ->. exists entry. split; [done |]. rewrite Hs. unfold Handler.base_handler. cbn. by rewrite Hr.
Qed.

Notation conn_reachable := (EndToEnd.reachable mock_server 0 DecodeReq DecodeReply (EndToEnd.returns mock_server)).

(** A test passes when its call returns, and it can return: however the client and the
    server are interleaved and whatever is lost, a Call of a test that returns nil has a
    reply that the test accepts. *)
Theorem tests_pass_when_answered t :
  t ∈ tests ->
  (forall s a x, conn_reachable s -> Client.heap (EndToEnd.client s) !! a = Some x ->
     EndToEnd.args s !! a = Some (tArgs t) -> Client.ServiceMethod x = tName t ->
     Client.callers (EndToEnd.client s) !! a = Some (Client.Returned (Ok tt)) ->
     exists reply, Client.Reply x = Some reply /\ tCheck t reply = Ok tt) /\
  exists s reply, conn_reachable s /\ EndToEnd.returned s (tName t) None (Some reply) /\
    EndToEnd.args s !! 0%nat = Some (tArgs t).
Proof.
  intros Ht. destruct (tests_handled_well t Ht) as (Hdec & entry & _ & He & _). split.
  - intros s a x Hr%EndToEnd.rpc_reachable_Inv Hx Hq Hm Hk.
    destruct (EndToEnd.returned_settled _ _ _ _ s a x (tArgs t) Hr Hx Hq Hk) as (req & r & b & _ & Hd & Hran & Ha & Hv).
    rewrite Hm, Hdec in Hd. injection Hd as <-.
    destruct (mock_returns t (Client.request_header x (Client.Seq x)) Ht Hm) as (reply & Hc & Hall). apply Hall in Hran as ->.
    exists reply. split; [| exact Hc]. destruct Ha as [(v & [= <-] & ->) | [? _]]; [| done]. by injection Hv as ->.
  - destruct (mock_returns t (mkHeader (tName t) 1 "" (Client.call_metadata None)) Ht eq_refl) as (reply & _ & Hall).
    destruct (EndToEnd.call_can_return mock_server 0 DecodeReq DecodeReply (EndToEnd.returns mock_server) (tName t) entry None
      (tArgs t) (tArgs t) (Ok (Some reply)) (Handle.RespBody (Some reply)) (Some reply)) as (s & H1 & H2 & H3);
      [exact He | exact Hdec | apply Hall; reflexivity | left; eexists; split; reflexivity | reflexivity |].
    exists s, reply. split; [exact H1 |]. split; [exact H2 | exact H3].
Qed.

(** Four methods of the services have no test. *)
Lemma untested :
  filter (fun m => m ∉ tName <$> tests) (services ≫= wire_names) =
  ["UserService.UpdateUserInfo"; "FriendService.GetPendingRequests"; "GroupService.DissolveGroup"; "GroupService.SearchGroup"].
Proof. vm_compute. reflexivity. Qed.
End tests.
End Integration.

(** ** The demo: GrowRPC/main/main.go *)
Module Demo.

Record MathArgs := mkArgs { A : Z; B : Z }.
Definition MathReply : Type := Z.

Definition Add (_ : Handler.Ctx) (args : MathArgs) (_ : MathReply) : outcome unit * MathReply :=
  (Ok tt, int64 (A args + B args)).
Definition Divide (_ : Handler.Ctx) (args : MathArgs) (reply : MathReply) : outcome unit * MathReply :=
  if B args =? 0 then (Panic "divide by zero error triggered intentionally!", reply)
  else (Ok tt, int64 (Z.quot (A args) (B args))).

Definition DefaultServer : Handler.Server :=
  Handler.RegisterMethod "MathService.Divide" 0 Divide
    (Handler.RegisterMethod "MathService.Add" 0 Add
      (Handler.Use [Handler.LoggerInterceptor; Handler.RecoveryInterceptor] Handler.NewServer)).

(** Both goroutines; [addr] is the unbuffered channel between them. *)
Inductive demo_cmd :=
| Listen (network address : string)
| SendAddr (addr : string)
| Accept
| GoStartServer
| RecvAddr
| DialTo (network address : string) (opt : Option)
| Sleep (d : Z)
| CallRpc (serviceMethod : string) (args : MathArgs)
| Println (line : string)
| CloseClient
| Fatal (line : string).
Definition demo_res (c : demo_cmd) : Type :=
  match c with
  | Listen _ _ => outcome string
  | RecvAddr => string
  | DialTo _ _ _ => outcome unit
  | CallRpc _ _ => outcome MathReply
  | _ => unit
  end.
Definition demo : Sig := mkSig demo_cmd demo_res.
Definition do (c : demo_cmd) : prog demo (demo_res c) := call (S := demo) c.

Definition startServer : prog demo unit :=
  l <- do (Listen "tcp" ":0") ;;
  match l with
  | Ok addr => do (Println ("RPC 服务端启动成功，地址:" +:+ addr)) ;; do (SendAddr addr) ;; do Accept
  | Err e | Panic e => do (Fatal ("network error:" +:+ e))
  end.

Definition second : Z := 10 ^ 9.
Definition main : prog demo unit :=
  do GoStartServer ;;
  serverAddr <- do RecvAddr ;;
  client <- do (DialTo "tcp" serverAddr DefaultOption) ;;
  match client with
  | Ok _ =>
      do (Sleep second) ;;
      do (Println "--- 测试案例 1：正常的 RPC 调用 ---") ;;
      let args := mkArgs 10 20 in
      r <- do (CallRpc "MathService.Add" args) ;;
      do (Println (match r with
                   | Ok reply => "客户端收到结果: " +:+ Itoa (A args) +:+ " + " +:+ Itoa (B args) +:+ " = " +:+ Itoa reply
                   | Err e | Panic e => "客户端收到错误: " +:+ e end)) ;;
      do (Sleep second) ;;
      do (Println "--- 测试案例 2：故意触发 Panic 的 RPC 调用 ---") ;;
      r <- do (CallRpc "MathService.Divide" (mkArgs 10 0)) ;;
      do (Println (match r with
                   | Ok reply => "客户端收到结果 (不应该走到这里): " +:+ Itoa reply
                   | Err e | Panic e => "客户端成功收到服务端兜底错误: " +:+ e end)) ;;
      do (Sleep second) ;;
      do (Println "测试完成！服务端没有因为 Panic 退出，中间件工作正常！") ;;
      do CloseClient
  | Err e | Panic e => do (Fatal ("dial error:" +:+ e))
  end.

(** What gob reads into a new reply: an empty struct leaves it as it is. *)
Definition DecodeReply (_ : string) (b : Handle.RBody (Resp := MathReply)) : outcome (option MathReply) :=
  match b with Handle.RespBody v => Ok v | Handle.InvalidRequest => Ok (Some 0) end.
Notation demo_reachable := (EndToEnd.reachable DefaultServer 0 (fun _ q => Ok q) DecodeReply (EndToEnd.returns DefaultServer)).

Lemma divide_returns h args r :
  ServiceMethod h = "MathService.Divide" -> EndToEnd.returns DefaultServer h args r ->
  r = if B args =? 0 then Err "internal panic: divide by zero error triggered intentionally!"
      else Ok (Some (int64 (Z.quot (A args) (B args)))).
Proof.
  intros Hh (entry & He & ->). rewrite Hh in He.
  unfold Handler.findEntry, DefaultServer, Handler.RegisterMethod in He. cbn [Handler.serviceMap] in He.
  rewrite lookup_insert_eq in He. injection He as <-.
  unfold Handler.serve_one, Handler.chain. cbn. unfold Handler.LoggerInterceptor, Handler.RecoveryInterceptor, Handler.base_handler. cbn.
  unfold Divide. by destruct (B args =? 0).
Qed.

(** The panic of a handler reaches the client as an error, never as a result and never
    as the end of the server: a Call of Divide that returns nil had a divisor, and its
    reply is the quotient. *)
Lemma divide_by_zero_is_an_error s a x args :
  demo_reachable s -> Client.heap (EndToEnd.client s) !! a = Some x -> EndToEnd.args s !! a = Some args ->
  Client.ServiceMethod x = "MathService.Divide" ->
  Client.callers (EndToEnd.client s) !! a = Some (Client.Returned (Ok tt)) ->
  B args <> 0 /\ Client.Reply x = Some (int64 (Z.quot (A args) (B args))).
Proof.
  intros Hr%EndToEnd.rpc_reachable_Inv Hx Hq Hm Hk.
  destruct (EndToEnd.returned_settled _ _ _ _ s a x args Hr Hx Hq Hk) as (req & r & b & _ & [= <-] & Hran & Ha & Hv).
  apply divide_returns in Hran; [| exact Hm]. destruct (Z.eqb_spec (B args) 0) as [E | E]; subst r.
  - by destruct Ha as [(? & ? & _) | [? _]].
  - split; [exact E |]. destruct Ha as [(v & [= <-] & ->) | [? _]]; [| done]. cbn in Hv. congruence.
Qed.

Lemma add_returns : exists s, demo_reachable s /\ EndToEnd.returned s "MathService.Add" None (Some 30) /\
  EndToEnd.args s !! 0%nat = Some (mkArgs 10 20).
Proof.
  eapply (EndToEnd.call_can_return _ _ _ _ _ _ _ _ _ _ (Ok (Some 30)) (Handle.RespBody (Some 30)));
    [reflexivity | reflexivity | | by left; eexists | reflexivity].
  eexists. split; reflexivity.
Qed.
End Demo.
